(* ===== verification/_CoqProject ===== *)
-Q . S2P
Prelude.v
GoStd.v
ShardCfg.v
Labrpc.v
KvModel.v
Persister.v
ServerGroup.v
Clnts.v
Effect.v
GroupLife.v
World.v
Repartition.v
KvTest.v
RaftCheck.v
RaftAgree.v
MapReduce.v
Timing.v
Labgob.v
Annotation.v
Rsm.v
Clients.v
Concurrent.v
Linear.v
Porcupine.v
Networked.v
Guarantee.v
Races.v
Peer.v
Skeleton.v
Setup.v
ShardKv.v
Scripts.v
Recovery.v
Sharding.v
Coordinator.v
Programs.v
Commands.v
NetRaces.v
EndToEnd.v
