(* ===== verification/Prelude.v ===== *)
(** * Verification of the MIT 6.5840 distributed-systems labs

    The repository holds the labs of a course: MapReduce, Raft and key/value
    services built on it, of which the algorithms themselves are left to the
    students.  What the repository contains in full, and what this development
    models, is everything around them: the simulated network, the stable
    storage, the tester that starts, crashes and partitions servers, the
    checkers that decide whether a test passes, the shard configurations, and
    the sequential MapReduce with its applications.  What the students start
    from is modelled too, as it stands.  Paths below are relative to [src/src/].

    ** The parts and how they interact

    A test makes a [Config] (Clnts.v), which owns a simulated [Network]
    (Labrpc.v), groups of servers (ServerGroup.v) and clerks (Clnts.v).  A server
    of a group has a [Persister] (Persister.v), ends on the network to the other
    servers of its group, and the services that a student's function returns.
    Starting, stopping, connecting and partitioning servers are sequences of
    operations on the network: making, enabling, connecting and deleting ends,
    adding and deleting servers.  The calls of the servers and clerks run on the
    network concurrently with these.  The tester for Raft (RaftCheck.v) reads
    what every server applies and stops the test when two servers disagree; the
    one for key/value services (KvTest.v) drives clerks and keeps a log that the
    linearizability checker compares with a sequential model (KvModel.v).  The
    sharded service moves shards between groups along configurations
    (ShardCfg.v).  What the tests do is drawn as annotations (Annotation.v), and
    what crosses the network is checked by a wrapper of the encoder (Labgob.v).

    ** The files

    - Prelude.v (this file): outcomes of Go calls, the monad [M] of stateful code
      with its total-correctness logic [wp] and tactics, machine integers,
      indexing, counting and sums.
    - GoStd.v: the Go standard library that the labs call: the FNV hash, sorting,
      [Itoa], [ParseInt], [Atoi] and [ParseBool], [Sscanf] of an integer,
      [LastIndex], [Join], base64, runes and [FieldsFunc].
    - ShardCfg.v, [shardkv1/shardcfg/shardcfg.go]: [ShardConfig] as a list of 12
      group identifiers and a [gmap] of groups; one definition per function, with
      the iteration order of a Go map as an argument where a function ranges over
      the argument map.
    - Labrpc.v, [labrpc/labrpc.go]: the administrative state of a [Network] and
      its operations; section [rpc] has the reflective dispatch of a [Server] and
      [processReq] as a labelled transition system [step] in which the goroutines
      of any number of calls interleave with each other and with every operation
      of the tester.  A handler returns in one step, panics, or never returns.  Values that cross the network and their encoding are the
      class [GoValues], with the law [GobLaws] where a round trip is needed.
    - KvModel.v, [kvsrv1/rpc/rpc.go] and [models1/kv.go]: the errors and
      arguments of the service, the model and the partitioning of histories that
      the checker uses, and the service that the comments of [kvsrv1/server.go]
      document.
    - Persister.v, [tester1/persister.go]: byte slices are references to arrays
      on a heap; the program around the persisters may overwrite every slice it
      passed to or got from them.
    - ServerGroup.v, [tester1/group.go] and [tester1/srv.go]: groups, servers and
      their ends, over Labrpc.v and Persister.v.
    - Clnts.v, [tester1/clnts.go] and [tester1/config.go]: clerks with their
      lazily made ends, the table of clerks and (section [config]) the test
      configuration.
    - Effect.v: what an operation of one group or clerk leaves alone of the state
      that all share.
    - GroupLife.v: the invariant [group_ok] of a group on the shared network, that
      every operation of ServerGroup.v keeps it, [MakeGroupStart] of
      [tester1/config.go], and the calls between the servers of a group, which
      join ServerGroup.v to the network of Labrpc.v.
    - World.v: a whole test on one network: the invariant [config_ok] of any number
      of groups and clerks, every call of a test on its configuration, and the
      calls of clerks.
    - Repartition.v: [Partitioner] of [kvtest1/kvtest.go].
    - KvTest.v, [kvtest1/kvtest.go] and [kvtest1/porcupine.go]: the logged puts
      and gets, retry loops and checks, against the class [IKVClerk] that a
      student's clerk implements; the class [SoleWriter] states what such a clerk
      promises for a key that one clerk writes, and is proved for the documented
      service behind a network that loses replies.
    - Clients.v: the clients of KvTest.v as trees of calls, polls of the channel
      [done] and random draws.  Concurrent.v, a specification: the same clients over
      a lossy channel to the service that is documented, as a step function [step]
      over schedules.  Linear.v: the history that the clients log, and
      its linearization.  Porcupine.v: [checkPorcupine] over a checker that is a
      parameter.  Guarantee.v: a logic for one client among others.  Races.v: the
      tests with many clients.
    - Networked.v, [kvsrv1/rpc/rpc.go] and [SpawnClientsAndWait] of
      [kvtest1/kvtest.go]: the messages, and the clients of Clients.v whose clerks
      call through the network ([nstep]): steps of clients, of the goroutines of
      every request and of the tester interleave.  The handlers and what a clerk does
      after an RPC, whose bodies are not in the repository, are the parameters
      [KVServer] and [KVClerk]; the comments of [kvsrv1/server.go] and
      [kvsrv1/client.go] are the hypotheses [KVServerDoc] and [KVClerkDoc].  [abs] maps its states to those of
      Concurrent.v; what the network will decide of a request whose handler ran is
      foretold by [fate].  NetRaces.v: the tests of Races.v over the network.
      EndToEnd.v: the clients on a configuration of World.v, from [MakeConfig] to
      [checkPorcupine].
    - RaftCheck.v, [raft1/server.go], [raft1/test.go] and [raftapi/raftapi.go]:
      the copies of the committed logs, the readers of the apply channel one
      message at a time, snapshots, and the checks on leaders, terms, commitment
      and agreement, for any implementation of the class [Raft].  RaftAgree.v:
      the loops of [one] and [wait].
    - Peer.v and Skeleton.v, [raft1/raft.go], [kvraft1], [kvsrv1], [shardkv1]:
      the peer, servers, clerks and controller as the repository has them, with
      constants where students write; instances of the classes above.
    - Setup.v, [kvraft1/test.go], [kvsrv1/test.go], [raft1/test.go],
      [kvraft1/rsm/test.go], [kvtest1/kvtest.go]: how the tests make their
      configuration and their clerks and clean up, as operations of World.v on the
      servers of Peer.v.
    - ShardKv.v, [shardkv1/test.go]: how tests add and remove groups, as programs
      over the calls of the class [ShardCtrl], and these programs run [alone].
      Scripts.v: the same programs in goroutines whose calls interleave
      ([concurCtrler]), with a rely-guarantee logic for them.  Recovery.v:
      [partitionCtrler], the test and its goroutine as two interleaved machines.  In
      both, that [InitController] recovers the change of another controller is a step
      of its own.
      Sharding.v: [checkShutdownSharding] as a step function over a configuration
      of World.v.
    - MapReduce.v, [main/mrsequential.go], [mr] and [mrapps]: the sequential
      reference for any [sort.Sort], the hash of the workers, the applications.
      Timing.v, [mrapps/mtiming.go], [mrapps/rtiming.go], [mrapps/jobcount.go]:
      the applications that count what runs through files of a shared directory,
      with workers whose accesses interleave.  Coordinator.v, [mr/coordinator.go],
      [mr/worker.go]: the two programs as they stand, over the sockets of a
      machine.  Programs.v, [main/mrsequential.go], [main/mrworker.go]: [main] from
      its arguments and the files to its output, for any plugin loader.
    - Commands.v, [main/diskvd.go], [main/lockc.go], [main/lockd.go],
      [main/pbc.go], [main/pbd.go], [main/viewd.go]: what these programs make of
      their arguments; the packages that they start are parameters.
    - Labgob.v, [labgob/labgob.go]: the walk over the graph of types, the
      warnings about values that are not zero, [Encode] and [Decode] around the
      library's.
    - Annotation.v, [tester1/annotation.go]: the annotations and the state of the
      faults, and the whole interface of both.
    - Rsm.v, [kvraft1/rsm/server.go] and [kvraft1/rsm/test.go]: the replicated
      counter and the test's search for the server that commits a request, for
      any implementation of the class [Rsm], whose [Submit] may wait for ever.

    A Go [map] is a [gmap], a slice that is not shared a [list], a pointer to a
    shared object an index into a heap, a [struct] a record, and an index out of
    range, a nil map or a failed test is the outcome [Panic] or [Fatal] and never
    a default value.  Machine integers are [Z] with their wrap-around where it can
    be reached.  Go visits the entries of a map in any order: where a result could
    depend on it the order is an argument of the definition, elsewhere it is that
    of [map_to_list].  Random draws, clock readings and the bytes of
    [crypto/rand] are arguments or parameters.

    ** What the theorems show

    - Network: a call over a healthy, reliable network can complete, and every
      schedule that completes it returns what a direct call of the handler on the
      decoded arguments returns, with the effect of one call; under every
      interleaving with other calls, losses and administration, a handler runs at
      most once and a positive answer is its reply; after a server is deleted
      or replaced, the calls that wait for it can only fail; none is stuck except in
      a handler that does not return, and calls on a network that was cleaned up return;
      methods are routed by the last dot of their name.
    - Stable storage: every read returns what was last saved, whatever the server
      does to its slices; a copy and the original never see each other's saves.
    - Server groups: after a partition exactly the ends within a side are enabled;
      a shut-down server is unreachable, unserved, and what it had saved is handed
      to a fresh persister; a restarted one is wired up and served; the majority
      split is right for odd numbers and overlaps for even ones.  No script of
      these operations panics, and every one keeps a group well-formed; a group
      that was made and started is fully connected and served; a call between
      two of its connected servers runs the method of the other's service.
    - A whole test: in every configuration that a test can reach, each further
      call about parts that exist succeeds, keeps the configuration in order, and
      leaves the groups and clerks that it is not about as they were; the call of
      a clerk to a server that it reaches runs the method of that server.
    - Clerks: which servers a clerk reaches after each connection operation,
      that ends are made once, and that removal deletes exactly a clerk's ends;
      the clerks that tests make reach the servers asked for, and deleting one
      undoes making it.
    - Key/value checkers: the model accepts every sequential history of the
      documented service (and refuses one documented answer); the histories are
      partitioned without loss; [CheckAppends] accepts exactly the arrays it
      describes, as long as its counters do not wrap around; the put loop terminates and stores its value.
    - Concurrent clients: a client alone is the sequential one.  Over the lossy
      channel, of any number of clients at once, whatever the schedule and the losses,
      the logged history is linearizable if no put was answered [ErrNoKey], so that
      [checkPorcupine] passes, and the tests of concurrent
      appends and puts pass with versions within the bounds that they check.
    - The same over the network, for every server and clerk that are as documented:
      as long as the tester leaves the server reachable,
      every run of the clients over the simulated network, whatever it drops, delays
      and reorders, is a run over the lossy channel with the same history, store and
      results, without losses if the network is reliable.  So the linearizability
      check passes in every configuration that a test can reach, with the same
      proviso, and so do the tests of concurrent appends and puts, the latter with
      its linearizability check and without a proviso; while the network runs and
      loses nothing more, a client in a call is answered within 19 steps.
    - Raft checkers: the invariant of the tester's logs in every reachable
      state of the tests without snapshots (agreement, no gaps, the count of
      commitments); each applied command
      is recorded or ends the test; a leader found claimed the highest term of a
      round in which every server was asked in turn, alone in it; snapshots reproduce
      the log; [one] ends, and what it reports was answered by a server that claimed
      to be the leader and is committed.
    - The starting point: shutting a server down stops its peer; what the tests
      of Raft conclude from the empty peer, and that [PutAtLeastOnce] hangs on
      the empty clerks.
    - Shard configurations: rebalancing terminates with loads within one of each
      other and every shard on an existing group; reachable configurations pass
      [CheckConfig]; a join moves shards only to the new groups, a leave none of
      the staying ones; failing joins leave a changed configuration.  Over a
      controller that keeps its promises, groups that join and leave again leave
      the configuration as it was but for its number, and joining succeeds up to
      twelve groups.  Over controllers that may supersede each other and complete
      each other's changes, goroutines that join and leave groups at once never end the process, and every group
      that has a shard runs.  A test that cuts a controller off during a change
      passes if the next controller completes the change, and fails if it does not.
    - Is the data sharded: the check ends whatever the reads do, passes only if a
      read was missing, with the group running again, and fails only if a read was
      wrong or all arrived.
    - MapReduce: the output is one line per key in order, with all its values,
      whatever the sort does with equal keys; word count counts words; the whole
      program reads all its files, or reports an error and leaves the disk as it was;
      [diskvd] starts the server that its arguments describe, in any order.  The
      workers that [nparallel] counts run at the same time, and none is missed; the
      job counter reports the number of tasks, crashes included.
    - Encoding checks: the walk terminates on cyclic types and complains once
      about each field; warnings are counted, the first one printed.
    - Replicated state machine: the search for the committing server terminates,
      with the answer of one accepting server or after ten seconds in which
      none accepted, and not in vain if some server accepts throughout; it hangs only
      in a [Submit] that does not return.
    - Annotations: the ongoing fault annotation is that of the current faults;
      continuous annotations come out once, in order, without overlap.

    Each theorem with hypotheses is applied to a concrete input at the end of its
    file.

    ** Fuel

    Loops with an a-priori bound carry that bound as fuel and are proved not to
    exhaust it: [Rebalance] (the square of the number of shards, plus one: each
    turn lowers the sum of the squared loads), [mrsequential] (the length of the
    intermediate list, plus one: each turn consumes a key), the walk over types
    (their number, plus one: each call that recurs checks a new type), the search
    of Rsm.v (201 turns with sleeps of 50ms outlast its ten seconds), and [one] of
    RaftAgree.v (201 turns with sleeps of 50ms outlast its ten seconds, and 101
    turns with sleeps of 20ms the two seconds of each wait).  [FieldsFunc]
    has the length of the string, as a rune has at least one byte.  The retry
    loops of the testers may run for ever against an arbitrary clerk; their fuel
    is a parameter, and termination is proved from the laws of the clerk with the
    number of replies that can still be lost.  For clients that run at the same time
    the bounds on their loops only cut off behaviour: the theorems hold for every
    bound, as a client that reaches it is still in its loop ([P_diverge]).
    Random names are drawn from a supply that is distinct up to a limit; the
    theorems of GroupLife.v, World.v and Sharding.v count the names that are drawn.

    ** What is not modelled

    - What students write: the bodies that the repository leaves empty are empty
      here.  The theorems on tests are for any implementation, through a class whose
      laws are what the comments document.
    - Inside a handler: it is one step of the network, also where it would wait
      before it answers; one that never returns is modelled.
    - [ShardConfig.Num] wraps around after 2^63 changes of the configuration, which no
      run reaches: it is an unbounded integer.
    - Time: sleeps and timeouts are nondeterminism of the network's transitions,
      or effects that a parameter describes.
    - Mutual exclusion: outside of Labrpc.v, a function that holds a lock for
      its whole duration is one step.
    - Plugins, printing, [encoding/gob], [encoding/json] and the search of the
      linearizability checker, which are libraries or effects outside the program;
      what is used of them is a parameter with named laws.  Files and processes
      are modelled as far as MapReduce uses them: a directory is a map of names,
      and listing it is one step.
    - The packages [diskv], [lockservice], [pbservice] and [viewservice], which
      programs under [main] call and the repository does not contain: they are
      parameters of Commands.v.
    - A server that is killed while clients call it, over the network: a request that
      was reported lost may then still be executed later, which is no run of the
      lossy channel.  Labrpc.v alone speaks of such calls.
    - The annotations that the other components make: they affect the
      drawing only, and Annotation.v models them on their own. *)

From stdpp Require Export base gmap sets list sorting strings.
From Stdlib Require Export ZArith Lia.

#[export] Set Warnings "-clear-no-such-hyp".

(** ** Outcomes of a Go call

    A Go function of the labs either returns, ends the process or the test
    ([log.Fatalf], [t.Fatalf]) or panics (index out of range, nil map, closed
    channel).  These two outcomes carry a short reason.  [Diverge] is the
    outcome of a fuelled loop whose fuel ran out. *)

Inductive outcome (A : Type) : Type :=
| Ret (a : A)
| Fatal (why : string)
| Panic (why : string)
| Diverge.
Arguments Ret {A} a.
Arguments Fatal {A} why.
Arguments Panic {A} why.
Arguments Diverge {A}.

#[export] Instance outcome_ret : MRet outcome := @Ret.
#[export] Instance outcome_bind : MBind outcome := λ A B f m,
  match m with Ret a => f a | Fatal w => Fatal w | Panic w => Panic w
  | Diverge => Diverge end.

Definition returns {A} (m : outcome A) : bool :=
  match m with Ret _ => true | _ => false end.

Lemma outcome_bind_Ret {A B} (m : outcome A) (f : A → outcome B) (b : B) :
  m ≫= f = Ret b ↔ ∃ a, m = Ret a ∧ f a = Ret b.
Proof.
  destruct m; simpl; split; [eauto|by intros (? & [= <-] & ?)|..]; try done;
    by intros (? & ? & ?).
Qed.

(** A loop whose body may stop the program. *)
Fixpoint ofold {A B} (f : A → B → outcome A) (a : A) (l : list B) : outcome A :=
  match l with
  | [] => Ret a
  | b :: l => a' ← f a b; ofold f a' l
  end.

Lemma ofold_app {A B} (f : A → B → outcome A) a l1 l2 :
  ofold f a (l1 ++ l2) = (a' ← ofold f a l1; ofold f a' l2).
Proof.
  revert a. induction l1 as [|b l1 IH]; intros a; simpl; [done|].
  destruct (f a b); simpl; [apply IH|done..].
Qed.

(** Decide the tests of the goal that the context settles. *)
Ltac simpl_decide :=
  repeat first [rewrite decide_True by (done || lia) | rewrite decide_False by (done || lia)].

(** ** Stateful Go code

    [M S A] is a computation that reads and updates a state of type [S] and ends
    with an [outcome].  [wp m Q s] says that [m], started in [s], returns and
    establishes [Q]: it is a statement of total correctness. *)

Definition M (S A : Type) : Type := S → outcome (A * S).

#[export] Instance M_ret S : MRet (M S) := λ A a s, Ret (a, s).
#[export] Instance M_bind S : MBind (M S) := λ A B f m s,
  match m s with Ret (a, s) => f a s | Fatal w => Fatal w | Panic w => Panic w
  | Diverge => Diverge end.

Lemma M_bind_Ret {S A B} (m : M S A) (f : A → M S B) s r :
  (m ≫= f) s = Ret r ↔ ∃ a s1, m s = Ret (a, s1) ∧ f a s1 = Ret r.
Proof.
  unfold mbind, M_bind. destruct (m s) as [[a s1]|?|?|]; split; try done;
    try (by intros (? & ? & ? & _)); [by eauto|]. by intros (? & ? & [= <- <-] & ?).
Qed.

Definition gets {S A} (f : S → A) : M S A := λ s, Ret (f s, s).
Definition modify {S} (f : S → S) : M S unit := λ s, Ret (tt, f s).
Definition lift {S A} (m : outcome A) : M S A := λ s, a ← m; Ret (a, s).

Fixpoint mfor {S A} (l : list A) (f : A → M S unit) : M S unit :=
  match l with
  | [] => mret tt
  | x :: l => _ ← f x; mfor l f
  end.

Fixpoint mmap {S A B} (f : A → M S B) (l : list A) : M S (list B) :=
  match l with
  | [] => mret []
  | x :: l => y ← f x; ys ← mmap f l; mret (y :: ys)
  end.

(** Reading [l[i]]. *)
Definition index {A} (l : list A) (i : nat) : outcome A :=
  match l !! i with Some x => Ret x | None => Panic "index out of range" end.

Lemma index_Some {A} (l : list A) i x : l !! i = Some x → index l i = Ret x.
Proof. unfold index. by intros ->. Qed.

Definition wp {S A} (m : M S A) (Q : A → S → Prop) (s : S) : Prop :=
  match m s with Ret (a, s') => Q a s' | _ => False end.

Section wp.
Context {S A B : Type}.
Implicit Types (m : M S A) (s : S).

Lemma wp_Ret m (Q : A → S → Prop) s : wp m Q s ↔ ∃ a s', m s = Ret (a, s') ∧ Q a s'.
Proof.
  unfold wp. destruct (m s) as [[a s']|?|?|] eqn:Hm;
    (split; [try done; eauto|intros (a' & s1 & H & HQ); by simplify_eq]).
Qed.

Lemma wp_mono m (P Q : A → S → Prop) s :
  wp m P s → (∀ a s', P a s' → Q a s') → wp m Q s.
Proof. unfold wp. destruct (m s) as [[? ?]|?|?|]; auto. Qed.

Lemma wp_and m (P Q : A → S → Prop) s :
  wp m P s → wp m Q s → wp m (λ a s', P a s' ∧ Q a s') s.
Proof. unfold wp. by destruct (m s) as [[? ?]|?|?|]. Qed.

Lemma wp_bind m (f : A → M S B) Q s :
  wp m (λ a, wp (f a) Q) s → wp (m ≫= f) Q s.
Proof. unfold wp, mbind, M_bind. by destruct (m s) as [[? ?]|?|?|]. Qed.

Lemma wp_mret a (Q : A → S → Prop) s : Q a s → wp (mret a) Q s.
Proof. done. Qed.
Lemma wp_gets (f : S → A) (Q : A → S → Prop) s : Q (f s) s → wp (gets f) Q s.
Proof. done. Qed.
Lemma wp_modify (f : S → S) (Q : unit → S → Prop) s : Q tt (f s) → wp (modify f) Q s.
Proof. done. Qed.
Lemma wp_lift (o : outcome A) a (Q : A → S → Prop) s :
  o = Ret a → Q a s → wp (lift o) Q s.
Proof. intros ->. done. Qed.
Lemma wp_index (l : list A) i x (Q : A → S → Prop) s :
  l !! i = Some x → Q x s → wp (lift (index l i)) Q s.
Proof. intros Hi. unfold index. by rewrite Hi. Qed.

End wp.

(** A loop keeps an invariant on the part of the list already done. *)
Lemma wp_mfor {S A} (I : list A → S → Prop) (f : A → M S unit) (l : list A) (s : S) :
  I [] s →
  (∀ pre x post s, l = pre ++ x :: post → I pre s → wp (f x) (λ _, I (pre ++ [x])) s) →
  wp (mfor l f) (λ _, I l) s.
Proof.
  intros HI Hstep.
  enough (∀ post pre s, l = pre ++ post → I pre s → wp (mfor post f) (λ _, I l) s) as H
    by by apply (H l []).
  induction post as [|x post IH]; intros pre s' Hl Hpre; simpl.
  - apply wp_mret. by rewrite Hl, app_nil_r.
  - apply wp_bind. eapply wp_mono; [by eapply Hstep|]. intros [] s1 H1.
    apply (IH (pre ++ [x])); [by rewrite <-app_assoc|done].
Qed.

Lemma wp_mmap {S A B} (I : list A → list B → S → Prop) (f : A → M S B) (l : list A) (s : S) :
  I [] [] s →
  (∀ pre x post ys s, l = pre ++ x :: post → I pre ys s →
     wp (f x) (λ y, I (pre ++ [x]) (ys ++ [y])) s) →
  wp (mmap f l) (I l) s.
Proof.
  intros HI Hstep.
  enough (∀ post pre ys s, l = pre ++ post → I pre ys s →
    wp (mmap f post) (λ ys', I l (ys ++ ys')) s) as H by by apply (H l [] []).
  induction post as [|x post IH]; intros pre ys s' Hl Hpre; simpl.
  - apply wp_mret. by rewrite Hl, !app_nil_r.
  - apply wp_bind. eapply wp_mono; [by eapply Hstep|]. intros y s1 H1. simpl in H1.
    apply wp_bind. eapply wp_mono; [apply (IH (pre ++ [x]) (ys ++ [y]))|].
    + by rewrite <-app_assoc.
    + done.
    + intros ys' s2 H2. apply wp_mret. by rewrite (cons_middle y ys ys'), app_assoc.
Qed.

Create HintDb wpdb.
#[export] Hint Resolve wp_mret wp_gets wp_modify : wpdb.

(** One step of symbolic execution. *)
Ltac wp_step :=
  first [ apply wp_bind | apply wp_gets | apply wp_modify | apply wp_mret
        | eapply wp_index; [eassumption|] | eapply wp_lift; [eassumption|] ].
Ltac wp_steps := repeat (wp_step; simpl).

(** ** Machine integers *)

Definition wrap_u32 (z : Z) : Z := z mod 2 ^ 32.
Definition wrap_u64 (z : Z) : Z := z mod 2 ^ 64.
Definition wrap_i32 (z : Z) : Z := (z + 2 ^ 31) mod 2 ^ 32 - 2 ^ 31.
Definition wrap_i64 (z : Z) : Z := (z + 2 ^ 63) mod 2 ^ 64 - 2 ^ 63.

Lemma wrap_u32_range z : (0 ≤ wrap_u32 z < 2 ^ 32)%Z.
Proof. apply Z.mod_pos_bound; lia. Qed.
Lemma wrap_u64_range z : (0 ≤ wrap_u64 z < 2 ^ 64)%Z.
Proof. apply Z.mod_pos_bound; lia. Qed.
Lemma wrap_u64_id z : (0 ≤ z < 2 ^ 64)%Z → wrap_u64 z = z.
Proof. apply Z.mod_small. Qed.

Lemma wrap_i32_id z : (- 2 ^ 31 ≤ z < 2 ^ 31)%Z → wrap_i32 z = z.
Proof. intros. unfold wrap_i32. rewrite Z.mod_small; lia. Qed.
Lemma wrap_i64_id z : (- 2 ^ 63 ≤ z < 2 ^ 63)%Z → wrap_i64 z = z.
Proof. intros. unfold wrap_i64. rewrite Z.mod_small; lia. Qed.

Lemma wrap_i32_succ a : wrap_i32 (wrap_i32 a + 1) = wrap_i32 (a + 1).
Proof.
  unfold wrap_i32.
  replace ((a + 2 ^ 31) mod 2 ^ 32 - 2 ^ 31 + 1 + 2 ^ 31)%Z
    with ((a + 2 ^ 31) mod 2 ^ 32 + 1)%Z by lia.
  rewrite Zplus_mod_idemp_l. do 2 f_equal. lia.
Qed.

(** ** Counting the occurrences of a value in a list *)

Section count.
Context {A : Type} `{EqDecision A}.
Implicit Types (l : list A) (x y : A).

Fixpoint occ (x : A) (l : list A) : nat :=
  match l with
  | [] => 0
  | y :: l => (if decide (x = y) then 1 else 0) + occ x l
  end.

Lemma occ_elem x l : 0 < occ x l ↔ x ∈ l.
Proof.
  induction l as [|y l IH]; simpl.
  - split; [lia|by intros ?%elem_of_nil].
  - rewrite elem_of_cons, <-IH. destruct (decide (x = y)) as [->|]; split; try lia; [by left|].
    by intros [?|?].
Qed.

Lemma occ_not_elem x l : x ∉ l → occ x l = 0.
Proof. rewrite <-occ_elem. lia. Qed.

Lemma occ_le_length x l : occ x l ≤ length l.
Proof. induction l as [|y l IH]; simpl; [lia|]. destruct (decide (x = y)); lia. Qed.

(** Overwriting one entry moves one unit of count. *)
Lemma occ_insert x l i y z :
  l !! i = Some y →
  occ x (<[i:=z]> l) + (if decide (x = y) then 1 else 0)
  = occ x l + (if decide (x = z) then 1 else 0).
Proof.
  revert i; induction l as [|w l IH]; intros [|i] Hi; simplify_eq/=; [lia|].
  specialize (IH i Hi). lia.
Qed.

#[global] Instance occ_perm x : Proper ((≡ₚ) ==> (=)) (occ x).
Proof. intros l1 l2 H. induction H; simpl; lia. Qed.
End count.

(** How many entries of a list pass a test. *)
Fixpoint count_if {A} (f : A → bool) (l : list A) : nat :=
  match l with [] => 0 | x :: l => (if f x then 1 else 0) + count_if f l end.

Lemma count_if_app {A} (f : A → bool) (l1 l2 : list A) :
  count_if f (l1 ++ l2) = count_if f l1 + count_if f l2.
Proof. induction l1; simpl; lia. Qed.

Lemma count_if_snoc {A} (f : A → bool) (l : list A) x :
  count_if f (l ++ [x]) = count_if f l + (if f x then 1 else 0).
Proof. rewrite count_if_app. simpl. lia. Qed.

(** ** Sums over lists *)

Fixpoint zsum {A} (f : A → Z) (l : list A) : Z :=
  match l with [] => 0 | x :: l => f x + zsum f l end.

Section zsum.
Context {A : Type}.
Implicit Types (f g : A → Z) (l : list A).
Local Open Scope Z_scope.

Lemma zsum_ext f g l : (∀ x, x ∈ l → f x = g x) → zsum f l = zsum g l.
Proof. induction l; simpl; intros H; [done|]. rewrite H, IHl; set_solver. Qed.

Lemma zsum_nonneg f l : (∀ x, x ∈ l → 0 ≤ f x) → 0 ≤ zsum f l.
Proof.
  induction l as [|x l IH]; simpl; intros H; [done|].
  pose proof (H x ltac:(left)). enough (0 ≤ zsum f l) by lia. apply IH. set_solver.
Qed.

Lemma zsum_app f l1 l2 : zsum f (l1 ++ l2) = zsum f l1 + zsum f l2.
Proof. induction l1; simpl; lia. Qed.

Lemma zsum_perm f l1 l2 : l1 ≡ₚ l2 → zsum f l1 = zsum f l2.
Proof. induction 1; simpl; lia. Qed.

Lemma zsum_le f g l : (∀ x, x ∈ l → f x ≤ g x) → zsum f l ≤ zsum g l.
Proof.
  induction l as [|x l IH]; simpl; intros H; [done|].
  pose proof (H x ltac:(left)). enough (zsum f l ≤ zsum g l) by lia. apply IH. set_solver.
Qed.

Lemma zsum_upd f g l x d :
  NoDup l → x ∈ l → (∀ y, y ∈ l → y ≠ x → f y = g y) → f x = g x + d →
  zsum f l = zsum g l + d.
Proof.
  induction 1 as [|y l Hy Hnd IH]; intros Hx Hext Hd; [set_solver|]; simpl.
  apply elem_of_cons in Hx as [->|Hx].
  - rewrite (zsum_ext f g l); [lia|]. set_solver.
  - rewrite (Hext y); [|left|set_solver]. rewrite IH; set_solver by lia.
Qed.
End zsum.

(** The values of a duplicate-free list cover a list at most once. *)
Lemma zsum_occ_le {A} `{EqDecision A} (ks l : list A) :
  NoDup ks → (zsum (λ k, Z.of_nat (occ k l)) ks ≤ Z.of_nat (length l))%Z.
Proof.
  intros Hnd. induction l as [|x l IH]; simpl.
  - rewrite (zsum_ext _ (λ _, 0%Z)) by done. clear. induction ks; simpl; lia.
  - destruct (decide (x ∈ ks)) as [Hx|Hx].
    + rewrite (zsum_upd _ (λ k, Z.of_nat (occ k l)) ks x 1); [lia|done|done| |].
      * intros y _ Hy. by rewrite decide_False.
      * rewrite decide_True by done. lia.
    + rewrite (zsum_ext _ (λ k, Z.of_nat (occ k l))); [lia|].
      intros k Hk. rewrite decide_False; [done|by intros ->].
Qed.

(** ** Maps filled by a loop *)

Lemma foldl_insert_map `{Countable K} {A} (l : list (K * A)) (m : gmap K A) :
  NoDup l.*1 →
  foldl (λ m '(k, v), <[k := v]> m) m l = list_to_map l ∪ m.
Proof.
  revert m. induction l as [|[k v] l IH]; intros m Hnd; simpl.
  - by rewrite map_empty_union.
  - apply NoDup_cons in Hnd as [Hk Hnd]. rewrite IH by done.
    rewrite <-insert_union_r by by apply not_elem_of_list_to_map_1.
    by rewrite insert_union_l.
Qed.

Lemma alter_as_insert `{Countable K} {A} (f : A → A) (m : gmap K A) i x :
  m !! i = Some x → alter f i m = <[i := f x]> m.
Proof.
  intros Hi. apply map_eq. intros j. rewrite lookup_alter, lookup_insert.
  destruct (decide (i = j)) as [<-|]; [by rewrite Hi|done].
Qed.

(** ** Filters and sorted lists *)

Section filters.
Context {A : Type} (P : A → Prop) `{∀ x, Decision (P x)}.

Lemma filter_id (l : list A) : (∀ x, x ∈ l → P x) → filter P l = l.
Proof.
  induction l as [|x l IH]; intros Hl; [done|].
  rewrite filter_cons_True by (apply Hl; left). f_equal. apply IH. intros; apply Hl. by right.
Qed.

Lemma filter_nil_all (l : list A) : (∀ x, x ∈ l → ¬ P x) → filter P l = [].
Proof.
  induction l as [|x l IH]; intros Hl; [done|].
  rewrite filter_cons_False by (apply Hl; left). apply IH. intros; apply Hl. by right.
Qed.
End filters.

Section strongly_sorted.
Context {A : Type} (R : A → A → Prop).

Lemma StronglySorted_snoc l x :
  StronglySorted R l → Forall (λ y, R y x) l → StronglySorted R (l ++ [x]).
Proof.
  induction 1 as [|y l Hs IH Hy]; intros Hx; simpl; [by repeat constructor|].
  apply Forall_cons in Hx as [Hyx Hx]. constructor; [by apply IH|].
  apply Forall_app. split; [done|by constructor].
Qed.

Lemma StronglySorted_lookup_lt l i j x y :
  StronglySorted R l → i < j → l !! i = Some x → l !! j = Some y → R x y.
Proof.
  intros Hs. revert i j. induction Hs as [|z l Hs IH Hz]; intros i j Hij Hi Hj; [done|].
  destruct j as [|j]; [lia|]. simpl in Hj. destruct i as [|i].
  - injection Hi as ->. rewrite Forall_forall in Hz. by eapply Hz, list_elem_of_lookup_2.
  - by eapply (IH i j); [lia|..].
Qed.
End strongly_sorted.

(** *** Runs that end

    [halts m Q s]: the run of [m] ends; if it returns, [Q] holds; it may also end
    the test or panic. *)
Definition halts {S A} (m : M S A) (Q : A → S → Prop) (s : S) : Prop :=
  match m s with Ret (a, s') => Q a s' | Diverge => False | _ => True end.

Section halts.
Context {S A B : Type}.
Implicit Types (m : M S A) (Q : B → S → Prop).

Lemma halts_mono m (P Q : A → S → Prop) s :
  halts m P s → (∀ a s', P a s' → Q a s') → halts m Q s.
Proof. unfold halts. destruct (m s) as [[? ?]|?|?|]; auto. Qed.
Lemma halts_bind m (f : A → M S B) Q s :
  halts m (λ a, halts (f a) Q) s → halts (m ≫= f) Q s.
Proof. unfold halts, mbind, M_bind. by destruct (m s) as [[? ?]|?|?|]. Qed.
Lemma halts_mret a (Q : A → S → Prop) s : Q a s → halts (mret a) Q s.
Proof. done. Qed.
Lemma halts_gets (f : S → A) (Q : A → S → Prop) s : Q (f s) s → halts (gets f) Q s.
Proof. done. Qed.
Lemma halts_modify (f : S → S) (Q : unit → S → Prop) s : Q tt (f s) → halts (modify f) Q s.
Proof. done. Qed.
Lemma halts_index (l : list A) i (Q : A → S → Prop) s :
  (∀ x, l !! i = Some x → Q x s) → halts (lift (index l i)) Q s.
Proof.
  intros H. unfold halts, lift, index. destruct (l !! i) eqn:Hi; simpl; auto.
Qed.
Lemma halts_run m (Q : A → S → Prop) s (P : A → Prop) :
  halts m Q s → match m s with Ret (a, _) => P a | _ => False end →
  ∃ a s', m s = Ret (a, s') ∧ P a ∧ Q a s'.
Proof. unfold halts. destruct (m s) as [[a s']|?|?|]; [|done..]. intros HQ HP. by exists a, s'. Qed.
End halts.
