(* ===== verification/GoStd.v ===== *)
(** * The part of the Go standard library the labs call

    [hash/fnv], [sort] and [slices], [strconv] and [strings].  Byte strings are
    Rocq [string]s: one [ascii] per byte. *)

From stdpp Require Export pretty.
From Stdlib Require Import Ascii.
From S2P Require Export Prelude.

(** ** [hash/fnv]: the 32-bit FNV-1a hash, on [uint32] arithmetic *)

Definition byte_of (a : Ascii.ascii) : Z := Z.of_N (Ascii.N_of_ascii a).

Fixpoint fnv32a_from (h : Z) (s : string) : Z :=
  match s with
  | EmptyString => h
  | String a s => fnv32a_from (wrap_u32 (Z.lxor h (byte_of a) * 16777619)) s
  end.

(** [h := fnv.New32a(); h.Write([]byte(s)); h.Sum32()] *)
Definition fnv32a (s : string) : Z := fnv32a_from 2166136261 s.

Lemma fnv32a_from_range h s : (0 ≤ h < 2 ^ 32 → 0 ≤ fnv32a_from h s < 2 ^ 32)%Z.
Proof. revert h. induction s; simpl; intros; [done|]. apply IHs, wrap_u32_range. Qed.

Lemma fnv32a_range s : (0 ≤ fnv32a s < 2 ^ 32)%Z.
Proof. apply fnv32a_from_range. lia. Qed.

(** ** [slices.Sort] on integers and [sort.Strings]

    Both orders are total orders on values, so any sorting algorithm has the
    same result; merge sort computes it. *)

#[export] Instance string_le_total : Total String.le.
Proof.
  intros s1 s2. unfold String.le.
  destruct (String.leb_total s1 s2) as [->| ->]; [by left|by right].
Qed.

Definition sort_ints (l : list Z) : list Z := merge_sort Z.le l.
Definition sort_strings (l : list string) : list string := merge_sort String.le l.

Section sorting.
Context {A : Type} (R : relation A) `{!RelDecision R, !Total R, !PartialOrder R}.

(** Sorting forgets the order of its input. *)
Lemma merge_sort_perm_eq (l1 l2 : list A) :
  l1 ≡ₚ l2 → merge_sort R l1 = merge_sort R l2.
Proof.
  intros H. apply (Sorted_unique R); try apply (Sorted_merge_sort R).
  by rewrite !(merge_sort_Permutation R).
Qed.
End sorting.

#[export] Instance sort_ints_perm : Proper ((≡ₚ) ==> (=)) sort_ints.
Proof. intros l1 l2. apply merge_sort_perm_eq; apply _. Qed.
#[export] Instance sort_strings_perm : Proper ((≡ₚ) ==> (=)) sort_strings.
Proof. intros l1 l2. apply merge_sort_perm_eq; apply _. Qed.

Lemma elem_of_sort_ints x l : x ∈ sort_ints l ↔ x ∈ l.
Proof. unfold sort_ints. by rewrite (merge_sort_Permutation Z.le). Qed.
Lemma length_sort_ints l : length (sort_ints l) = length l.
Proof. apply Permutation_length, (merge_sort_Permutation Z.le). Qed.

(** The string of a line feed. *)
Definition newline : string := String (ascii_of_nat 10) "".

(** ** [strconv.Itoa] *)

Definition Itoa (z : Z) : string := pretty z.

#[export] Instance Itoa_inj : Inj (=) (=) Itoa.
Proof. apply pretty_Z_inj. Qed.

(** ** [strings.LastIndex] with a one-byte separator, and slicing *)

(** The index of the last [c] in [s], -1 when there is none. *)
Fixpoint LastIndex (s : string) (c : Ascii.ascii) : Z :=
  match s with
  | EmptyString => -1
  | String a s' =>
      let i := LastIndex s' c in
      if (0 <=? i)%Z then (i + 1)%Z else if decide (a = c) then 0 else -1
  end.

Definition dot_byte : Ascii.ascii := "."%char.
Definition dash_byte : Ascii.ascii := "-"%char.

Fixpoint str_take (n : nat) (s : string) : string :=
  match n, s with
  | S n, String a s => String a (str_take n s)
  | _, _ => ""
  end.
Fixpoint str_drop (n : nat) (s : string) : string :=
  match n, s with
  | S n, String a s => str_drop n s
  | _, _ => s
  end.

Fixpoint has_byte (c : Ascii.ascii) (s : string) : bool :=
  match s with
  | EmptyString => false
  | String a s => bool_decide (a = c) || has_byte c s
  end.

Lemma LastIndex_none s c : has_byte c s = false → LastIndex s c = (-1)%Z.
Proof.
  induction s as [|a s IH]; simpl; [done|].
  intros [Ha Hs]%orb_false_iff. rewrite IH by done. simpl.
  apply bool_decide_eq_false in Ha. by rewrite decide_False.
Qed.

Lemma LastIndex_split s1 s2 c :
  has_byte c s2 = false →
  LastIndex (s1 +:+ String c s2) c = Z.of_nat (String.length s1).
Proof.
  intros H. induction s1 as [|a s1 IH]; simpl.
  - rewrite LastIndex_none by done. simpl. by rewrite decide_True.
  - change (LastIndex (String.append s1 (String c s2)) c) with
      (LastIndex (s1 +:+ String c s2) c).
    rewrite IH. destruct (Z.leb_spec 0 (Z.of_nat (String.length s1))); lia.
Qed.

Lemma str_take_app s1 s2 : str_take (String.length s1) (s1 +:+ s2) = s1.
Proof. induction s1 as [|a s1 IH]; simpl; [by destruct s2|]. by f_equal. Qed.
Lemma str_drop_app s1 c s2 : str_drop (S (String.length s1)) (s1 +:+ String c s2) = s2.
Proof. induction s1 as [|a s1 IH]; simpl in *; [by destruct s2|done]. Qed.

Lemma app_split (c : Ascii.ascii) (s1 s2 t1 t2 : string) :
  has_byte c s2 = false → has_byte c t2 = false →
  s1 +:+ String c s2 = t1 +:+ String c t2 → s1 = t1.
Proof.
  intros Hs Ht He.
  assert (String.length s1 = String.length t1) as Hlen.
  { apply Nat2Z.inj. rewrite <-(LastIndex_split s1 s2 c Hs), <-(LastIndex_split t1 t2 c Ht).
    by rewrite He. }
  rewrite <-(str_take_app s1 (String c s2)), <-(str_take_app t1 (String c t2)).
  by rewrite He, Hlen.
Qed.

(** A printed number consists of digits. *)
Lemma pretty_N_go_byte c x s :
  (∀ d, pretty_N_char d ≠ c) → has_byte c (pretty_N_go x s) = has_byte c s.
Proof.
  intros Hc. revert s. induction (N.lt_wf_0 x) as [x _ IH]; intros s.
  assert (x = 0 ∨ 0 < x)%N as [->|Hx] by lia; [done|].
  rewrite pretty_N_go_step, IH by (done || by apply N.div_lt). simpl.
  by rewrite bool_decide_false.
Qed.
Lemma Itoa_no_dash n : has_byte dash_byte (Itoa (Z.of_nat n)) = false.
Proof.
  unfold Itoa, pretty. destruct n as [|n]; [done|]. simpl. unfold pretty, pretty_positive, pretty,
    pretty_N. rewrite decide_False by done. apply pretty_N_go_byte.
  intros d. unfold pretty_N_char. by repeat case_match.
Qed.

(** ** [strings.Join] *)

Fixpoint Join (l : list string) (sep : string) : string :=
  match l with
  | [] => ""
  | [s] => s
  | s :: l => s +:+ sep +:+ Join l sep
  end.

(** ** [encoding/base64]: [URLEncoding.EncodeToString] *)

Definition b64_char (i : Z) : Ascii.ascii :=
  default "="%char
    (String.get (Z.to_nat i) "ABCDEFGHIJKLMNOPQRSTUVWXYZabcdefghijklmnopqrstuvwxyz0123456789-_").

Fixpoint EncodeToString (b : list Z) : string :=
  match b with
  | x :: y :: z :: b =>
      String (b64_char (Z.shiftr x 2))
     (String (b64_char (Z.lor (Z.shiftl (Z.land x 3) 4) (Z.shiftr y 4)))
     (String (b64_char (Z.lor (Z.shiftl (Z.land y 15) 2) (Z.shiftr z 6)))
     (String (b64_char (Z.land z 63)) (EncodeToString b))))
  | [x; y] =>
      String (b64_char (Z.shiftr x 2))
     (String (b64_char (Z.lor (Z.shiftl (Z.land x 3) 4) (Z.shiftr y 4)))
     (String (b64_char (Z.shiftl (Z.land y 15) 2)) "="))
  | [x] =>
      String (b64_char (Z.shiftr x 2)) (String (b64_char (Z.shiftl (Z.land x 3) 4)) "==")
  | [] => ""
  end.

(** ** [unicode/utf8] and [strings.FieldsFunc]

    The next rune of a non-empty string and its length in bytes; an invalid byte
    is the rune U+FFFD of length 1. *)

Definition nth_byte (s : string) (i : nat) : Z :=
  match String.get i s with Some a => byte_of a | None => -1 end.
Definition between (lo x hi : Z) : bool := (lo <=? x)%Z && (x <=? hi)%Z.

Definition decode_rune (s : string) : Z * nat :=
  let b0 := nth_byte s 0 in
  let b1 := nth_byte s 1 in
  let b2 := nth_byte s 2 in
  let b3 := nth_byte s 3 in
  let cont b := between 128 b 191 in
  if (b0 <? 128)%Z then (b0, 1)
  else if between 194 b0 223 && cont b1 then
    (Z.lor (Z.shiftl (Z.land b0 31) 6) (Z.land b1 63), 2)
  else if between 224 b0 239 && cont b2 &&
          between (if (b0 =? 224)%Z then 160 else 128) b1 (if (b0 =? 237)%Z then 159 else 191) then
    (Z.lor (Z.shiftl (Z.land b0 15) 12) (Z.lor (Z.shiftl (Z.land b1 63) 6) (Z.land b2 63)), 3)
  else if between 240 b0 244 && cont b2 && cont b3 &&
          between (if (b0 =? 240)%Z then 144 else 128) b1 (if (b0 =? 244)%Z then 143 else 191) then
    (Z.lor (Z.shiftl (Z.land b0 7) 18) (Z.lor (Z.shiftl (Z.land b1 63) 12)
       (Z.lor (Z.shiftl (Z.land b2 63) 6) (Z.land b3 63))), 4)
  else (65533%Z, 1).

(** [cur] holds the bytes of the field being read; the length of the string is
    enough fuel, as every rune has at least one byte. *)
Fixpoint fields_from (fuel : nat) (f : Z → bool) (s cur : string) : list string :=
  let flush := if decide (cur = "") then [] else [cur] in
  match fuel, s with
  | S fuel, String _ _ =>
      let '(r, n) := decode_rune s in
      if f r then flush ++ fields_from fuel f (str_drop n s) ""
      else fields_from fuel f (str_drop n s) (cur +:+ str_take n s)
  | _, _ => flush
  end.
Definition FieldsFunc (s : string) (f : Z → bool) : list string :=
  fields_from (String.length s) f s "".

Lemma str_app_assoc (a b c : string) : (a +:+ b) +:+ c = a +:+ (b +:+ c).
Proof.
  induction a as [|x a IH]; [done|].
  change (String x ((a +:+ b) +:+ c) = String x (a +:+ (b +:+ c))). by rewrite IH.
Qed.
Lemma str_app_nil (a : string) : a +:+ "" = a.
Proof.
  induction a as [|x a IH]; [done|]. change (String x (a +:+ "") = String x a). by rewrite IH.
Qed.

Definition str_concat (l : list string) : string := foldr String.append "" l.

(** ** [strings.HasPrefix] and [fmt.Sscanf] with a format that ends in [%d] *)

(** What follows a prefix. *)
Fixpoint strip (p s : string) : option string :=
  match p, s with
  | EmptyString, _ => Some s
  | String a p, String b s => if decide (a = b) then strip p s else None
  | _, _ => None
  end.
Definition HasPrefix (s prefix : string) : bool := bool_decide (is_Some (strip prefix s)).

(** The package has its own table of spaces. *)
Definition fmt_space (r : Z) : bool :=
  between 9 r 13 || (r =? 32)%Z || (r =? 133)%Z || (r =? 160)%Z || (r =? 5760)%Z ||
  between 8192 r 8202 || between 8232 r 8233 || (r =? 8239)%Z || (r =? 8287)%Z || (r =? 12288)%Z.
(** [SkipSpace]: a newline is an error; the length of the string is enough fuel. *)
Fixpoint skip_space (fuel : nat) (s : string) : option string :=
  match fuel, s with
  | S fuel, String _ _ =>
      let '(r, n) := decode_rune s in
      if (r =? 10)%Z then None
      else if fmt_space r then skip_space fuel (str_drop n s) else Some s
  | _, _ => Some s
  end.

(** The value of the digits at the front of a string, after those that gave [acc]. *)
Fixpoint digits (acc : Z) (s : string) : Z :=
  match s with
  | String a s => match Ascii.is_nat a with
                  | Some d => digits (acc * 10 + Z.of_nat d) s
                  | None => acc
                  end
  | EmptyString => acc
  end.
Definition is_digit (s : string) : bool :=
  match s with String a _ => bool_decide (is_Some (Ascii.is_nat a)) | EmptyString => false end.

Definition scan_sign (s : string) : Z * string :=
  match s with
  | String a s' =>
      if decide (a = "-"%char) then ((-1)%Z, s')
      else if decide (a = "+"%char) then (1%Z, s') else (1%Z, s)
  | EmptyString => (1%Z, s)
  end.
(** [scanInt]: a sign, then at least one digit; a number that is no [int] is an
    error. *)
Definition scan_int (s : string) : option Z :=
  s ← skip_space (String.length s) s;
  let '(sign, s) := scan_sign s in
  let v := (sign * digits 0 s)%Z in
  if is_digit s && between (- 2 ^ 63) v (2 ^ 63 - 1) then Some v else None.

(** [Sscanf(s, pre + "%d", &x)] for a [pre] without spaces and percent signs: the
    value of [x] if it scanned one; what follows the number is not looked at. *)
Definition Sscanf_d (pre s : string) : option Z := strip pre s ≫= scan_int.

Lemma strip_app p s : strip p (p +:+ s) = Some s.
Proof.
  induction p as [|a p IH]; [done|].
  change (String a p +:+ s) with (String a (p +:+ s)). simpl. by rewrite decide_True.
Qed.
Lemma strip_Some p s r : strip p s = Some r → s = p +:+ r.
Proof.
  revert s. induction p as [|a p IH]; intros s Hs; [by injection Hs as ->|].
  destruct s as [|b s]; [done|]. simpl in Hs. case_decide; [|done]. subst.
  by rewrite (IH s Hs).
Qed.
Lemma HasPrefix_app s p : HasPrefix (p +:+ s) p = true.
Proof. unfold HasPrefix. rewrite strip_app. by apply bool_decide_true. Qed.

(** A printed number is read back. *)
Lemma pretty_N_char_nat d : (d < 10)%N → Ascii.is_nat (pretty_N_char d) = Some (N.to_nat d).
Proof.
  intros Hd.
  assert (d = 0 ∨ d = 1 ∨ d = 2 ∨ d = 3 ∨ d = 4 ∨ d = 5 ∨ d = 6 ∨ d = 7 ∨ d = 8 ∨ d = 9)%N as H
    by lia.
  by destruct H as [->|[->|[->|[->|[->|[->|[->|[->|[->| ->]]]]]]]]].
Qed.
Lemma digits_pretty x s : digits 0 (pretty_N_go x s) = digits (Z.of_N x) s.
Proof.
  revert s. induction (N.lt_wf_0 x) as [x _ IH]; intros s.
  assert (x = 0 ∨ 0 < x)%N as [->|Hx] by lia; [done|].
  rewrite pretty_N_go_step, IH by (done || by apply N.div_lt). cbn [digits].
  rewrite pretty_N_char_nat by by apply N.mod_lt. f_equal.
  pose proof (N.div_mod x 10 ltac:(done)). lia.
Qed.
Lemma is_digit_pretty x s : (0 < x)%N ∨ is_digit s = true → is_digit (pretty_N_go x s) = true.
Proof.
  revert s. induction (N.lt_wf_0 x) as [x _ IH]; intros s Hs.
  assert (x = 0 ∨ 0 < x)%N as [->|Hx] by lia; [by destruct Hs|].
  rewrite pretty_N_go_step by done. apply IH; [by apply N.div_lt|right].
  unfold is_digit. rewrite pretty_N_char_nat by by apply N.mod_lt. by apply bool_decide_true.
Qed.
Lemma digit_byte a d : Ascii.is_nat a = Some d →
  (byte_of a <? 128)%Z = true ∧ (byte_of a =? 10)%Z = false ∧ fmt_space (byte_of a) = false ∧
  a ≠ "-"%char ∧ a ≠ "+"%char.
Proof.
  intros Ha. destruct a as [[] [] [] [] [] [] [] []]; try discriminate Ha;
    (split_and!; [reflexivity..|discriminate|discriminate]).
Qed.
Lemma decode_ascii a s : (byte_of a <? 128)%Z = true → decode_rune (String a s) = (byte_of a, 1).
Proof. intros Ha. unfold decode_rune. change (nth_byte (String a s) 0) with (byte_of a). by rewrite Ha. Qed.
Lemma scan_digits s :
  is_digit s = true →
  scan_int s = if between (- 2 ^ 63) (digits 0 s) (2 ^ 63 - 1) then Some (digits 0 s) else None.
Proof.
  intros Hs. destruct s as [|a s]; [done|].
  pose proof Hs as [d Ha]%bool_decide_eq_true.
  destruct (digit_byte a d Ha) as (H1 & H2 & H3 & H4 & H5).
  unfold scan_int. cbn [String.length skip_space]. rewrite decode_ascii, H2, H3 by done.
  cbn [mbind option_bind scan_sign]. rewrite !decide_False by done.
  by rewrite Hs, Z.mul_1_l.
Qed.
Lemma scan_Itoa z : (0 ≤ z < 2 ^ 63)%Z → scan_int (Itoa z) = Some z.
Proof.
  intros Hz. assert (is_digit (Itoa z) = true ∧ digits 0 (Itoa z) = z) as [Hd Hv].
  { destruct z as [|p|p]; [done| |lia]. change (Itoa (Z.pos p)) with (pretty (N.pos p)).
    unfold pretty, pretty_N. rewrite decide_False by done.
    rewrite digits_pretty. split; [by apply is_digit_pretty; left|done]. }
  rewrite scan_digits, Hv by done. unfold between.
  by rewrite (proj2 (Z.leb_le _ _)), (proj2 (Z.leb_le _ _)) by lia.
Qed.
Lemma Sscanf_d_Itoa pre z : (0 ≤ z < 2 ^ 63)%Z → Sscanf_d pre (pre +:+ Itoa z) = Some z.
Proof. intros Hz. unfold Sscanf_d. rewrite strip_app. by apply scan_Itoa. Qed.

(** ** [strconv]: [ParseInt] to base 10, [Atoi] and [ParseBool]

    A function returns a value also with an error; the two errors are a string that
    is no number and a number out of range. *)

Inductive NumError := ErrSyntax | ErrRange.
#[export] Instance NumError_eq_dec : EqDecision NumError.
Proof. solve_decision. Defined.

Definition maxUint64 : Z := 2 ^ 64 - 1.
Definition parse_cutoff : Z := maxUint64 / 10 + 1.

(** The loop of [ParseUint(s, 10, 64)]. *)
Fixpoint ParseUint_from (n : Z) (s : string) : Z * option NumError :=
  match s with
  | EmptyString => (n, None)
  | String a s =>
      match Ascii.is_nat a with
      | None => (0%Z, Some ErrSyntax)
      | Some d =>
          if (parse_cutoff <=? n)%Z then (maxUint64, Some ErrRange)
          else
            let n1 := wrap_u64 (n * 10 + Z.of_nat d) in
            if (n1 <? n * 10)%Z || (maxUint64 <? n1)%Z then (maxUint64, Some ErrRange)
            else ParseUint_from n1 s
      end
  end.
Definition ParseUint (s : string) : Z * option NumError :=
  match s with EmptyString => (0%Z, Some ErrSyntax) | _ => ParseUint_from 0 s end.

(** A sign and what follows it. *)
Definition int_sign (s : string) : bool * string :=
  match s with
  | String a s' =>
      if decide (a = "+"%char) then (false, s')
      else if decide (a = "-"%char) then (true, s') else (false, s)
  | EmptyString => (false, s)
  end.

(** [strconv.ParseInt(s, 10, 64)] *)
Definition ParseInt (s : string) : Z * option NumError :=
  match s with
  | EmptyString => (0%Z, Some ErrSyntax)
  | _ =>
      let '(neg, s) := int_sign s in
      let '(un, err) := ParseUint s in
      if decide (err = Some ErrSyntax) then (0%Z, err)
      else
        let cutoff := (2 ^ 63)%Z in
        if negb neg && (cutoff <=? un)%Z then ((cutoff - 1)%Z, Some ErrRange)
        else if neg && (cutoff <? un)%Z then ((- cutoff)%Z, Some ErrRange)
        else ((if neg then - un else un)%Z, None)
  end.

(** [strconv.Atoi]: a short string is read digit by digit, a long one by
    [ParseInt]. *)
Fixpoint Atoi_fast (n : Z) (s : string) : option Z :=
  match s with
  | EmptyString => Some n
  | String a s => d ← Ascii.is_nat a; Atoi_fast (n * 10 + Z.of_nat d) s
  end.
Definition Atoi (s : string) : Z * option NumError :=
  if bool_decide (0 < String.length s < 19) then
    let '(neg, s) := int_sign s in
    match s with
    | EmptyString => (0%Z, Some ErrSyntax)
    | _ => match Atoi_fast 0 s with
           | Some n => ((if neg then - n else n)%Z, None)
           | None => (0%Z, Some ErrSyntax)
           end
    end
  else ParseInt s.

(** [strconv.ParseBool]; the flag is false after an error. *)
Definition ParseBool (s : string) : bool * bool :=
  if decide (s ∈ ["1"; "t"; "T"; "true"; "TRUE"; "True"]) then (true, true)
  else if decide (s ∈ ["0"; "f"; "F"; "false"; "FALSE"; "False"]) then (false, true)
  else (false, false).

(** Only digits. *)
Fixpoint all_digits (s : string) : bool :=
  match s with
  | EmptyString => true
  | String a s => bool_decide (is_Some (Ascii.is_nat a)) && all_digits s
  end.

Lemma digits_ge s : ∀ acc, (0 ≤ acc → acc ≤ digits acc s)%Z.
Proof.
  induction s as [|a s IH]; intros acc H; simpl; [lia|].
  destruct (Ascii.is_nat a) as [d|]; [|lia].
  transitivity (acc * 10 + Z.of_nat d)%Z; [lia|]. apply IH. lia.
Qed.

(** Numbers that fit are read as they are written. *)
Lemma ParseUint_digits s : ∀ n, all_digits s = true → (0 ≤ n)%Z → (digits n s < 2 ^ 64)%Z →
  ParseUint_from n s = (digits n s, None).
Proof.
  induction s as [|a s IH]; intros n Hs Hn Hlt; [done|]. simpl in *.
  apply andb_true_iff in Hs as [[d Hd]%bool_decide_eq_true Hs]. rewrite Hd in *.
  assert (n * 10 + Z.of_nat d < 2 ^ 64)%Z as Hb.
  { eapply Z.le_lt_trans; [apply (digits_ge s)|done]. lia. }
  assert (parse_cutoff = 1844674407370955162)%Z as -> by reflexivity.
  assert (maxUint64 = 2 ^ 64 - 1)%Z as -> by reflexivity.
  rewrite wrap_u64_id by lia.
  destruct (Z.leb_spec 1844674407370955162 n); [lia|].
  destruct (Z.ltb_spec (n * 10 + Z.of_nat d) (n * 10)); [lia|].
  destruct (Z.ltb_spec (2 ^ 64 - 1) (n * 10 + Z.of_nat d)); [lia|]. simpl.
  apply IH; [done|lia|done].
Qed.

Lemma all_digits_pretty x s : all_digits s = true → all_digits (pretty_N_go x s) = true.
Proof.
  revert s. induction (N.lt_wf_0 x) as [x _ IH]; intros s Hs.
  assert (x = 0 ∨ 0 < x)%N as [->|Hx] by lia; [done|].
  rewrite pretty_N_go_step by done. apply IH; [by apply N.div_lt|]. simpl.
  rewrite pretty_N_char_nat by by apply N.mod_lt. done.
Qed.

Lemma Itoa_digits z : (0 ≤ z)%Z →
  all_digits (Itoa z) = true ∧ is_digit (Itoa z) = true ∧ digits 0 (Itoa z) = z.
Proof.
  intros Hz. destruct z as [|p|p]; [done| |lia]. change (Itoa (Z.pos p)) with (pretty (N.pos p)).
  unfold pretty, pretty_N. rewrite decide_False by done.
  rewrite digits_pretty. split; [by apply all_digits_pretty|]. split; [|done].
  by apply is_digit_pretty; left.
Qed.

Lemma int_sign_digit s : is_digit s = true → int_sign s = (false, s).
Proof.
  destruct s as [|a s]; [done|]. intros [d Ha]%bool_decide_eq_true.
  destruct (digit_byte a d Ha) as (_ & _ & _ & H1 & H2). simpl. by rewrite !decide_False.
Qed.

Lemma ParseInt_Itoa z : (0 ≤ z < 2 ^ 63)%Z → ParseInt (Itoa z) = (z, None).
Proof.
  intros Hz. destruct (Itoa_digits z ltac:(lia)) as (Hd & Hi & Hv).
  unfold ParseInt. rewrite (int_sign_digit _ Hi).
  destruct (Itoa z) as [|a s] eqn:Hs; [done|]. unfold ParseUint.
  rewrite ParseUint_digits by (done || rewrite Hv; lia). rewrite Hv, decide_False by done.
  cbn [negb andb]. by destruct (Z.leb_spec (2 ^ 63) z); [lia|].
Qed.

Lemma Atoi_fast_digits s : ∀ n, all_digits s = true → Atoi_fast n s = Some (digits n s).
Proof.
  induction s as [|a s IH]; intros n Hs; [done|]. simpl in *.
  apply andb_true_iff in Hs as [[d Hd]%bool_decide_eq_true Hs]. rewrite Hd. by apply IH.
Qed.

Lemma Atoi_Itoa z : (0 ≤ z < 2 ^ 63)%Z → Atoi (Itoa z) = (z, None).
Proof.
  intros Hz. unfold Atoi. case_bool_decide; [|by apply ParseInt_Itoa].
  destruct (Itoa_digits z ltac:(lia)) as (Hd & Hi & Hv). rewrite (int_sign_digit _ Hi).
  destruct (Itoa z) as [|a s] eqn:Hs; [done|]. by rewrite Atoi_fast_digits, Hv.
Qed.

(** The short way to read a number agrees with the long one. *)
Lemma Atoi_fast_ParseUint s : ∀ n, (0 ≤ n)%Z →
  ((n + 1) * 10 ^ Z.of_nat (String.length s) ≤ 10 ^ 18)%Z →
  match Atoi_fast n s with
  | Some v => ParseUint_from n s = (v, None) ∧ (0 ≤ v < 10 ^ 18)%Z
  | None => ParseUint_from n s = (0%Z, Some ErrSyntax)
  end.
Proof.
  induction s as [|a s IH]; intros n Hn Hb; cbn [String.length] in Hb.
  { simpl. split; [done|]. change (10 ^ Z.of_nat 0)%Z with 1%Z in Hb. lia. }
  rewrite Nat2Z.inj_succ, Z.pow_succ_r in Hb by lia.
  pose proof (Z.pow_pos_nonneg 10 (Z.of_nat (String.length s)) ltac:(lia) ltac:(lia)) as Hp.
  cbn [Atoi_fast ParseUint_from]. destruct (Ascii.is_nat a) as [d|] eqn:Hd; [|done].
  assert (Z.of_nat d < 10)%Z as Hd10.
  { destruct a as [[] [] [] [] [] [] [] []]; try discriminate Hd; injection Hd as <-; lia. }
  assert ((n * 10 + Z.of_nat d + 1) * 10 ^ Z.of_nat (String.length s) ≤ 10 ^ 18)%Z as Hb' by nia.
  assert (n * 10 + Z.of_nat d < 10 ^ 18)%Z as Hlt by nia.
  assert (parse_cutoff = 1844674407370955162)%Z as -> by reflexivity.
  assert (maxUint64 = 2 ^ 64 - 1)%Z as -> by reflexivity.
  rewrite wrap_u64_id by lia.
  destruct (Z.leb_spec 1844674407370955162 n); [lia|].
  destruct (Z.ltb_spec (n * 10 + Z.of_nat d) (n * 10)); [lia|].
  destruct (Z.ltb_spec (2 ^ 64 - 1) (n * 10 + Z.of_nat d)); [lia|].
  cbn [orb mbind option_bind]. apply IH; [lia|done].
Qed.

Lemma int_sign_length s : String.length (int_sign s).2 ≤ String.length s.
Proof. destruct s as [|a s]; [done|]. simpl. repeat case_decide; simpl; lia. Qed.

Lemma Atoi_ParseInt s : Atoi s = ParseInt s.
Proof.
  unfold Atoi. case_bool_decide as Hl; [|done]. pose proof (int_sign_length s) as Hsl.
  unfold ParseInt. destruct s as [|a s]; [simpl in Hl; lia|].
  destruct (int_sign (String a s)) as [neg s']. simpl in Hsl, Hl.
  destruct s' as [|b s']; [done|]. unfold ParseUint.
  pose proof (Atoi_fast_ParseUint (String b s') 0 ltac:(lia)) as H.
  rewrite Z.mul_1_l in H. specialize (H ltac:(apply Z.pow_le_mono_r; cbn [String.length] in *; lia)).
  destruct (Atoi_fast 0 (String b s')) as [v|].
  - destruct H as [-> Hv]. rewrite decide_False by done.
    destruct (Z.leb_spec (2 ^ 63) v); [lia|]. destruct (Z.ltb_spec (2 ^ 63) v); [lia|].
    by rewrite !andb_false_r.
  - by rewrite H, decide_True.
Qed.
