(* ===== verification/ShardCfg.v ===== *)
(** * Shard configurations: [shardkv1/shardcfg/shardcfg.go]

    The assignment of the twelve shards to replica groups, the greedy
    rebalancing of that assignment, and the join and leave operations the shard
    controller applies to it. *)

From S2P Require Export GoStd.
Local Open Scope Z_scope.

Abbreviation Tgid := Z.
Abbreviation Tshid := Z.
Abbreviation Tnum := Z.

Definition NShards : nat := 12.
Definition NumFirst : Tnum := 1.
Definition Gid1 : Tgid := 1.

(** [Tshid(Tshid(h.Sum32()) % NShards)]; [int] has 64 bits, so the conversion of
    the [uint32] is exact. *)
Definition Key2Shard (key : string) : Tshid := Z.rem (fnv32a key) (Z.of_nat NShards).

Record ShardConfig := mkShardConfig {
  Num : Tnum;
  Shards : list Tgid;
  Groups : gmap Tgid (list string)
}.

#[export] Instance ShardConfig_eq_dec : EqDecision ShardConfig.
Proof. solve_decision. Defined.

Definition set_shards (c : ShardConfig) (l : list Tgid) : ShardConfig :=
  mkShardConfig (Num c) l (Groups c).
Definition set_groups (c : ShardConfig) (g : gmap Tgid (list string)) : ShardConfig :=
  mkShardConfig (Num c) (Shards c) g.

(** The keys a [range] over a map visits, in one of its possible orders. *)
Definition map_keys {A} (m : gmap Z A) : list Z := (map_to_list m).*1.

(** The zero value of the array and of the number. *)
Definition MakeShardConfig : ShardConfig := mkShardConfig 0 (replicate NShards 0) ∅.

Definition Copy (cfg : ShardConfig) : ShardConfig :=
  let c := mkShardConfig (Num cfg) (Shards cfg) (Groups MakeShardConfig) in
  set_groups c (foldl (λ gs '(k, srvs), <[k := srvs]> gs) (Groups c)
                  (map_to_list (Groups cfg))).

(** [counts[g] += 1] for every entry of the shard array. *)
Definition count_shards (shards : list Tgid) : gmap Tgid Z :=
  foldl (λ counts g, <[g := default 0 (counts !! g) + 1]> counts) ∅ shards.

(** The loop of [analyze] over the sorted group identifiers. *)
Definition analyze_step (counts : gmap Tgid Z)
    (acc : Tgid * Z * Tgid * Z) (g : Tgid) : Tgid * Z * Tgid * Z :=
  let '(mg, mn, lg, ln) := acc in
  let n := default 0 (counts !! g) in
  let '(lg, ln) := if n <? ln then (g, n) else (lg, ln) in
  let '(mg, mn) := if mn <? n then (g, n) else (mg, mn) in
  (mg, mn, lg, ln).

(** [order] is the order in which [range c.Groups] yields the keys. *)
Definition analyze_order (order : list Tgid) (c : ShardConfig) : Tgid * Z * Tgid * Z :=
  let counts := count_shards (Shards c) in
  let groups := sort_ints order in
  foldl (analyze_step counts) (-1, -1, -1, 257) groups.

Definition analyze (c : ShardConfig) : Tgid * Z * Tgid * Z :=
  analyze_order (map_keys (Groups c)) c.

Definition least (c : ShardConfig) : Tgid :=
  let '(_, _, lg, _) := analyze c in lg.

(** [for s, g := range c.Shards]: the range expression is an array, so the loop
    visits a copy made before the first assignment. *)
Definition assign_step (c : ShardConfig) (sg : nat * Tgid) : ShardConfig :=
  let '(s, g) := sg in
  match Groups c !! g with
  | Some _ => c
  | None => set_shards c (<[s := least c]> (Shards c))
  end.

Definition assign_unassigned (c : ShardConfig) : ShardConfig :=
  foldl assign_step c (imap pair (Shards c)).

(** Move the first shard of [mg] to [lg]. *)
Definition move_one (mg lg : Tgid) (shards : list Tgid) : list Tgid :=
  match list_find (λ g, g = mg) shards with
  | Some (s, _) => <[s := lg]> shards
  | None => shards
  end.

Fixpoint balance_loop (fuel : nat) (c : ShardConfig) : outcome ShardConfig :=
  match fuel with
  | O => Diverge
  | S fuel =>
      let '(mg, mn, lg, ln) := analyze c in
      if mn <? ln + 2 then Ret c
      else balance_loop fuel (set_shards c (move_one mg lg (Shards c)))
  end.

(** Enough turns of the balancing loop for any configuration: see
    [balance_loop_terminates]. *)
Definition balance_fuel : nat := S (NShards * NShards).

Definition Rebalance (c : ShardConfig) : outcome ShardConfig :=
  if decide (size (Groups c) < 1)%nat then
    Ret (set_shards c (imap (λ _ _, 0) (Shards c)))
  else balance_loop balance_fuel (assign_unassigned c).

(** Does some group of the configuration contain one of the servers? *)
Definition servers_clash (servers : list string) (gs : gmap Tgid (list string)) : bool :=
  existsb (λ '(_, xservers),
    existsb (λ s1, existsb (λ s2, bool_decide (s1 = s2)) servers) xservers)
    (map_to_list gs).

(** The loop of [Join] over the argument map, in the order [range] visits it.
    [true] when every group was added, [false] at the first group that is
    already present; the configuration keeps what was added before. *)
Fixpoint join_loop (servers : list (Tgid * list string)) (changed : bool)
    (cfg : ShardConfig) : outcome (option bool * ShardConfig) :=
  match servers with
  | [] => Ret (Some changed, cfg)
  | (gid, srvs) :: rest =>
      match Groups cfg !! gid with
      | Some _ => Ret (None, cfg)
      | None =>
          if servers_clash srvs (Groups cfg) then Fatal "Join puts server in two groups"
          else join_loop rest true (set_groups cfg (<[gid := srvs]> (Groups cfg)))
      end
  end.

(** [cfg.Num += 1].  [Num] counts the changes of a run one by one, so that no run
    gets near the largest [int]: its wrap-around is left out. *)
Definition bump_num (cfg : ShardConfig) : ShardConfig :=
  mkShardConfig (Num cfg + 1) (Shards cfg) (Groups cfg).

Definition Join (servers : list (Tgid * list string)) (cfg : ShardConfig)
    : outcome (bool * ShardConfig) :=
  '(changed, cfg) ← join_loop servers false cfg;
  match changed with
  | None => Ret (false, cfg)
  | Some false => Fatal "Join but no change"
  | Some true => Ret (true, bump_num cfg)
  end.

Fixpoint leave_loop (gids : list Tgid) (changed : bool) (cfg : ShardConfig)
    : option bool * ShardConfig :=
  match gids with
  | [] => (Some changed, cfg)
  | gid :: rest =>
      match Groups cfg !! gid with
      | None => (None, cfg)
      | Some _ => leave_loop rest true (set_groups cfg (delete gid (Groups cfg)))
      end
  end.

Definition Leave (gids : list Tgid) (cfg : ShardConfig) : outcome (bool * ShardConfig) :=
  match leave_loop gids false cfg with
  | (None, cfg) => Ret (false, cfg)
  | (Some false, _) => Fatal "Leave but no change"
  | (Some true, cfg) => Ret (true, bump_num cfg)
  end.

Definition JoinBalance (servers : list (Tgid * list string)) (cfg : ShardConfig)
    : outcome (bool * ShardConfig) :=
  '(ok, cfg) ← Join servers cfg;
  if negb ok then Ret (false, cfg)
  else cfg ← Rebalance cfg; Ret (true, cfg).

Definition LeaveBalance (gids : list Tgid) (cfg : ShardConfig)
    : outcome (bool * ShardConfig) :=
  '(ok, cfg) ← Leave gids cfg;
  if negb ok then Ret (false, cfg)
  else cfg ← Rebalance cfg; Ret (true, cfg).

(** The group of a shard and its servers; the index is checked by Go. *)
Definition GidServers (sh : Tshid) (cfg : ShardConfig)
    : outcome (Tgid * list string * bool) :=
  match (if 0 <=? sh then Shards cfg !! Z.to_nat sh else None) with
  | None => Panic "index out of range"
  | Some gid =>
      match Groups cfg !! gid with
      | Some srvs => Ret (gid, srvs, true)
      | None => Ret (gid, [], false)
      end
  end.

Definition IsMember (gid : Tgid) (cfg : ShardConfig) : bool :=
  existsb (λ g, bool_decide (g = gid)) (Shards cfg).

(** The extremes [CheckConfig] computes over the groups. *)
Definition minmax_step (counts : gmap Tgid Z) (acc : Z * Z) (g : Tgid) : Z * Z :=
  let '(mn, mx) := acc in
  let n := default 0 (counts !! g) in
  (if n <? mn then n else mn, if mx <? n then n else mx).

Definition CheckConfig (groups : list Tgid) (cfg : ShardConfig) : outcome unit :=
  if decide (size (Groups cfg) ≠ length groups) then Fatal "wanted other number of groups"
  else if existsb (λ g, bool_decide (Groups cfg !! g = None)) groups
  then Fatal "missing group"
  else if (0 <? Z.of_nat (length groups)) &&
          existsb (λ g, bool_decide (Groups cfg !! g = None)) (Shards cfg)
  then Fatal "shard in invalid group"
  else
    let '(mn, mx) :=
      foldl (minmax_step (count_shards (Shards cfg))) (257, 0) (map_keys (Groups cfg)) in
    if mn + 1 <? mx then Fatal "max too much larger than min" else Ret ().

(** ** Counting *)

(** The number of shards of a group. *)
Definition load (g : Tgid) (c : ShardConfig) : Z := Z.of_nat (occ g (Shards c)).

Lemma count_shards_from (counts : gmap Tgid Z) (l : list Tgid) (g : Tgid) :
  default 0 (foldl (λ counts g, <[g := default 0 (counts !! g) + 1]> counts) counts l !! g)
  = default 0 (counts !! g) + Z.of_nat (occ g l).
Proof.
  revert counts. induction l as [|x l IH]; intros counts; simpl; [lia|].
  rewrite IH. destruct (decide (g = x)) as [->|].
  - rewrite lookup_insert_eq. simpl. lia.
  - rewrite lookup_insert_ne by done. lia.
Qed.

Lemma count_shards_occ (l : list Tgid) (g : Tgid) : default 0 (count_shards l !! g) = Z.of_nat (occ g l).
Proof. unfold count_shards. rewrite count_shards_from, lookup_empty. simpl. lia. Qed.

Lemma load_bound g c : length (Shards c) = NShards → 0 ≤ load g c ≤ 12.
Proof.
  unfold load. pose proof (occ_le_length g (Shards c)). unfold NShards. lia.
Qed.

Lemma elem_of_map_keys {A} (m : gmap Z A) k : k ∈ map_keys m ↔ is_Some (m !! k).
Proof.
  unfold map_keys. rewrite list_elem_of_fmap. split.
  - intros ([k' a] & -> & H%elem_of_map_to_list). simpl. eauto.
  - intros [a H]. exists (k, a). by rewrite elem_of_map_to_list.
Qed.

Lemma NoDup_map_keys {A} (m : gmap Z A) : NoDup (map_keys m).
Proof. apply NoDup_fst_map_to_list. Qed.

Lemma length_map_keys {A} (m : gmap Z A) : length (map_keys m) = size m.
Proof. unfold map_keys. by rewrite length_fmap, length_map_to_list. Qed.

(** ** [analyze] *)

(** What the loop of [analyze] knows after the groups [gs]: the extremes of the
    loads and, among the groups that reach them, the smallest identifiers. *)
Definition extremes (cnt : Tgid → Z) (gs : list Tgid) (acc : Tgid * Z * Tgid * Z) : Prop :=
  let '(mg, mn, lg, ln) := acc in
  (mg ∈ gs ∧ mn = cnt mg ∧ lg ∈ gs ∧ ln = cnt lg) ∧
  ∀ g, g ∈ gs → (ln ≤ cnt g ≤ mn) ∧ (cnt g = mn → mg ≤ g) ∧ (cnt g = ln → lg ≤ g).

Lemma analyze_step_first (counts : gmap Tgid Z) (g : Tgid) :
  0 ≤ default 0 (counts !! g) < 257 →
  analyze_step counts (-1, -1, -1, 257) g
  = (g, default 0 (counts !! g), g, default 0 (counts !! g)).
Proof.
  intros H. unfold analyze_step.
  destruct (Z.ltb_spec (default 0 (counts !! g)) 257); [|lia].
  destruct (Z.ltb_spec (-1) (default 0 (counts !! g))); [done|lia].
Qed.

Lemma analyze_step_next (counts : gmap Tgid Z) (gs : list Tgid) acc (g : Tgid) :
  (∀ x, x ∈ gs → x ≤ g) →
  extremes (λ g, default 0 (counts !! g)) gs acc →
  extremes (λ g, default 0 (counts !! g)) (gs ++ [g]) (analyze_step counts acc g).
Proof.
  destruct acc as [[[mg mn] lg] ln]. intros Hle ((Hmg & Hmn & Hlg & Hln) & Hall).
  pose proof (Hall _ Hmg) as Hmin. pose proof (Hle _ Hmg). pose proof (Hle _ Hlg).
  unfold analyze_step. set (cnt := λ g, default 0 (counts !! g)) in *.
  change (default 0 (counts !! g)) with (cnt g).
  assert (∀ P : Z → Prop, (∀ x, x ∈ gs ++ [g] → P x) ↔ (∀ x, x ∈ gs → P x) ∧ P g) as Hsnoc.
  { intros P. setoid_rewrite elem_of_app. setoid_rewrite list_elem_of_singleton.
    split; [auto|]. intros [? ?] x [?| ->]; auto. }
  destruct (Z.ltb_spec (cnt g) ln), (Z.ltb_spec mn (cnt g)); simpl;
    (split; [rewrite !elem_of_app, !list_elem_of_singleton; tauto|]);
    rewrite Hsnoc; (split; [|unfold cnt in *; lia]); intros x Hx;
    destruct (Hall x Hx) as (? & ? & ?); pose proof (Hle x Hx); unfold cnt in *; lia.
Qed.

Lemma analyze_fold_extremes (counts : gmap Tgid Z) (gs : list Tgid) :
  gs ≠ [] → StronglySorted Z.le gs →
  (∀ g, g ∈ gs → 0 ≤ default 0 (counts !! g) < 257) →
  extremes (λ g, default 0 (counts !! g)) gs
    (foldl (analyze_step counts) (-1, -1, -1, 257) gs).
Proof.
  induction gs as [|g gs IH] using rev_ind; intros Hne Hs Hr; [done|].
  rewrite foldl_app. cbn [foldl]. destruct (decide (gs = [])) as [->|Hgs].
  - cbn [foldl app]. rewrite analyze_step_first by (apply Hr; left).
    split; [set_solver|]. intros x ->%list_elem_of_singleton. lia.
  - apply analyze_step_next.
    + intros x Hx. eapply (StronglySorted_app_1_elem_of Z.le gs [g]); [done|done|by left].
    + apply IH; [done| |intros; apply Hr; set_solver].
      by eapply StronglySorted_app_1_l.
Qed.

Lemma analyze_order_perm o1 o2 c : o1 ≡ₚ o2 → analyze_order o1 c = analyze_order o2 c.
Proof. intros H. unfold analyze_order. by rewrite (sort_ints_perm _ _ H). Qed.

Lemma analyze_extremes c :
  length (Shards c) = NShards → Groups c ≠ ∅ →
  extremes (λ g, load g c) (map_keys (Groups c)) (analyze c).
Proof.
  intros Hlen Hne. unfold analyze, analyze_order.
  pose proof (analyze_fold_extremes (count_shards (Shards c))
    (sort_ints (map_keys (Groups c)))) as H.
  destruct (foldl _ _ _) as [[[mg mn] lg] ln].
  unfold extremes in *. setoid_rewrite elem_of_sort_ints in H.
  setoid_rewrite count_shards_occ in H. apply H.
  - intros He. apply Hne, map_size_empty_inv.
    by rewrite <-length_map_keys, <-length_sort_ints, He.
  - apply (StronglySorted_merge_sort Z.le).
  - intros g _. pose proof (load_bound g c Hlen). unfold load in *. lia.
Qed.

(** ** [Rebalance] *)

(** Every shard belongs to a group of the configuration. *)
Definition assigned (c : ShardConfig) : Prop :=
  ∀ g, g ∈ Shards c → is_Some (Groups c !! g).

(** The loads of any two groups differ by at most one. *)
Definition balanced (c : ShardConfig) : Prop :=
  ∀ g1 g2, is_Some (Groups c !! g1) → is_Some (Groups c !! g2) →
    load g1 c ≤ load g2 c + 1.

(** What [Rebalance] keeps. *)
Definition same_groups (c c' : ShardConfig) : Prop :=
  Num c' = Num c ∧ Groups c' = Groups c ∧ length (Shards c') = length (Shards c).

#[export] Instance same_groups_preorder : PreOrder same_groups.
Proof.
  split; [by intros c|]. intros c1 c2 c3 (?&?&?) (?&?&?). repeat split; congruence.
Qed.

Lemma least_member c :
  length (Shards c) = NShards → Groups c ≠ ∅ → is_Some (Groups c !! least c).
Proof.
  intros Hl Hne. pose proof (analyze_extremes c Hl Hne) as H. unfold least.
  destruct (analyze c) as [[[mg mn] lg] ln], H as ((_ & _ & H & _) & _).
  by apply elem_of_map_keys.
Qed.

Lemma assign_step_same c sg : same_groups c (assign_step c sg).
Proof.
  destruct sg as [s g]. unfold assign_step. destruct (Groups c !! g); [done|].
  repeat split. by apply length_insert.
Qed.

Lemma assign_fold_same l c : same_groups c (foldl assign_step c l).
Proof.
  revert c. induction l as [|x l IH]; intros c; [done|]. simpl.
  etrans; [apply assign_step_same|apply IH].
Qed.

(** The loop over a suffix of the copied array: the entries before it are
    assigned, the entries of the suffix are still the copied ones. *)
Lemma assign_fold_assigned gs : ∀ (n : nat) c,
  length (Shards c) = NShards → Groups c ≠ ∅ →
  drop n (Shards c) = gs →
  (∀ g, g ∈ take n (Shards c) → is_Some (Groups c !! g)) →
  assigned (foldl assign_step c (imap (λ i g, (n + i, g)%nat) gs)).
Proof.
  induction gs as [|g gs IH]; intros n c Hlen Hne Hdrop Htake.
  { simpl. intros g Hg. apply Htake.
    rewrite <-(take_drop n (Shards c)), Hdrop, app_nil_r in Hg. done. }
  assert (Shards c !! n = Some g) as Hn.
  { rewrite <-(Nat.add_0_r n), <-lookup_drop, Hdrop. done. }
  assert (drop (S n) (Shards c) = gs) as Hdrop'.
  { rewrite <-Nat.add_1_r, <-drop_drop, Hdrop. done. }
  pose proof (lookup_lt_Some _ _ _ Hn) as Hlt.
  cbn [imap foldl]. rewrite Nat.add_0_r.
  rewrite (imap_ext _ (λ i g, (S n + i, g)%nat)) by (intros; simpl; f_equal; lia).
  unfold assign_step at 2. destruct (Groups c !! g) as [srvs|] eqn:Hg.
  - apply IH; [done..|]. intros x Hx.
    rewrite (take_S_r _ _ _ Hn), elem_of_app, list_elem_of_singleton in Hx.
    destruct Hx as [Hx| ->]; eauto.
  - apply IH; simpl; [by rewrite length_insert|done| |].
    + rewrite drop_insert_lt by lia. done.
    + intros x Hx. rewrite (take_S_r _ _ (least c)) in Hx by (by apply list_lookup_insert_eq).
      rewrite take_insert_ge, elem_of_app, list_elem_of_singleton in Hx by lia.
      destruct Hx as [Hx| ->]; [by auto|by apply least_member].
Qed.

Lemma assign_unassigned_ok c :
  length (Shards c) = NShards → Groups c ≠ ∅ →
  same_groups c (assign_unassigned c) ∧ assigned (assign_unassigned c).
Proof.
  intros Hl Hne. split; [apply assign_fold_same|].
  by apply (assign_fold_assigned (Shards c) 0 c); [..|intros g ?%elem_of_nil].
Qed.

(** One move takes a shard from the fullest group to the emptiest one. *)
Lemma move_one_occ mg lg l g :
  mg ∈ l →
  (occ g (move_one mg lg l) + (if decide (g = mg) then 1 else 0)
   = occ g l + (if decide (g = lg) then 1 else 0))%nat.
Proof.
  intros Hin. unfold move_one.
  destruct (list_find (λ g, g = mg) l) as [[s x]|] eqn:Hf.
  - apply list_find_Some in Hf as (Hs & -> & _). by apply occ_insert.
  - apply list_find_None in Hf. rewrite Forall_forall in Hf. by destruct (Hf mg).
Qed.

Lemma length_move_one mg lg l : length (move_one mg lg l) = length l.
Proof.
  unfold move_one. destruct (list_find _ l) as [[s x]|]; [apply length_insert|done].
Qed.

Lemma move_one_elem mg lg l g : g ∈ move_one mg lg l → g ∈ l ∨ g = lg.
Proof.
  unfold move_one. destruct (list_find _ l) as [[s x]|]; [|by left].
  intros Hg%list_elem_of_lookup. destruct Hg as [i Hi].
  rewrite list_lookup_insert_Some in Hi.
  destruct Hi as [(_ & -> & _)|[_ Hi]]; [by right|left]. by eapply list_elem_of_lookup_2.
Qed.

(** The variant of the loop: the sum of the squares of the loads. *)
Definition squares (c : ShardConfig) : Z :=
  zsum (λ g, load g c * load g c) (map_keys (Groups c)).

Lemma squares_bound c : length (Shards c) = NShards → 0 ≤ squares c ≤ 144.
Proof.
  intros Hl. split; [apply zsum_nonneg; intros; nia|].
  trans (zsum (λ g, 12 * load g c) (map_keys (Groups c))).
  - apply zsum_le. intros g _. pose proof (load_bound g c Hl). nia.
  - pose proof (zsum_occ_le (map_keys (Groups c)) (Shards c) (NoDup_map_keys _)) as H.
    rewrite Hl in H. unfold load. revert H. generalize (map_keys (Groups c)) as ks.
    intros ks. enough (zsum (λ g, 12 * Z.of_nat (occ g (Shards c))) ks
      = 12 * zsum (λ g, Z.of_nat (occ g (Shards c))) ks) by (unfold NShards; lia).
    induction ks; simpl; lia.
Qed.

Lemma load_move c mg lg g :
  mg ∈ Shards c →
  load g (set_shards c (move_one mg lg (Shards c)))
  = load g c - (if decide (g = mg) then 1 else 0) + (if decide (g = lg) then 1 else 0).
Proof.
  intros Hin. pose proof (move_one_occ mg lg (Shards c) g Hin). unfold load. simpl.
  destruct (decide (g = mg)), (decide (g = lg)); lia.
Qed.

(** The facts one turn of the loop has about its configuration. *)
Lemma analyze_move c mg mn lg ln :
  length (Shards c) = NShards → Groups c ≠ ∅ →
  analyze c = (mg, mn, lg, ln) → ln + 2 ≤ mn →
  mg ∈ map_keys (Groups c) ∧ lg ∈ map_keys (Groups c) ∧
  load lg c + 2 ≤ load mg c ∧ mg ≠ lg ∧ mg ∈ Shards c.
Proof.
  intros Hl Hne Ha Hge. pose proof (analyze_extremes c Hl Hne) as H. rewrite Ha in H.
  destruct H as ((Hmg & -> & Hlg & ->) & _). pose proof (load_bound lg c Hl).
  repeat split; [done|done|done|intros ->; lia|].
  apply occ_elem. unfold load in *. lia.
Qed.

Lemma squares_move c mg mn lg ln :
  length (Shards c) = NShards → Groups c ≠ ∅ →
  analyze c = (mg, mn, lg, ln) → ln + 2 ≤ mn →
  squares (set_shards c (move_one mg lg (Shards c))) ≤ squares c - 2.
Proof.
  intros Hl Hne Ha Hge.
  destruct (analyze_move c mg mn lg ln) as (Hmg & Hlg & Hge' & Hd & Hin); [done..|].
  set (c' := set_shards c (move_one mg lg (Shards c))).
  assert (∀ g, load g c' = _) as Hload by (intros; by apply load_move).
  unfold squares. change (Groups c') with (Groups c).
  rewrite (zsum_upd _ (λ g, if decide (g = mg) then load g c' * load g c'
      else load g c * load g c) _ lg (load lg c' * load lg c' - load lg c * load lg c));
    [|apply NoDup_map_keys|done| |].
  - rewrite (zsum_upd _ (λ g, load g c * load g c) _ mg
      (load mg c' * load mg c' - load mg c * load mg c));
      [|apply NoDup_map_keys|done| |].
    + rewrite !Hload. simpl_decide. lia.
    + intros y _ Hy. by rewrite decide_False.
    + rewrite decide_True by done. lia.
  - intros y _ Hy. destruct (decide (y = mg)); [done|].
    rewrite Hload. simpl_decide. ring.
  - rewrite decide_False by done. lia.
Qed.

Lemma assigned_move c mg lg :
  is_Some (Groups c !! lg) → assigned c →
  assigned (set_shards c (move_one mg lg (Shards c))).
Proof. intros Hlg Hc g [Hg| ->]%move_one_elem; simpl; auto. Qed.

Lemma balanced_of_analyze c mg mn lg ln :
  length (Shards c) = NShards → Groups c ≠ ∅ →
  analyze c = (mg, mn, lg, ln) → mn < ln + 2 → balanced c.
Proof.
  intros Hl Hne Ha Hlt g1 g2 H1%elem_of_map_keys H2%elem_of_map_keys.
  pose proof (analyze_extremes c Hl Hne) as H. rewrite Ha in H. destruct H as [_ H].
  destruct (H _ H1) as [? _], (H _ H2) as [? _]. lia.
Qed.

Lemma balanced_stops c mg mn lg ln :
  length (Shards c) = NShards → Groups c ≠ ∅ → balanced c →
  analyze c = (mg, mn, lg, ln) → mn < ln + 2.
Proof.
  intros Hl Hne Hb Ha.
  pose proof (analyze_extremes c Hl Hne) as H. rewrite Ha in H.
  destruct H as ((Hmg & -> & Hlg & ->) & _).
  pose proof (Hb mg lg ltac:(by apply elem_of_map_keys) ltac:(by apply elem_of_map_keys)).
  lia.
Qed.

(** The balancing loop stops after at most half as many turns as the variant,
    in a configuration that is balanced. *)
Lemma balance_loop_terminates fuel c :
  length (Shards c) = NShards → Groups c ≠ ∅ → squares c < 2 * Z.of_nat fuel →
  assigned c →
  ∃ c', balance_loop fuel c = Ret c' ∧ same_groups c c' ∧ assigned c' ∧ balanced c'.
Proof.
  revert c. induction fuel as [|fuel IH]; intros c Hl Hne Hf Ha.
  { pose proof (squares_bound c Hl). lia. }
  cbn [balance_loop]. destruct (analyze c) as [[[mg mn] lg] ln] eqn:Han.
  destruct (Z.ltb_spec mn (ln + 2)) as [Hlt|Hge].
  - exists c. repeat split; try done. by eapply balanced_of_analyze.
  - pose proof (squares_move c mg mn lg ln Hl Hne Han Hge).
    destruct (analyze_move c mg mn lg ln) as (_ & Hlg%elem_of_map_keys & _); [done..|].
    set (c1 := set_shards c (move_one mg lg (Shards c))) in *.
    assert (same_groups c c1) as Hs by (repeat split; apply length_move_one).
    destruct (IH c1) as (c' & Hc' & Hs' & ?); [by rewrite (proj2 (proj2 Hs))|done|lia| |].
    { by apply assigned_move. }
    exists c'. split; [done|]. split; [by trans c1|done].
Qed.

Lemma Groups_size_0 (c : ShardConfig) : (size (Groups c) < 1)%nat ↔ Groups c = ∅.
Proof. rewrite <-map_size_empty_iff. lia. Qed.

Lemma Rebalance_nonempty c :
  Groups c ≠ ∅ → Rebalance c = balance_loop balance_fuel (assign_unassigned c).
Proof. intros H. unfold Rebalance. by rewrite decide_False by (by rewrite Groups_size_0). Qed.

Lemma Rebalance_empty c :
  Groups c = ∅ → Rebalance c = Ret (set_shards c (replicate (length (Shards c)) 0)).
Proof.
  intros H. unfold Rebalance. rewrite decide_True by (by rewrite Groups_size_0).
  do 2 f_equal. apply list_eq_same_length with (length (Shards c));
    rewrite ?length_imap, ?length_replicate; [done..|].
  intros i x y _. rewrite list_lookup_imap, lookup_replicate.
  intros (? & _ & <-)%fmap_Some (-> & _). done.
Qed.

Lemma Rebalance_total c :
  length (Shards c) = NShards →
  ∃ c', Rebalance c = Ret c' ∧ same_groups c c' ∧
        (Groups c = ∅ → Forall (λ g, g = 0) (Shards c')) ∧
        (Groups c ≠ ∅ → assigned c' ∧ balanced c').
Proof.
  intros Hl. destruct (decide (Groups c = ∅)) as [He|Hne].
  - rewrite Rebalance_empty by done. eexists. split; [done|].
    split; [by repeat split; simpl; rewrite length_replicate|].
    split; [intros _; by apply Forall_replicate|done].
  - rewrite Rebalance_nonempty by done.
    destruct (assign_unassigned_ok c Hl Hne) as [(Hn & Hg & Hlen) Ha].
    destruct (balance_loop_terminates balance_fuel (assign_unassigned c))
      as (c' & -> & Hs & ? & ?); [congruence..| |done|].
    { pose proof (squares_bound (assign_unassigned c) ltac:(congruence)).
      unfold balance_fuel, NShards. lia. }
    exists c'. split; [done|]. split; [|done].
    by trans (assign_unassigned c).
Qed.

(** An assignment that is complete and balanced is left as it is. *)
Lemma assign_fold_id c l : (∀ s g, (s, g) ∈ l → is_Some (Groups c !! g)) →
  foldl assign_step c l = c.
Proof.
  induction l as [|[s g] l IH]; simpl; intros H; [done|].
  destruct (H s g ltac:(left)) as [srvs Hg]. rewrite Hg. apply IH. set_solver.
Qed.

Lemma assign_unassigned_id c : assigned c → assign_unassigned c = c.
Proof.
  intros Ha. apply assign_fold_id. intros s g Hin. apply Ha.
  apply list_elem_of_lookup in Hin as [i Hi].
  rewrite list_lookup_imap in Hi. apply fmap_Some in Hi as (x & Hx & [= -> ->]).
  by eapply list_elem_of_lookup_2.
Qed.

Lemma balance_loop_balanced fuel c :
  length (Shards c) = NShards → Groups c ≠ ∅ → balanced c →
  balance_loop (S fuel) c = Ret c.
Proof.
  intros Hl Hne Hb. cbn [balance_loop].
  destruct (analyze c) as [[[mg mn] lg] ln] eqn:Ha.
  pose proof (balanced_stops c mg mn lg ln Hl Hne Hb Ha).
  by destruct (Z.ltb_spec mn (ln + 2)); [|lia].
Qed.

(** ** [Join] and [Leave] *)

(** No server is listed in two groups. *)
Definition servers_disjoint (cfg : ShardConfig) : Prop :=
  ∀ g1 g2 l1 l2 s, Groups cfg !! g1 = Some l1 → Groups cfg !! g2 = Some l2 →
    s ∈ l1 → s ∈ l2 → g1 = g2.

Lemma servers_clash_false srvs gs :
  servers_clash srvs gs = false ↔
  ∀ g l s, gs !! g = Some l → s ∈ l → s ∈ srvs → False.
Proof.
  unfold servers_clash. rewrite <-not_true_iff_false, existsb_exists. split.
  - intros H g l s Hg Hl Hs. apply H. exists (g, l).
    rewrite <-list_elem_of_In, elem_of_map_to_list. split; [done|].
    apply existsb_exists. exists s. rewrite <-list_elem_of_In. split; [done|].
    apply existsb_exists. exists s. rewrite <-list_elem_of_In, bool_decide_eq_true. done.
  - intros H ([g l] & Hg%list_elem_of_In & Hl).
    apply existsb_exists in Hl as (s & Hl%list_elem_of_In & Hs).
    apply existsb_exists in Hs as (s' & Hs%list_elem_of_In & <-%bool_decide_eq_true).
    apply elem_of_map_to_list in Hg. eauto.
Qed.

(** The new groups of a [Join]: unknown to the configuration, sharing no server
    with it nor with one another. *)
Definition joinable (servers : list (Tgid * list string)) (gs : gmap Tgid (list string))
    : Prop :=
  Forall (λ '(gid, l), gs !! gid = None ∧
                       ∀ g l' s, gs !! g = Some l' → s ∈ l' → s ∈ l → False) servers ∧
  ∀ g1 g2 l1 l2 s, (g1, l1) ∈ servers → (g2, l2) ∈ servers → s ∈ l1 → s ∈ l2 → g1 = g2.

#[export] Instance joinable_perm : Proper ((≡ₚ) ==> (=) ==> iff) joinable.
Proof.
  intros l1 l2 Hl gs ? <-. unfold joinable. rewrite Hl. by setoid_rewrite Hl.
Qed.

Lemma joinable_nil gs : joinable [] gs.
Proof. split; [done|]. intros ????? []%elem_of_nil. Qed.

Lemma joinable_cons gid l servers gs :
  gid ∉ servers.*1 → NoDup servers.*1 →
  joinable ((gid, l) :: servers) gs ↔
  gs !! gid = None ∧ servers_clash l gs = false ∧ joinable servers (<[gid := l]> gs).
Proof.
  intros Hni Hnd. rewrite servers_clash_false. unfold joinable.
  rewrite Forall_cons, !Forall_forall. split.
  - intros (([Hn Hc] & Hall) & Hp). split; [done|]. split; [done|]. split.
    + intros [g l'] Hin. destruct (Hall _ Hin) as [Hg Hc'].
      assert (gid ≠ g) by (intros ->; apply Hni, list_elem_of_fmap; by exists (g, l')).
      split; [by rewrite lookup_insert_ne|].
      intros g'' l'' s Hg'' Hs Hs'. apply lookup_insert_Some in Hg'' as [[<- <-]|[_ ?]];
        [|by eapply Hc'].
      eapply H, Hp; [by left|by right|done|done].
    + intros g1 g2 l1 l2 s H1 H2. apply Hp; by right.
  - intros (Hn & Hc & Hall & Hp). split; [split; [done|]|].
    + intros [g l'] Hin. destruct (Hall _ Hin) as [Hg Hc'].
      apply lookup_insert_None in Hg as [Hg Hne]. split; [done|].
      intros g'' l'' s Hg''. apply (Hc' g''). rewrite lookup_insert_ne; [done|].
      intros ->. congruence.
    + assert (∀ g' l' s, (g', l') ∈ servers → s ∈ l → s ∈ l' → False) as Hx.
      { intros g' l' s Hin Hs Hs'. destruct (Hall _ Hin) as [_ Hc'].
        by apply (Hc' gid l s); [rewrite lookup_insert_eq|..]. }
      intros g1 g2 l1 l2 s [[= -> ->]|H1]%elem_of_cons [[= -> ->]|H2]%elem_of_cons Hs1 Hs2;
        [done|exfalso; eauto|exfalso; eauto|eauto].
Qed.

Lemma join_loop_success servers changed cfg r :
  NoDup servers.*1 →
  join_loop servers changed cfg = Ret r ∧ r.1 ≠ None ↔
  joinable servers (Groups cfg) ∧
  r = (Some (changed || bool_decide (servers ≠ [])),
       set_groups cfg (list_to_map servers ∪ Groups cfg)).
Proof.
  revert changed cfg. induction servers as [|[gid l] servers IH]; intros changed cfg Hnd.
  - simpl. rewrite orb_false_r, map_empty_union. destruct cfg; simpl. split.
    + intros [[= <-] _]. split; [apply joinable_nil|done].
    + intros [_ ->]. done.
  - cbn [join_loop fmap list_fmap fst] in *. apply NoDup_cons in Hnd as [Hni Hnd].
    rewrite joinable_cons by done. destruct (Groups cfg !! gid) eqn:Hg.
    { split; [by intros [[= <-] ?]|by intros [(? & _) _]]. }
    destruct (servers_clash l (Groups cfg)) eqn:Hc.
    { split; [by intros [? _]|by intros [(_ & ? & _) _]]. }
    rewrite IH by done. simpl. rewrite orb_true_r.
    rewrite <-(insert_union_l _ (Groups cfg)), (insert_union_r _ (Groups cfg));
      [tauto|]. apply not_elem_of_list_to_map_1. done.
Qed.

Definition joined (servers : list (Tgid * list string)) (cfg : ShardConfig) : ShardConfig :=
  mkShardConfig (Num cfg + 1) (Shards cfg) (list_to_map servers ∪ Groups cfg).

Lemma Join_true servers cfg cfg' :
  NoDup servers.*1 →
  Join servers cfg = Ret (true, cfg') ↔
  servers ≠ [] ∧ joinable servers (Groups cfg) ∧ cfg' = joined servers cfg.
Proof.
  intros Hnd. unfold Join.
  pose proof (join_loop_success servers false cfg) as Hs. cbn [orb] in Hs.
  split.
  - intros H. apply outcome_bind_Ret in H as ([[[]|] c] & Hl & Hr); simplify_eq.
    destruct (proj1 (Hs (Some true, c) Hnd)) as [Hj [= Hb ->]]; [done|].
    symmetry in Hb. apply bool_decide_eq_true in Hb. done.
  - intros (Hne & Hj & ->). edestruct (λ r, proj2 (Hs r Hnd)) as [-> _]; [by split|].
    cbn [mbind outcome_bind]. by destruct servers.
Qed.

(** The numbers, the assignment and the kept groups of a [Join] that found a
    group already present. *)
Lemma Join_false servers cfg cfg' :
  Join servers cfg = Ret (false, cfg') →
  Num cfg' = Num cfg ∧ Shards cfg' = Shards cfg ∧ Groups cfg ⊆ Groups cfg'.
Proof.
  unfold Join. intros ([r c] & Hl & Hr)%outcome_bind_Ret.
  destruct r as [[]|]; simplify_eq.
  revert cfg Hl. generalize false as ch.
  induction servers as [|[gid l] servers IH]; intros ch cfg Hl; simplify_eq/=.
  destruct (Groups cfg !! gid) eqn:Hg; simplify_eq; [done|].
  destruct (servers_clash l (Groups cfg)); [done|].
  apply IH in Hl as (? & ? & Hsub). split; [done|]. split; [done|].
  etrans; [by apply insert_subseteq|]. exact Hsub.
Qed.

Lemma joined_disjoint servers cfg :
  NoDup servers.*1 → joinable servers (Groups cfg) → servers_disjoint cfg →
  servers_disjoint (joined servers cfg).
Proof.
  intros Hnd [Hf Hp] Hd g1 g2 l1 l2 s H1 H2 Hs1 Hs2. simpl in *.
  rewrite Forall_forall in Hf.
  assert (∀ g l, list_to_map servers !! g = Some l → (g, l) ∈ servers)
    as Hin by apply elem_of_list_to_map_2.
  apply lookup_union_Some_raw in H1 as [H1|[_ H1]], H2 as [H2|[_ H2]].
  - by eapply Hp; eauto.
  - destruct (Hf _ (Hin _ _ H1)) as [_ Hc]. by destruct (Hc _ _ _ H2 Hs2 Hs1).
  - destruct (Hf _ (Hin _ _ H2)) as [_ Hc]. by destruct (Hc _ _ _ H1 Hs1 Hs2).
  - by eapply Hd.
Qed.

Lemma leave_loop_success gids changed cfg r :
  leave_loop gids changed cfg = r ∧ r.1 ≠ None ↔
  (NoDup gids ∧ Forall (λ g, is_Some (Groups cfg !! g)) gids) ∧
  r = (Some (changed || bool_decide (gids ≠ [])),
       set_groups cfg (foldl (λ m g, delete g m) (Groups cfg) gids)).
Proof.
  revert changed cfg. induction gids as [|gid gids IH]; intros changed cfg; simpl.
  - rewrite orb_false_r. destruct cfg; simpl. split.
    + intros [<- _]. split; [split; constructor|done].
    + intros [_ ->]. done.
  - rewrite NoDup_cons, Forall_cons. destruct (Groups cfg !! gid) as [l|] eqn:Hg.
    2:{ split; [by intros [<- ?]|by intros [(_ & [? ?] & _) _]]. }
    rewrite IH. simpl. rewrite orb_true_r, !Forall_forall.
    assert ((∀ g, g ∈ gids → is_Some ((delete gid (Groups cfg)) !! g)) ↔
            (gid ∉ gids) ∧ (∀ g, g ∈ gids → is_Some (Groups cfg !! g))) as ->.
    { split.
      - intros H. split; [intros Hin; apply H in Hin as [? ?]; simplify_map_eq|].
        intros g Hgin. destruct (H g Hgin) as [l' Hl'].
        apply lookup_delete_Some in Hl' as [_ ?]. eauto.
      - intros [Hni H] g Hgin. rewrite lookup_delete_ne by (by intros ->). auto. }
    assert (is_Some (Some l)) by eauto. tauto.
Qed.

Lemma lookup_delete_all gids (m : gmap Tgid (list string)) g :
  (foldl (λ m g, delete g m) m gids) !! g = if decide (g ∈ gids) then None else m !! g.
Proof.
  revert m. induction gids as [|x gids IH]; intros m; simpl.
  - destruct (decide (g ∈ [])) as [[]%elem_of_nil|]; done.
  - rewrite IH, lookup_delete.
    destruct (decide (g ∈ gids)), (decide (g ∈ x :: gids)), (decide (x = g));
      set_solver.
Qed.

(** The configuration a successful [Leave] returns. *)
Definition left_groups (gids : list Tgid) (cfg : ShardConfig) : ShardConfig :=
  mkShardConfig (Num cfg + 1) (Shards cfg) (foldl (λ m g, delete g m) (Groups cfg) gids).

Lemma Leave_true gids cfg cfg' :
  Leave gids cfg = Ret (true, cfg') ↔
  gids ≠ [] ∧ NoDup gids ∧ Forall (λ g, is_Some (Groups cfg !! g)) gids ∧
  cfg' = left_groups gids cfg.
Proof.
  unfold Leave. pose proof (leave_loop_success gids false cfg) as Hs. cbn [orb] in Hs.
  split.
  - intros H. destruct (leave_loop gids false cfg) as [[[]|] c]; simplify_eq.
    destruct (proj1 (Hs (Some true, c))) as [? [= Hb ->]]; [done|].
    symmetry in Hb. apply bool_decide_eq_true in Hb. tauto.
  - intros (Hne & Hnd & Hf & ->).
    edestruct (λ r, proj2 (Hs r)) as [-> _]; [by split|].
    by destruct gids.
Qed.

Lemma left_groups_disjoint gids cfg :
  servers_disjoint cfg → servers_disjoint (left_groups gids cfg).
Proof.
  intros Hd g1 g2 l1 l2 s. simpl. rewrite !lookup_delete_all.
  repeat case_decide; try done. apply Hd.
Qed.

(** ** How many shards a change moves *)

Lemma assign_fold_keeps l c (i : nat) :
  (∀ g, (i, g) ∈ l → is_Some (Groups c !! g)) →
  Shards (foldl assign_step c l) !! i = Shards c !! i.
Proof.
  revert c. induction l as [|[s g] l IH]; intros c H; [done|]. simpl.
  destruct (Groups c !! g) eqn:Hg; [apply IH; set_solver|].
  rewrite IH by (intros; apply H; by right). simpl.
  apply list_lookup_insert_ne. intros ->. destruct (H g ltac:(left)). congruence.
Qed.

Lemma assign_step_balanced c (s : nat) g :
  length (Shards c) = NShards → Groups c ≠ ∅ → Shards c !! s = Some g → balanced c →
  balanced (assign_step c (s, g)).
Proof.
  intros Hl Hne Hs Hb. unfold assign_step. destruct (Groups c !! g) as [|] eqn:Hg; [done|].
  pose proof (analyze_extremes c Hl Hne) as He. unfold least.
  destruct (analyze c) as [[[mg mn] lg] ln], He as ((_ & _ & Hlg & ->) & Hall).
  assert (∀ x, is_Some (Groups c !! x) →
    load x (set_shards c (<[s:=lg]> (Shards c))) =
    load x c + (if decide (x = lg) then 1 else 0)) as Hload.
  { intros x Hx. pose proof (occ_insert x (Shards c) s g lg Hs) as Ho.
    rewrite (decide_False (P := x = g)) in Ho by (intros ->; destruct Hx; congruence).
    unfold load. simpl. destruct (decide (x = lg)); lia. }
  intros g1 g2 H1 H2. simpl in *. rewrite !Hload by done.
  destruct (Hall g2 ltac:(by apply elem_of_map_keys)) as ((Hge & _) & _ & Heq).
  pose proof (Hb g1 g2 H1 H2). pose proof (Hb g1 lg H1 ltac:(by apply elem_of_map_keys)).
  destruct (decide (g1 = lg)) as [->|], (decide (g2 = lg)) as [->|]; lia.
Qed.

Lemma assign_fold_balanced gs : ∀ (n : nat) c,
  length (Shards c) = NShards → Groups c ≠ ∅ → drop n (Shards c) = gs → balanced c →
  balanced (foldl assign_step c (imap (λ i g, (n + i, g)%nat) gs)).
Proof.
  induction gs as [|g gs IH]; intros n c Hlen Hne Hdrop Hb; [done|].
  assert (Shards c !! n = Some g) as Hn.
  { rewrite <-(Nat.add_0_r n), <-lookup_drop, Hdrop. done. }
  cbn [imap foldl]. rewrite Nat.add_0_r.
  rewrite (imap_ext _ (λ i g, (S n + i, g)%nat)) by (intros; simpl; f_equal; lia).
  destruct (assign_step_same c (n, g)) as (_ & Hg & Hl).
  apply IH; [congruence..| |by apply assign_step_balanced].
  transitivity (drop (S n) (Shards c)).
  - unfold assign_step. destruct (Groups c !! g); [done|]. simpl.
    by rewrite drop_insert_lt by lia.
  - by rewrite <-Nat.add_1_r, <-drop_drop, Hdrop.
Qed.

Lemma assign_unassigned_keeps c (i : nat) g :
  Shards c !! i = Some g → is_Some (Groups c !! g) → Shards (assign_unassigned c) !! i = Some g.
Proof.
  intros Hi Hg. unfold assign_unassigned. rewrite assign_fold_keeps; [done|].
  intros g' Hin. apply list_elem_of_lookup in Hin as [j Hj].
  rewrite list_lookup_imap in Hj. apply fmap_Some in Hj as (x & Hx & [= -> ->]). congruence.
Qed.

Lemma Rebalance_keeps c c' (i : nat) g :
  length (Shards c) = NShards → balanced c → Rebalance c = Ret c' →
  Shards c !! i = Some g → is_Some (Groups c !! g) → Shards c' !! i = Some g.
Proof.
  intros Hl Hb Hr Hi Hg.
  assert (Groups c ≠ ∅) as Hne by (intros He; rewrite He in Hg; by destruct Hg).
  rewrite Rebalance_nonempty in Hr by done.
  destruct (assign_unassigned_ok c Hl Hne) as [(_ & HG & HL) _].
  unfold balance_fuel in Hr. rewrite balance_loop_balanced in Hr; [|congruence..|].
  2:{ by apply (assign_fold_balanced (Shards c) 0 c). }
  injection Hr as <-. by apply assign_unassigned_keeps.
Qed.

(** A group that has a shard is never left without. *)
Lemma balance_loop_elem fuel g : ∀ c c',
  length (Shards c) = NShards → Groups c ≠ ∅ →
  balance_loop fuel c = Ret c' → g ∈ Shards c → g ∈ Shards c'.
Proof.
  induction fuel as [|fuel IH]; intros c c' Hl Hne; [done|]. cbn [balance_loop].
  destruct (analyze c) as [[[mg mn] lg] ln] eqn:Ha.
  destruct (Z.ltb_spec mn (ln + 2)) as [Hlt|Hge]; [by intros [= ->]|].
  intros Hb Hg.
  apply (IH (set_shards c (move_one mg lg (Shards c)))); [by simpl; rewrite length_move_one|done..|].
  clear IH Hb.
  destruct (analyze_move c mg mn lg ln) as (_ & _ & Hd & _ & Hin); [done..|].
  pose proof (load_move c mg lg g Hin) as Hm. pose proof (load_bound lg c Hl).
  apply occ_elem in Hg. apply occ_elem. unfold load in *.
  destruct (decide (g = mg)) as [?|?], (decide (g = lg)) as [?|?]; subst; lia.
Qed.

Lemma Rebalance_elem c c' g :
  length (Shards c) = NShards → Rebalance c = Ret c' →
  is_Some (Groups c !! g) → g ∈ Shards c → g ∈ Shards c'.
Proof.
  intros Hl Hr Hg Hin.
  assert (Groups c ≠ ∅) as Hne by (intros He; rewrite He in Hg; by destruct Hg).
  rewrite Rebalance_nonempty in Hr by done.
  destruct (assign_unassigned_ok c Hl Hne) as [(_ & HG & HL) _].
  apply list_elem_of_lookup in Hin as [i Hi].
  eapply balance_loop_elem; [| |exact Hr|]; [congruence..|].
  by eapply list_elem_of_lookup_2, assign_unassigned_keeps.
Qed.

(** The loads while shards flow to the groups [N] that just joined: the other
    groups lie within one of a ceiling no load exceeds. *)
Definition draining (N : list Tgid) (M : Z) (c : ShardConfig) : Prop :=
  ∀ g, is_Some (Groups c !! g) → load g c ≤ M ∧ (g ∈ N ∨ M - 1 ≤ load g c).

Lemma draining_move N M c mg mn lg ln :
  length (Shards c) = NShards → Groups c ≠ ∅ → draining N M c →
  analyze c = (mg, mn, lg, ln) → ln + 2 ≤ mn →
  lg ∈ N ∧ ∃ M', draining N M' (set_shards c (move_one mg lg (Shards c))).
Proof.
  intros Hl Hne Hd Ha Hge.
  pose proof (analyze_extremes c Hl Hne) as He. rewrite Ha in He.
  destruct He as ((_ & -> & _ & ->) & Hall).
  destruct (analyze_move c _ _ _ _ Hl Hne Ha Hge) as (Hmg & Hlg & Hge' & Hne' & Hin).
  setoid_rewrite elem_of_map_keys in Hall.
  apply elem_of_map_keys in Hmg, Hlg.
  destruct (Hd mg Hmg) as [Hm1 Hm2], (Hd lg Hlg) as [Hl1 Hl2].
  assert (lg ∈ N) as HlN by (destruct Hl2; [done|lia]). split; [done|].
  exists (if decide (load mg c = M) then M else load mg c `max` (M - 1)).
  intros g Hg. simpl in Hg. rewrite load_move by done.
  destruct (Hd g Hg) as [Hg1 Hg2], (Hall g Hg) as [? _].
  destruct (decide (load mg c = M)), (decide (g = lg)), (decide (g = mg)); subst;
    try done; split; try lia; destruct Hg2; (by left) || (right; lia).
Qed.

Lemma balance_loop_moves N c0 fuel : ∀ M c c',
  length (Shards c) = NShards → Groups c ≠ ∅ → draining N M c →
  (∀ (i : nat) g, Shards c !! i = Some g → Shards c0 !! i = Some g ∨ g ∈ N) →
  balance_loop fuel c = Ret c' →
  ∀ (i : nat) g, Shards c' !! i = Some g → Shards c0 !! i = Some g ∨ g ∈ N.
Proof.
  induction fuel as [|fuel IH]; intros M c c' Hl Hne Hd Hi; [done|]. cbn [balance_loop].
  destruct (analyze c) as [[[mg mn] lg] ln] eqn:Ha.
  destruct (Z.ltb_spec mn (ln + 2)); [by intros [= <-]|].
  destruct (draining_move N M c mg mn lg ln) as (HlN & M' & Hd'); [done..|].
  eapply IH; [|done|exact Hd'|]; [simpl; by rewrite length_move_one|].
  intros i g. simpl. unfold move_one. destruct (list_find _ (Shards c)) as [[s x]|]; [|apply Hi].
  intros [(_ & -> & _)|[_ ?]]%list_lookup_insert_Some; [by right|auto].
Qed.

(** ** Configurations the controller can hold *)

(** A configuration built by the code: [MakeShardConfig], then successful joins
    and leaves.  A Go map has each key once, hence [NoDup]. *)
Inductive reachable : ShardConfig → Prop :=
| reach_make : reachable MakeShardConfig
| reach_copy c : reachable c → reachable (Copy c)
| reach_join c servers c' :
    reachable c → NoDup servers.*1 →
    JoinBalance servers c = Ret (true, c') → reachable c'
| reach_leave c gids c' :
    reachable c → LeaveBalance gids c = Ret (true, c') → reachable c'.

Record cfg_inv (c : ShardConfig) : Prop := {
  inv_len : length (Shards c) = NShards;
  inv_num : 0 ≤ Num c;
  inv_servers : servers_disjoint c;
  inv_assigned : Groups c ≠ ∅ → assigned c ∧ balanced c
}.

Lemma Copy_id c : Copy c = c.
Proof.
  unfold Copy, set_groups. simpl. destruct c as [n l gs]; simpl. f_equal.
  rewrite foldl_insert_map by apply NoDup_fst_map_to_list.
  by rewrite list_to_map_to_list, map_union_empty.
Qed.

Lemma inv_rebalance c c' :
  length (Shards c) = NShards → 0 ≤ Num c → servers_disjoint c →
  Rebalance c = Ret c' → cfg_inv c'.
Proof.
  intros Hl Hn Hs Hr. destruct (Rebalance_total c Hl) as (c1 & Hr1 & (H1 & H2 & H3) & _ & Ha).
  assert (c1 = c') as -> by congruence. split; [congruence..| |].
  - unfold servers_disjoint. by rewrite H2.
  - rewrite H2. exact Ha.
Qed.

Lemma JoinBalance_true servers c c' :
  JoinBalance servers c = Ret (true, c') ↔
  ∃ c1, Join servers c = Ret (true, c1) ∧ Rebalance c1 = Ret c'.
Proof.
  unfold JoinBalance. split.
  - intros ([[] c1] & Hj & Hr)%outcome_bind_Ret; simplify_eq/=.
    apply outcome_bind_Ret in Hr as (c2 & ? & [= ->]). eauto.
  - intros (c1 & -> & Hr). simpl. by rewrite Hr.
Qed.

Lemma LeaveBalance_true gids c c' :
  LeaveBalance gids c = Ret (true, c') ↔
  ∃ c1, Leave gids c = Ret (true, c1) ∧ Rebalance c1 = Ret c'.
Proof.
  unfold LeaveBalance. split.
  - intros ([[] c1] & Hj & Hr)%outcome_bind_Ret; simplify_eq/=.
    apply outcome_bind_Ret in Hr as (c2 & ? & [= ->]). eauto.
  - intros (c1 & -> & Hr). simpl. by rewrite Hr.
Qed.

Lemma reachable_inv c : reachable c → cfg_inv c.
Proof.
  induction 1 as [|c _ IH|c servers c' _ [] Hnd Hj|c gids c' _ [] Hj].
  - split; simpl; [done|lia| |done]. intros g1 g2 l1 l2 s Hx. by apply (lookup_empty_Some g1 l1) in Hx.
  - by rewrite Copy_id.
  - apply JoinBalance_true in Hj as (c1 & (_ & Hj & ->)%Join_true & Hr); [|done].
    eapply inv_rebalance; [| | |exact Hr]; simpl; [done|lia|by apply joined_disjoint].
  - apply LeaveBalance_true in Hj as (c1 & (_ & _ & _ & ->)%Leave_true & Hr).
    eapply inv_rebalance; [| | |exact Hr]; simpl; [done|lia|by apply left_groups_disjoint].
Qed.

(** The extremes [CheckConfig] measures. *)
Lemma minmax_bounds c ks :
  (∀ g, g ∈ ks → 0 ≤ load g c < 257) →
  (∀ g1 g2, g1 ∈ ks → g2 ∈ ks → load g1 c ≤ load g2 c + 1) →
  let '(mn, mx) := foldl (minmax_step (count_shards (Shards c))) (257, 0) ks in
  mx ≤ mn + 1.
Proof.
  intros Hr Hb.
  enough (let '(mn, mx) := foldl (minmax_step (count_shards (Shards c))) (257, 0) ks in
    (mn = 257 ∨ ∃ g, g ∈ ks ∧ mn = load g c) ∧ (mx = 0 ∨ ∃ g, g ∈ ks ∧ mx = load g c)) as H.
  { destruct (foldl _ _ _) as [mn mx].
    destruct H as [[->|(g1 & H1 & ->)] [->|(g2 & H2 & ->)]]; [lia| | |by apply Hb].
    - pose proof (Hr g2 H2). lia.
    - pose proof (Hr g1 H1). lia. }
  clear Hr Hb. induction ks as [|g ks IH] using rev_ind; [by split; left|].
  rewrite foldl_snoc. destruct (foldl _ _ ks) as [mn mx]. unfold minmax_step.
  rewrite count_shards_occ. change (Z.of_nat (occ g (Shards c))) with (load g c).
  destruct IH as [H1 H2]. split.
  - destruct (_ <? mn); [right; exists g; set_solver|].
    destruct H1 as [?|(x & ? & ?)]; [by left|right; exists x; set_solver].
  - destruct (mx <? _); [right; exists g; set_solver|].
    destruct H2 as [?|(x & ? & ?)]; [by left|right; exists x; set_solver].
Qed.

Lemma existsb_false {A} (f : A → bool) l : (∀ x, x ∈ l → f x = false) → existsb f l = false.
Proof.
  intros H. apply not_true_iff_false. rewrite existsb_exists.
  intros (x & Hx%list_elem_of_In & Hf). rewrite H in Hf; done.
Qed.

Lemma CheckConfig_passes c groups :
  cfg_inv c → NoDup groups → (∀ g, g ∈ groups ↔ is_Some (Groups c !! g)) →
  CheckConfig groups c = Ret ().
Proof.
  intros [Hl Hn _ Ha] Hnd Hg.
  assert (groups ≡ₚ map_keys (Groups c)) as Hp.
  { apply NoDup_Permutation; [done|apply NoDup_map_keys|].
    intros g. by rewrite Hg, elem_of_map_keys. }
  pose proof (Permutation_length Hp) as Hlen. rewrite length_map_keys in Hlen.
  unfold CheckConfig. rewrite decide_False by lia.
  rewrite existsb_false.
  2:{ intros g [x ->]%Hg. by apply bool_decide_eq_false. }
  destruct (decide (Groups c = ∅)) as [He|Hne].
  { rewrite He in *. replace (length groups) with 0%nat by done.
    unfold map_keys. rewrite map_to_list_empty. done. }
  destruct (Ha Hne) as [Has Hb]. rewrite existsb_false, andb_false_r.
  2:{ intros g [x ->]%Has. by apply bool_decide_eq_false. }
  pose proof (minmax_bounds c (map_keys (Groups c))) as Hm.
  destruct (foldl _ _ _) as [mn mx]. destruct (Z.ltb_spec (mn + 1) mx); [|done].
  enough (mx ≤ mn + 1) by lia. apply Hm.
  - intros g _. pose proof (load_bound g c Hl). lia.
  - intros g1 g2 ?%elem_of_map_keys ?%elem_of_map_keys. by apply Hb.
Qed.

(** ** A configuration just after a [Join] *)

Lemma joined_groups servers c x :
  is_Some (Groups (joined servers c) !! x) → is_Some (Groups c !! x) ∨ x ∈ servers.*1.
Proof.
  intros [l Hx]. simpl in Hx.
  apply lookup_union_Some_raw in Hx as [Hx|[_ Hx]]; [right|left; eauto].
  apply elem_of_list_to_map_2 in Hx. apply list_elem_of_fmap. by exists (x, l).
Qed.

Lemma joined_nonempty servers c : servers ≠ [] → Groups (joined servers c) ≠ ∅.
Proof.
  intros Hne He. destruct servers as [|[x l] ?]; [done|]. simpl in He.
  apply (f_equal (lookup x)) in He.
  by rewrite lookup_empty, <-insert_union_l, lookup_insert_eq in He.
Qed.

Lemma joined_assigned servers c : assigned c → assigned (joined servers c).
Proof.
  intros Has x Hx. simpl in *. apply lookup_union_is_Some. right. by apply Has.
Qed.

Lemma draining_joined servers c :
  length (Shards c) = NShards → Groups c ≠ ∅ → assigned c → balanced c →
  Forall (λ '(gid, l), Groups c !! gid = None ∧
            ∀ g l' s, Groups c !! g = Some l' → s ∈ l' → s ∈ l → False) servers →
  ∃ M, draining servers.*1 M (joined servers c).
Proof.
  intros Hl Hce Has Hb Hf. pose proof (least_member c Hl Hce) as Hleast.
  pose proof (analyze_extremes c Hl Hce) as He. unfold least in *.
  destruct (analyze c) as [[[mg mn] lg] ln], He as ((_ & _ & _ & ->) & Hall).
  exists (load lg c + 1). intros x Hx.
  change (load x (joined servers c)) with (load x c).
  destruct (joined_groups servers c x Hx) as [Hx'|Hx']; split.
  - by apply Hb.
  - right. apply elem_of_map_keys in Hx'. destruct (Hall x Hx') as [? _]. lia.
  - assert (x ∉ Shards c) as Hni; [|unfold load at 1; rewrite (occ_not_elem _ _ Hni);
      pose proof (load_bound lg c Hl); lia].
    intros Hin. destruct (Has x Hin) as [l Hl'].
    apply list_elem_of_fmap in Hx' as ([x' l'] & -> & Hin').
    rewrite Forall_forall in Hf. destruct (Hf _ Hin') as [? _]. simpl in *. congruence.
  - by left.
Qed.

(** ** The properties of the component *)

(** A configuration with one group, for the examples. *)
Definition one_group : ShardConfig :=
  mkShardConfig 1 (replicate NShards 1) {[1 := ["a"; "b"]]}.

Lemma one_group_reachable : reachable one_group.
Proof.
  apply (reach_join MakeShardConfig [(1, ["a"; "b"])]); [constructor| |by vm_compute].
  simpl. apply NoDup_singleton.
Qed.

(** C20: [Rebalance] terminates on every configuration of twelve shards and only
    changes the assignment: with no group all shards are unassigned (0), and
    otherwise every shard belongs to a group of the configuration and the loads
    of two groups differ by at most one. *)
Theorem Rebalance_correct (c : ShardConfig) (Hlen : length (Shards c) = NShards) :
  ∃ c', Rebalance c = Ret c' ∧
        Num c' = Num c ∧ Groups c' = Groups c ∧ length (Shards c') = NShards ∧
        (Groups c = ∅ → Forall (λ g, g = 0) (Shards c')) ∧
        (Groups c ≠ ∅ → assigned c' ∧ balanced c').
Proof.
  destruct (Rebalance_total c Hlen) as (c' & ? & (? & ? & ?) & ? & ?).
  exists c'. split; [done|]. repeat split; try congruence; tauto.
Qed.

Lemma Rebalance_correct_witness :
  ∃ c', Rebalance (set_groups one_group {[1 := ["a"]; 2 := ["b"]]}) = Ret c' ∧
        assigned c' ∧ balanced c'.
Proof.
  destruct (Rebalance_correct (set_groups one_group {[1 := ["a"]; 2 := ["b"]]}) eq_refl)
    as (c' & Hr & _ & _ & _ & _ & Ha).
  exists c'. split; [exact Hr|]. apply Ha. done.
Defined.

(** C22: Every configuration the controller can build from [MakeShardConfig] by
    joins, leaves and copies passes [CheckConfig] for exactly its groups: the
    shards are all allocated, evenly, and no server is in two groups. *)
Theorem reachable_CheckConfig (c : ShardConfig) (groups : list Tgid)
    (Hc : reachable c) (Hnd : NoDup groups)
    (Hg : ∀ g, g ∈ groups ↔ is_Some (Groups c !! g)) :
  CheckConfig groups c = Ret () ∧ servers_disjoint c ∧
  length (Shards c) = NShards ∧ 0 ≤ Num c.
Proof.
  pose proof (reachable_inv c Hc) as Hi.
  split; [by apply CheckConfig_passes|]. by destruct Hi.
Qed.

Lemma reachable_CheckConfig_witness : CheckConfig [1] one_group = Ret ().
Proof.
  refine (proj1 (reachable_CheckConfig one_group [1] one_group_reachable _ _)).
  - apply NoDup_singleton.
  - intros g. rewrite list_elem_of_singleton. simpl. split.
    + intros ->. eexists. reflexivity.
    + intros [x Hx%lookup_singleton_Some]. by destruct Hx.
Defined.

(** C27: A successful [JoinBalance] on a reachable configuration moves shards
    only to the groups that join: a shard that changes hands is given to a new
    group, all others stay where they were. *)
Theorem JoinBalance_moves_to_new (c c' : ShardConfig) (servers : list (Tgid * list string))
    (i : nat) (g : Tgid)
    (Hc : reachable c) (Hnd : NoDup servers.*1)
    (Hj : JoinBalance servers c = Ret (true, c')) (Hi : Shards c' !! i = Some g) :
  Shards c !! i = Some g ∨ g ∈ servers.*1.
Proof.
  destruct (reachable_inv c Hc) as [Hl _ _ Ha].
  apply JoinBalance_true in Hj as (c1 & (Hne & [Hf _] & ->)%Join_true & Hr); [|done].
  destruct (Rebalance_total (joined servers c) Hl) as (c2 & Hr2 & (_ & HG & _) & _ & Hok).
  assert (c2 = c') as -> by congruence.
  pose proof (joined_nonempty servers c Hne) as Hne'.
  destruct (decide (Groups c = ∅)) as [He|Hce].
  { right. destruct (Hok Hne') as [Has _].
    destruct (joined_groups servers c g) as [Hx|]; [|rewrite He in Hx; by destruct Hx|done].
    rewrite <-HG. apply Has. by eapply list_elem_of_lookup_2. }
  destruct (Ha Hce) as [Has Hb].
  rewrite Rebalance_nonempty, assign_unassigned_id in Hr; [|by apply joined_assigned|done].
  destruct (draining_joined servers c) as [M HM]; [done..|].
  eapply (balance_loop_moves servers.*1 c balance_fuel M (joined servers c) c'); try done.
  by left.
Qed.

Lemma JoinBalance_moves_to_new_witness :
  ∃ c', JoinBalance [(2, ["c"])] one_group = Ret (true, c') ∧
        (Shards one_group !! 0%nat = Some 2 ∨ 2 ∈ [(2, ["c"])].*1).
Proof.
  eexists. split; [vm_compute; reflexivity|].
  eapply (JoinBalance_moves_to_new one_group _ [(2, ["c"])] 0 2 one_group_reachable);
    [apply NoDup_singleton|vm_compute; reflexivity|reflexivity].
Defined.

(** C30: A successful [LeaveBalance] on a reachable configuration moves no shard
    of a group that stays: only the shards of the leaving groups are handed out. *)
Theorem LeaveBalance_keeps_staying (c c' : ShardConfig) (gids : list Tgid) (i : nat) (g : Tgid)
    (Hc : reachable c) (Hj : LeaveBalance gids c = Ret (true, c'))
    (Hi : Shards c !! i = Some g) (Hg : is_Some (Groups c !! g)) (Hstay : g ∉ gids) :
  Shards c' !! i = Some g.
Proof.
  destruct (reachable_inv c Hc) as [Hl _ _ Ha].
  apply LeaveBalance_true in Hj as (c1 & (_ & _ & _ & ->)%Leave_true & Hr).
  assert (∀ x, is_Some (Groups (left_groups gids c) !! x) → is_Some (Groups c !! x)) as Hsub.
  { intros x. simpl. rewrite lookup_delete_all. case_decide; [by intros []|done]. }
  eapply (Rebalance_keeps (left_groups gids c)); [exact Hl| |done|done|].
  - destruct Ha as [_ Hb]; [intros He; rewrite He in Hg; by destruct Hg|].
    intros g1 g2 H1%Hsub H2%Hsub. by apply Hb.
  - simpl. rewrite lookup_delete_all. by rewrite decide_False.
Qed.

Definition two_groups : ShardConfig :=
  mkShardConfig 2 (replicate 6 2 ++ replicate 6 1) {[1 := ["a"; "b"]; 2 := ["c"]]}.

Lemma LeaveBalance_keeps_staying_witness :
  ∃ c', LeaveBalance [1] two_groups = Ret (true, c') ∧ Shards c' !! 3%nat = Some 2.
Proof.
  eexists. split; [vm_compute; reflexivity|].
  eapply (LeaveBalance_keeps_staying two_groups _ [1] 3 2).
  - apply (reach_join one_group [(2, ["c"])] _ one_group_reachable);
      [apply NoDup_singleton|vm_compute; reflexivity].
  - vm_compute. reflexivity.
  - reflexivity.
  - eexists. reflexivity.
  - intros H%list_elem_of_singleton. discriminate.
Defined.

(** [Join] returns true exactly when it is given at least one group, all
    groups are new and no server is in two groups; it then adds the groups,
    increments the number and leaves the assignment alone.  The outcome is the
    same for every order in which [range] visits the argument map. *)
Lemma Join_success (cfg cfg' : ShardConfig) (servers order : list (Tgid * list string))
    (Hnd : NoDup servers.*1) (Hord : order ≡ₚ servers) :
  Join order cfg = Ret (true, cfg') ↔
  servers ≠ [] ∧ joinable servers (Groups cfg) ∧
  cfg' = mkShardConfig (Num cfg + 1) (Shards cfg) (list_to_map servers ∪ Groups cfg).
Proof.
  assert (NoDup order.*1) as Hnd' by by rewrite Hord.
  rewrite Join_true by done. unfold joined.
  rewrite (list_to_map_proper order servers) by done.
  assert (joinable order (Groups cfg) ↔ joinable servers (Groups cfg)) as -> by by rewrite Hord.
  enough (order ≠ [] ↔ servers ≠ []) by tauto.
  split; intros Hne ->; apply Hne; [by apply Permutation_nil|by apply Permutation_nil].
Qed.

Lemma Join_success_witness :
  Join [(3, ["d"]); (2, ["c"])] one_group
  = Ret (true, mkShardConfig 2 (replicate NShards 1)
                 (list_to_map [(2, ["c"]); (3, ["d"])] ∪ {[1 := ["a"; "b"]]})).
Proof.
  refine (proj2 (Join_success one_group _ [(2, ["c"]); (3, ["d"])] _ _ _) _).
  - simpl. repeat constructor; set_solver.
  - apply Permutation_swap.
  - split; [discriminate|]. split; [|reflexivity]. split.
    + apply Forall_cons. split; [|apply Forall_cons; split; [|apply Forall_nil; done]];
        (split; [reflexivity|]); simpl;
        intros g l' s; rewrite lookup_singleton_Some; intros [<- <-]; set_solver.
    + intros g1 g2 l1 l2 s. rewrite !list_elem_of_In. simpl.
      intros [[= <- <-]|[[= <- <-]|[]]] [[= <- <-]|[[= <- <-]|[]]]; set_solver.
Defined.

(** [Leave] returns true exactly when the identifiers are distinct, present
    and at least one; it then removes those groups, increments the number and
    leaves the assignment alone. *)
Lemma Leave_success (cfg cfg' : ShardConfig) (gids : list Tgid) :
  Leave gids cfg = Ret (true, cfg') ↔
  gids ≠ [] ∧ NoDup gids ∧ Forall (λ g, is_Some (Groups cfg !! g)) gids ∧
  Num cfg' = Num cfg + 1 ∧ Shards cfg' = Shards cfg ∧
  ∀ g, Groups cfg' !! g = if decide (g ∈ gids) then None else Groups cfg !! g.
Proof.
  rewrite Leave_true. split.
  - intros (? & ? & ? & ->). repeat split; try done. intros g. apply lookup_delete_all.
  - intros (? & ? & ? & Hn & Hs & Hg). repeat split; try done.
    destruct cfg' as [n l gs]. simpl in *. unfold left_groups. f_equal; [done..|].
    apply map_eq. intros g. by rewrite Hg, lookup_delete_all.
Qed.

(** A [Join] that finds one of its groups present returns false, but the
    groups it visited before stay in the configuration, with the number
    unchanged: the failed operation is not atomic, and what remains of it
    depends on the iteration order of the argument map. *)
Lemma Join_not_atomic (cfg : ShardConfig) (gnew gold : Tgid) (l l' : list string)
    (Hnew : Groups cfg !! gnew = None) (Hold : is_Some (Groups cfg !! gold))
    (Hl : servers_clash l (Groups cfg) = false) :
  Join [(gnew, l); (gold, l')] cfg
    = Ret (false, mkShardConfig (Num cfg) (Shards cfg) (<[gnew := l]> (Groups cfg))) ∧
  Join [(gold, l'); (gnew, l)] cfg = Ret (false, cfg).
Proof.
  destruct Hold as [x Hx]. unfold Join. simpl. rewrite Hnew, Hl, Hx. simpl.
  rewrite lookup_insert_ne, Hx by congruence. done.
Qed.

Lemma Join_not_atomic_witness :
  Join [(2, ["c"]); (1, [])] one_group
    = Ret (false, mkShardConfig 1 (replicate NShards 1) (<[2 := ["c"]]> {[1 := ["a"; "b"]]})).
Proof.
  refine (proj1 (Join_not_atomic one_group 2 1 ["c"] [] _ _ _)).
  - reflexivity.
  - eexists. reflexivity.
  - vm_compute. reflexivity.
Defined.

(** [analyze] returns a group of largest and a group of least load, among
    equals the one with the smallest identifier, whatever the order in which
    the map of groups is ranged over: the choice is deterministic. *)
Lemma analyze_deterministic (c : ShardConfig) (order : list Tgid)
    (Hlen : length (Shards c) = NShards) (Hne : Groups c ≠ ∅)
    (Hord : order ≡ₚ map_keys (Groups c)) :
  let '(mg, mn, lg, ln) := analyze_order order c in
  is_Some (Groups c !! mg) ∧ is_Some (Groups c !! lg) ∧ mn = load mg c ∧ ln = load lg c ∧
  ∀ g, is_Some (Groups c !! g) →
    ln ≤ load g c ≤ mn ∧ (load g c = mn → mg ≤ g) ∧ (load g c = ln → lg ≤ g).
Proof.
  rewrite (analyze_order_perm _ _ c Hord). fold (analyze c).
  pose proof (analyze_extremes c Hlen Hne) as H.
  destruct (analyze c) as [[[mg mn] lg] ln]. unfold extremes in H.
  setoid_rewrite elem_of_map_keys in H. tauto.
Qed.

Lemma analyze_deterministic_witness :
  let '(mg, mn, lg, ln) := analyze_order [2; 1] two_groups in
  mn = load mg two_groups ∧ ln = load lg two_groups.
Proof.
  pose proof (analyze_deterministic two_groups [2; 1] eq_refl ltac:(discriminate)) as H.
  destruct (analyze_order [2; 1] two_groups) as [[[mg mn] lg] ln].
  destruct H as (_ & _ & Hmn & Hln & _); [|split; [exact Hmn|exact Hln]].
  apply NoDup_Permutation; [repeat constructor; set_solver|apply NoDup_map_keys|].
  intros g. rewrite elem_of_map_keys. vm_compute map_keys. simpl. split.
  - rewrite list_elem_of_In. simpl. intros [<-|[<-|[]]]; eexists; reflexivity.
  - intros [x Hx]. rewrite lookup_insert_Some, lookup_singleton_Some in Hx. set_solver.
Defined.

(** A key's shard is one of the twelve, for every key. *)
Lemma Key2Shard_range (key : string) : 0 ≤ Key2Shard key < Z.of_nat NShards.
Proof.
  unfold Key2Shard. pose proof (fnv32a_range key).
  pose proof (Z.rem_bound_pos (fnv32a key) (Z.of_nat NShards)). unfold NShards in *. lia.
Qed.

(** [ShardConfig.String] and [FromString] over [encoding/json]: [Unmarshal] decodes
    into an existing value. *)
Section json.
Context (Marshal : ShardConfig → option string)
  (Unmarshal : string → ShardConfig → option ShardConfig).

Definition ShardConfig_String (cfg : ShardConfig) : outcome string :=
  match Marshal cfg with Some b => Ret b | None => Fatal "Unmarshall err" end.
Definition FromString (s : string) : outcome ShardConfig :=
  match Unmarshal s (mkShardConfig 0 (replicate NShards 0) ∅) with
  | Some scfg => Ret scfg
  | None => Fatal "Unmarshall err"
  end.

(** What a controller stores as a string it reads back, for a codec that decodes
    what it encoded when no groups are there before. *)
Lemma FromString_String (c : ShardConfig) (b : string) :
  (∀ c b n l, Marshal c = Some b → Unmarshal b (mkShardConfig n l ∅) = Some c) → ShardConfig_String c = Ret b →
  FromString b = Ret c.
Proof.
  intros Hlaw. unfold ShardConfig_String, FromString. destruct (Marshal c) as [b'|] eqn:Hb; [|done].
  intros [= ->]. by erewrite Hlaw.
Qed.
End json.

(** On a reachable configuration with at least one group, [GidServers]
    finds, for the shard of any key, a group of the configuration and its
    servers. *)
Lemma GidServers_total (c : ShardConfig) (key : string)
    (Hc : reachable c) (Hne : Groups c ≠ ∅) :
  ∃ gid srvs, GidServers (Key2Shard key) c = Ret (gid, srvs, true) ∧
              Groups c !! gid = Some srvs ∧ IsMember gid c = true.
Proof.
  destruct (reachable_inv c Hc) as [Hl _ _ Ha]. destruct (Ha Hne) as [Has _].
  pose proof (Key2Shard_range key) as Hr.
  destruct (lookup_lt_is_Some_2 (Shards c) (Z.to_nat (Key2Shard key))) as [g Hg]; [lia|].
  destruct (Has g) as [l Hgl]; [by eapply list_elem_of_lookup_2|].
  exists g, l. unfold GidServers. destruct (Z.leb_spec 0 (Key2Shard key)); [|lia].
  rewrite Hg, Hgl. split; [done|]. split; [done|]. unfold IsMember.
  apply existsb_exists. exists g. rewrite <-list_elem_of_In, bool_decide_eq_true.
  split; [by eapply list_elem_of_lookup_2|done].
Qed.

Lemma GidServers_total_witness :
  ∃ gid srvs, GidServers (Key2Shard "k0") one_group = Ret (gid, srvs, true).
Proof.
  destruct (GidServers_total one_group "k0" one_group_reachable) as (g & l & H & _);
    [discriminate|].
  exists g, l. exact H.
Defined.
