(* ===== verification/Labrpc.v ===== *)
(** * The simulated network: [labrpc/labrpc.go]

    The administrative state of a [Network] and its operations, the reflective
    dispatch of a [Server], and [processReq] as a transition system in which the
    goroutines of any number of calls interleave with one another and with the
    operations of the tester.

    Values that cross the network are an abstract type [V] with the interface
    [GoValues] of package [encoding/gob] and of reflection; the state the
    handlers change is an abstract type [W]. *)

From S2P Require Export GoStd.
Local Open Scope Z_scope.

(** ** Names

    End and server names have type [interface{}]; the labs use strings and
    integers.  [None] is the nil interface. *)

Inductive name := NStr (s : string) | NInt (z : Z).
Abbreviation iface := (option name).

#[export] Instance name_eq_dec : EqDecision name.
Proof. solve_decision. Defined.
#[export] Program Instance name_countable : Countable name :=
  inj_countable' (λ n, match n with NStr s => inl s | NInt z => inr z end)
                 (λ x, match x with inl s => NStr s | inr z => NInt z end) _.
Next Obligation. by intros []. Qed.

(** ** Administrative state of the network *)

Record ClientEnd := mkClientEnd { endname : iface }.

(** Pointers to [Server] objects are compared by identity. *)
Abbreviation sptr := nat.

Record Network := mkNetwork {
  reliable : bool;
  longDelays : bool;
  longReordering : bool;
  ends : gmap iface ClientEnd;
  enabled : gmap iface bool;
  servers : gmap iface (option sptr);
  connections : gmap iface iface;
  count : Z;   (* int32 *)
  bytes : Z;   (* int64 *)
  done_closed : bool
}.

Definition MakeNetwork : Network := mkNetwork true false false ∅ ∅ ∅ ∅ 0 0 false.

(** Indexing a Go map yields the zero value for an absent key. *)
Definition is_enabled (rn : Network) (e : iface) : bool := default false (enabled rn !! e).
Definition connection (rn : Network) (e : iface) : iface := default None (connections rn !! e).
Definition server_at (rn : Network) (n : iface) : option sptr := default None (servers rn !! n).

Definition set_reliable (b : bool) (rn : Network) : Network :=
  mkNetwork b (longDelays rn) (longReordering rn) (ends rn) (enabled rn) (servers rn)
    (connections rn) (count rn) (bytes rn) (done_closed rn).
Definition set_longReordering (b : bool) (rn : Network) : Network :=
  mkNetwork (reliable rn) (longDelays rn) b (ends rn) (enabled rn) (servers rn)
    (connections rn) (count rn) (bytes rn) (done_closed rn).
Definition set_longDelays (b : bool) (rn : Network) : Network :=
  mkNetwork (reliable rn) b (longReordering rn) (ends rn) (enabled rn) (servers rn)
    (connections rn) (count rn) (bytes rn) (done_closed rn).
Definition set_ends (es : gmap iface ClientEnd) (en : gmap iface bool)
    (cs : gmap iface iface) (rn : Network) : Network :=
  mkNetwork (reliable rn) (longDelays rn) (longReordering rn) es en (servers rn)
    cs (count rn) (bytes rn) (done_closed rn).
Definition set_servers (m : gmap iface (option sptr)) (rn : Network) : Network :=
  mkNetwork (reliable rn) (longDelays rn) (longReordering rn) (ends rn) (enabled rn) m
    (connections rn) (count rn) (bytes rn) (done_closed rn).
Definition set_stats (c b : Z) (rn : Network) : Network :=
  mkNetwork (reliable rn) (longDelays rn) (longReordering rn) (ends rn) (enabled rn)
    (servers rn) (connections rn) c b (done_closed rn).

Definition Cleanup (rn : Network) : outcome Network :=
  if done_closed rn then Panic "close of closed channel"
  else Ret (mkNetwork (reliable rn) (longDelays rn) (longReordering rn) (ends rn)
    (enabled rn) (servers rn) (connections rn) (count rn) (bytes rn) true).

Definition Reliable (yes : bool) (rn : Network) : Network := set_reliable yes rn.
Definition IsReliable (rn : Network) : bool := reliable rn.
Definition LongReordering (yes : bool) (rn : Network) : Network := set_longReordering yes rn.
Definition LongDelays (yes : bool) (rn : Network) : Network := set_longDelays yes rn.
Definition IsLongDelays (rn : Network) : bool := longDelays rn.

(** The named results of [readEndnameInfo]. *)
Record epinfo := mkInfo {
  i_enabled : bool;
  i_servername : iface;
  i_server : option sptr;
  i_reliable : bool;
  i_longreordering : bool
}.

Definition readEndnameInfo (e : iface) (rn : Network) : epinfo :=
  let servername := connection rn e in
  mkInfo (is_enabled rn e) servername
    (match servername with None => None | Some _ => server_at rn servername end)
    (reliable rn) (longReordering rn).

Definition isServerDead (e servername : iface) (server : option sptr) (rn : Network) : bool :=
  negb (is_enabled rn e) || negb (bool_decide (server_at rn servername = server)).

Definition MakeEnd (e : iface) (rn : Network) : outcome (ClientEnd * Network) :=
  match ends rn !! e with
  | Some _ => Fatal "MakeEnd: already exists"
  | None =>
      let ce := mkClientEnd e in
      Ret (ce, set_ends (<[e := ce]> (ends rn)) (<[e := false]> (enabled rn))
                 (<[e := None]> (connections rn)) rn)
  end.

Definition DeleteEnd (e : iface) (rn : Network) : outcome Network :=
  match ends rn !! e with
  | None => Fatal "MakeEnd: doesn't exists"
  | Some _ => Ret (set_ends (delete e (ends rn)) (delete e (enabled rn))
                     (delete e (connections rn)) rn)
  end.

Definition AddServer (servername : iface) (rs : sptr) (rn : Network) : Network :=
  set_servers (<[servername := Some rs]> (servers rn)) rn.

Definition DeleteServer (servername : iface) (rn : Network) : Network :=
  set_servers (<[servername := None]> (servers rn)) rn.

Definition Connect (e servername : iface) (rn : Network) : Network :=
  set_ends (ends rn) (enabled rn) (<[e := servername]> (connections rn)) rn.

Definition Enable (e : iface) (yes : bool) (rn : Network) : Network :=
  set_ends (ends rn) (<[e := yes]> (enabled rn)) (connections rn) rn.

Definition GetTotalCount (rn : Network) : Z := count rn.
Definition GetTotalBytes (rn : Network) : Z := bytes rn.

(** Receiving a request: [atomic.AddInt32] and [atomic.AddInt64]. *)
Definition count_request (len : Z) (rn : Network) : Network :=
  set_stats (wrap_i32 (count rn + 1)) (wrap_i64 (bytes rn + len)) rn.
Definition count_reply (len : Z) (rn : Network) : Network :=
  set_stats (count rn) (wrap_i64 (bytes rn + len)) rn.

(** ** Go values, reflection and gob

    [gob_encode] returns the bytes written and whether there was no error;
    [gob_decode] decodes into an existing value and returns the value after the
    call and whether there was no error. *)
Class GoValues (V Ty : Type) := {
  Ty_eq_dec :: EqDecision Ty;
  type_of : V → Ty;
  zero_of : Ty → V;
  gob_encode : V → list Z * bool;
  gob_decode : V → list Z → V * bool
}.

(** Documented behaviour of [encoding/gob]: what [Encode] accepts is read back
    by [Decode] into a fresh value of the same type. *)
Class GobLaws (V Ty : Type) `{GoValues V Ty} :=
  gob_roundtrip (v : V) :
    (gob_encode v).2 = true → gob_decode (zero_of (type_of v)) (gob_encode v).1 = (v, true).

Section rpc.
Context {V Ty W : Type} `{GV : GoValues V Ty}.

Record reqMsg := mkReq {
  req_endname : iface;
  svcMeth : string;
  argsType : bool * Ty;
  req_args : list Z
}.

Record replyMsg := mkReply { ok : bool; reply : list Z }.
Definition no_reply : replyMsg := mkReply false [].

(** ** Services *)

(** A method of the receiver as reflection shows it: [m_in] lists the types of
    the receiver and of the arguments, with a flag for pointer types and the
    type pointed to.  [m_func] is the method itself, on the state of the
    program, the argument and the value the reply pointer points to; it can end
    the process, and while it is [Diverge] the method waits. *)
Record Method := mkMethod {
  m_name : string;
  m_pkgpath : string;
  m_in : list (bool * Ty);
  m_numout : nat;
  m_func : W → V → V → outcome (W * V)
}.

Record Service := mkService {
  svc_name : string;
  svc_methods : gmap string Method
}.

(** The test of [MakeService]: exported, a receiver and two arguments, the
    second one a pointer, and no result. *)
Definition suitable (m : Method) : bool :=
  negb (negb (bool_decide (m_pkgpath m = "")) ||
        negb (bool_decide (length (m_in m) = 3%nat)) ||
        negb (default false (fst <$> m_in m !! 2%nat)) ||
        negb (bool_decide (m_numout m = 0%nat))).

Definition MakeService (tname : string) (methods : list Method) : Service :=
  mkService tname
    (foldl (λ ms m, if suitable m then <[m_name m := m]> ms else ms) ∅ methods).

(** ** Servers *)

Record Server := mkServer { services : gmap string Service; srv_count : Z }.

Definition MakeServer : Server := mkServer ∅ 0.
Definition AddService (svc : Service) (rs : Server) : Server :=
  mkServer (<[svc_name svc := svc]> (services rs)) (srv_count rs).
Definition Server_GetCount (rs : Server) : Z := srv_count rs.

(** The part of [Server.dispatch] that holds the lock: count the request, split
    "Raft.AppendEntries" at its last dot and find the service.  The count is an
    [int]. *)
Definition dispatch_lookup (meth : string) (rs : Server)
    : Server * outcome (Service * string) :=
  let rs := mkServer (services rs) (wrap_i64 (srv_count rs + 1)) in
  let dot := LastIndex meth dot_byte in
  if dot <? 0 then (rs, Panic "slice bounds out of range")
  else
    let serviceName := str_take (Z.to_nat dot) meth in
    let methodName := str_drop (Z.to_nat (dot + 1)) meth in
    match services rs !! serviceName with
    | Some svc => (rs, Ret (svc, methodName))
    | None => (rs, Fatal "labrpc.Server.dispatch(): unknown service")
    end.

(** [Service.dispatch].  [reflect.New] makes space for the type of the argument,
    behind one more pointer if that is a pointer type.  The error of [ad.Decode]
    is ignored, [function.Call] panics when the argument has not the declared
    type, and what [re.EncodeValue] wrote is the reply even after an error. *)
Definition Service_dispatch (svc : Service) (methname : string) (req : reqMsg) (w : W)
    : outcome (W * replyMsg) :=
  match svc_methods svc !! methname with
  | None => Fatal "labrpc.Service.dispatch(): unknown method"
  | Some method =>
      let args := (gob_decode (zero_of (argsType req).2) (req_args req)).1 in
      match m_in method with
      | [_; argT; (_, replyT)] =>
          if decide (argT = argsType req) then
            '(w, replyv) ← m_func method w args (zero_of replyT);
            Ret (w, mkReply true (gob_encode replyv).1)
          else Panic "reflect: Call using wrong type"
      | _ => Panic "reflect: Call with wrong argument count"
      end
  end.

Definition Server_dispatch (rs : Server) (req : reqMsg) (w : W)
    : outcome (Server * W * replyMsg) :=
  let '(rs, r) := dispatch_lookup (svcMeth req) rs in
  '(svc, meth) ← r;
  '(w, rep) ← Service_dispatch svc meth req w;
  Ret (rs, w, rep).

(** [Network.GetCount]: a deleted or unknown server is a nil pointer. *)
Definition GetCount (servername : iface) (rn : Network) (heap : gmap sptr Server) : outcome Z :=
  match server_at rn servername ≫= (heap !!.) with
  | None => Panic "nil pointer dereference"
  | Some svr => Ret (Server_GetCount svr)
  end.

(** ** The goroutines of a call *)

(** Where [processReq] is. *)
Inductive pcounter :=
| P_start                            (* go rn.processReq(xreq) *)
| P_info (i : epinfo)                (* readEndnameInfo has returned *)
| P_wait (i : epinfo)                (* in the loop that waits for the handler *)
| P_check (i : epinfo) (r : option replyMsg)  (* the loop is left *)
| P_send (r : replyMsg)              (* about to send on req.replyCh *)
| P_done (r : replyMsg).             (* r was received by Call *)

(** Where the goroutine that runs the handler is. *)
Inductive hstate :=
| H_none
| H_spawned (s : sptr)               (* before rs.mu.Lock() in dispatch *)
| H_called (svc : Service) (meth : string)    (* before service.dispatch *)
| H_ret (r : replyMsg)               (* blocked on ech <- r *)
| H_end.

Record greq := mkGreq { g_req : reqMsg; g_pc : pcounter; g_h : hstate }.

(** [s_loop]: the goroutine of [MakeNetwork] has not returned. *)
Record sys := mkSys {
  s_net : Network;
  s_heap : gmap sptr Server;
  s_world : W;
  s_reqs : gmap nat greq;
  s_loop : bool
}.

Definition set_net (f : Network → Network) (s : sys) : sys :=
  mkSys (f (s_net s)) (s_heap s) (s_world s) (s_reqs s) (s_loop s).
Definition set_greq (id : nat) (g : greq) (s : sys) : sys :=
  mkSys (s_net s) (s_heap s) (s_world s) (<[id := g]> (s_reqs s)) (s_loop s).
Definition at_pc (p : pcounter) (g : greq) : greq := mkGreq (g_req g) p (g_h g).
Definition at_h (h : hstate) (g : greq) : greq := mkGreq (g_req g) (g_pc g) h.

(** The first half of [Call]: encode the arguments; [panic] on an error.  The flag
    tells whether [args] is a pointer to the value; gob sends the value. *)
Definition Call_request (e : ClientEnd) (meth : string) (args : bool * V) : outcome reqMsg :=
  let '(qb, good) := gob_encode args.2 in
  if negb good then Panic "encode"
  else Ret (mkReq (endname e) meth (args.1, type_of args.2) qb).

(** The second half of [Call], on the reply it received. *)
Definition Call_result (rep : replyMsg) (replyv : V) : outcome (bool * V) :=
  if ok rep then
    let '(v, good) := gob_decode replyv (reply rep) in
    if good then Ret (true, v) else Fatal "ClientEnd.Call(): decode reply"
  else Ret (false, replyv).

(** The network goroutine receives the request and starts [processReq]. *)
Definition accept (id : nat) (req : reqMsg) (s : sys) : sys :=
  set_greq id (mkGreq req P_start H_none)
    (set_net (count_request (Z.of_nat (length (req_args req)))) s).

(** [Call] finds the network destroyed and returns [false]; when [endCh] and
    [done] are both ready, Go takes either. *)
Definition refuse (id : nat) (req : reqMsg) (s : sys) : sys :=
  set_greq id (mkGreq req (P_done no_reply) H_none) s.

(** [draw1] is [rand.Int()] of the request-drop test. *)
Definition process_branch (i : epinfo) (draw1 : Z) (g : greq) : greq :=
  match i_enabled i, i_servername i, i_server i with
  | true, Some _, Some server =>
      if negb (i_reliable i) && (Z.rem draw1 1000 <? 100)
      then at_pc (P_send no_reply) g
      else at_h (H_spawned server) (at_pc (P_wait i) g)
  | _, _, _ => at_pc (P_send no_reply) g
  end.

(** The decision after the loop.  [draw2] is [rand.Int()] of the reply-drop
    test; the long-reordering branch only delays the send. *)
Definition process_finish (i : epinfo) (r : option replyMsg) (dead : bool) (draw2 : Z)
    : replyMsg :=
  match r with
  | None => no_reply
  | Some rep =>
      if dead then no_reply
      else if negb (i_reliable i) && (Z.rem draw2 1000 <? 100) then no_reply
      else rep
  end.

Definition dead_now (g : greq) (i : epinfo) (s : sys) : bool :=
  isServerDead (req_endname (g_req g)) (i_servername i) (i_server i) (s_net s).

(** ** The transitions *)

Inductive netop :=
| O_reliable (b : bool) | O_longReordering (b : bool) | O_longDelays (b : bool)
| O_makeEnd (e : iface) | O_deleteEnd (e : iface)
| O_addServer (n : iface) (p : sptr) | O_deleteServer (n : iface)
| O_connect (e n : iface) | O_enable (e : iface) (b : bool)
| O_Cleanup.

Definition apply_netop (o : netop) (rn : Network) : outcome Network :=
  match o with
  | O_reliable b => Ret (Reliable b rn)
  | O_longReordering b => Ret (LongReordering b rn)
  | O_longDelays b => Ret (LongDelays b rn)
  | O_makeEnd e => '(_, rn) ← MakeEnd e rn; Ret rn
  | O_deleteEnd e => DeleteEnd e rn
  | O_addServer n p => Ret (AddServer n p rn)
  | O_deleteServer n => Ret (DeleteServer n rn)
  | O_connect e n => Ret (Connect e n rn)
  | O_enable e b => Ret (Enable e b rn)
  | O_Cleanup => Cleanup rn
  end.

Inductive action :=
| A_accept (id : nat) (req : reqMsg)   (* e.ch <- req and xreq := <-rn.endCh *)
| A_refuse (id : nat) (req : reqMsg)   (* <-e.done in Call *)
| A_exit                               (* <-rn.done in the goroutine of MakeNetwork *)
| A_read (id : nat)                    (* readEndnameInfo *)
| A_branch (id : nat) (draw1 : Z)      (* deliver or drop *)
| A_lookup (id : nat)                  (* handler goroutine, locked part *)
| A_handler (id : nat)                 (* handler goroutine, the method *)
| A_recv (id : nat)                    (* reply = <-ech *)
| A_poll (id : nat)                    (* 100 ms passed *)
| A_drain (id : nat)                   (* <-ech of the draining goroutine *)
| A_finish (id : nat) (draw2 : Z)      (* the decision after the loop *)
| A_send (id : nat)                    (* req.replyCh <- reply *)
| A_net (o : netop).

(** One transition: [None] when the action is not enabled; otherwise the new
    state, or the end of the process. *)
Definition step (a : action) (s : sys) : option (outcome sys) :=
  match a with
  | A_accept id req =>
      match s_reqs s !! id with
      | None => if s_loop s then Some (Ret (accept id req s)) else None
      | Some _ => None
      end
  | A_refuse id req =>
      match s_reqs s !! id with
      | None => if done_closed (s_net s) then Some (Ret (refuse id req s)) else None
      | Some _ => None
      end
  | A_exit =>
      if s_loop s && done_closed (s_net s)
      then Some (Ret (mkSys (s_net s) (s_heap s) (s_world s) (s_reqs s) false)) else None
  | A_net o =>
      Some (rn ← apply_netop o (s_net s); Ret (set_net (λ _, rn) s))
  | A_read id =>
      g ← s_reqs s !! id;
      match g_pc g with
      | P_start =>
          Some (Ret (set_greq id
            (at_pc (P_info (readEndnameInfo (req_endname (g_req g)) (s_net s))) g) s))
      | _ => None
      end
  | A_branch id draw1 =>
      g ← s_reqs s !! id;
      match g_pc g with
      | P_info i => Some (Ret (set_greq id (process_branch i draw1 g) s))
      | _ => None
      end
  | A_lookup id =>
      g ← s_reqs s !! id;
      match g_h g with
      | H_spawned p =>
          match s_heap s !! p with
          | None => Some (Panic "nil pointer dereference")
          | Some rs =>
              let '(rs, r) := dispatch_lookup (svcMeth (g_req g)) rs in
              Some ('(svc, meth) ← r;
                    Ret (set_greq id (at_h (H_called svc meth) g)
                      (mkSys (s_net s) (<[p := rs]> (s_heap s)) (s_world s) (s_reqs s) (s_loop s))))
          end
      | _ => None
      end
  | A_handler id =>
      g ← s_reqs s !! id;
      match g_h g with
      | H_called svc meth =>
          match Service_dispatch svc meth (g_req g) (s_world s) with
          | Diverge => None
          | o => Some ('(w, r) ← o;
                       Ret (set_greq id (at_h (H_ret r) g)
                         (mkSys (s_net s) (s_heap s) w (s_reqs s) (s_loop s))))
          end
      | _ => None
      end
  | A_recv id =>
      g ← s_reqs s !! id;
      match g_pc g, g_h g with
      | P_wait i, H_ret r =>
          Some (Ret (set_greq id (at_h H_end (at_pc (P_check i (Some r)) g)) s))
      | _, _ => None
      end
  | A_poll id =>
      g ← s_reqs s !! id;
      match g_pc g with
      | P_wait i =>
          Some (Ret (if dead_now g i s then set_greq id (at_pc (P_check i None) g) s else s))
      | _ => None
      end
  | A_drain id =>
      g ← s_reqs s !! id;
      match g_pc g, g_h g with
      | P_wait _, _ => None
      | _, H_ret _ => Some (Ret (set_greq id (at_h H_end g) s))
      | _, _ => None
      end
  | A_finish id draw2 =>
      g ← s_reqs s !! id;
      match g_pc g with
      | P_check i r =>
          Some (Ret (set_greq id
            (at_pc (P_send (process_finish i r (dead_now g i s) draw2)) g) s))
      | _ => None
      end
  | A_send id =>
      g ← s_reqs s !! id;
      match g_pc g with
      | P_send r =>
          Some (Ret (set_greq id (at_pc (P_done r) g)
            (set_net (count_reply (Z.of_nat (length (reply r)))) s)))
      | _ => None
      end
  end.

(** A schedule every action of which is enabled and does not end the process. *)
Fixpoint run (l : list action) (s : sys) : option sys :=
  match l with
  | [] => Some s
  | a :: l => match step a s with
              | Some (Ret s') => run l s'
              | _ => None
              end
  end.

(** ** How a transition changes one request *)

Definition act_id (a : action) : option nat :=
  match a with
  | A_accept id _ | A_refuse id _ | A_read id | A_branch id _ | A_lookup id | A_handler id
  | A_recv id | A_poll id | A_drain id | A_finish id _ | A_send id => Some id
  | A_exit | A_net _ => None
  end.

(** The local effect of an action of the request's own goroutines, in state [s]. *)
Inductive gstep (s : sys) : action → greq → greq → Prop :=
| gs_read id g :
    g_pc g = P_start →
    gstep s (A_read id) g
      (at_pc (P_info (readEndnameInfo (req_endname (g_req g)) (s_net s))) g)
| gs_branch id d g i :
    g_pc g = P_info i → gstep s (A_branch id d) g (process_branch i d g)
| gs_lookup id g p svc meth :
    g_h g = H_spawned p → gstep s (A_lookup id) g (at_h (H_called svc meth) g)
| gs_handler id g svc meth w r :
    g_h g = H_called svc meth →
    Service_dispatch svc meth (g_req g) (s_world s) = Ret (w, r) →
    gstep s (A_handler id) g (at_h (H_ret r) g)
| gs_recv id g i r :
    g_pc g = P_wait i → g_h g = H_ret r →
    gstep s (A_recv id) g (at_h H_end (at_pc (P_check i (Some r)) g))
| gs_poll_alive id g i :
    g_pc g = P_wait i → dead_now g i s = false → gstep s (A_poll id) g g
| gs_poll_dead id g i :
    g_pc g = P_wait i → dead_now g i s = true →
    gstep s (A_poll id) g (at_pc (P_check i None) g)
| gs_drain id g r :
    (∀ i, g_pc g ≠ P_wait i) → g_h g = H_ret r →
    gstep s (A_drain id) g (at_h H_end g)
| gs_finish id d g i r :
    g_pc g = P_check i r →
    gstep s (A_finish id d) g
      (at_pc (P_send (process_finish i r (dead_now g i s) d)) g)
| gs_send id g r :
    g_pc g = P_send r → gstep s (A_send id) g (at_pc (P_done r) g).

(** The cases of an operation [Ho : apply_netop o rn = Ret rn']. *)
Ltac netop_cases o Ho :=
  destruct o; simpl in Ho; unfold MakeEnd, DeleteEnd, Cleanup, outcome_bind, mbind in Ho;
  repeat (match type of Ho with
    | context [match ?x with _ => _ end] =>
        lazymatch x with context [match _ with _ => _ end] => fail | _ => destruct x end
    end; try done);
  simplify_eq/=.

(** The cases of a transition [Hs : step a s = Some (Ret s')]. *)
Ltac step_cases a Hs :=
  destruct a; cbn [step] in Hs; unfold mbind, option_bind, outcome_bind in Hs;
  repeat (match type of Hs with
    | context [match ?x with _ => _ end] => destruct x eqn:?
    end; try done);
  simplify_eq/=.

Lemma step_own a s s' id g :
  step a s = Some (Ret s') → act_id a = Some id → s_reqs s !! id = Some g →
  ∃ g', s_reqs s' !! id = Some g' ∧ gstep s a g g'.
Proof.
  intros Hs [= Hid] Hg.
  destruct a; simpl in Hid; simplify_eq; cbn [step] in Hs;
    rewrite Hg in Hs; cbn [mbind option_bind] in Hs; try done;
    repeat match goal with
    | H : context [match g_pc ?g with _ => _ end] |- _ => destruct (g_pc g) eqn:?; try done
    | H : context [match g_h ?g with _ => _ end] |- _ => destruct (g_h g) eqn:?; try done
    end;
    simplify_eq; try (eexists; split; [apply lookup_insert_eq|by econstructor; eauto]).
  - destruct (s_heap s !! s0) as [rs|]; [|done].
    destruct (dispatch_lookup _ rs) as [rs' [[svc m]|w|w|]]; simplify_eq/=.
    eexists; split; [apply lookup_insert_eq|by econstructor; eauto].
  - destruct (Service_dispatch _ _ _ _) as [[w r]|w|w|] eqn:Hd; simplify_eq/=.
    eexists; split; [apply lookup_insert_eq|by econstructor; eauto].
  - destruct (dead_now g i s) eqn:?; eexists;
      (split; [first [apply lookup_insert_eq|done]|by econstructor; eauto]).
  - eexists; split; [apply lookup_insert_eq|eapply gs_drain; [congruence|done]].
  - eexists; split; [apply lookup_insert_eq|eapply gs_drain; [congruence|done]].
  - eexists; split; [apply lookup_insert_eq|eapply gs_drain; [congruence|done]].
  - eexists; split; [apply lookup_insert_eq|eapply gs_drain; [congruence|done]].
  - eexists; split; [apply lookup_insert_eq|eapply gs_drain; [congruence|done]].
Qed.

Lemma step_other a s s' id :
  step a s = Some (Ret s') → act_id a ≠ Some id → s_reqs s' !! id = s_reqs s !! id.
Proof.
  intros Hs Hid. step_cases a Hs; rewrite ?lookup_insert_ne by congruence; done.
Qed.

(** A transition that creates a request is [A_accept] or [A_refuse]. *)
Lemma step_fresh a s s' id g :
  step a s = Some (Ret s') → s_reqs s !! id = None → s_reqs s' !! id = Some g →
  ∃ req, a = A_accept id req ∧ g = mkGreq req P_start H_none ∨
         a = A_refuse id req ∧ g = mkGreq req (P_done no_reply) H_none.
Proof.
  intros Hs Hn Hg. destruct (decide (act_id a = Some id)) as [Hid|Hid].
  2:{ rewrite (step_other a s s' id) in Hg by done. congruence. }
  destruct a; simpl in Hid; simplify_eq; cbn [step] in Hs; rewrite Hn in Hs; try done.
  - destruct (s_loop s); simplify_eq. simpl in Hg. rewrite lookup_insert_eq in Hg.
    simplify_eq. eauto.
  - destruct (done_closed _); simplify_eq. simpl in Hg. rewrite lookup_insert_eq in Hg.
    simplify_eq. eauto.
Qed.

Lemma run_step a l s s1 : step a s = Some (Ret s1) → run (a :: l) s = run l s1.
Proof. intros H. simpl. by rewrite H. Qed.

Lemma run_app l1 l2 s s' :
  run (l1 ++ l2) s = Some s' ↔ ∃ s1, run l1 s = Some s1 ∧ run l2 s1 = Some s'.
Proof.
  revert s. induction l1 as [|a l1 IH]; intros s; simpl.
  - split; [eauto|]. intros (? & [= ->] & ?). done.
  - destruct (step a s) as [[s1|w|w|]|]; [apply IH|..]; (split; [done|by intros (? & ? & ?)]).
Qed.

Lemma run_snoc l a s s' :
  run (l ++ [a]) s = Some s' ↔ ∃ s1, run l s = Some s1 ∧ step a s1 = Some (Ret s').
Proof.
  rewrite run_app. split; intros (s1 & H1 & H2); exists s1; (split; [done|]); simpl in *.
  - destruct (step a s1) as [[]|]; congruence.
  - by rewrite H2.
Qed.

Lemma step_none a s s' id :
  step a s = Some (Ret s') → s_reqs s' !! id = None →
  s_reqs s !! id = None ∧ act_id a ≠ Some id.
Proof.
  intros Hs Hn. destruct (s_reqs s !! id) as [g|] eqn:Hg.
  - destruct (decide (act_id a = Some id)) as [Hid|Hid].
    + destruct (step_own a s s' id g Hs Hid Hg) as (? & ? & _). congruence.
    + rewrite (step_other a s s' id Hs Hid) in Hn. congruence.
  - split; [done|]. intros Hid. destruct a; simpl in Hid; simplify_eq; cbn [step] in Hs;
      rewrite Hg in Hs; try done.
    + destruct (s_loop s); simplify_eq. simpl in Hn. by rewrite lookup_insert_eq in Hn.
    + destruct (done_closed _); simplify_eq. simpl in Hn. by rewrite lookup_insert_eq in Hn.
Qed.

Lemma run_none l s s' id :
  run l s = Some s' → s_reqs s' !! id = None → Forall (λ a, act_id a ≠ Some id) l.
Proof.
  revert s'. induction l as [|a l IH] using rev_ind; intros s' Hr Hn; [done|].
  apply run_snoc in Hr as (s1 & Hr & Ha).
  destruct (step_none a s1 s' id Ha Hn) as [Hn1 Hid].
  apply Forall_app. split; [by eapply IH|by apply Forall_singleton].
Qed.

(** Induction over the states of a schedule, for one request: [P] holds when
    the request is created and every action of its goroutines preserves it. *)
Lemma run_request_ind (P : list action → sys → greq → Prop) id s0 :
  s_reqs s0 !! id = None →
  (∀ l s req, Forall (λ a, act_id a ≠ Some id) l →
    P (l ++ [A_accept id req]) s (mkGreq req P_start H_none)) →
  (∀ l s req, Forall (λ a, act_id a ≠ Some id) l →
    P (l ++ [A_refuse id req]) s (mkGreq req (P_done no_reply) H_none)) →
  (∀ l s a g g', run l s0 = Some s → gstep s a g g' → act_id a = Some id →
    P l s g → ∀ s', step a s = Some (Ret s') → P (l ++ [a]) s' g') →
  (∀ l s a g, run l s0 = Some s → act_id a ≠ Some id →
    P l s g → ∀ s', step a s = Some (Ret s') → P (l ++ [a]) s' g) →
  ∀ l s g, run l s0 = Some s → s_reqs s !! id = Some g → P l s g.
Proof.
  intros H0 Hnew Href Hown Hoth l. induction l as [|a l IH] using rev_ind; intros s g Hr Hg.
  { simpl in Hr. simplify_eq. }
  apply run_snoc in Hr as (s1 & Hr & Ha).
  destruct (s_reqs s1 !! id) as [g1|] eqn:Hg1.
  - destruct (decide (act_id a = Some id)) as [Hid|Hid].
    + destruct (step_own a s1 s id g1 Ha Hid Hg1) as (g' & Hg' & Hstep).
      assert (g' = g) as -> by congruence. eauto.
    + rewrite (step_other a s1 s id Ha Hid) in Hg. simplify_eq. eauto.
  - destruct (step_fresh a s1 s id g Ha Hg1 Hg) as (req & [[-> ->]|[-> ->]]);
      [apply Hnew|apply Href]; by eapply run_none.
Qed.

(** ** At most one execution, bounded work *)

Definition is_handler (id : nat) (a : action) : bool :=
  match a with A_handler id' => bool_decide (id' = id) | _ => false end.
Definition is_answer (id : nat) (a : action) : bool :=
  match a with A_send id' | A_refuse id' _ => bool_decide (id' = id) | _ => false end.
(** An action of the goroutines of call [id], waiting turns excepted. *)
Definition is_work (id : nat) (a : action) : bool :=
  match a with A_accept _ _ | A_refuse _ _ | A_poll _ => false | _ => bool_decide (act_id a = Some id) end.

Definition executed (g : greq) : bool :=
  match g_h g with H_ret _ | H_end => true | _ => false end.
Definition answered (g : greq) : bool :=
  match g_pc g with P_done _ => true | _ => false end.

(** The shapes a request goes through. *)
Definition greq_ok (g : greq) : Prop :=
  match g_pc g with
  | P_start | P_info _ => g_h g = H_none
  | P_wait i => i_enabled i = true ∧ is_Some (i_servername i) ∧ is_Some (i_server i) ∧
      match g_h g with H_spawned _ | H_called _ _ | H_ret _ => True | _ => False end
  | P_check _ (Some r) => g_h g = H_end
  | P_check _ None => g_h g ≠ H_none
  | P_send r | P_done r => ok r = true → g_h g = H_end
  end.

(** The work that is left. *)
Definition work_left (g : greq) : nat :=
  match g_pc g with
  | P_start => 8 | P_info _ => 7 | P_wait _ => 3 | P_check _ _ => 2 | P_send _ => 1
  | P_done _ => 0
  end +
  match g_h g with H_none => 0 | H_spawned _ => 3 | H_called _ _ => 2 | H_ret _ => 1
  | H_end => 0 end.

Lemma process_branch_cases i d g :
  process_branch i d g = at_pc (P_send no_reply) g ∨
  ∃ p, process_branch i d g = at_h (H_spawned p) (at_pc (P_wait i) g) ∧
       i_enabled i = true ∧ is_Some (i_servername i) ∧ i_server i = Some p.
Proof.
  unfold process_branch.
  destruct (i_enabled i), (i_servername i), (i_server i); try (by left).
  destruct (_ && _); [by left|right; eauto 6].
Qed.

Ltac greq_solve :=
  try done; repeat split; intros; try done; try lia; try tauto;
  try (exfalso; match goal with
       | H : ok _ = true → _, H' : ok _ = true |- _ => discriminate (H H')
       | H : ∀ i, P_wait _ ≠ P_wait i |- _ => by eapply H
       end).

(** What one action of a call does to the bookkeeping of that call. *)
Lemma gstep_facts s a g g' id :
  gstep s a g g' → act_id a = Some id → greq_ok g →
  greq_ok g' ∧ g_req g' = g_req g ∧
  (work_left g' + (if is_work id a then 1 else 0) ≤ work_left g)%nat ∧
  (Nat.b2n (executed g') = Nat.b2n (executed g) + (if is_handler id a then 1 else 0))%nat ∧
  (Nat.b2n (answered g') = Nat.b2n (answered g) + (if is_answer id a then 1 else 0))%nat.
Proof.
  intros Hst Hid Hok.
  destruct g as [req pc h]. inversion Hst; subst; simpl in *; simplify_eq/=;
    unfold greq_ok, work_left, executed, answered, is_work, is_handler, is_answer in *;
    simpl in *; rewrite ?bool_decide_eq_true_2 by done; subst; simpl.
  - repeat split; lia.
  - destruct (process_branch_cases i d (mkGreq req (P_info i) H_none))
      as [->|(p & -> & ? & ? & Hp)]; simpl; [repeat split; (done || lia)|].
    rewrite Hp. repeat split; (done || eauto || lia).
  - destruct pc as [| | | ? []| |]; greq_solve.
  - destruct pc as [| | | ? []| |]; greq_solve.
  - repeat split; lia.
  - destruct h; repeat split; (tauto || lia).
  - destruct h; repeat split; (tauto || lia || done).
  - destruct pc as [| | | ? []| |]; greq_solve.
  - destruct r as [r|]; simpl; repeat split; try lia; by intros.
  - destruct h; greq_solve.
Qed.

Lemma count_if_foreign (f : action → bool) id l :
  (∀ a, act_id a ≠ Some id → f a = false) →
  Forall (λ a, act_id a ≠ Some id) l → count_if f l = 0%nat.
Proof. intros Hf. induction 1 as [|a l Ha _ IH]; simpl; [done|]. by rewrite Hf. Qed.

Lemma is_handler_foreign id a : act_id a ≠ Some id → is_handler id a = false.
Proof. destruct a; simpl; try done; intros; apply bool_decide_eq_false; congruence. Qed.
Lemma is_answer_foreign id a : act_id a ≠ Some id → is_answer id a = false.
Proof. destruct a; simpl; try done; intros; apply bool_decide_eq_false; congruence. Qed.
Lemma is_work_foreign id a : act_id a ≠ Some id → is_work id a = false.
Proof. destruct a; simpl; try done; intros; by apply bool_decide_eq_false. Qed.

Lemma run_bookkeeping l s0 s id g :
  s_reqs s0 !! id = None → run l s0 = Some s → s_reqs s !! id = Some g →
  greq_ok g ∧ (work_left g + count_if (is_work id) l ≤ 8)%nat ∧
  Nat.b2n (executed g) = count_if (is_handler id) l ∧
  Nat.b2n (answered g) = count_if (is_answer id) l.
Proof.
  intros H0 Hr Hg. revert l s g Hr Hg.
  apply (run_request_ind (λ l _ g, greq_ok g ∧
    (work_left g + count_if (is_work id) l ≤ 8)%nat ∧
    Nat.b2n (executed g) = count_if (is_handler id) l ∧
    Nat.b2n (answered g) = count_if (is_answer id) l) id s0 H0).
  - intros l _ req Hl. rewrite !count_if_snoc.
    rewrite !(count_if_foreign _ id) by
      (done || apply is_handler_foreign || apply is_answer_foreign || apply is_work_foreign).
    done.
  - intros l _ req Hl. rewrite !count_if_snoc.
    rewrite !(count_if_foreign _ id) by
      (done || apply is_handler_foreign || apply is_answer_foreign || apply is_work_foreign).
    simpl. rewrite bool_decide_true by done. simpl. split; [done|]. lia.
  - intros l s a g g' _ Hst Hid (Hok & Hw & Hx & Ha) _ _. rewrite !count_if_snoc.
    destruct (gstep_facts s a g g' id Hst Hid Hok) as (? & _ & ? & ? & ?).
    split; [done|]. lia.
  - intros l s a g _ Hid (Hok & Hw & Hx & Ha) _ _. rewrite !count_if_snoc.
    rewrite is_handler_foreign, is_answer_foreign, is_work_foreign by done.
    split; [done|]. lia.
Qed.

(** The handler of call [id] ran in schedule [l] and produced the reply [r]. *)
Definition handled (s0 : sys) (l : list action) (id : nat) (req : reqMsg) (r : replyMsg)
    : Prop :=
  ∃ l1 l2 s1 svc meth w, l = l1 ++ A_handler id :: l2 ∧ run l1 s0 = Some s1 ∧
    Service_dispatch svc meth req (s_world s1) = Ret (w, r).

Lemma handled_snoc s0 l id req r a : handled s0 l id req r → handled s0 (l ++ [a]) id req r.
Proof.
  intros (l1 & l2 & s1 & svc & meth & w & -> & H1 & H2).
  exists l1, (l2 ++ [a]), s1, svc, meth, w. by rewrite <-app_assoc.
Qed.

(** Every positive reply a call carries comes from its handler. *)
Definition carries (P : replyMsg → Prop) (g : greq) : Prop :=
  match g_h g with H_ret r => P r | _ => True end ∧
  match g_pc g with
  | P_check _ (Some r) => P r
  | P_send r | P_done r => ok r = true → P r
  | _ => True
  end.

Lemma carries_impl (P Q : replyMsg → Prop) g : (∀ r, P r → Q r) → carries P g → carries Q g.
Proof.
  intros H [H1 H2]. unfold carries. split; [destruct (g_h g); auto|].
  destruct (g_pc g) as [| | |? []| |]; auto.
Qed.

Lemma gstep_carries s a g g' id (P : replyMsg → Prop) :
  gstep s a g g' → act_id a = Some id → carries P g →
  (∀ svc meth w r, Service_dispatch svc meth (g_req g) (s_world s) = Ret (w, r) →
    a = A_handler id → P r) →
  carries P g'.
Proof.
  intros Hst Hid [H1 H2] Hnew. destruct g as [req pc h].
  inversion Hst; subst; simpl in *; simplify_eq/=; unfold carries in *; simpl in *; subst;
    try (split; [done|]); try done; try (by destruct pc as [| | |? []| |]).
  - destruct (process_branch_cases i d (mkGreq req (P_info i) h)) as [->|(p & -> & _)];
      simpl; by split.
  - split; [eauto|]. done.
  - destruct r as [r|]; simpl; [|done]. destruct (dead_now _ i s); [done|].
    by destruct (_ && _).
Qed.

(** ** A killed server gives no reply *)

Lemma step_net a s s' :
  step a s = Some (Ret s') → (∀ o, a ≠ A_net o) →
  ∃ c b, s_net s' = set_stats c b (s_net s).
Proof.
  assert (∀ rn, rn = set_stats (count rn) (bytes rn) rn) as Hid by by intros [].
  intros Hs Hno. step_cases a Hs; first [by destruct (Hno o)|eauto].
Qed.

Lemma step_loop a s s' :
  step a s = Some (Ret s') →
  s_loop s' = s_loop s ∨ a = A_exit ∧ done_closed (s_net s) = true.
Proof.
  intros Hs. step_cases a Hs; eauto.
  right. by match goal with H : _ && _ = true |- _ => apply andb_prop in H as [_ ?] end.
Qed.

Lemma step_server_gone a s s' n p :
  step a s = Some (Ret s') → a ≠ A_net (O_addServer n p) →
  server_at (s_net s) n ≠ Some p → server_at (s_net s') n ≠ Some p.
Proof.
  intros Hs Ha Hn.
  assert ((∃ o, a = A_net o) ∨ ∀ o, a ≠ A_net o) as [[o ->]|Hno]
    by (destruct a; eauto).
  2:{ destruct (step_net a s s' Hs Hno) as (c & b & ->). exact Hn. }
  cbn [step] in Hs. destruct (apply_netop o (s_net s)) as [rn|w|w|] eqn:Ho; simplify_eq/=.
  netop_cases o Ho; try done; unfold server_at, AddServer, DeleteServer; simpl.
  all: match goal with
    | |- context [<[?x := _]> _ !! ?y] => destruct (decide (x = y)) as [->|Hne]
    end; rewrite ?lookup_insert_eq, ?lookup_insert_ne by done; simpl; first [assumption|congruence].
Qed.

(** The request waits for, or has, the outcome of server [p] under name [n];
    once it is decided the outcome is a failure. *)
Definition doomed (n : iface) (p : sptr) (g : greq) : Prop :=
  match g_pc g with
  | P_info i | P_wait i | P_check i _ => i_servername i = n ∧ i_server i = Some p
  | P_send r | P_done r => ok r = false
  | P_start => False
  end.

Lemma gstep_doomed s a g g' n p :
  gstep s a g g' → doomed n p g → server_at (s_net s) n ≠ Some p → doomed n p g'.
Proof.
  intros Hst Hd Hn. destruct g as [req pc h].
  inversion Hst; subst; simpl in *; simplify_eq/=; unfold doomed in *; simpl in *; try done.
  - destruct (process_branch_cases i d (mkGreq req (P_info i) h)) as [->|(q & -> & _)];
      simpl; done.
  - destruct Hd as [<- Hp]. destruct r as [r|]; simpl; [|done].
    unfold dead_now, isServerDead. simpl. rewrite Hp.
    by rewrite bool_decide_eq_false_2, orb_true_r.
Qed.

Lemma run_doomed l s s' id g n p :
  s_reqs s !! id = Some g → doomed n p g → server_at (s_net s) n ≠ Some p →
  A_net (O_addServer n p) ∉ l → run l s = Some s' →
  ∃ g', s_reqs s' !! id = Some g' ∧ doomed n p g'.
Proof.
  revert s g. induction l as [|a l IH]; intros s g Hg Hd Hn Hl Hr; simpl in Hr; simplify_eq.
  { eauto. }
  destruct (step a s) as [[s1|w|w|]|] eqn:Hs; try done.
  apply not_elem_of_cons in Hl as [Ha Hl].
  pose proof (step_server_gone a s s1 n p Hs ltac:(congruence) Hn) as Hn1.
  destruct (decide (act_id a = Some id)) as [Hid|Hid].
  - destruct (step_own a s s1 id g Hs Hid Hg) as (g1 & Hg1 & Hst).
    eapply (IH s1 g1); [done|by eapply gstep_doomed|done..].
  - eapply (IH s1 g); [by rewrite (step_other a s s1 id)|done..].
Qed.

(** ** A call over a healthy, reliable network *)

Definition own (id : nat) (a : action) : Prop :=
  act_id a = Some id ∧ ∀ req, a ≠ A_accept id req.

Section healthy.
Context (s0 : sys) (id : nat) (req : reqMsg) (n : name) (p : sptr).
Context (rs rs' : Server) (svc : Service) (meth : string) (w' : W) (rep : replyMsg).
Context (Hen : is_enabled (s_net s0) (req_endname req) = true).
Context (Hconn : connection (s_net s0) (req_endname req) = Some n).
Context (Hsrv : server_at (s_net s0) (Some n) = Some p).
Context (Hrel : reliable (s_net s0) = true).
Context (Hheap : s_heap s0 !! p = Some rs).
Context (Hlook : dispatch_lookup (svcMeth req) rs = (rs', Ret (svc, meth))).
Context (Hdisp : Service_dispatch svc meth req (s_world s0) = Ret (w', rep)).

Let info : epinfo := mkInfo true (Some n) (Some p) true (longReordering (s_net s0)).

(** Where the call is, and what its goroutines have done to the server and to
    the state of the program so far. *)
Definition phase (s : sys) (g : greq) : Prop :=
  let untouched := s_heap s = s_heap s0 ∧ s_world s = s_world s0 in
  let looked_up := s_heap s = <[p := rs']> (s_heap s0) ∧ s_world s = s_world s0 in
  let finished := s_heap s = <[p := rs']> (s_heap s0) ∧ s_world s = w' in
  match g_pc g, g_h g with
  | P_start, H_none => untouched
  | P_info i, H_none => i = info ∧ untouched
  | P_wait i, H_spawned q => i = info ∧ q = p ∧ untouched
  | P_wait i, H_called svc1 meth1 => i = info ∧ svc1 = svc ∧ meth1 = meth ∧ looked_up
  | P_wait i, H_ret r => i = info ∧ r = rep ∧ finished
  | P_check i (Some r), H_end => i = info ∧ r = rep ∧ finished
  | P_send r, H_end | P_done r, H_end => r = rep ∧ finished
  | _, _ => False
  end.

Definition call_inv (s : sys) : Prop :=
  ∃ g c b, s_reqs s !! id = Some g ∧ g_req g = req ∧ phase s g ∧
           s_net s = set_stats c b (s_net s0).

Lemma call_not_dead s g c b :
  s_net s = set_stats c b (s_net s0) → g_req g = req → dead_now g info s = false.
Proof.
  intros Hnet Hreq. unfold dead_now, isServerDead. rewrite Hreq, Hnet. simpl.
  change (is_enabled (set_stats c b (s_net s0)) (req_endname req))
    with (is_enabled (s_net s0) (req_endname req)).
  change (server_at (set_stats c b (s_net s0)) (Some n)) with (server_at (s_net s0) (Some n)).
  rewrite Hen, Hsrv. by rewrite bool_decide_eq_true_2.
Qed.

Lemma call_inv_set s g c b :
  g_req g = req → phase s g → s_net s = set_stats c b (s_net s0) →
  call_inv (set_greq id g s).
Proof. intros. exists g, c, b. simpl. by rewrite lookup_insert_eq. Qed.

Lemma read_healthy s c b :
  s_net s = set_stats c b (s_net s0) → readEndnameInfo (req_endname req) (s_net s) = info.
Proof.
  intros ->. unfold readEndnameInfo, info.
  change (connection (set_stats c b (s_net s0)) (req_endname req))
    with (connection (s_net s0) (req_endname req)).
  change (is_enabled (set_stats c b (s_net s0)) (req_endname req))
    with (is_enabled (s_net s0) (req_endname req)).
  rewrite Hconn, Hen. simpl. rewrite Hrel.
  by change (server_at (set_stats c b (s_net s0)) (Some n))
    with (server_at (s_net s0) (Some n)); rewrite Hsrv.
Qed.

Lemma call_inv_step a s s' :
  call_inv s → own id a → step a s = Some (Ret s') → call_inv s'.
Proof.
  intros (g & c & b & Hg & Hreq & Hph & Hnet) [Hid Hacc] Hs.
  destruct g as [req' pc h]. simpl in Hreq. subst req'.
  destruct a as [id' r|id' r| |id'|id' d|id'|id'|id'|id'|id'|id' d|id'|o]; simpl in Hid; simplify_eq;
    cbn [step] in Hs; rewrite ?Hg in Hs; cbn [mbind option_bind g_pc g_h] in Hs;
    [by destruct (Hacc r)|done|..]; unfold phase in Hph; cbn [g_pc g_h] in Hph;
    destruct pc as [|i|i|i [r|]|r|r]; try done;
    destruct h as [|q|svc1 meth1|r'|]; try done; simplify_eq.
  - eapply (call_inv_set _ _ c b); [done| |done]. split; [by eapply read_healthy|done].
  - destruct Hph as [-> ?]. by eapply (call_inv_set _ _ c b).
  - destruct Hph as (-> & -> & Hh & Hw). rewrite Hh, Hheap in Hs. cbn [g_req] in Hs.
    rewrite Hlook in Hs. simplify_eq/=.
    eapply (call_inv_set _ _ c b); [done| |done]. unfold phase. simpl.
    by rewrite ?Hw, ?Hh.
  - destruct Hph as (-> & -> & -> & Hh & Hw). cbn [g_req] in Hs. rewrite Hw, Hdisp in Hs.
    simplify_eq/=. by eapply (call_inv_set _ _ c b).
  - destruct Hph as (-> & -> & ?). by eapply (call_inv_set _ _ c b).
  - pose proof Hph as [-> ?]. rewrite (call_not_dead s _ c b) by done. by eexists _, c, b.
  - pose proof Hph as [-> ?]. rewrite (call_not_dead s _ c b) by done. by eexists _, c, b.
  - pose proof Hph as [-> ?]. rewrite (call_not_dead s _ c b) by done. by eexists _, c, b.
  - destruct Hph as (-> & -> & ?). eapply (call_inv_set _ _ c b); [done| |done].
    rewrite (call_not_dead s _ c b) by done. done.
  - destruct Hph as (-> & ?). eapply call_inv_set; [done| |by simpl; rewrite Hnet].
    done.
Qed.

Lemma call_inv_run l s s' :
  call_inv s → Forall (own id) l → run l s = Some s' → call_inv s'.
Proof.
  intros Hi Hl. revert s Hi. induction Hl as [|a l Ha _ IH]; intros s Hi Hr; simpl in Hr.
  { by simplify_eq. }
  destruct (step a s) as [[s1|w|w|]|] eqn:Hs; try done.
  eapply IH; [|done]. by eapply call_inv_step.
Qed.

(** One schedule that completes the call. *)
Definition straight : list action :=
  [A_read id; A_branch id 0; A_lookup id; A_handler id; A_recv id; A_finish id 0; A_send id].

Lemma straight_own : Forall (own id) straight.
Proof. repeat (constructor; [split; [done|by intros]|]). constructor. Qed.

Lemma straight_runs s c b :
  s_reqs s !! id = Some (mkGreq req P_start H_none) →
  s_net s = set_stats c b (s_net s0) → s_heap s = s_heap s0 → s_world s = s_world s0 →
  ∃ s' g, run straight s = Some s' ∧ s_reqs s' !! id = Some g ∧ answered g = true.
Proof.
  intros Hg Hnet Hh Hw. unfold straight.
  cbn [run step]. rewrite Hg. cbn [mbind option_bind g_pc g_h g_req run step].
  rewrite (read_healthy s c b Hnet).
  simpl. rewrite lookup_insert_eq. simpl. rewrite lookup_insert_eq. simpl.
  rewrite Hh, Hheap. simpl. rewrite Hlook. simpl.
  rewrite lookup_insert_eq. simpl. rewrite Hw, Hdisp. simpl.
  rewrite lookup_insert_eq. simpl. rewrite lookup_insert_eq. simpl.
  rewrite lookup_insert_eq. simpl. do 2 eexists. split; [done|].
  simpl. by rewrite lookup_insert_eq.
Qed.
End healthy.

(** ** Dispatch *)

Lemma dispatch_lookup_split sname meth rs :
  has_byte dot_byte meth = false →
  dispatch_lookup (sname +:+ String dot_byte meth) rs
  = (mkServer (services rs) (wrap_i64 (srv_count rs + 1)),
     match services rs !! sname with
     | Some svc => Ret (svc, meth)
     | None => Fatal "labrpc.Server.dispatch(): unknown service"
     end).
Proof.
  intros Hm. unfold dispatch_lookup. rewrite LastIndex_split by done.
  destruct (Z.ltb_spec (Z.of_nat (String.length sname)) 0); [lia|].
  rewrite Nat2Z.id, Z2Nat.inj_add, Nat2Z.id by lia. rewrite Nat.add_1_r.
  rewrite str_take_app, str_drop_app. simpl. by destruct (services rs !! sname).
Qed.

Lemma Service_dispatch_method `{!GobLaws V Ty} svc m method e sm v rv w w' b1 b2 recv :
  svc_methods svc !! m = Some method →
  m_in method = [recv; (b1, type_of v); (b2, type_of rv)] →
  (gob_encode v).2 = true →
  m_func method w v (zero_of (type_of rv)) = Ret (w', rv) →
  Service_dispatch svc m (mkReq e sm (b1, type_of v) (gob_encode v).1) w
  = Ret (w', mkReply true (gob_encode rv).1).
Proof.
  intros Hm Hin Hv Hf. unfold Service_dispatch. rewrite Hm, Hin. simpl.
  rewrite gob_roundtrip by done. rewrite decide_True by done. simpl. by rewrite Hf.
Qed.

Lemma gstep_req s a g g' : gstep s a g g' → g_req g' = g_req g.
Proof.
  destruct 1 as [|? d g i _| | | | | | | |]; try done.
  destruct (process_branch_cases i d g) as [Hb|(? & Hb & _)]; by rewrite Hb.
Qed.

(** ** The properties of the component *)

(** C7: However the goroutines of the calls and the operations of the tester
    interleave, a call runs its handler at most once and is answered at most
    once, its goroutines take at most eight steps besides waiting turns, and a
    positive answer is the reply this call's handler produced for this call's
    arguments; a call that never reached the server ran no handler. *)
Theorem call_at_most_once (l : list action) (s0 s : sys) (id : nat) (g : greq)
    (Hfresh : s_reqs s0 !! id = None) (Hrun : run l s0 = Some s)
    (Hg : s_reqs s !! id = Some g) :
  (count_if (is_handler id) l ≤ 1)%nat ∧ (count_if (is_answer id) l ≤ 1)%nat ∧
  (count_if (is_work id) l ≤ 8)%nat ∧
  (∀ r, g_pc g = P_done r → ok r = true →
     count_if (is_handler id) l = 1%nat ∧ handled s0 l id (g_req g) r) ∧
  (g_h g = H_none → count_if (is_handler id) l = 0%nat).
Proof.
  destruct (run_bookkeeping l s0 s id g Hfresh Hrun Hg) as (Hok & Hw & Hx & Ha).
  split; [destruct (executed g); simpl in Hx; lia|].
  split; [destruct (answered g); simpl in Ha; lia|].
  split; [lia|]. split; [|by unfold executed in Hx; intros Hh; rewrite Hh in Hx].
  assert (carries (handled s0 l id (g_req g)) g) as [_ Hc].
  { clear Hok Hw Hx Ha. revert l s g Hrun Hg.
    apply (run_request_ind (λ l _ g, carries (handled s0 l id (g_req g)) g) id s0 Hfresh).
    - by intros l s req _.
    - by intros l s req _.
    - intros l s a g g' Hr Hst Hid Hc s' Hs. rewrite (gstep_req s a g g' Hst).
      eapply gstep_carries; [done|done| |].
      + eapply carries_impl; [|exact Hc]. intros r. apply handled_snoc.
      + intros svc meth w r Hd ->. by exists l, [], s, svc, meth, w.
    - intros l s a g _ _ Hc s' _. eapply carries_impl; [|exact Hc]. intros r. apply handled_snoc. }
  intros r Hr Hokr. unfold greq_ok, executed in *. rewrite Hr in Hok, Hc.
  rewrite (Hok Hokr) in Hx. simpl in Hx. auto.
Qed.

(** C9: Once the server a call was sent to is deleted or replaced, and as long as
    the same server object is not added back, the call can only be answered with
    a failure: no reply computed by a killed server reaches the client. *)
Theorem killed_server_no_reply (l : list action) (s s' : sys) (id : nat) (g g' : greq)
    (n : iface) (p : sptr) (i : epinfo) (r : replyMsg)
    (Hg : s_reqs s !! id = Some g)
    (Hpc : g_pc g = P_wait i ∨ ∃ o, g_pc g = P_check i o)
    (Hi : i_servername i = n ∧ i_server i = Some p)
    (Hgone : server_at (s_net s) n ≠ Some p)
    (Hl : A_net (O_addServer n p) ∉ l)
    (Hrun : run l s = Some s') (Hg' : s_reqs s' !! id = Some g') (Hdone : g_pc g' = P_done r) :
  ok r = false.
Proof.
  destruct (run_doomed l s s' id g n p) as (g1 & Hg1 & Hd); try done.
  - unfold doomed. by destruct Hpc as [->|[o ->]].
  - assert (g1 = g') as -> by congruence. unfold doomed in Hd. by rewrite Hdone in Hd.
Qed.

Lemma rpc_runs_locally `{!GobLaws V Ty} (s0 : sys) (id : nat) (e : ClientEnd)
    (n : name) (p : sptr) (rs : Server) (svc : Service) (sname meth : string)
    (method : Method) (recv : bool * Ty) (b1 b2 : bool) (v rv : V) (w' : W) (req : reqMsg)
    (Hfresh : s_reqs s0 !! id = None) (Hopen : s_loop s0 = true)
    (Hen : is_enabled (s_net s0) (endname e) = true)
    (Hconn : connection (s_net s0) (endname e) = Some n)
    (Hsrv : server_at (s_net s0) (Some n) = Some p)
    (Hrel : reliable (s_net s0) = true)
    (Hheap : s_heap s0 !! p = Some rs)
    (Hsvc : services rs !! sname = Some svc) (Hdot : has_byte dot_byte meth = false)
    (Hm : svc_methods svc !! meth = Some method)
    (Hin : m_in method = [recv; (b1, type_of v); (b2, type_of rv)])
    (Hf : m_func method (s_world s0) v (zero_of (type_of rv)) = Ret (w', rv))
    (Hreq : Call_request e (sname +:+ String dot_byte meth) (b1, v) = Ret req)
    (Henc : (gob_encode rv).2 = true) :
  (∃ l s g, Forall (own id) l ∧ run (A_accept id req :: l) s0 = Some s ∧
            s_reqs s !! id = Some g ∧ answered g = true) ∧
  ∀ l s g r, Forall (own id) l → run (A_accept id req :: l) s0 = Some s →
    s_reqs s !! id = Some g → g_pc g = P_done r →
    Call_result r (zero_of (type_of rv)) = Ret (true, rv) ∧ s_world s = w' ∧
    s_heap s = <[p := mkServer (services rs) (wrap_i64 (srv_count rs + 1))]> (s_heap s0).
Proof.
  unfold Call_request in Hreq. simpl in Hreq. destruct (gob_encode v) as [qb good] eqn:Hv.
  destruct good; cbn [negb] in Hreq; simplify_eq. rename Hv into Hqb.
  assert ((gob_encode v).2 = true) as Hv by by rewrite Hqb.
  assert (qb = (gob_encode v).1) as -> by by rewrite Hqb.
  pose proof (dispatch_lookup_split sname meth rs Hdot) as Hlook. rewrite Hsvc in Hlook.
  pose proof (Service_dispatch_method svc meth method (endname e)
    (sname +:+ String dot_byte meth) v rv (s_world s0) w' b1 b2 recv Hm Hin Hv Hf) as Hdisp.
  set (req := mkReq _ _ _ _) in *.
  assert (step (A_accept id req) s0 = Some (Ret (accept id req s0))) as Hacc
    by (cbn [step]; by rewrite Hfresh, Hopen).
  split.
  - destruct (straight_runs s0 id req n p rs _ svc meth w' _ Hen Hconn Hsrv Hrel Hheap Hlook
      Hdisp (accept id req s0) (wrap_i32 (count (s_net s0) + 1))
      (wrap_i64 (bytes (s_net s0) + Z.of_nat (length (req_args req)))))
      as (s' & g & Hr & Hg & Ha); [simpl; by rewrite lookup_insert_eq|done..|].
    exists (straight id), s', g. split; [apply straight_own|].
    by rewrite (run_step _ _ _ _ Hacc).
  - intros l s g r Hl Hr Hg Hp. rewrite (run_step _ _ _ _ Hacc) in Hr.
    destruct (call_inv_run s0 id req n p rs _ svc meth w' _ Hen Hconn Hsrv Hrel Hheap Hlook
      Hdisp l (accept id req s0) s) as (g' & c & b & Hg' & _ & Hph & _); [|done..|].
    { by apply (call_inv_set _ _ _ _ _ _ _ _ _ _ _ _
        (wrap_i32 (count (s_net s0) + 1))
        (wrap_i64 (bytes (s_net s0) + Z.of_nat (length (req_args req))))). }
    assert (g' = g) as -> by congruence. unfold phase in Hph. rewrite Hp in Hph.
    destruct (g_h g); try done. destruct Hph as (-> & ? & ?). split; [|done].
    unfold Call_result. simpl. by rewrite gob_roundtrip.
Qed.

(** C4: Over a reliable network on which the end is enabled and connected to a
    live server, a remote call is a local method call: the call can complete,
    and every schedule of its goroutines that completes gives the client the
    value the method returns, with the method's effect on the state of the
    program and the server's counter incremented. *)
Theorem rpc_is_local_call `{!GobLaws V Ty} (s0 : sys) (id : nat) (e : ClientEnd)
    (n : name) (p : sptr) (rs : Server) (svc : Service) (sname meth : string)
    (method : Method) (recv : bool * Ty) (b1 b2 : bool) (v rv : V) (w' : W) (req : reqMsg)
    (Hfresh : s_reqs s0 !! id = None) (Hopen : s_loop s0 = true)
    (Hen : is_enabled (s_net s0) (endname e) = true)
    (Hconn : connection (s_net s0) (endname e) = Some n)
    (Hsrv : server_at (s_net s0) (Some n) = Some p)
    (Hrel : reliable (s_net s0) = true)
    (Hheap : s_heap s0 !! p = Some rs)
    (Hsvc : services rs !! sname = Some svc) (Hdot : has_byte dot_byte meth = false)
    (Hm : svc_methods svc !! meth = Some method)
    (Hin : m_in method = [recv; (b1, type_of v); (b2, type_of rv)])
    (Hf : m_func method (s_world s0) v (zero_of (type_of rv)) = Ret (w', rv))
    (Hreq : Call_request e (sname +:+ String dot_byte meth) (b1, v) = Ret req)
    (Henc : (gob_encode rv).2 = true) :
  (∃ l s g, Forall (own id) l ∧ run (A_accept id req :: l) s0 = Some s ∧
            s_reqs s !! id = Some g ∧ answered g = true) ∧
  ∀ l s g r, Forall (own id) l → run (A_accept id req :: l) s0 = Some s →
    s_reqs s !! id = Some g → g_pc g = P_done r →
    Call_result r (zero_of (type_of rv)) = Ret (true, rv) ∧ s_world s = w' ∧
    s_heap s = <[p := mkServer (services rs) (wrap_i64 (srv_count rs + 1))]> (s_heap s0).
Proof. by apply (rpc_runs_locally s0 id e n p rs svc sname meth method recv b1 b2 v rv w' req). Qed.

(** As long as the network is not destroyed, its goroutine accepts calls. *)
Lemma run_loop l s0 s :
  run l s0 = Some s → s_loop s0 = true ∨ done_closed (s_net s0) = true →
  s_loop s = true ∨ done_closed (s_net s) = true.
Proof.
  revert s. induction l as [|a l IH] using rev_ind; intros s Hr H0; [by simplify_eq/=|].
  apply run_snoc in Hr as (s1 & Hr & Ha). specialize (IH s1 Hr H0).
  assert ((∃ o, a = A_net o) ∨ ∀ o, a ≠ A_net o) as [[o ->]|Hno] by (destruct a; eauto).
  - cbn [step] in Ha. destruct (apply_netop o (s_net s1)) as [rn|w|w|] eqn:Ho; simplify_eq/=.
    netop_cases o Ho; auto.
  - destruct (step_net a s1 s Ha Hno) as (c & b & ->). destruct IH as [IH|IH]; [|by right].
    destruct (step_loop a s1 s Ha) as [->|[-> Hd]]; [by left|by right].
Qed.

(** C11: A call is never stuck, except in a handler that does not return: as long
    as it is unanswered, either some goroutine of the call has an enabled step that
    is not a waiting turn, or the method it called waits.  If the call is waiting
    for a handler, one that waits included, whose server was deleted or whose end
    was disabled, it can be answered with a failure in three steps without it.  A
    call that is not sent yet can be sent or, when the network is destroyed,
    returns with a failure: it never waits for a goroutine that has ended. *)
Theorem call_not_stuck (l : list action) (s0 s : sys) (id : nat) (g : greq)
    (Hloop : s_loop s0 = true) (Hfresh : s_reqs s0 !! id = None) (Hrun : run l s0 = Some s)
    (Hg : s_reqs s !! id = Some g) (Hopen : answered g = false) :
  ((∃ a o, is_work id a = true ∧ step a s = Some o) ∨
   ∃ svc meth, g_h g = H_called svc meth ∧
     Service_dispatch svc meth (g_req g) (s_world s) = Diverge) ∧
  (∀ i d, g_pc g = P_wait i → dead_now g i s = true →
     ∃ s' g', run [A_poll id; A_finish id d; A_send id] s = Some s' ∧
              s_reqs s' !! id = Some g' ∧ g_pc g' = P_done no_reply) ∧
  (∀ id' req, s_reqs s !! id' = None →
     ∃ s', step (A_accept id' req) s = Some (Ret s') ∨ step (A_refuse id' req) s = Some (Ret s')).
Proof.
  destruct (run_bookkeeping l s0 s id g Hfresh Hrun Hg) as (Hok & _).
  destruct g as [req pc h]. split; [|split].
  - unfold greq_ok, answered in *. simpl in *. destruct pc as [|i|i|i r|r|r]; try done.
    + left. exists (A_read id). eexists. cbn [step is_work act_id]. rewrite Hg. simpl.
      by rewrite bool_decide_eq_true_2.
    + left. exists (A_branch id 0). eexists. cbn [step is_work act_id]. rewrite Hg. simpl.
      by rewrite bool_decide_eq_true_2.
    + destruct Hok as (_ & _ & _ & Hh). destruct h as [|p|svc m|r|]; try done.
      * left. exists (A_lookup id). cbn [step is_work act_id]. rewrite Hg. simpl.
        rewrite bool_decide_eq_true_2 by done.
        destruct (s_heap s !! p) as [rs|]; [|by eauto].
        destruct (dispatch_lookup _ rs) as [rs' x]. eauto.
      * destruct (Service_dispatch svc m req (s_world s)) as [[w r]|?|?|] eqn:Hd; [left..|by right; eauto].
        all: exists (A_handler id); cbn [step is_work act_id]; rewrite Hg; simpl; rewrite Hd.
        all: rewrite bool_decide_eq_true_2 by done; eauto.
      * left. exists (A_recv id). eexists. cbn [step is_work act_id]. rewrite Hg. simpl.
        by rewrite bool_decide_eq_true_2.
    + left. exists (A_finish id 0). eexists. cbn [step is_work act_id]. rewrite Hg. simpl.
      by rewrite bool_decide_eq_true_2.
    + left. exists (A_send id). eexists. cbn [step is_work act_id]. rewrite Hg. simpl.
      by rewrite bool_decide_eq_true_2.
  - simpl. intros i d -> Hdead. rewrite Hg. simpl. rewrite Hdead. simpl.
    rewrite lookup_insert_eq. simpl. rewrite lookup_insert_eq. simpl.
    do 2 eexists. split; [done|]. simpl. by rewrite lookup_insert_eq.
  - intros id' req' Hn. cbn [step]. rewrite Hn.
    destruct (run_loop l s0 s Hrun ltac:(by left)) as [->| ->]; eauto.
Qed.

Definition is_accept (a : action) : bool := match a with A_accept _ _ => true | _ => false end.

Lemma step_count a s s' :
  step a s = Some (Ret s') →
  count (s_net s') =
  if is_accept a then wrap_i32 (count (s_net s) + 1) else count (s_net s).
Proof.
  intros Hs. step_cases a Hs; try done.
  match goal with H : apply_netop _ _ = _ |- _ => by netop_cases o H end.
Qed.

(** [GetTotalCount] is the number of calls the network accepted, modulo the
    32 bits of its counter, whatever the calls and the tester did. *)
Lemma GetTotalCount_accepted (l : list action) (s0 s : sys)
    (Hinit : (- 2 ^ 31 <= count (s_net s0) < 2 ^ 31)%Z) (Hrun : run l s0 = Some s) :
  GetTotalCount (s_net s) =
  wrap_i32 (GetTotalCount (s_net s0) + Z.of_nat (count_if is_accept l)).
Proof.
  unfold GetTotalCount. revert s Hrun. induction l as [|a l IH] using rev_ind; intros s Hrun.
  - simpl in Hrun. simplify_eq. rewrite wrap_i32_id; simpl; lia.
  - apply run_snoc in Hrun as (s1 & Hr & Ha). rewrite (step_count a s1 s Ha), count_if_snoc.
    destruct (is_accept a); rewrite (IH s1 Hr); [rewrite wrap_i32_succ|]; f_equal; lia.
Qed.

(** [Server.dispatch] splits the method name at its last dot, counts the
    request whether or not the service exists, and hands the rest to the
    service registered under the first part; an unknown service or method ends
    the process. *)
Lemma dispatch_routes (rs : Server) (sname meth : string) (req : reqMsg) (w : W)
    (Hname : svcMeth req = sname +:+ String dot_byte meth)
    (Hdot : has_byte dot_byte meth = false) :
  (dispatch_lookup (svcMeth req) rs).1
    = mkServer (services rs) (wrap_i64 (srv_count rs + 1)) ∧
  Server_dispatch rs req w =
    match services rs !! sname with
    | None => Fatal "labrpc.Server.dispatch(): unknown service"
    | Some svc => '(w, r) ← Service_dispatch svc meth req w;
                  Ret (mkServer (services rs) (wrap_i64 (srv_count rs + 1)), w, r)
    end.
Proof.
  unfold Server_dispatch. rewrite Hname, dispatch_lookup_split by done.
  split; [done|]. by destruct (services rs !! sname).
Qed.

Lemma suitable_iff m :
  suitable m = true ↔
  m_pkgpath m = "" ∧ length (m_in m) = 3%nat ∧ m_numout m = 0%nat ∧
  ∃ t, m_in m !! 2%nat = Some (true, t).
Proof.
  unfold suitable. rewrite negb_true_iff, !orb_false_iff, !negb_false_iff, !bool_decide_eq_true.
  split.
  - intros [[[? ?] Hp] ?]. repeat split; try done.
    destruct (m_in m !! 2%nat) as [[[] t]|] eqn:?; simpl in Hp; by eauto.
  - intros (? & ? & ? & t & Ht). by rewrite Ht.
Qed.

(** [MakeService] registers exactly the methods that look like handlers:
    exported, with a receiver, two arguments of which the second is a pointer,
    and no result. *)
Lemma MakeService_methods (tname : string) (methods : list Method) (k : string) (m : Method)
    (Hnd : NoDup (m_name <$> methods)) :
  svc_methods (MakeService tname methods) !! k = Some m ↔
  m ∈ methods ∧ k = m_name m ∧ m_pkgpath m = "" ∧ length (m_in m) = 3%nat ∧
  m_numout m = 0%nat ∧ ∃ t, m_in m !! 2%nat = Some (true, t).
Proof.
  rewrite <-suitable_iff. unfold MakeService. simpl.
  induction methods as [|x ms IH] using rev_ind.
  { simpl. rewrite lookup_empty. split; [done|]. by intros (?%elem_of_nil & _). }
  rewrite fmap_app, NoDup_app in Hnd. destruct Hnd as (Hnd & Hx & _).
  specialize (IH Hnd). rewrite foldl_snoc, elem_of_app, list_elem_of_singleton.
  assert (∀ y, y ∈ ms → m_name y ≠ m_name x) as Hne.
  { intros y Hy He. apply (Hx (m_name y)); [by apply list_elem_of_fmap_2|].
    rewrite He. by left. }
  destruct (suitable x) eqn:Hs.
  - rewrite lookup_insert_Some, IH. split.
    + intros [[<- <-]|[? (? & ? & ?)]]; [by split; [right|]|by split; [left|]].
    + intros ([Hm| ->] & -> & Hsm); [right|by left].
      split; [|done]. by apply not_eq_sym, Hne.
  - rewrite IH. split; [intros (? & ? & ?); by split; [left|]|].
    intros ([?| ->] & -> & Hsm); [done|congruence].
Qed.
End rpc.

(** ** A concrete network for the examples

    Values are integers encoded as one number; the program state is a counter
    that the only method, [Ctr.Add], increases by its argument. *)

#[export] Instance Z_values : GoValues Z unit := {
  type_of := λ _, tt;
  zero_of := λ _, 0;
  gob_encode := λ v, ([v], true);
  gob_decode := λ v l, match l with [x] => (x, true) | _ => (v, false) end
}.
#[export] Instance Z_gob : GobLaws Z unit.
Proof. by intros v. Defined.

Definition ex_add : Method (V := Z) (Ty := unit) (W := Z) :=
  mkMethod "Add" "" [(true, tt); (true, tt); (true, tt)] 0 (λ w v _, Ret (w + v, w + v)).
Definition ex_server : Server (V := Z) (Ty := unit) (W := Z) :=
  AddService (MakeService "Ctr" [ex_add]) MakeServer.

Definition ex_end : iface := Some (NStr "end").
Definition ex_net : Network :=
  match MakeEnd ex_end MakeNetwork with
  | Ret (_, rn) =>
      AddServer (Some (NStr "server-0-0")) 0
        (Enable ex_end true (Connect ex_end (Some (NStr "server-0-0")) rn))
  | _ => MakeNetwork
  end.
Definition ex_sys : sys (V := Z) (Ty := unit) (W := Z) := mkSys ex_net {[0%nat := ex_server]} 5 ∅ true.
Definition ex_req : reqMsg (Ty := unit) := mkReq ex_end "Ctr.Add" (true, tt) [7].

(** The call in flight, its handler running, when the server is deleted. *)
Definition ex_killed : list (action (Ty := unit)) :=
  [A_accept 0 ex_req; A_read 0; A_branch 0 0; A_lookup 0;
   A_net (O_deleteServer (Some (NStr "server-0-0")))].
Definition ex_after : list (action (Ty := unit)) :=
  [A_handler 0; A_recv 0; A_finish 0 999; A_send 0].

Definition run_or (l : list (action (Ty := unit))) (s : sys (V := Z) (Ty := unit) (W := Z)) :=
  default s (run l s).

(** The states these schedules lead to. *)
Definition ex_finished : sys :=
  Eval vm_compute in run_or (A_accept 0 ex_req :: straight 0) ex_sys.
Definition ex_deleted : sys := Eval vm_compute in run_or ex_killed ex_sys.
Definition ex_failed : sys := Eval vm_compute in run_or ex_after ex_deleted.

Definition ex_info : epinfo :=
  mkInfo true (Some (NStr "server-0-0")) (Some 0%nat) true false.
Definition ex_waiting : greq := Eval vm_compute in
  default (mkGreq ex_req P_start H_none) (s_reqs ex_deleted !! 0%nat).

Lemma ex_finished_run : run (A_accept 0 ex_req :: straight 0) ex_sys = Some ex_finished.
Proof. vm_compute. reflexivity. Defined.
Lemma ex_killed_run : run ex_killed ex_sys = Some ex_deleted.
Proof. vm_compute. reflexivity. Defined.
Lemma ex_after_run : run ex_after ex_deleted = Some ex_failed.
Proof. vm_compute. reflexivity. Defined.

Lemma call_at_most_once_witness :
  (count_if (is_handler 0) (A_accept 0 ex_req :: straight 0) = 1)%nat.
Proof.
  pose proof (call_at_most_once (A_accept 0 ex_req :: straight 0) ex_sys ex_finished 0
    (mkGreq ex_req (P_done (mkReply true [12])) H_end) eq_refl ex_finished_run
    ltac:(vm_compute; reflexivity)) as (_ & _ & _ & H & _).
  exact (proj1 (H (mkReply true [12]) eq_refl eq_refl)).
Defined.

Lemma killed_server_no_reply_witness : ok no_reply = false.
Proof.
  refine (killed_server_no_reply ex_after ex_deleted ex_failed 0 ex_waiting
    (mkGreq ex_req (P_done no_reply) H_end) (Some (NStr "server-0-0")) 0 ex_info no_reply
    ltac:(vm_compute; reflexivity) (or_introl eq_refl)
    (conj eq_refl eq_refl) ltac:(vm_compute; discriminate) _
    ex_after_run ltac:(vm_compute; reflexivity) eq_refl).
  rewrite list_elem_of_In. simpl. intros [H|[H|[H|[H|[]]]]]; discriminate.
Defined.

Lemma rpc_is_local_call_witness :
  ∃ l s g, Forall (own 0) l ∧ run (A_accept 0 ex_req :: l) ex_sys = Some s ∧
           s_reqs s !! 0%nat = Some g ∧ answered g = true.
Proof.
  refine (proj1 (rpc_is_local_call ex_sys 0 (mkClientEnd ex_end) (NStr "server-0-0") 0
    ex_server (MakeService "Ctr" [ex_add]) "Ctr" "Add" ex_add (true, tt) true true 7 12 12
    ex_req _ _ _ _ _ _ _ _ _ _ _ _ _ _)); vm_compute; reflexivity.
Defined.

Lemma call_not_stuck_witness :
  ∃ s' g', run [A_poll 0; A_finish 0 0; A_send 0] ex_deleted = Some s' ∧
           s_reqs s' !! 0%nat = Some g' ∧ g_pc g' = P_done no_reply.
Proof.
  pose proof (call_not_stuck ex_killed ex_sys ex_deleted 0 ex_waiting eq_refl eq_refl ex_killed_run
    ltac:(vm_compute; reflexivity) eq_refl) as (_ & H & _).
  exact (H ex_info 0 eq_refl ltac:(vm_compute; reflexivity)).
Defined.

Lemma GetTotalCount_accepted_witness : GetTotalCount (s_net ex_deleted) = 1.
Proof.
  refine (eq_trans (GetTotalCount_accepted ex_killed ex_sys ex_deleted _ ex_killed_run) _).
  - vm_compute. split; [discriminate|reflexivity].
  - vm_compute. reflexivity.
Defined.

Lemma dispatch_routes_witness :
  (dispatch_lookup (svcMeth ex_req) ex_server).1 = mkServer (services ex_server) 1.
Proof.
  exact (proj1 (dispatch_routes ex_server "Ctr" "Add" ex_req 0 eq_refl eq_refl)).
Defined.

Lemma MakeService_methods_witness :
  svc_methods (MakeService "Ctr" [ex_add]) !! "Add" = Some ex_add.
Proof.
  refine (proj2 (MakeService_methods "Ctr" [ex_add] "Add" ex_add _) _).
  - apply NoDup_singleton.
  - split; [by left|]. repeat split; try reflexivity. by exists tt.
Defined.
