(* ===== verification/KvModel.v ===== *)
(** * The key/value service: [kvsrv1/rpc/rpc.go], [models1/kv.go]

    The errors and arguments of the service, the sequential model that the
    linearizability checker runs, and the service that the comments of
    [kvsrv1/server.go] document. *)

From S2P Require Export GoStd.
#[local] Set Default Proof Using "Type".

(** ** [rpc.go] *)

Definition Err := string.
Definition OK : Err := "OK".
Definition ErrNoKey : Err := "ErrNoKey".
Definition ErrVersion : Err := "ErrVersion".
Definition ErrMaybe : Err := "ErrMaybe".
Definition ErrWrongLeader : Err := "ErrWrongLeader".
Definition ErrWrongGroup : Err := "ErrWrongGroup".

(** A [Tversion] is a [uint64]; [ver += 1] wraps around. *)
Abbreviation Tversion := Z.
Definition ver_incr (v : Tversion) : Tversion := wrap_u64 (v + 1).

(** ** [models1/kv.go] *)

Record KvInput := mkIn { in_Op : Z; in_Key : string; in_Value : string; in_Version : Z }.
Record KvOutput := mkOut { out_Value : string; out_Version : Z; out_Err : string }.
Record KvState := mkKv { st_Value : string; st_Version : Z }.

(** [porcupine.Operation]. *)
Record Operation := mkOp {
  ClientId : Z;
  Input : KvInput;
  OpCall : Z;
  Output : KvOutput;
  OpReturn : Z
}.
Definition op_key (o : Operation) : string := in_Key (Input o).

Definition group_by_key (history : list Operation) : gmap string (list Operation) :=
  foldl (λ m v, <[op_key v := default [] (m !! op_key v) ++ [v]]> m) ∅ history.

Definition Partition (history : list Operation) : list (list Operation) :=
  let m := group_by_key history in
  let keys := sort_strings (elements (dom m)) in
  (λ k, default [] (m !! k)) <$> keys.

Definition Init : KvState := mkKv "" 0.

(** The state after an invalid operation is a string; the checker then stops. *)
Definition Step (st : KvState) (inp : KvInput) (out : KvOutput) : bool * option KvState :=
  if (in_Op inp =? 0)%Z then (bool_decide (out_Value out = st_Value st), Some st)
  else if (in_Op inp =? 1)%Z then
    if (st_Version st =? in_Version inp)%Z then
      (bool_decide (out_Err out = OK) || bool_decide (out_Err out = ErrMaybe),
       Some (mkKv (in_Value inp) (ver_incr (st_Version st))))
    else
      (bool_decide (out_Err out = ErrVersion) || bool_decide (out_Err out = ErrMaybe), Some st)
  else (false, None).

(** [%d] of a [uint64] prints the decimal digits. *)
Definition DescribeOperation (inp : KvInput) (out : KvOutput) : string :=
  if (in_Op inp =? 0)%Z then
    "get('" +:+ in_Key inp +:+ "') -> ('" +:+ out_Value out +:+ "', '" +:+
    Itoa (out_Version out) +:+ "', '" +:+ out_Err out +:+ "')"
  else if (in_Op inp =? 1)%Z then
    "put('" +:+ in_Key inp +:+ "', '" +:+ in_Value inp +:+ "', '" +:+
    Itoa (in_Version inp) +:+ "') -> ('" +:+ out_Err out +:+ "')"
  else "<invalid>".

(** A history of one key is explained by a sequence of accepted steps. *)
Fixpoint explains (st : KvState) (ops : list (KvInput * KvOutput)) : bool :=
  match ops with
  | [] => true
  | (i, o) :: ops =>
      match Step st i o with (true, Some st') => explains st' ops | _ => false end
  end.

(** ** The documented service

    [kvsrv1/server.go] is a stub; its comments specify [Get] and [Put] on a map
    from keys to values and versions. *)

Abbreviation kvstore := (gmap string (string * Tversion)).

Definition srv_Get (m : kvstore) (key : string) : string * Tversion * Err :=
  match m !! key with Some (v, ver) => (v, ver, OK) | None => ("", 0%Z, ErrNoKey) end.

Definition srv_Put (m : kvstore) (key value : string) (ver : Tversion) : Err * kvstore :=
  match m !! key with
  | Some (_, cur) =>
      if decide (cur = ver) then (OK, <[key := (value, ver_incr ver)]> m) else (ErrVersion, m)
  | None =>
      if decide (ver = 0%Z) then (OK, <[key := (value, 1%Z)]> m) else (ErrNoKey, m)
  end.

(** One operation of a history, executed by the service. *)
Definition srv_op (m : kvstore) (i : KvInput) : KvOutput * kvstore :=
  if (in_Op i =? 0)%Z then
    let '(v, ver, e) := srv_Get m (in_Key i) in (mkOut v ver e, m)
  else
    let '(e, m) := srv_Put m (in_Key i) (in_Value i) (in_Version i) in (mkOut "" 0 e, m).

Fixpoint srv_run (m : kvstore) (ins : list KvInput) : list (KvInput * KvOutput) :=
  match ins with
  | [] => []
  | i :: ins => let '(o, m) := srv_op m i in (i, o) :: srv_run m ins
  end.

(** ** Partitioning *)

Lemma group_by_key_lookup (h : list Operation) (k : string) :
  default [] (group_by_key h !! k) = filter (λ o, op_key o = k) h ∧
  (k ∈ dom (group_by_key h) ↔ ∃ o, o ∈ h ∧ op_key o = k).
Proof.
  induction h as [|v h IH] using rev_ind.
  - split; [done|]. change (group_by_key []) with (∅ : gmap string (list Operation)).
    rewrite dom_empty. set_solver.
  - destruct IH as [IH1 IH2].
    assert (group_by_key (h ++ [v]) =
      <[op_key v := default [] (group_by_key h !! op_key v) ++ [v]]> (group_by_key h)) as ->
      by (unfold group_by_key; by rewrite foldl_app).
    rewrite filter_app. split.
    + destruct (decide (op_key v = k)) as [<-|Hne].
      * rewrite lookup_insert_eq. simpl. by rewrite IH1, filter_cons_True, filter_nil by done.
      * rewrite lookup_insert_ne by done. by rewrite IH1, filter_cons_False, filter_nil, app_nil_r.
    + rewrite dom_insert, elem_of_union, IH2. set_solver.
Qed.

Lemma concat_classes {A} (f : A → string) (ks : list string) (h : list A) :
  NoDup ks → (∀ x, x ∈ h → f x ∈ ks) →
  concat ((λ k, filter (λ x, f x = k) h) <$> ks) ≡ₚ h.
Proof.
  intros Hnd. revert h. induction Hnd as [|k ks Hk Hnd IH]; intros h Hall; simpl.
  - destruct h as [|x h]; [done|]. exfalso. by apply (not_elem_of_nil (f x)), Hall; left.
  - trans (filter (λ x, f x = k) h ++ filter (λ x, ¬ f x = k) h);
      [|apply filter_app_complement].
    f_equiv. rewrite <-(IH (filter (λ x, ¬ f x = k) h)).
    + apply Permutation_refl'. f_equal. apply list_fmap_ext. intros i k' Hi.
      rewrite list_filter_filter. apply list_filter_iff. intros x.
      apply list_elem_of_lookup_2 in Hi. split; [|by intros []].
      intros Hx. split; [done|]. intros Hxk. apply Hk. congruence.
    + intros x [Hx Hin]%list_elem_of_filter. specialize (Hall x Hin). set_solver.
Qed.

Definition keys_of (h : list Operation) : list string :=
  sort_strings (elements (dom (group_by_key h))).

(** [Partition] splits a history into its subhistories per key, each in the
    order of the history, in the order of the keys, losing and duplicating
    nothing. *)
Lemma Partition_by_key (h : list Operation) :
  Partition h = (λ k, filter (λ o, op_key o = k) h) <$> keys_of h ∧
  NoDup (keys_of h) ∧ Sorted String.le (keys_of h) ∧
  (∀ k, k ∈ keys_of h ↔ ∃ o, o ∈ h ∧ op_key o = k) ∧
  concat (Partition h) ≡ₚ h.
Proof.
  assert (∀ k, k ∈ keys_of h ↔ ∃ o, o ∈ h ∧ op_key o = k) as Hk.
  { intros k. unfold keys_of, sort_strings. rewrite merge_sort_Permutation, elem_of_elements.
    apply group_by_key_lookup. }
  assert (NoDup (keys_of h)) as Hnd.
  { unfold keys_of, sort_strings. rewrite merge_sort_Permutation. apply NoDup_elements. }
  assert (Partition h = (λ k, filter (λ o, op_key o = k) h) <$> keys_of h) as Hp.
  { unfold Partition. apply list_fmap_ext. intros i k _. apply group_by_key_lookup. }
  split_and!; [done|done| |done|].
  - apply Sorted_merge_sort. apply _.
  - rewrite Hp. apply concat_classes; [done|]. intros o Ho. apply Hk. eauto.
Qed.

(** ** The checker's model against the documented service *)

(** The model state of a key: a missing key has the empty value and version 0. *)
Definition model_of (m : kvstore) (k : string) : KvState :=
  match m !! k with Some (v, ver) => mkKv v ver | None => Init end.

(** A versioned store: versions are positive and stay below 2^64. *)
Definition store_ok (m : kvstore) : Prop :=
  ∀ k v ver, m !! k = Some (v, ver) → (0 < ver < 2 ^ 64)%Z.

(** A put that the service refuses with [ErrNoKey]. *)
Definition nokey_put (m : kvstore) (i : KvInput) : bool :=
  (in_Op i =? 1)%Z && bool_decide (m !! in_Key i = None) && negb (in_Version i =? 0)%Z.

Lemma Step_srv_op (m : kvstore) (i : KvInput) :
  store_ok m → (in_Op i = 0 ∨ in_Op i = 1)%Z → nokey_put m i = false →
  Step (model_of m (in_Key i)) i (srv_op m i).1 =
  (true, Some (model_of (srv_op m i).2 (in_Key i))).
Proof.
  intros Hm Hop Hno. unfold Step, srv_op, srv_Get, srv_Put, model_of, nokey_put in *.
  destruct Hop as [Hop|Hop]; rewrite Hop in *; simpl in *.
  - destruct (m !! in_Key i) as [[v ver]|] eqn:Hk; simpl; rewrite Hk; [|done].
    by rewrite bool_decide_true.
  - destruct (m !! in_Key i) as [[v ver]|] eqn:Hk; simpl in *.
    + destruct (decide (ver = in_Version i)) as [->|Hne]; simpl.
      * by rewrite Z.eqb_refl, lookup_insert_eq.
      * rewrite (proj2 (Z.eqb_neq _ _)), Hk by done. done.
    + apply negb_false_iff, Z.eqb_eq in Hno. rewrite Hno. simpl. by rewrite lookup_insert_eq.
Qed.

Lemma srv_op_other m i k : k ≠ in_Key i → (srv_op m i).2 !! k = m !! k.
Proof.
  intros Hk. unfold srv_op, srv_Get, srv_Put. destruct (in_Op i =? 0)%Z.
  - by destruct (m !! in_Key i) as [[]|].
  - destruct (m !! in_Key i) as [[]|]; destruct (decide _); simpl; try done;
      by rewrite lookup_insert_ne.
Qed.

(** Histories the service produces without refusing a put to a missing key. *)
Fixpoint no_nokey (m : kvstore) (ins : list KvInput) : bool :=
  match ins with
  | [] => true
  | i :: ins => negb (nokey_put m i) && no_nokey (srv_op m i).2 ins
  end.

(** The versions stay below 2^64 when there are fewer puts than that. *)
Definition puts_fit (m : kvstore) (ins : list KvInput) : Prop :=
  ∀ k v ver, m !! k = Some (v, ver) → (0 < ver ∧ ver + Z.of_nat (length ins) < 2 ^ 64)%Z.

Lemma srv_op_fits m i n :
  (∀ k v ver, m !! k = Some (v, ver) → 0 < ver ∧ ver + Z.of_nat (S n) < 2 ^ 64)%Z →
  (Z.of_nat (S n) < 2 ^ 64)%Z →
  (∀ k v ver, (srv_op m i).2 !! k = Some (v, ver) → 0 < ver ∧ ver + Z.of_nat n < 2 ^ 64)%Z.
Proof.
  intros Hm Hn k v ver. destruct (decide (k = in_Key i)) as [->|Hne].
  - unfold srv_op, srv_Get, srv_Put. destruct (in_Op i =? 0)%Z.
    + destruct (m !! in_Key i) as [[v' c']|] eqn:Hk; simpl; intros Hk';
        [apply Hm in Hk'; lia|congruence].
    + destruct (m !! in_Key i) as [[v' cur]|] eqn:Hk.
      * specialize (Hm _ _ _ Hk). destruct (decide _) as [<-|]; simpl.
        -- rewrite lookup_insert_eq. intros [= <- <-]. unfold ver_incr.
           rewrite wrap_u64_id by lia. lia.
        -- rewrite Hk. intros [= <- <-]. lia.
      * destruct (decide _); simpl; [|congruence].
        rewrite lookup_insert_eq. intros [= <- <-]. lia.
  - rewrite srv_op_other by done. intros Hk%Hm. lia.
Qed.

(** C21: the checker accepts what the documented service does.  A sequential
    history of gets and puts on one key that the service produces, in which no
    put to a missing key has a version other than 0, is explained step by step
    by the model, from the model state of the key. *)
Theorem Step_accepts_service (k : string) (ins : list KvInput) (m : kvstore) :
  (∀ i, i ∈ ins → in_Key i = k ∧ (in_Op i = 0 ∨ in_Op i = 1)%Z) →
  puts_fit m ins → (Z.of_nat (length ins) < 2 ^ 64)%Z → no_nokey m ins →
  explains (model_of m k) (srv_run m ins) = true.
Proof.
  revert m. induction ins as [|i ins IH]; intros m Hin Hfit Hlen Hno; [done|].
  simpl in Hno. apply andb_prop_elim in Hno as [Hno1 Hno2].
  assert (nokey_put m i = false) as Hno0 by by destruct (nokey_put m i).
  destruct (Hin i) as [<- Hop]; [left|]. simpl.
  destruct (srv_op m i) as [o m'] eqn:Ho. simpl.
  pose proof (Step_srv_op m i) as HS. rewrite Ho in HS. simpl in HS.
  rewrite HS; [|intros ??? Hk; apply Hfit in Hk; simpl in *; lia|done|done].
  apply IH; [intros j Hj; apply Hin; by right| |simpl in *; lia|done].
  pose proof (srv_op_fits m i (length ins) Hfit Hlen) as H. by rewrite Ho in H.
Qed.

(** What the checker refuses although the documented service does it: a put
    with a version other than 0 to a key that does not exist is answered
    [ErrNoKey], and no state of the model in which the key is missing accepts
    that answer. *)
Lemma Step_rejects_ErrNoKey (m : kvstore) (i : KvInput) :
  nokey_put m i = true →
  out_Err (srv_op m i).1 = ErrNoKey ∧ (srv_op m i).2 = m ∧
  (Step (model_of m (in_Key i)) i (srv_op m i).1).1 = false.
Proof.
  unfold nokey_put, srv_op, srv_Put, model_of, Step.
  intros [[->%Z.eqb_eq Hk%bool_decide_eq_true]%andb_true_iff Hv]%andb_true_iff.
  apply negb_true_iff, Z.eqb_neq in Hv. simpl. rewrite Hk, decide_False by done. simpl.
  split_and!; [done..|]. by destruct (in_Version i).
Qed.

(** ** Concrete histories *)

Definition demo_ins : list KvInput :=
  [mkIn 0 "x" "" 0; mkIn 1 "x" "a" 0; mkIn 1 "x" "b" 0; mkIn 1 "x" "c" 1; mkIn 0 "x" "" 0].

Lemma Step_accepts_service_witness :
  srv_run ∅ demo_ins !! 3 = Some (mkIn 1 "x" "c" 1, mkOut "" 0 OK) ∧
  explains Init (srv_run ∅ demo_ins) = true.
Proof.
  split; [vm_compute; reflexivity|].
  change Init with (model_of ∅ "x").
  apply (Step_accepts_service "x" demo_ins ∅).
  - intros i Hi. repeat (apply elem_of_cons in Hi; destruct Hi as [->|Hi]; [split; [done|simpl; lia]|]).
    by apply elem_of_nil in Hi.
  - intros k v ver Hk. by apply lookup_empty_Some in Hk.
  - simpl. lia.
  - vm_compute. exact I.
Defined.

Lemma Step_rejects_ErrNoKey_witness :
  (Step Init (mkIn 1 "x" "a" 3) (srv_op ∅ (mkIn 1 "x" "a" 3)).1).1 = false.
Proof.
  destruct (Step_rejects_ErrNoKey ∅ (mkIn 1 "x" "a" 3)) as (_ & _ & H).
  - vm_compute. reflexivity.
  - exact H.
Defined.
