(* ===== verification/Persister.v ===== *)
(** * Stable storage: [tester1/persister.go]

    Byte slices are references to arrays of a shared heap, because a [Persister]
    and its copies may share arrays and the callers of [Save] keep the slices
    they passed. *)

From S2P Require Export GoStd.

(** ** Byte slices on a heap *)

Abbreviation addr := nat.
(** [None] is the nil slice; the labs never reslice these values. *)
Abbreviation slice := (option addr).
Abbreviation heap := (gmap addr (list Z)).

Definition bytes_of (h : heap) (s : slice) : list Z :=
  match s with None => [] | Some a => default [] (h !! a) end.

Definition alloc (bs : list Z) (h : heap) : addr * heap :=
  let a := fresh (dom h) in (a, <[a := bs]> h).

(** [x := make([]byte, len(orig)); copy(x, orig); return x] *)
Definition clone (orig : slice) (h : heap) : slice * heap :=
  let '(x, h) := alloc (bytes_of h orig) h in (Some x, h).

Record Persister := mkPersister { raftstate : slice; snapshot : slice }.

Definition MakePersister : Persister := mkPersister None None.

(** The copy shares the arrays. *)
Definition Copy (ps : Persister) : Persister :=
  mkPersister (raftstate ps) (snapshot ps).

Definition ReadRaftState (ps : Persister) (h : heap) : slice * heap := clone (raftstate ps) h.
Definition RaftStateSize (ps : Persister) (h : heap) : Z :=
  Z.of_nat (length (bytes_of h (raftstate ps))).
Definition Save (rs sn : slice) (h : heap) : Persister * heap :=
  let '(rs, h1) := clone rs h in
  let '(sn, h2) := clone sn h1 in
  (mkPersister rs sn, h2).
Definition ReadSnapshot (ps : Persister) (h : heap) : slice * heap := clone (snapshot ps) h.
Definition SnapshotSize (ps : Persister) (h : heap) : Z :=
  Z.of_nat (length (bytes_of h (snapshot ps))).

(** ** The program around the persisters

    [clients] are the arrays the servers hold: those they allocate and those the
    reads hand out.  A server may overwrite a byte of an array it holds at any
    time, also after passing it to [Save]. *)

Record store := mkStore {
  mem : heap;
  pers : gmap nat Persister;
  clients : gset addr
}.

Inductive pop :=
| MakeP (p : nat)
| CopyP (p q : nat)                 (* q := p.Copy() *)
| SaveP (p : nat) (rs sn : slice)
| ReadRS (p : nat)
| ReadSN (p : nat)
| NewSlice (bs : list Z)
| WriteByte (a : addr) (i : nat) (b : Z).

Definition holds (s : slice) (st : store) : bool :=
  match s with None => true | Some a => bool_decide (a ∈ clients st) end.

(** The next state and the slice handed to the caller, if any; [None] when the
    operation is not possible. *)
Definition do_op (o : pop) (st : store) : option (store * option slice) :=
  match o with
  | MakeP p => Some (mkStore (mem st) (<[p := MakePersister]> (pers st)) (clients st), None)
  | CopyP p q =>
      ps ← pers st !! p;
      Some (mkStore (mem st) (<[q := Copy ps]> (pers st)) (clients st), None)
  | SaveP p rs sn =>
      _ ← pers st !! p;
      if holds rs st && holds sn st then
        let '(ps, h) := Save rs sn (mem st) in
        Some (mkStore h (<[p := ps]> (pers st)) (clients st), None)
      else None
  | ReadRS p =>
      ps ← pers st !! p;
      let '(s, h) := ReadRaftState ps (mem st) in
      Some (mkStore h (pers st) (match s with Some a => {[a]} | None => ∅ end ∪ clients st),
            Some s)
  | ReadSN p =>
      ps ← pers st !! p;
      let '(s, h) := ReadSnapshot ps (mem st) in
      Some (mkStore h (pers st) (match s with Some a => {[a]} | None => ∅ end ∪ clients st),
            Some s)
  | NewSlice bs =>
      let '(a, h) := alloc bs (mem st) in
      Some (mkStore h (pers st) ({[a]} ∪ clients st), Some (Some a))
  | WriteByte a i b =>
      if bool_decide (a ∈ clients st) then
        Some (mkStore (alter (λ bs, <[i := b]> bs) a (mem st)) (pers st) (clients st), None)
      else None
  end.

Fixpoint do_ops (l : list pop) (st : store) : option store :=
  match l with
  | [] => Some st
  | o :: l => '(st, _) ← do_op o st; do_ops l st
  end.

(** ** The abstract storage

    Each persister is a pair of byte strings; only [Save], [Copy] and
    [MakePersister] change it. *)

Abbreviation astore := (gmap nat (list Z * list Z)).

Definition contents (h : heap) (ps : Persister) : list Z * list Z :=
  (bytes_of h (raftstate ps), bytes_of h (snapshot ps)).
Definition abs (st : store) : astore := contents (mem st) <$> pers st.

Definition spec_op (o : pop) (st : store) (m : astore) : astore :=
  match o with
  | MakeP p => <[p := ([], [])]> m
  | CopyP p q => match m !! p with Some c => <[q := c]> m | None => m end
  | SaveP p rs sn => <[p := (bytes_of (mem st) rs, bytes_of (mem st) sn)]> m
  | ReadRS _ | ReadSN _ | NewSlice _ | WriteByte _ _ _ => m
  end.

(** No array of a persister is in the hands of a server. *)
Definition private (st : store) (s : slice) : Prop :=
  match s with None => True | Some a => a ∈ dom (mem st) ∧ a ∉ clients st end.
Record isolated (st : store) : Prop := {
  iso_pers : ∀ p ps, pers st !! p = Some ps →
    private st (raftstate ps) ∧ private st (snapshot ps);
  iso_cli : clients st ⊆ dom (mem st)
}.

(** ** Allocation *)

Lemma alloc_fresh bs h : (alloc bs h).1 ∉ dom h.
Proof. apply is_fresh. Qed.

Lemma bytes_of_insert h a bs s :
  (∀ b, s = Some b → b ≠ a) → bytes_of (<[a := bs]> h) s = bytes_of h s.
Proof.
  destruct s as [b|]; simpl; intros H; [|done]. rewrite lookup_insert_ne; [done|].
  intros ->. by apply (H b).
Qed.

Definition in_mem (h : heap) (s : slice) : Prop :=
  match s with None => True | Some a => a ∈ dom h end.

Lemma clone_spec s h :
  ∃ a, clone s h = (Some a, <[a := bytes_of h s]> h) ∧ a ∉ dom h.
Proof. exists (fresh (dom h)). split; [done|apply is_fresh]. Qed.

(** ** Isolation *)

Lemma private_in_mem st s : private st s → in_mem (mem st) s.
Proof. destruct s; simpl; [by intros []|done]. Qed.

(** Writing an array that is new, or that the servers hold, leaves the private
    slices alone. *)
Lemma contents_frame st h' ps :
  private st (raftstate ps) → private st (snapshot ps) →
  (∀ a, a ∈ dom (mem st) → a ∉ clients st → h' !! a = mem st !! a) →
  contents h' ps = contents (mem st) ps.
Proof.
  intros H1 H2 Hf. unfold contents, bytes_of.
  destruct (raftstate ps), (snapshot ps); simpl in *; f_equal; f_equal; naive_solver.
Qed.

Lemma abs_frame st h' cl :
  isolated st →
  (∀ a, a ∈ dom (mem st) → a ∉ clients st → h' !! a = mem st !! a) →
  abs (mkStore h' (pers st) cl) = abs st.
Proof.
  intros Hiso Hf. apply map_fmap_ext. intros p ps Hp.
  destruct (iso_pers st Hiso p ps Hp). by apply contents_frame.
Qed.

Lemma isolated_grow st h' cl :
  isolated st → dom (mem st) ⊆ dom h' → cl ⊆ dom h' →
  (∀ a, a ∈ cl → a ∈ dom (mem st) → a ∈ clients st) →
  isolated (mkStore h' (pers st) cl).
Proof.
  intros Hiso Hd Hcl Hnew. split; simpl; [|done]. intros p ps Hp.
  destruct (iso_pers st Hiso p ps Hp) as [H1 H2].
  destruct (raftstate ps), (snapshot ps); simpl in *; naive_solver.
Qed.

(** Installing a persister whose arrays are private. *)
Lemma isolated_insert st p ps :
  isolated st → private st (raftstate ps) → private st (snapshot ps) →
  isolated (mkStore (mem st) (<[p := ps]> (pers st)) (clients st)).
Proof.
  intros Hiso H1 H2. split; simpl; [|apply Hiso]. intros q qs.
  rewrite lookup_insert_Some. intros [[<- <-]|[_ Hq]]; [done|].
  by apply (iso_pers st Hiso q).
Qed.

Lemma abs_insert h m cl p ps :
  abs (mkStore h (<[p := ps]> m) cl) = <[p := contents h ps]> (abs (mkStore h m cl)).
Proof. apply fmap_insert. Qed.

(** A clone handed to a server. *)
Lemma clone_to_client st s h' r :
  isolated st → in_mem (mem st) s → clone s (mem st) = (r, h') →
  let st' := mkStore h' (pers st) (match r with Some a => {[a]} | None => ∅ end ∪ clients st) in
  isolated st' ∧ abs st' = abs st ∧ bytes_of h' r = bytes_of (mem st) s.
Proof.
  intros Hiso Hs Hc. destruct (clone_spec s (mem st)) as (a & Hc' & Ha).
  rewrite Hc' in Hc. injection Hc as <- <-. simpl. split_and!.
  - pose proof (iso_cli st Hiso). apply isolated_grow; simpl; set_solver.
  - apply abs_frame; [done|]. intros b Hb _. rewrite lookup_insert_ne; [done|].
    by intros ->.
  - by rewrite lookup_insert_eq.
Qed.

(** The store after [Save]: two new arrays that only the persister holds. *)
Lemma Save_store st p rs sn ps h' :
  isolated st → holds rs st → holds sn st → Save rs sn (mem st) = (ps, h') →
  isolated (mkStore h' (<[p := ps]> (pers st)) (clients st)) ∧
  abs (mkStore h' (<[p := ps]> (pers st)) (clients st)) =
    <[p := (bytes_of (mem st) rs, bytes_of (mem st) sn)]> (abs st).
Proof.
  intros Hiso Hrs Hsn HS. pose proof (iso_cli st Hiso) as Hcl. unfold Save in HS.
  destruct (clone_spec rs (mem st)) as (a & Ha & Hfa). rewrite Ha in HS.
  set (h1 := <[a := bytes_of (mem st) rs]> (mem st)) in *.
  destruct (clone_spec sn h1) as (b & Hb & Hfb). rewrite Hb in HS.
  injection HS as <- <-. assert (a ≠ b) as Hab by (unfold h1 in Hfb; set_solver).
  assert (bytes_of h1 sn = bytes_of (mem st) sn) as Hsn'.
  { apply bytes_of_insert. intros c -> ->. simpl in Hsn. apply bool_decide_unpack in Hsn.
    set_solver. }
  assert (∀ c, c ∈ dom (mem st) → <[b := bytes_of h1 sn]> h1 !! c = mem st !! c) as Hfr.
  { intros c Hc. unfold h1. unfold h1 in Hfb. rewrite !lookup_insert_ne; set_solver. }
  set (h2 := <[b := bytes_of h1 sn]> h1) in *.
  assert (dom h2 = {[a; b]} ∪ dom (mem st)) as Hd by (unfold h2, h1; set_solver).
  split.
  - apply (isolated_insert (mkStore h2 (pers st) (clients st))).
    + apply isolated_grow; [done|set_solver..].
    + simpl. unfold h1 in Hfb. set_solver.
    + simpl. unfold h1 in Hfb. set_solver.
  - rewrite abs_insert, abs_frame by auto. f_equal. unfold contents. simpl.
    unfold h2. rewrite lookup_insert_eq, lookup_insert_ne, Hsn' by done.
    unfold h1. by rewrite lookup_insert_eq.
Qed.

(** What a read hands out. *)
Definition read_result (o : pop) (m : astore) : option (list Z) :=
  match o with
  | ReadRS p => fst <$> m !! p
  | ReadSN p => snd <$> m !! p
  | NewSlice bs => Some bs
  | _ => None
  end.

(** One operation implements the abstract storage. *)
Lemma do_op_refines (o : pop) (st st' : store) (r : option slice) :
  isolated st → do_op o st = Some (st', r) →
  isolated st' ∧ abs st' = spec_op o st (abs st) ∧
  bytes_of (mem st') <$> r = read_result o (abs st).
Proof.
  intros Hiso Hop. destruct o as [p|p q|p rs sn|p|p|bs|a i b]; cbn [do_op] in Hop.
  - injection Hop as <- <-. split_and!; [by apply isolated_insert|by rewrite abs_insert|done].
  - apply bind_Some in Hop as (ps & Hp & [= <- <-]).
    destruct (iso_pers st Hiso p ps Hp). split_and!; [by apply isolated_insert| |done].
    rewrite abs_insert. simpl. unfold abs. by rewrite lookup_fmap, Hp.
  - apply bind_Some in Hop as (ps & Hp & Hop).
    destruct (holds rs st && holds sn st) eqn:Hh; [|done].
    apply andb_true_iff in Hh as [Hrs%Is_true_true Hsn%Is_true_true].
    destruct (Save rs sn (mem st)) as [ps' h'] eqn:HS. injection Hop as <- <-.
    destruct (Save_store st p rs sn ps' h' Hiso Hrs Hsn HS). by split_and!.
  - apply bind_Some in Hop as (ps & Hp & Hop). destruct (iso_pers st Hiso p ps Hp) as [H1 _].
    destruct (ReadRaftState ps (mem st)) as [s h] eqn:Hc. injection Hop as <- <-.
    eapply clone_to_client in Hc as (? & ? & ?); [|done|by apply private_in_mem].
    split_and!; [done..|]. simpl. unfold abs. rewrite lookup_fmap, Hp. simpl. by f_equal.
  - apply bind_Some in Hop as (ps & Hp & Hop). destruct (iso_pers st Hiso p ps Hp) as [_ H2].
    destruct (ReadSnapshot ps (mem st)) as [s h] eqn:Hc. injection Hop as <- <-.
    eapply clone_to_client in Hc as (? & ? & ?); [|done|by apply private_in_mem].
    split_and!; [done..|]. simpl. unfold abs. rewrite lookup_fmap, Hp. simpl. by f_equal.
  - injection Hop as <- <-. pose proof (alloc_fresh bs (mem st)) as Hf. simpl in Hf.
    pose proof (iso_cli st Hiso). split_and!.
    + apply isolated_grow; set_solver.
    + apply abs_frame; [done|]. intros b Hb _. rewrite lookup_insert_ne; [done|].
      intros <-. by apply Hf.
    + simpl. by rewrite lookup_insert_eq.
  - destruct (bool_decide (a ∈ clients st)) eqn:Ha; [|done].
    apply bool_decide_eq_true in Ha. injection Hop as <- <-. split_and!; [| |done].
    + pose proof (iso_cli st Hiso). apply isolated_grow; rewrite ?dom_alter_L; set_solver.
    + apply abs_frame; [done|]. intros b' _ Hb. rewrite lookup_alter_ne; [done|].
      by intros ->.
Qed.


(** ** Runs *)

Definition writes (p : nat) (o : pop) : bool :=
  match o with
  | MakeP q | CopyP _ q | SaveP q _ _ => bool_decide (q = p)
  | _ => false
  end.

Lemma spec_op_other o st m p : writes p o = false → spec_op o st m !! p = m !! p.
Proof.
  destruct o as [q|q q'|q ? ?| | | |]; simpl; intros Hw; try done;
    apply bool_decide_eq_false in Hw; [by rewrite lookup_insert_ne| |by rewrite lookup_insert_ne].
  destruct (m !! q); [by rewrite lookup_insert_ne|done].
Qed.

Lemma do_ops_keeps l st st' p :
  isolated st → do_ops l st = Some st' → forallb (λ o, negb (writes p o)) l →
  isolated st' ∧ abs st' !! p = abs st !! p.
Proof.
  revert st. induction l as [|o l IH]; simpl; intros st Hiso Hl Hw; [by simplify_eq|].
  apply bind_Some in Hl as ([st1 r] & Ho & Hl).
  apply Is_true_true, andb_true_iff in Hw as [Hw1 Hw2]. apply negb_true_iff in Hw1.
  destruct (do_op_refines o st st1 r Hiso Ho) as (Hiso1 & Habs & _).
  destruct (IH st1 Hiso1 Hl ltac:(by rewrite Hw2)) as [? ->].
  by rewrite Habs, spec_op_other.
Qed.

(** What the four read operations of a persister show. *)
Definition observes (st : store) (p : nat) (c : list Z * list Z) : Prop :=
  (∃ st1 s, do_op (ReadRS p) st = Some (st1, Some s) ∧ bytes_of (mem st1) s = c.1) ∧
  (∃ st1 s, do_op (ReadSN p) st = Some (st1, Some s) ∧ bytes_of (mem st1) s = c.2) ∧
  (∃ ps, pers st !! p = Some ps ∧
    RaftStateSize ps (mem st) = Z.of_nat (length c.1) ∧
    SnapshotSize ps (mem st) = Z.of_nat (length c.2)).

Lemma abs_observes st p c : isolated st → abs st !! p = Some c → observes st p c.
Proof.
  intros Hiso Hc. pose proof Hc as Hc'. unfold abs in Hc'. rewrite lookup_fmap in Hc'.
  destruct (pers st !! p) as [ps|] eqn:Hp; [|done]. injection Hc' as <-. split_and!.
  - destruct (do_op (ReadRS p) st) as [[st1 r]|] eqn:Ho; [|by simpl in Ho; rewrite Hp in Ho].
    destruct (do_op_refines _ _ _ _ Hiso Ho) as (_ & _ & Hr). simpl in Hr. rewrite Hc in Hr.
    destruct r as [s|]; [|done]. injection Hr as Hr. eauto.
  - destruct (do_op (ReadSN p) st) as [[st1 r]|] eqn:Ho; [|by simpl in Ho; rewrite Hp in Ho].
    destruct (do_op_refines _ _ _ _ Hiso Ho) as (_ & _ & Hr). simpl in Hr. rewrite Hc in Hr.
    destruct r as [s|]; [|done]. injection Hr as Hr. eauto.
  - by exists ps.
Qed.

(** C13: what was saved is what is read.  After [Save] on a persister, whatever
    the servers then do (allocate, overwrite the very slices passed to [Save] or
    obtained from reads, save to, copy and create other persisters), the reads
    and sizes of this persister show the bytes the slices had when they were
    saved, state and snapshot from the same [Save]. *)
Theorem read_last_saved (p : nat) (rs sn : slice) (l : list pop) (st st1 st2 : store)
    (r : option slice) :
  isolated st → do_op (SaveP p rs sn) st = Some (st1, r) →
  do_ops l st1 = Some st2 → forallb (λ o, negb (writes p o)) l →
  observes st2 p (bytes_of (mem st) rs, bytes_of (mem st) sn).
Proof.
  intros Hiso Hs Hl Hw.
  destruct (do_op_refines _ _ _ _ Hiso Hs) as (Hiso1 & Habs & _).
  destruct (do_ops_keeps l st1 st2 p Hiso1 Hl Hw) as [Hiso2 Hp].
  apply abs_observes; [done|]. rewrite Hp, Habs. simpl. by rewrite lookup_insert_eq.
Qed.

(** A restarted server is isolated from its previous instance: a persister
    obtained by [Copy] shows the contents at the time of the copy for as long as
    it is not saved to itself, whatever the old instance saves to the old
    persister, and the other way round. *)
Lemma Copy_isolates (p q : nat) (l : list pop) (st st1 st2 : store) (r : option slice)
    (c : list Z * list Z) :
  isolated st → abs st !! p = Some c → p ≠ q →
  do_op (CopyP p q) st = Some (st1, r) → do_ops l st1 = Some st2 →
  (forallb (λ o, negb (writes q o)) l → observes st2 q c) ∧
  (forallb (λ o, negb (writes p o)) l → observes st2 p c).
Proof.
  intros Hiso Hc Hpq Hs Hl.
  destruct (do_op_refines _ _ _ _ Hiso Hs) as (Hiso1 & Habs & _).
  simpl in Habs. rewrite Hc in Habs.
  split; intros Hw; destruct (do_ops_keeps l st1 st2 _ Hiso1 Hl Hw) as [Hiso2 Hp];
    (apply abs_observes; [done|]); rewrite Hp, Habs.
  - by rewrite lookup_insert_eq.
  - by rewrite lookup_insert_ne.
Qed.

(** ** A server that reuses its buffers *)

Definition store0 : store := mkStore ∅ ∅ ∅.

Lemma isolated_store0 : isolated store0.
Proof. split; [intros p ps Hp; discriminate Hp|done]. Qed.

Definition demo_st : store :=
  Eval vm_compute in
    default store0 (do_ops [MakeP 0; NewSlice [1; 2]%Z; NewSlice [7]%Z] store0).
Definition demo_st1 : store :=
  Eval vm_compute in default store0 (do_ops [SaveP 0 (Some 0) (Some 1)] demo_st).
Definition demo_ops : list pop :=
  [WriteByte 0 0 9%Z; ReadSN 0; WriteByte 4 0 5%Z; MakeP 1; SaveP 1 (Some 0) None].
Definition demo_st2 : store := Eval vm_compute in default store0 (do_ops demo_ops demo_st1).
Definition demo_cp : store :=
  Eval vm_compute in default store0 (do_ops [CopyP 0 1] demo_st2).

Lemma demo_isolated (st : store) (l : list pop) :
  do_ops l store0 = Some st → isolated st.
Proof.
  generalize store0 isolated_store0. induction l as [|o l IH]; simpl; intros st0 H0 Hl.
  - by simplify_eq.
  - apply bind_Some in Hl as ([st1 r] & Ho & Hl). eapply IH; [|done].
    by destruct (do_op_refines o st0 st1 r H0 Ho).
Qed.

Lemma read_last_saved_witness :
  do_ops demo_ops demo_st1 = Some demo_st2 ∧ observes demo_st2 0 ([1; 2], [7])%Z.
Proof.
  split; [vm_compute; reflexivity|].
  apply (read_last_saved 0 (Some 0) (Some 1) demo_ops demo_st demo_st1 demo_st2 None).
  - apply (demo_isolated _ [MakeP 0; NewSlice [1; 2]%Z; NewSlice [7]%Z]).
    vm_compute. reflexivity.
  - vm_compute. reflexivity.
  - vm_compute. reflexivity.
  - vm_compute. exact I.
Defined.

Lemma Copy_isolates_witness :
  ∃ st3, do_ops [NewSlice [3]%Z; SaveP 0 (Some 0) None] demo_cp = Some st3 ∧
    observes st3 1 ([1; 2], [7])%Z.
Proof.
  eexists. split; [vm_compute; reflexivity|].
  eapply (Copy_isolates 0 1 [NewSlice [3]%Z; SaveP 0 (Some 0) None] demo_st2 demo_cp _ None).
  - apply (demo_isolated _ ([MakeP 0; NewSlice [1; 2]%Z; NewSlice [7]%Z;
      SaveP 0 (Some 0) (Some 1)] ++ demo_ops)).
    vm_compute. reflexivity.
  - vm_compute. reflexivity.
  - discriminate.
  - vm_compute. reflexivity.
  - vm_compute. reflexivity.
  - vm_compute. exact I.
Defined.
