(* ===== verification/ServerGroup.v ===== *)
(** * Groups of servers: [tester1/group.go], [tester1/srv.go]

    The tester starts, stops, connects and partitions the servers of a group by
    enabling and disabling the ends of the simulated network. *)

From S2P Require Export Labrpc Persister.
#[local] Set Default Proof Using "Type".

(** Indexing is Go's: out of range is a panic. *)
Abbreviation Tgid := Z.

(** [Randstring n], given the bytes that [crand.Read] filled in. *)
Definition Randstring (n : nat) (b : list Z) : string := str_take n (EncodeToString b).

Definition ServerName (gid : Tgid) (i : nat) : string :=
  "server-" +:+ Itoa gid +:+ "-" +:+ Itoa (Z.of_nat i).

(** A name determines the group and the server. *)
Lemma ServerName_inj gid gid' i j : ServerName gid i = ServerName gid' j → gid = gid' ∧ i = j.
Proof.
  intros H. assert (gid = gid') as <-.
  { apply (app_split dash_byte ("server-" +:+ Itoa gid) (Itoa (Z.of_nat i))
      ("server-" +:+ Itoa gid') (Itoa (Z.of_nat j))) in H; [|apply Itoa_no_dash..].
    injection H as H. by apply (inj Itoa). }
  split; [done|]. apply Nat2Z.inj, (inj Itoa). unfold ServerName in H.
  assert (∀ p s t : string, p +:+ s = p +:+ t → s = t) as Hc.
  { intros p s t He. induction p as [|c p IH]; [done|]. by injection He as ?%IH. }
  by do 3 apply Hc in H.
Qed.

(** Tests on the row and the column of a matrix of links. *)
Lemma existsb_row (t : nat → bool) (i c d : nat) (js : list nat) :
  existsb (λ j, t j && bool_decide ((i, j) = (c, d))) js = bool_decide (c = i ∧ d ∈ js) && t d.
Proof.
  apply eq_bool_prop_intro. rewrite !Is_true_true, existsb_exists, andb_true_iff.
  setoid_rewrite andb_true_iff. setoid_rewrite bool_decide_eq_true.
  setoid_rewrite list_elem_of_In. naive_solver.
Qed.
Lemma existsb_col (t : nat → bool) (i c d : nat) (js : list nat) :
  existsb (λ j, t j && bool_decide ((j, i) = (c, d))) js = bool_decide (d = i ∧ c ∈ js) && t c.
Proof.
  apply eq_bool_prop_intro. rewrite !Is_true_true, existsb_exists, andb_true_iff.
  setoid_rewrite andb_true_iff. setoid_rewrite bool_decide_eq_true.
  setoid_rewrite list_elem_of_In. naive_solver.
Qed.

Section group.
Context {V Ty W : Type} `{GV : GoValues V Ty}.
(** The services of the labs: their reflection data, their [Kill] and their
    constructor are the students' code. *)
Context {IService : Type}
  (svc_tname : IService → string) (svc_refl : IService → list (@Method V Ty W))
  (Kill : IService → store * W → store * W).
(** The bytes of the [k]-th call of [crand.Read] for [n] bytes. *)
Context (crand : nat → nat → list Z).

(** A [FstartServer] sees the ends, the group, the index and the persister. *)
Abbreviation FstartServer :=
  (list ClientEnd → Tgid → nat → nat → store * W → list (option IService) * (store * W)).
Context (mks : FstartServer).

(** The objects the groups share: the network, the servers of [labrpc], the
    persisters and the state of the services. *)
Record tester := mkTester {
  t_net : Network;
  t_labs : gmap sptr (@Labrpc.Server V Ty W);
  t_env : store * W;
  t_rng : nat
}.

Record Server := mkSrv {
  saved : option nat;
  svcs : list (option IService);
  endNames : list string;
  clntEnds : list ClientEnd
}.

Record ServerGrp := mkGrp {
  srvs : list Server;
  servernames : list string;
  gid : Tgid;
  connected : list bool
}.

(** The state of an operation of a group: the group and what it shares. *)
Abbreviation T := (M tester).
Abbreviation G := (M (ServerGrp * tester)).

Definition at_net {A} (f : Network → outcome (A * Network)) : T A := λ t,
  '(a, n) ← f (t_net t); Ret (a, mkTester n (t_labs t) (t_env t) (t_rng t)).
Definition upd_net (f : Network → Network) : T unit := λ t,
  Ret (tt, mkTester (f (t_net t)) (t_labs t) (t_env t) (t_rng t)).
Definition upd_env (f : store * W → store * W) : T unit := λ t,
  Ret (tt, mkTester (t_net t) (t_labs t) (f (t_env t)) (t_rng t)).

(** Run an operation of the shared objects from a group. *)
Definition shared {A} (m : T A) : G A := λ s,
  '(a, t) ← m s.2; Ret (a, (s.1, t)).
Definition grp {A} (f : ServerGrp → A) : G A := λ s, Ret (f s.1, s).
Definition set_connected (i : nat) (b : bool) : G unit := λ s,
  let sg := s.1 in
  if decide (i < length (connected sg)) then
    Ret (tt, (mkGrp (srvs sg) (servernames sg) (gid sg) (<[i := b]> (connected sg)), s.2))
  else Panic "index out of range".
Definition set_srv (i : nat) (srv : Server) : G unit := λ s,
  let sg := s.1 in
  if decide (i < length (srvs sg)) then
    Ret (tt, (mkGrp (<[i := srv]> (srvs sg)) (servernames sg) (gid sg) (connected sg), s.2))
  else Panic "index out of range".

(** ** [srv.go] *)

Definition draw : T string := λ t,
  Ret (Randstring 20 (crand (t_rng t) 40),
       mkTester (t_net t) (t_labs t) (t_env t) (S (t_rng t))).

(** One iteration of the loop of [makeServer]: a fresh end to server [j]. *)
Definition makeServer_end (gid : Tgid) (j : nat) : T (string * ClientEnd) :=
  endname ← draw;
  e ← at_net (MakeEnd (Some (NStr endname)));
  _ ← upd_net (Connect (Some (NStr endname)) (Some (NStr (ServerName gid j))));
  mret (endname, e).

Definition makeServer (gid : Tgid) (nsrv : nat) : T Server :=
  es ← mmap (makeServer_end gid) (seq 0 nsrv);
  mret (mkSrv None [] es.*1 es.*2).

(** A new persister object. *)
Definition add_pers (p : nat) (ps : Persister) (e : store * W) : store * W :=
  (mkStore (mem e.1) (<[p := ps]> (pers e.1)) (clients e.1), e.2).
Definition new_persister (ps : Persister) : T nat := λ t,
  let p := fresh (dom (pers (t_env t).1)) in
  Ret (p, mkTester (t_net t) (t_labs t) (add_pers p ps (t_env t)) (t_rng t)).
Definition get_persister (p : nat) : T Persister := λ t,
  match pers (t_env t).1 !! p with
  | Some ps => Ret (ps, t)
  | None => Panic "nil pointer dereference"
  end.
Definition copy_persister (p : nat) : T nat :=
  ps ← get_persister p; new_persister (Persister.Copy ps).

Definition startServer (s : Server) (gid : Tgid) : T Server :=
  srv ← makeServer gid (length (endNames s));
  p ← match saved s with
      | Some p => copy_persister p
      | None => new_persister MakePersister
      end;
  mret (mkSrv (Some p) (svcs srv) (endNames srv) (clntEnds srv)).

Definition IsConnected (i : nat) : G bool :=
  c ← grp connected; lift (index c i).

(** [Server.connect] *)
Definition Server_connect (s : Server) (to : list nat) : G unit :=
  mfor to (λ j,
    b ← IsConnected j;
    if (b : bool) then
      endname ← lift (index (endNames s) j);
      shared (upd_net (Enable (Some (NStr endname)) true))
    else mret tt).

(** [Server.disconnect].  [endNames] is never nil: [makeServer] makes it. *)
Definition Server_disconnect (s : Server) (from : list nat) : G unit :=
  mfor from (λ j,
    endname ← lift (index (endNames s) j);
    shared (upd_net (Enable (Some (NStr endname)) false))).

Definition shutdownServer (s : Server) : T Server :=
  p ← match saved s with
      | Some p => q ← copy_persister p; mret (Some q)
      | None => mret None
      end;
  _ ← mfor (svcs s) (λ svc,
        match svc with Some svc => upd_env (Kill svc) | None => mret tt end);
  mret (mkSrv p [] (endNames s) (clntEnds s)).

(** ** [group.go] *)

Definition makeSrvGrp (gid : Tgid) (n : nat) : T ServerGrp :=
  srvs ← mmap (λ _, makeServer gid n) (seq 0 n);
  mret (mkGrp srvs (map (ServerName gid) (seq 0 n)) gid (replicate n false)).

Definition N (sg : ServerGrp) : nat := length (srvs sg).
Definition SrvNames (sg : ServerGrp) : list string := servernames sg.
Definition SrvName (sg : ServerGrp) (i : nat) : outcome string := index (servernames sg) i.
Definition Services (sg : ServerGrp) : list (list (option IService)) := svcs <$> srvs sg.
Fixpoint SrvNamesTo (sg : ServerGrp) (to : list nat) : outcome (list string) :=
  match to with
  | [] => Ret []
  | i :: to => n ← index (servernames sg) i; ns ← SrvNamesTo sg to; Ret (n :: ns)
  end.
Definition all (sg : ServerGrp) : list nat := seq 0 (length (srvs sg)).

Definition connect (i : nat) (to : list nat) : G unit :=
  _ ← set_connected i true;
  sg ← grp id;
  s ← lift (index (srvs sg) i);
  _ ← Server_connect s to;
  mfor to (λ j,
    b ← IsConnected j;
    if (b : bool) then
      sj ← lift (index (srvs sg) j);
      endname ← lift (index (endNames sj) i);
      shared (upd_net (Enable (Some (NStr endname)) true))
    else mret tt).

Definition disconnect (i : nat) (from : list nat) : G unit :=
  _ ← set_connected i false;
  sg ← grp id;
  s ← lift (index (srvs sg) i);
  _ ← Server_disconnect s from;
  mfor from (λ j,
    sj ← lift (index (srvs sg) j);
    endname ← lift (index (endNames sj) i);
    shared (upd_net (Enable (Some (NStr endname)) false))).

Definition ConnectOne (i : nat) : G unit := sg ← grp id; connect i (all sg).
Definition ConnectAll : G unit := sg ← grp id; mfor (all sg) ConnectOne.
Definition DisconnectAll (i : nat) : G unit := sg ← grp id; disconnect i (all sg).
Definition GetConnected (sg : ServerGrp) : list bool := connected sg.

(** [svc.Kill()] on a nil interface is a panic; [cleanup] does not test it. *)
Definition cleanup (sg : ServerGrp) : T unit :=
  mfor (srvs sg) (λ s, mfor (svcs s) (λ svc,
    match svc with
    | Some svc => upd_env (Kill svc)
    | None => lift (Panic "nil pointer dereference")
    end)).

(** The largest of [f ps] over the persisters of the servers. *)
Definition max_saved (f : Persister → heap → Z) (sg : ServerGrp) : T Z := λ t,
  n ← ofold (λ m s,
        match saved s ≫= (pers (t_env t).1 !!.) with
        | None => Panic "nil pointer dereference"
        | Some ps => let n := f ps (mem (t_env t).1) in Ret (if (m <? n)%Z then n else m)
        end) 0%Z (srvs sg);
  Ret (n, t).
Definition LogSize : ServerGrp → T Z := max_saved RaftStateSize.
Definition SnapshotSize : ServerGrp → T Z := max_saved Persister.SnapshotSize.

(** [labrpc.MakeService] on a nil service is a panic of [reflect]. *)
Definition register (ss : list (option IService)) : outcome (@Labrpc.Server V Ty W) :=
  ofold (λ labsrv svc,
    match svc with
    | Some svc => Ret (AddService (MakeService (svc_tname svc) (svc_refl svc)) labsrv)
    | None => Panic "nil pointer dereference"
    end) MakeServer ss.

Definition run_mks (ends : list ClientEnd) (gid : Tgid) (i p : nat)
    : T (list (option IService)) := λ t,
  let '(ss, e) := mks ends gid i p (t_env t) in
  Ret (ss, mkTester (t_net t) (t_labs t) e (t_rng t)).

Definition add_labsrv (name : string) (labsrv : @Labrpc.Server V Ty W) : T unit := λ t,
  let p := fresh (dom (t_labs t)) in
  Ret (tt, mkTester (AddServer (Some (NStr name)) p (t_net t))
             (<[p := labsrv]> (t_labs t)) (t_env t) (t_rng t)).

Definition StartServer (i : nat) : G unit :=
  sg ← grp id;
  old ← lift (index (srvs sg) i);
  srv ← shared (startServer old (gid sg));
  _ ← set_srv i srv;
  p ← lift (match saved srv with Some p => Ret p | None => Panic "nil persister" end);
  ss ← shared (run_mks (clntEnds srv) (gid sg) i p);
  _ ← set_srv i (mkSrv (saved srv) ss (endNames srv) (clntEnds srv));
  labsrv ← lift (register ss);
  shared (add_labsrv (ServerName (gid sg) i) labsrv).

Definition start : G unit := sg ← grp id; mfor (all sg) StartServer.
Definition StartServers : G unit := _ ← start; ConnectAll.

Definition ShutdownServer (i : nat) : G unit :=
  sg ← grp id;
  _ ← disconnect i (all sg);
  _ ← shared (upd_net (DeleteServer (Some (NStr (ServerName (gid sg) i)))));
  s ← lift (index (srvs sg) i);
  s ← shared (shutdownServer s);
  set_srv i s.

Definition Shutdown : G unit := sg ← grp id; mfor (all sg) ShutdownServer.

Definition Partition (p1 p2 : list nat) : G unit :=
  _ ← mfor p1 (λ i, _ ← disconnect i p2; connect i p1);
  mfor p2 (λ i, _ ← disconnect i p1; connect i p2).

Definition RpcCount (sg : ServerGrp) (server : nat) : T Z := λ t,
  c ← GetCount (Some (NStr (ServerName (gid sg) server))) (t_net t) (t_labs t);
  Ret (c, t).

(** ** [Groups]

    [grps] maps a group name to a pointer; the groups are on a heap. *)

Record world := mkWorld {
  w_t : tester;
  grps : gmap Tgid nat;
  w_objs : gmap nat ServerGrp
}.

Definition newGroups (t : tester) : world := mkWorld t ∅ ∅.

Definition w_tester {A} (m : T A) : M world A := λ w,
  '(a, t) ← m (w_t w); Ret (a, mkWorld t (grps w) (w_objs w)).

(** Run an operation of the group [p] points to. *)
Definition on_group {A} (p : option nat) (m : G A) : M world A := λ w,
  match p with
  | None => Panic "nil pointer dereference"
  | Some p =>
      match w_objs w !! p with
      | None => Panic "nil pointer dereference"
      | Some sg =>
          '(a, (sg, t)) ← m (sg, w_t w);
          Ret (a, mkWorld t (grps w) (<[p := sg]> (w_objs w)))
      end
  end.

Definition MakeGroup (gid : Tgid) (nsrv : nat) : M world unit :=
  sg ← w_tester (makeSrvGrp gid nsrv);
  modify (λ w, let p := fresh (dom (w_objs w)) in
    mkWorld (w_t w) (<[gid := p]> (grps w)) (<[p := sg]> (w_objs w))).

Definition lookupGroup (gid : Tgid) : M world (option nat) := gets (λ w, grps w !! gid).

Definition Groups_delete (gid : Tgid) : M world unit :=
  modify (λ w, mkWorld (w_t w) (delete gid (grps w)) (w_objs w)).

(** Go visits the groups in any order; [order] is the one of this run. *)
Definition Groups_cleanup (order : list Tgid) : M world unit :=
  mfor order (λ gid,
    p ← lookupGroup gid;
    on_group p (sg ← grp id; shared (cleanup sg))).

(** ** The links of a group

    [en sg a b] is the end that server [a] uses to call server [b]; [is_on] says
    whether it is enabled. *)

Abbreviation gst := (ServerGrp * tester)%type.

Definition en (sg : ServerGrp) (a b : nat) : option string :=
  s ← srvs sg !! a; endNames s !! b.
Definition is_on (s : gst) (a b : nat) : bool :=
  match en s.1 a b with
  | Some e => is_enabled (t_net s.2) (Some (NStr e))
  | None => false
  end.
Definition conn (sg : ServerGrp) (i : nat) : bool := default false (connected sg !! i).

(** Every server has an end to every server, and no two ends share a name. *)
Record wf (sg : ServerGrp) : Prop := {
  wf_names : servernames sg = ServerName (gid sg) <$> seq 0 (N sg);
  wf_conn : length (connected sg) = N sg;
  wf_len : ∀ s, s ∈ srvs sg → length (endNames s) = N sg;
  wf_inj : ∀ a b a' b' x, en sg a b = Some x → en sg a' b' = Some x → a = a' ∧ b = b'
}.

(** The switches of the network that no group touches. *)
Definition net_flags (rn : Network) : bool * bool * bool * bool :=
  (reliable rn, longDelays rn, longReordering rn, done_closed rn).

(** What [connect] and [disconnect] may change: the flags [connected] and
    whether ends of the group are enabled. *)
Record frame (s s' : gst) : Prop := {
  fr_srvs : srvs s'.1 = srvs s.1;
  fr_names : servernames s'.1 = servernames s.1;
  fr_gid : gid s'.1 = gid s.1;
  fr_labs : t_labs s'.2 = t_labs s.2;
  fr_env : t_env s'.2 = t_env s.2;
  fr_rng : t_rng s'.2 = t_rng s.2;
  fr_ends : ends (t_net s'.2) = ends (t_net s.2);
  fr_servers : servers (t_net s'.2) = servers (t_net s.2);
  fr_conns : connections (t_net s'.2) = connections (t_net s.2);
  fr_flags : net_flags (t_net s'.2) = net_flags (t_net s.2);
  fr_other : ∀ e, (∀ a b x, en s.1 a b = Some x → e ≠ Some (NStr x)) →
    is_enabled (t_net s'.2) e = is_enabled (t_net s.2) e
}.

Lemma en_frame s s' a b : frame s s' → en s'.1 a b = en s.1 a b.
Proof. intros H. unfold en. by rewrite (fr_srvs _ _ H). Qed.

#[export] Instance frame_preorder : PreOrder frame.
Proof.
  split; [by split|]. intros s1 s2 s3 H12 H23. split; try (etrans; [apply H23|apply H12]).
  all: intros a b x; rewrite ?(en_frame s1 s2) by done; apply H.
Qed.

Lemma en_Some sg a b : wf sg → a < N sg → b < N sg → is_Some (en sg a b).
Proof.
  intros Hwf Ha Hb. unfold en. destruct (lookup_lt_is_Some_2 _ _ Ha) as [s Hs].
  rewrite Hs. simpl. apply lookup_lt_is_Some_2.
  by rewrite (wf_len _ Hwf s) by by eapply list_elem_of_lookup_2.
Qed.

Lemma wf_frame s s' : frame s s' → length (connected s'.1) = length (connected s.1) →
  wf s.1 → wf s'.1.
Proof.
  intros Hf Hl [H0 H1 H2 H3]. unfold N in *. split; unfold N; rewrite ?(fr_srvs _ _ Hf).
  - by rewrite (fr_names _ _ Hf), (fr_gid _ _ Hf).
  - congruence.
  - apply H2.
  - intros a b a' b' x. rewrite !(en_frame s s') by done. apply H3.
Qed.

(** Enabling or disabling one end of the group. *)
Definition switch (x : string) (v : bool) (s : gst) : gst :=
  (s.1, mkTester (Enable (Some (NStr x)) v (t_net s.2)) (t_labs s.2) (t_env s.2) (t_rng s.2)).

Lemma switch_frame s x v a b : en s.1 a b = Some x → frame s (switch x v s).
Proof.
  intros Hx. split; try done. intros e He. unfold is_enabled. simpl.
  rewrite lookup_insert_ne; [done|]. intros <-. by eapply He.
Qed.

Lemma switch_is_on s x v a b c d :
  wf s.1 → en s.1 a b = Some x →
  is_on (switch x v s) c d = if decide (c = a ∧ d = b) then v else is_on s c d.
Proof.
  intros Hwf Hx. unfold is_on. simpl. destruct (decide _) as [[-> ->]|Hne].
  - rewrite Hx. unfold is_enabled. simpl. by rewrite lookup_insert_eq.
  - destruct (en s.1 c d) as [y|] eqn:Hy; [|done]. unfold is_enabled. simpl.
    rewrite lookup_insert_ne; [done|]. intros [= <-]. apply Hne. by apply (wf_inj _ Hwf c d a b x).
Qed.

(** A loop that switches the end [f j] for the [j] that pass the test [t], all
    to the same value. *)
Lemma mfor_switch (body : nat → G unit) (t : nat → bool) (f : nat → nat * nat) v js s0 :
  wf s0.1 →
  (∀ j s, j ∈ js → s.1 = s0.1 →
     if t j then ∃ x, en s0.1 (f j).1 (f j).2 = Some x ∧ body j s = Ret (tt, switch x v s)
     else body j s = Ret (tt, s)) →
  wp (mfor js body) (λ _ s,
    s.1 = s0.1 ∧ frame s0 s ∧
    ∀ c d, is_on s c d =
      if existsb (λ j, t j && bool_decide (f j = (c, d))) js then v else is_on s0 c d) s0.
Proof.
  intros Hwf Hbody. apply (wp_mfor (λ js s,
    s.1 = s0.1 ∧ frame s0 s ∧
    ∀ c d, is_on s c d =
      if existsb (λ j, t j && bool_decide (f j = (c, d))) js then v else is_on s0 c d)); [done|].
  intros pre j post s Hjs (Hs & Hfr & Hon).
  specialize (Hbody j s ltac:(rewrite Hjs; apply elem_of_app; right; left) Hs). unfold wp.
  destruct (t j) eqn:Ht.
  - destruct Hbody as (x & Hx & ->). rewrite <-Hs in Hx, Hwf.
    split_and!; [done|etrans; [done|by eapply switch_frame]|]. intros c d.
    rewrite (switch_is_on s x v (f j).1 (f j).2), Hon by done.
    rewrite existsb_app. simpl. rewrite Ht, orb_false_r. simpl.
    destruct (decide (c = (f j).1 ∧ d = (f j).2)) as [[-> ->]|Hne].
    + rewrite bool_decide_true by by destruct (f j). by rewrite orb_true_r.
    + rewrite bool_decide_false, orb_false_r; [done|]. intros Hf. apply Hne. by rewrite Hf.
  - rewrite Hbody. split_and!; [done..|]. intros c d. rewrite Hon, existsb_app. simpl.
    by rewrite Ht, orb_false_r.
Qed.

Lemma IsConnected_run sg t j :
  j < length (connected sg) → IsConnected j (sg, t) = Ret (conn sg j, (sg, t)).
Proof.
  intros [b Hb]%lookup_lt_is_Some_2. unfold IsConnected, index, conn.
  unfold mbind, M_bind, grp, lift. simpl. by rewrite Hb.
Qed.

Definition with_conn (i : nat) (b : bool) (s : gst) : gst :=
  (mkGrp (srvs s.1) (servernames s.1) (gid s.1) (<[i := b]> (connected s.1)), s.2).

Lemma with_conn_frame i b s : frame s (with_conn i b s).
Proof. by split. Qed.
Lemma with_conn_wf i b s : wf s.1 → wf (with_conn i b s).1.
Proof. intros H. eapply wf_frame; [apply with_conn_frame| |done]. apply length_insert. Qed.

(** The result of [connect i to] or [disconnect i from] from a state [s0]. *)
Definition relinked (v : bool) (i : nat) (js : list nat) (s0 s : gst) : Prop :=
  connected s.1 = <[i := v]> (connected s0.1) ∧ frame s0 s ∧
  ∀ a b, is_on s a b =
    if (bool_decide (a = i ∧ b ∈ js) && (negb v || conn s.1 b)) ||
       (bool_decide (b = i ∧ a ∈ js) && (negb v || conn s.1 a))
    then v else is_on s0 a b.

Lemma relinked_wf v i js s0 s : relinked v i js s0 s → wf s0.1 → wf s.1.
Proof.
  intros (Hc & Hf & _). eapply wf_frame; [done|]. rewrite Hc. apply length_insert.
Qed.


(** Switching the row and then the column of server [i]. *)
Lemma row_col (body1 body2 : nat → G unit) (t : nat → bool) v i js s0 :
  wf s0.1 →
  (∀ j s, j ∈ js → s.1 = s0.1 →
     if t j then ∃ x, en s0.1 i j = Some x ∧ body1 j s = Ret (tt, switch x v s)
     else body1 j s = Ret (tt, s)) →
  (∀ j s, j ∈ js → s.1 = s0.1 →
     if t j then ∃ x, en s0.1 j i = Some x ∧ body2 j s = Ret (tt, switch x v s)
     else body2 j s = Ret (tt, s)) →
  wp (_ ← mfor js body1; mfor js body2) (λ _ s,
    s.1 = s0.1 ∧ frame s0 s ∧
    ∀ a b, is_on s a b =
      if (bool_decide (a = i ∧ b ∈ js) && t b) || (bool_decide (b = i ∧ a ∈ js) && t a)
      then v else is_on s0 a b) s0.
Proof.
  intros Hwf H1 H2. apply wp_bind.
  eapply wp_mono; [by apply (mfor_switch body1 t (λ j, (i, j)) v)|].
  intros [] s1 (Hs1 & Hf1 & Hon1).
  eapply wp_mono.
  { apply (mfor_switch body2 t (λ j, (j, i)) v); [by rewrite Hs1|].
    intros j s Hj Hs. rewrite Hs1. apply H2; [done|congruence]. }
  intros [] s2 (Hs2 & Hf2 & Hon2). split_and!; [congruence|by etrans|].
  intros a b. rewrite Hon2, Hon1, existsb_row, existsb_col.
  destruct (_ && _), (_ && _); done.
Qed.

Lemma shared_switch x v s :
  shared (upd_net (Enable (Some (NStr x)) v)) s = Ret (tt, switch x v s).
Proof. by destruct s as [sg []]. Qed.

Lemma en_srv sg a b x :
  en sg a b = Some x → ∃ srv, srvs sg !! a = Some srv ∧ endNames srv !! b = Some x.
Proof. unfold en. intros (srv & ? & ?)%bind_Some. eauto. Qed.

Lemma bind_conn {A} j (f : bool → G A) s :
  j < length (connected s.1) → (IsConnected j ≫= f) s = f (conn s.1 j) s.
Proof. destruct s. intros H. unfold mbind, M_bind. by rewrite IsConnected_run. Qed.

Lemma bind_index {A B S} (l : list A) i x (f : A → M S B) s :
  l !! i = Some x → (lift (index l i) ≫= f) s = f x s.
Proof. intros H. unfold index. by rewrite H. Qed.

Lemma connect_spec i to s :
  wf s.1 → i < N s.1 → (∀ j, j ∈ to → j < N s.1) →
  wp (connect i to) (λ _, relinked true i to s) s.
Proof.
  intros Hwf Hi Hto. unfold connect. apply wp_bind. unfold wp at 1. unfold set_connected.
  rewrite decide_True by by rewrite (wf_conn _ Hwf). fold (with_conn i true s).
  pose proof (with_conn_wf i true s Hwf) as Hwf'. set (s0 := with_conn i true s) in *.
  assert (∀ j, j ∈ to → j < length (connected s0.1)) as Hlt.
  { intros j Hj. rewrite (wf_conn _ Hwf'). by apply Hto. }
  apply wp_bind. apply wp_gets. cbv beta.
  destruct (lookup_lt_is_Some_2 _ _ Hi) as [si Hsi].
  apply wp_bind. eapply wp_index; [exact Hsi|].
  eapply wp_mono; [apply (row_col _ _ (conn s0.1) true i to s0 Hwf')|].
  - intros j s' Hj Hs'. rewrite bind_conn, Hs' by (rewrite Hs'; auto).
    destruct (conn s0.1 j); [|done].
    destruct (en_Some s.1 i j Hwf Hi (Hto j Hj)) as [x Hx]. exists x. split; [done|].
    destruct (en_srv _ _ _ _ Hx) as (srv & Hsrv & Hx'). simplify_eq.
    rewrite (bind_index _ _ x) by done. apply shared_switch.
  - intros j s' Hj Hs'. rewrite bind_conn, Hs' by (rewrite Hs'; auto).
    destruct (conn s0.1 j); [|done].
    destruct (en_Some s.1 j i Hwf (Hto j Hj) Hi) as [x Hx]. exists x. split; [done|].
    destruct (en_srv _ _ _ _ Hx) as (srv & Hsrv & Hx').
    rewrite (bind_index _ _ srv) by done. rewrite (bind_index _ _ x) by done.
    apply shared_switch.
  - intros [] s1 (Hs1 & Hf1 & Hon1). split_and!.
    + by rewrite Hs1.
    + by etrans; [apply (with_conn_frame i true)|].
    + intros a b. rewrite Hon1, Hs1. done.
Qed.

Lemma disconnect_spec i from s :
  wf s.1 → i < N s.1 → (∀ j, j ∈ from → j < N s.1) →
  wp (disconnect i from) (λ _, relinked false i from s) s.
Proof.
  intros Hwf Hi Hfrom. unfold disconnect. apply wp_bind. unfold wp at 1. unfold set_connected.
  rewrite decide_True by by rewrite (wf_conn _ Hwf). fold (with_conn i false s).
  pose proof (with_conn_wf i false s Hwf) as Hwf'. set (s0 := with_conn i false s) in *.
  apply wp_bind. apply wp_gets. cbv beta.
  destruct (lookup_lt_is_Some_2 _ _ Hi) as [si Hsi].
  apply wp_bind. eapply wp_index; [exact Hsi|].
  eapply wp_mono; [apply (row_col _ _ (λ _, true) false i from s0 Hwf')|].
  - intros j s' Hj Hs'.
    destruct (en_Some s.1 i j Hwf Hi (Hfrom j Hj)) as [x Hx]. exists x. split; [done|].
    destruct (en_srv _ _ _ _ Hx) as (srv & Hsrv & Hx'). simplify_eq.
    rewrite (bind_index _ _ x) by done. apply shared_switch.
  - intros j s' Hj Hs'.
    destruct (en_Some s.1 j i Hwf (Hfrom j Hj) Hi) as [x Hx]. exists x. split; [done|].
    destruct (en_srv _ _ _ _ Hx) as (srv & Hsrv & Hx').
    rewrite (bind_index _ _ srv) by done. rewrite (bind_index _ _ x) by done.
    apply shared_switch.
  - intros [] s1 (Hs1 & Hf1 & Hon1). split_and!.
    + by rewrite Hs1.
    + by etrans; [apply (with_conn_frame i false)|].
    + intros a b. rewrite Hon1. by rewrite !andb_true_r.
Qed.

(** The consequences of [relinked] that the proofs use. *)
Section relinked.
Context (v : bool) (i : nat) (js : list nat) (s0 s : gst) (H : relinked v i js s0 s).

Lemma relinked_other a b :
  ¬ (a = i ∧ b ∈ js) → ¬ (b = i ∧ a ∈ js) → is_on s a b = is_on s0 a b.
Proof using Type H.
  destruct H as (_ & _ & Hon). intros H1 H2. rewrite Hon.
  by rewrite (bool_decide_false _ H1), (bool_decide_false _ H2).
Qed.
Lemma relinked_row b : b ∈ js → v = false ∨ conn s.1 b = true → is_on s i b = v.
Proof using Type H.
  destruct H as (_ & _ & Hon). intros Hb Hv. rewrite Hon, bool_decide_true by done.
  destruct Hv as [->|Hc]; [done|]. by rewrite Hc, orb_true_r.
Qed.
Lemma relinked_col a : a ∈ js → v = false ∨ conn s.1 a = true → is_on s a i = v.
Proof using Type H.
  destruct H as (_ & _ & Hon). intros Ha Hv.
  rewrite Hon, (bool_decide_true (i = i ∧ a ∈ js)) by done.
  destruct Hv as [->|Hc]; simpl; rewrite ?Hc, ?orb_true_r; done.
Qed.

Lemma relinked_conn j : wf s0.1 → i < N s0.1 →
  conn s.1 j = if decide (j = i) then v else conn s0.1 j.
Proof using Type H.
  destruct H as (Hc & _). intros Hwf Hi. unfold conn. rewrite Hc.
  destruct (decide (j = i)) as [->|]; [|by rewrite list_lookup_insert_ne].
  rewrite list_lookup_insert_eq; [done|]. by rewrite (wf_conn _ Hwf).
Qed.
End relinked.

Lemma frame_N s s' : frame s s' → N s'.1 = N s.1.
Proof. intros H. unfold N. by rewrite (fr_srvs _ _ H). Qed.

(** The servers [pre] of one side [p] of a partition are connected with one
    another and cut from [q]. *)
Record sided (p q pre : list nat) (s0 s : gst) : Prop := {
  sd_frame : frame s0 s;
  sd_wf : wf s.1;
  sd_conn : ∀ j, conn s.1 j = bool_decide (j ∈ pre) || conn s0.1 j;
  sd_in : ∀ a b, a ∈ pre → b ∈ pre → is_on s a b = true;
  sd_cut : ∀ a b, a ∈ pre → b ∈ q → is_on s a b = false ∧ is_on s b a = false;
  sd_out : ∀ a b, a ∉ p → b ∉ p ∨ a ∉ q →
    is_on s a b = is_on s0 a b ∧ is_on s b a = is_on s0 b a
}.

Lemma side_step p q pre i s0 s :
  p ## q → (∀ j, j ∈ p ++ q → j < N s0.1) → i ∈ p → pre ⊆ p →
  sided p q pre s0 s →
  wp (_ ← disconnect i q; connect i p) (λ _ s', sided p q (pre ++ [i]) s0 s') s.
Proof.
  clear crand.
  intros Hd Hlt Hi Hpre [Hf Hwf Hc Hin Hcut Hout].
  pose proof (frame_N _ _ Hf) as HN. apply wp_bind.
  assert (i < N s.1) as HiN by (rewrite HN; apply Hlt; set_solver).
  eapply wp_mono; [apply disconnect_spec; [done..|]|].
  { intros j Hj. rewrite HN. apply Hlt. set_solver. }
  intros [] s1 H1. pose proof (relinked_wf _ _ _ _ _ H1 Hwf) as Hwf1.
  pose proof (frame_N _ _ (proj1 (proj2 H1))) as HN1.
  eapply wp_mono; [apply connect_spec; [done|by rewrite HN1|]|].
  { intros j Hj. rewrite HN1, HN. apply Hlt. set_solver. }
  intros [] s2 H2. pose proof (relinked_wf _ _ _ _ _ H2 Hwf1) as Hwf2.
  assert (∀ j, conn s2.1 j = bool_decide (j ∈ pre ++ [i]) || conn s0.1 j) as Hc2.
  { intros j. rewrite (relinked_conn _ _ _ _ _ H2), (relinked_conn _ _ _ _ _ H1), Hc by
      (done || by rewrite HN1).
    destruct (decide (j = i)) as [->|]; [by rewrite bool_decide_true by set_solver|].
    f_equal. apply bool_decide_ext. set_solver. }
  assert (∀ j, j ∈ pre ++ [i] → conn s2.1 j = true) as Hct.
  { intros j Hj. by rewrite Hc2, bool_decide_true. }
  split; [|done|done|..].
  - etrans; [done|]. etrans; [apply H1|apply H2].
  - intros a b Ha Hb. destruct (decide (a = i)) as [->|Hai].
    { apply (relinked_row _ _ _ _ _ H2); [set_solver|auto]. }
    destruct (decide (b = i)) as [->|Hbi].
    { apply (relinked_col _ _ _ _ _ H2); [set_solver|auto]. }
    rewrite (relinked_other _ _ _ _ _ H2), (relinked_other _ _ _ _ _ H1) by naive_solver.
    apply Hin; set_solver.
  - intros a b Ha Hb. assert (b ≠ i) by set_solver. assert (b ∉ p) by set_solver.
    rewrite !(relinked_other _ _ _ _ _ H2) by naive_solver.
    destruct (decide (a = i)) as [->|Hai].
    { split; [apply (relinked_row _ _ _ _ _ H1)|apply (relinked_col _ _ _ _ _ H1)]; auto. }
    rewrite !(relinked_other _ _ _ _ _ H1) by naive_solver. apply Hcut; set_solver.
  - intros a b Ha Hb. assert (a ≠ i) by set_solver.
    rewrite !(relinked_other _ _ _ _ _ H2) by naive_solver.
    rewrite !(relinked_other _ _ _ _ _ H1) by naive_solver. by apply Hout.
Qed.

Lemma side_spec p q s0 :
  p ## q → (∀ j, j ∈ p ++ q → j < N s0.1) → wf s0.1 →
  wp (mfor p (λ i, _ ← disconnect i q; connect i p)) (λ _, sided p q p s0) s0.
Proof.
  clear crand.
  intros Hd Hlt Hwf. apply (wp_mfor (λ pre, sided p q pre s0)).
  - split; try done; set_solver.
  - intros pre i post s Hp Hs. apply side_step; [done|done| | |done]; rewrite Hp; set_solver.
Qed.

Lemma Partition_splits (p1 p2 : list nat) (s : gst) :
  wf s.1 → p1 ## p2 → (∀ j, j ∈ p1 ++ p2 → j < N s.1) →
  wp (Partition p1 p2) (λ _ s',
    frame s s' ∧ wf s'.1 ∧
    (∀ a b, a ∈ p1 ++ p2 → b ∈ p1 ++ p2 →
       is_on s' a b = bool_decide (a ∈ p1 ↔ b ∈ p1)) ∧
    (∀ j, conn s'.1 j = bool_decide (j ∈ p1 ++ p2) || conn s.1 j) ∧
    (∀ a b, a ∉ p1 ++ p2 → is_on s' a b = is_on s a b ∧ is_on s' b a = is_on s b a)) s.
Proof.
  clear crand.
  intros Hwf Hd Hlt. apply wp_bind. eapply wp_mono; [by apply side_spec|].
  intros [] s1 [Hf1 Hwf1 Hc1 Hin1 Hcut1 Hout1].
  eapply wp_mono.
  { apply side_spec; [set_solver| |done]. intros j Hj. rewrite (frame_N _ _ Hf1).
    apply Hlt. set_solver. }
  intros [] s2 [Hf2 Hwf2 Hc2 Hin2 Hcut2 Hout2]. split_and!; [by etrans|done|..].
  - intros a b Ha Hb. destruct (decide (a ∈ p1)) as [Ha1|Ha1], (decide (b ∈ p1)) as [Hb1|Hb1].
    + rewrite bool_decide_true by done.
      rewrite (proj1 (Hout2 a b ltac:(set_solver) ltac:(set_solver))). by apply Hin1.
    + rewrite bool_decide_false by tauto. apply (Hcut2 b a); set_solver.
    + rewrite bool_decide_false by tauto. apply (Hcut2 a b); set_solver.
    + rewrite bool_decide_true by done. apply Hin2; set_solver.
  - intros j. rewrite Hc2, Hc1, orb_assoc. f_equal. rewrite <-bool_decide_or.
    apply bool_decide_ext. set_solver.
  - intros a b Ha.
    destruct (Hout2 a b ltac:(set_solver) ltac:(set_solver)) as [-> ->].
    apply Hout1; set_solver.
Qed.

(** C15: [Partition p1 p2], from any state of the links, leaves an end enabled
    between two of the servers exactly if they are on the same side, marks
    them all connected, and touches no end of any other server. *)
Theorem Partition_correct (p1 p2 : list nat) (s : gst) :
  wf s.1 → p1 ## p2 → (∀ j, j ∈ p1 ++ p2 → j < N s.1) →
  wp (Partition p1 p2) (λ _ s',
    frame s s' ∧ wf s'.1 ∧
    (∀ a b, a ∈ p1 ++ p2 → b ∈ p1 ++ p2 →
       is_on s' a b = bool_decide (a ∈ p1 ↔ b ∈ p1)) ∧
    (∀ j, conn s'.1 j = bool_decide (j ∈ p1 ++ p2) || conn s.1 j) ∧
    (∀ a b, a ∉ p1 ++ p2 → is_on s' a b = is_on s a b ∧ is_on s' b a = is_on s b a)) s.
Proof. apply Partition_splits. Qed.

(** ** Creating the ends of a server *)

Definition drawn (t : tester) (n : nat) : list string :=
  map (λ k, Randstring 20 (crand k 40)) (seq (t_rng t) n).

(** The next [n] random names are distinct and unused. *)
Definition fresh_names (t : tester) (n : nat) : Prop :=
  NoDup (drawn t n) ∧ ∀ x, x ∈ drawn t n → ends (t_net t) !! Some (NStr x) = None.

(** [xs] are new ends, the [j]-th one to server [j], and disabled. *)
Record made (g : Tgid) (xs : list string) (t t' : tester) : Prop := {
  md_labs : t_labs t' = t_labs t;
  md_env : t_env t' = t_env t;
  md_rng : t_rng t' = t_rng t + length xs;
  md_servers : servers (t_net t') = servers (t_net t);
  md_flags : net_flags (t_net t') = net_flags (t_net t);
  md_new : ∀ j x, xs !! j = Some x →
    ends (t_net t') !! Some (NStr x) = Some (mkClientEnd (Some (NStr x))) ∧
    is_enabled (t_net t') (Some (NStr x)) = false ∧
    connection (t_net t') (Some (NStr x)) = Some (NStr (ServerName g j));
  md_old : ∀ e, (∀ x, x ∈ xs → e ≠ Some (NStr x)) →
    ends (t_net t') !! e = ends (t_net t) !! e ∧
    is_enabled (t_net t') e = is_enabled (t_net t) e ∧
    connection (t_net t') e = connection (t_net t) e
}.

Lemma drawn_S t n :
  drawn t (S n) = drawn t n ++ [Randstring 20 (crand (t_rng t + n) 40)].
Proof. unfold drawn. by rewrite seq_S, map_app. Qed.

Lemma makeServer_end_spec g j t0 t :
  let x := Randstring 20 (crand (t_rng t0 + j) 40) in
  x ∉ drawn t0 j → ends (t_net t0) !! Some (NStr x) = None →
  made g (drawn t0 j) t0 t →
  wp (makeServer_end g j) (λ '(y, e) t',
    y = x ∧ e = mkClientEnd (Some (NStr x)) ∧ made g (drawn t0 (S j)) t0 t') t.
Proof.
  intros x Hx Hend [Hl He Hr Hs Hfl Hnew Hold].
  assert (t_rng t = t_rng t0 + j) as Hr'.
  { rewrite Hr. unfold drawn. by rewrite length_map, length_seq. }
  unfold makeServer_end. apply wp_bind. unfold wp at 1, draw. rewrite Hr'. fold x.
  destruct (Hold (Some (NStr x)) ltac:(by intros y ? [= <-])) as (Hend' & _).
  unfold wp, at_net, upd_net, MakeEnd. simpl. unfold mbind, M_bind. simpl.
  rewrite Hend', Hend. simpl. split_and!; [done..|]. rewrite drawn_S. fold x.
  split; simpl; [done|done| |done|done|..].
  - unfold drawn. rewrite length_app, length_map, length_seq. simpl. lia.
  - intros k y [Hk|[Hk Hy]]%lookup_app_Some.
    + destruct (Hnew k y Hk) as (? & ? & ?).
      assert (Some (NStr x) ≠ Some (NStr y)).
      { intros [= ->]. apply Hx. by eapply list_elem_of_lookup_2. }
      unfold is_enabled, connection. simpl. by rewrite !lookup_insert_ne by done.
    + unfold drawn in Hy, Hk. rewrite length_map, length_seq in Hy, Hk.
      apply list_lookup_singleton_Some in Hy as [Hkj <-]. replace k with j by lia.
      unfold is_enabled, connection. simpl. by rewrite !lookup_insert_eq.
  - intros e Hee. destruct (Hold e) as (? & ? & ?).
    { intros y Hy. apply Hee. set_solver. }
    assert (Some (NStr x) ≠ e) by (intros <-; by apply (Hee x); [set_solver|]).
    unfold is_enabled, connection. simpl. by rewrite !lookup_insert_ne by done.
Qed.

Lemma makeServer_spec g n t :
  fresh_names t n →
  wp (makeServer g n) (λ srv t',
    saved srv = None ∧ endNames srv = drawn t n ∧ svcs srv = [] ∧
    clntEnds srv = (λ x, mkClientEnd (Some (NStr x))) <$> drawn t n ∧
    made g (drawn t n) t t') t.
Proof.
  intros [Hnd Hfr]. apply wp_bind. eapply wp_mono.
  { apply (wp_mmap (λ js ys t', ys.*1 = drawn t (length js) ∧
      ys.*2 = (λ x, mkClientEnd (Some (NStr x))) <$> drawn t (length js) ∧
      made g (drawn t (length js)) t t')).
    - split_and!; [done..|]. split; simpl; (done || lia).
    - intros pre j post ys t' Hjs (Hy1 & Hy2 & Hm).
      assert (j = length pre) as ->.
      { assert (seq 0 n !! length pre = Some j) as Hj
          by by rewrite Hjs, lookup_app_r, Nat.sub_diag by lia.
        by apply lookup_seq in Hj as [-> _]. }
      assert (length pre < n) as Hlt.
      { pose proof (f_equal length Hjs) as Hlen. rewrite length_seq, length_app in Hlen.
        simpl in Hlen. lia. }
      assert (drawn t n = drawn t (length pre) ++
        drop (length pre) (drawn t n)) as Hsplit.
      { unfold drawn. rewrite skipn_map, skipn_seq, <-map_app, <-seq_app. do 2 f_equal. lia. }
      set (x := Randstring 20 (crand (t_rng t + length pre) 40)).
      assert (drop (length pre) (drawn t n) !! 0 = Some x) as Hx0.
      { rewrite lookup_drop. unfold drawn. rewrite list_lookup_fmap, lookup_seq_lt by lia.
        by rewrite Nat.add_0_r. }
      apply list_elem_of_lookup_2 in Hx0.
      eapply wp_mono; [apply (makeServer_end_spec g (length pre) t t'); [| |done]|].
      + rewrite Hsplit in Hnd. apply NoDup_app in Hnd as (_ & Hnd & _).
        intros Hin. by apply (Hnd x).
      + apply Hfr. rewrite Hsplit. set_solver.
      + intros [y e] t1 (-> & -> & Hm1). rewrite length_app, Nat.add_1_r, drawn_S.
        rewrite !fmap_app, Hy1, Hy2. by rewrite drawn_S in Hm1. }
  intros ys t' (Hy1 & Hy2 & Hm). rewrite length_seq in *. by apply wp_mret.
Qed.

(** ** Starting and stopping servers *)

(** Every end of the group exists and leads to the server it was made for. *)
Definition wired (s : gst) : Prop := ∀ a b x, en s.1 a b = Some x →
  is_Some (ends (t_net s.2) !! Some (NStr x)) ∧
  connection (t_net s.2) (Some (NStr x)) = Some (NStr (ServerName (gid s.1) b)).

(** The contents of the persister that a new instance of a server gets. *)
Definition last_saved (srv : Server) (e : store * W) : option Persister :=
  match saved srv with
  | Some p => Persister.Copy <$> pers e.1 !! p
  | None => Some MakePersister
  end.

Lemma copy_persister_run p ps t :
  pers (t_env t).1 !! p = Some ps → copy_persister p t = new_persister (Persister.Copy ps) t.
Proof.
  intros Hp. unfold copy_persister, mbind, M_bind, get_persister. by rewrite Hp.
Qed.

Lemma startServer_spec old g ps t :
  fresh_names t (length (endNames old)) → last_saved old (t_env t) = Some ps →
  wp (startServer old g) (λ srv t',
    let xs := drawn t (length (endNames old)) in
    let q := fresh (dom (pers (t_env t).1)) in
    ∃ t1, made g xs t t1 ∧
    srv = mkSrv (Some q) [] xs ((λ x, mkClientEnd (Some (NStr x))) <$> xs) ∧
    t' = mkTester (t_net t1) (t_labs t) (add_pers q ps (t_env t)) (t_rng t1)) t.
Proof.
  intros Hfr Hps. apply wp_bind. eapply wp_mono; [by apply makeServer_spec|].
  intros [sv ss es ce] t1 (_ & -> & -> & -> & Hm). apply wp_bind.
  assert (wp (match saved old with Some p => copy_persister p
              | None => new_persister MakePersister end)
    (λ p t', p = fresh (dom (pers (t_env t).1)) ∧
       t' = mkTester (t_net t1) (t_labs t) (add_pers p ps (t_env t)) (t_rng t1)) t1) as H.
  { unfold last_saved in Hps. rewrite <-(md_env _ _ _ _ Hm), <-(md_labs _ _ _ _ Hm).
    rewrite <-(md_env _ _ _ _ Hm) in Hps. destruct (saved old) as [p|].
    - apply fmap_Some in Hps as (ps0 & Hp & ->). unfold wp.
      by rewrite (copy_persister_run p ps0).
    - by simplify_eq. }
  eapply wp_mono; [exact H|]. intros p t' [-> ->]. apply wp_mret. by exists t1.
Qed.

Definition all_services (ss : list (option IService)) : Prop := Forall is_Some ss.

Lemma register_Ret ss : all_services ss → ∃ labsrv, register ss = Ret labsrv.
Proof.
  unfold register. generalize (MakeServer (V:=V) (Ty:=Ty) (W:=W)).
  induction ss as [|svc ss IH]; intros rs Hss; simpl; [eauto|].
  apply Forall_cons in Hss as [[x ->] Hss]. simpl. by apply IH.
Qed.

(** The result of putting the server [srv] in the place [i] of a group. *)
Lemma new_server_links s i srv t' g :
  wf s.1 → wired s → i < N s.1 → g = gid s.1 → fresh_names s.2 (N s.1) →
  made g (drawn s.2 (N s.1)) s.2 t' → endNames srv = drawn s.2 (N s.1) →
  let s' := (mkGrp (<[i := srv]> (srvs s.1)) (servernames s.1) g (connected s.1), t') in
  wf s'.1 ∧ wired s' ∧ (∀ b, is_on s' i b = false) ∧
  (∀ a b, a ≠ i → is_on s' a b = is_on s a b).
Proof.
  intros Hwf Hwi Hi -> [Hnd Hfr] Hm Hnames s'.
  assert (∀ b, en s'.1 i b = drawn s.2 (N s.1) !! b) as Hnew.
  { intros b. unfold en. simpl. rewrite list_lookup_insert_eq by done. simpl. by rewrite Hnames. }
  assert (∀ a b, a ≠ i → en s'.1 a b = en s.1 a b) as Hold.
  { intros a b Ha. unfold en. simpl. by rewrite list_lookup_insert_ne. }
  assert (∀ a b x, en s.1 a b = Some x → x ∉ drawn s.2 (N s.1)) as Hsep.
  { intros a b x Hx Hin. destruct (Hwi a b x Hx) as [[? Hs] _]. by rewrite (Hfr x Hin) in Hs. }
  assert (∀ a b x, en s.1 a b = Some x → ∀ y, y ∈ drawn s.2 (N s.1) →
    Some (NStr x) ≠ Some (NStr y)) as Hsep'.
  { intros a b x Hx y Hy [= ->]. by eapply Hsep. }
  split_and!.
  - split; unfold N; simpl; rewrite ?length_insert.
    + apply (wf_names _ Hwf).
    + apply (wf_conn _ Hwf).
    + intros srv' Hs. apply list_elem_of_lookup in Hs as [k Hk].
      apply list_lookup_insert_Some in Hk as [(-> & <- & _)|[Hk Hsrv]].
      * rewrite Hnames. unfold drawn. by rewrite length_map, length_seq.
      * apply (wf_len _ Hwf). by eapply list_elem_of_lookup_2.
    + intros a b a' b' x H1 H2. destruct (decide (a = i)) as [->|Ha], (decide (a' = i)) as [->|Ha'].
      * split; [done|]. rewrite Hnew in H1, H2. by eapply NoDup_lookup.
      * rewrite Hnew in H1. rewrite Hold in H2 by done. exfalso.
        eapply Hsep; [done|]. by eapply list_elem_of_lookup_2.
      * rewrite Hnew in H2. rewrite Hold in H1 by done. exfalso.
        eapply Hsep; [done|]. by eapply list_elem_of_lookup_2.
      * rewrite Hold in H1, H2 by done. by eapply (wf_inj _ Hwf).
  - intros a b x Hx. destruct (decide (a = i)) as [->|Ha]; simpl.
    + rewrite Hnew in Hx. destruct (md_new _ _ _ _ Hm b x Hx) as (-> & _ & ->). eauto.
    + rewrite Hold in Hx by done.
      destruct (md_old _ _ _ _ Hm (Some (NStr x)) (Hsep' a b x Hx)) as (-> & _ & ->).
      by apply (Hwi a).
  - intros b. unfold is_on. rewrite Hnew. destruct (_ !! b) as [x|] eqn:Hx; [|done].
    by destruct (md_new _ _ _ _ Hm b x Hx) as (_ & ? & _).
  - intros a b Ha. unfold is_on. rewrite Hold by done.
    destruct (en s.1 a b) as [x|] eqn:Hx; [|done].
    by destruct (md_old _ _ _ _ Hm (Some (NStr x)) (Hsep' a b x Hx)) as (_ & ? & _).
Qed.

(** What [StartServer i] establishes. *)
Record started (i : nat) (old : Server) (ps : Persister) (s s' : gst) : Prop := {
  st_wf : wf s'.1;
  st_wired : wired s';
  st_out : ∀ b, is_on s' i b = false;
  st_rest : ∀ a b, a ≠ i → is_on s' a b = is_on s a b;
  st_conn : connected s'.1 = connected s.1;
  st_gid : gid s'.1 = gid s.1;
  (* it takes [N] names from the supply and touches nothing else of the network *)
  st_rng : t_rng s'.2 = t_rng s.2 + N s.1;
  st_new : ∀ x, x ∈ endNames (default old (srvs s'.1 !! i)) → x ∈ drawn s.2 (N s.1);
  st_ends : ∀ e, (∀ x, x ∈ drawn s.2 (N s.1) → e ≠ Some (NStr x)) →
    ends (t_net s'.2) !! e = ends (t_net s.2) !! e ∧
    is_enabled (t_net s'.2) e = is_enabled (t_net s.2) e ∧
    connection (t_net s'.2) e = connection (t_net s.2) e;
  st_flags : net_flags (t_net s'.2) = net_flags (t_net s.2);
  st_others : ∀ n, n ≠ Some (NStr (ServerName (gid s.1) i)) →
    server_at (t_net s'.2) n = server_at (t_net s.2) n;
  st_labs : t_labs s.2 ⊆ t_labs s'.2;
  (* the constructor runs once, on the new ends and a new persister that holds
     what was saved last; its services are registered under the server's name *)
  st_run : ∃ q xs rs ptr labsrv,
    let ends := (λ x, mkClientEnd (Some (NStr x))) <$> xs in
    pers (t_env s.2).1 !! q = None ∧
    (rs, t_env s'.2) = mks ends (gid s.1) i q (add_pers q ps (t_env s.2)) ∧
    srvs s'.1 = <[i := mkSrv (Some q) rs xs ends]> (srvs s.1) ∧
    register rs = Ret labsrv ∧ t_labs s.2 !! ptr = None ∧ t_labs s'.2 !! ptr = Some labsrv ∧
    server_at (t_net s'.2) (Some (NStr (ServerName (gid s.1) i))) = Some ptr
}.

Lemma StartServer_starts (i : nat) (old : Server) (ps : Persister) (s : gst) :
  wf s.1 → wired s → srvs s.1 !! i = Some old →
  fresh_names s.2 (N s.1) → last_saved old (t_env s.2) = Some ps →
  (∀ es g j p e, all_services (mks es g j p e).1) →
  wp (StartServer i) (λ _ s', started i old ps s s') s.
Proof.
  intros Hwf Hwi Hold Hfr Hps Hmks. unfold StartServer.
  assert (i < N s.1) as Hi by by apply lookup_lt_Some in Hold.
  assert (length (endNames old) = N s.1) as Hlen.
  { apply (wf_len _ Hwf). by eapply list_elem_of_lookup_2. }
  apply wp_bind, wp_gets. simpl. apply wp_bind. eapply wp_index; [exact Hold|].
  apply wp_bind. pose proof (startServer_spec old (gid s.1) ps s.2) as Hstart.
  rewrite Hlen in Hstart. specialize (Hstart Hfr Hps). unfold wp in Hstart.
  destruct (startServer old (gid s.1) s.2) as [[srv t1]|?|?|] eqn:Hrun; try done.
  destruct Hstart as (tm & Hm & -> & ->). set (q := fresh _) in *.
  set (xs := drawn s.2 (N s.1)) in *.
  unfold wp at 1, shared. rewrite Hrun. simpl.
  apply wp_bind. unfold wp at 1, set_srv. simpl. rewrite decide_True by done.
  apply wp_bind. eapply wp_lift; [done|]. apply wp_bind. unfold wp at 1, shared, run_mks. simpl.
  destruct (mks _ _ _ _ _) as [rs e] eqn:Hmk. simpl.
  apply wp_bind. unfold wp at 1, set_srv. simpl.
  rewrite decide_True by by rewrite length_insert.
  destruct (register_Ret rs) as [labsrv Hlab].
  { pose proof (Hmks ((λ x, mkClientEnd (Some (NStr x))) <$> xs) (gid s.1) i q
      (add_pers q ps (t_env s.2))) as H. by rewrite Hmk in H. }
  apply wp_bind. eapply wp_lift; [exact Hlab|].
  unfold wp, shared, add_labsrv. simpl. rewrite list_insert_insert_eq.
  destruct (new_server_links s i (mkSrv (Some q) rs xs ((λ x, mkClientEnd (Some (NStr x))) <$> xs))
    tm (gid s.1)) as (H1 & H2 & H3 & H4); try done.
  pose proof (md_servers _ _ _ _ Hm) as Hsv.
  split; [done..| | | | | | |]; simpl.
  { rewrite (md_rng _ _ _ _ Hm). unfold xs, drawn. by rewrite length_map, length_seq. }
  { intros x. by rewrite list_lookup_insert_eq. }
  { intros x Hx. by apply (md_old _ _ _ _ Hm). }
  { by apply (md_flags _ _ _ _ Hm). }
  { intros n Hn. unfold server_at. simpl. by rewrite lookup_insert_ne, Hsv. }
  { apply insert_subseteq, not_elem_of_dom, is_fresh. }
  exists q, xs, rs, (fresh (dom (t_labs s.2))), labsrv. split_and!.
  - apply not_elem_of_dom, is_fresh.
  - by rewrite Hmk.
  - done.
  - done.
  - apply not_elem_of_dom, is_fresh.
  - by rewrite lookup_insert_eq.
  - unfold server_at. simpl. by rewrite lookup_insert_eq.
Qed.

(** C17: [StartServer] on a well-formed group with fresh names gives the server
    new ends that are disabled and lead to the right servers, hands the
    constructor a fresh persister with the state saved last, registers exactly
    its services under the server's name, and leaves all other links alone. *)
Theorem StartServer_correct (i : nat) (old : Server) (ps : Persister) (s : gst) :
  wf s.1 → wired s → srvs s.1 !! i = Some old →
  fresh_names s.2 (N s.1) → last_saved old (t_env s.2) = Some ps →
  (∀ es g j p e, all_services (mks es g j p e).1) →
  wp (StartServer i) (λ _ s', started i old ps s s') s.
Proof. apply StartServer_starts. Qed.

(** The kills of a server's services, in order. *)
Definition kill_all (ss : list (option IService)) (e : store * W) : store * W :=
  foldl (λ e svc, match svc with Some svc => Kill svc e | None => e end) e ss.

Lemma kill_loop ss t :
  mfor ss (λ svc, match svc with Some svc => upd_env (Kill svc) | None => mret tt end) t =
  Ret (tt, mkTester (t_net t) (t_labs t) (kill_all ss (t_env t)) (t_rng t)).
Proof.
  revert t. induction ss as [|svc ss IH]; intros t; simpl; [by destruct t|].
  unfold mbind, M_bind. destruct svc; simpl; by rewrite IH.
Qed.

(** A server leaves the network, and another takes its place in the group. *)
Record isolated (i : nat) (srv : Server) (e : store * W) (s s' : gst) : Prop := {
  is_wf : wf s'.1;
  is_wired : wired s';
  is_cut : ∀ j, is_on s' i j = false ∧ is_on s' j i = false;
  is_rest : ∀ a b, a ≠ i → b ≠ i → is_on s' a b = is_on s a b;
  is_conn : connected s'.1 = <[i := false]> (connected s.1);
  is_server : server_at (t_net s'.2) (Some (NStr (ServerName (gid s.1) i))) = None;
  is_others : ∀ n, n ≠ Some (NStr (ServerName (gid s.1) i)) →
    server_at (t_net s'.2) n = server_at (t_net s.2) n;
  is_gid : gid s'.1 = gid s.1;
  is_rng : t_rng s'.2 = t_rng s.2;
  is_ends : ends (t_net s'.2) = ends (t_net s.2);
  is_conns : connections (t_net s'.2) = connections (t_net s.2);
  is_enabled_other : ∀ e, (∀ a b x, en s.1 a b = Some x → e ≠ Some (NStr x)) →
    is_enabled (t_net s'.2) e = is_enabled (t_net s.2) e;
  is_flags : net_flags (t_net s'.2) = net_flags (t_net s.2);
  is_labs : t_labs s'.2 = t_labs s.2;
  is_env : t_env s'.2 = e;
  is_srvs : srvs s'.1 = <[i := srv]> (srvs s.1)
}.

(** What [ShutdownServer i] establishes. *)
Record stopped (i : nat) (old : Server) (ps : Persister) (s s' : gst) : Prop := {
  sp_cut : ∀ j, is_on s' i j = false ∧ is_on s' j i = false;
  sp_rest : ∀ a b, a ≠ i → b ≠ i → is_on s' a b = is_on s a b;
  sp_server : server_at (t_net s'.2) (Some (NStr (ServerName (gid s.1) i))) = None;
  (* the persister is replaced before the services are told to stop *)
  sp_run : ∃ q, let e := add_pers q (Persister.Copy ps) (t_env s.2) in
    pers (t_env s.2).1 !! q = None ∧ t_env s'.2 = kill_all (svcs old) e ∧
    isolated i (mkSrv (Some q) [] (endNames old) (clntEnds old)) (kill_all (svcs old) e) s s'
}.

(** Outside the group there is no end. *)
Lemma en_outside sg c d : wf sg → N sg ≤ c ∨ N sg ≤ d → en sg c d = None.
Proof.
  intros Hwf Hcd. destruct (en sg c d) as [x|] eqn:Hx; [|done].
  apply en_srv in Hx as (sv & Hc & Hd). pose proof (lookup_lt_Some _ _ _ Hc).
  apply lookup_lt_Some in Hd. rewrite (wf_len _ Hwf) in Hd by by eapply list_elem_of_lookup_2.
  unfold N in *. lia.
Qed.

(** A server that was disconnected from all is replaced by one with its ends. *)
Lemma replaced_links i old srv' (s s1 s2 : gst) :
  wf s.1 → wired s → srvs s.1 !! i = Some old → endNames srv' = endNames old →
  relinked false i (all s.1) s s1 →
  s2.1 = mkGrp (<[i := srv']> (srvs s.1)) (servernames s1.1) (gid s1.1) (connected s1.1) →
  ends (t_net s2.2) = ends (t_net s1.2) → enabled (t_net s2.2) = enabled (t_net s1.2) →
  connections (t_net s2.2) = connections (t_net s1.2) →
  wf s2.1 ∧ wired s2 ∧ (∀ j, is_on s2 i j = false ∧ is_on s2 j i = false) ∧
  (∀ a b, a ≠ i → b ≠ i → is_on s2 a b = is_on s a b).
Proof.
  clear crand. intros Hwf Hwi Hold Hends H1 Hsg Hn1 Hn2 Hn3.
  pose proof (relinked_wf _ _ _ _ _ H1 Hwf) as Hwf1. pose proof (proj1 (proj2 H1)) as Hf.
  assert (i < N s.1) as Hi by by apply lookup_lt_Some in Hold.
  assert (∀ a b, en s2.1 a b = en s.1 a b) as Hen.
  { intros a b. unfold en. rewrite Hsg. simpl.
    destruct (decide (a = i)) as [->|]; [|by rewrite list_lookup_insert_ne].
    rewrite list_lookup_insert_eq by done. rewrite Hold. simpl. by rewrite Hends. }
  assert (∀ a b, is_on s2 a b = is_on s1 a b) as Hon.
  { intros a b. unfold is_on, is_enabled. by rewrite Hen, (en_frame s s1), Hn2. }
  split_and!.
  - pose proof (wf_conn _ Hwf1) as Hl1. rewrite (frame_N _ _ Hf) in Hl1.
    pose proof (wf_names _ Hwf1) as Hnm. rewrite (frame_N _ _ Hf) in Hnm.
    split; rewrite Hsg; unfold N; simpl; rewrite ?length_insert; [done|done| |].
    + intros sv Hs. apply list_elem_of_lookup in Hs as [k Hk].
      apply list_lookup_insert_Some in Hk as [(-> & <- & _)|[_ Hk]].
      * rewrite Hends. apply (wf_len _ Hwf old). by eapply list_elem_of_lookup_2.
      * apply (wf_len _ Hwf). by eapply list_elem_of_lookup_2.
    + intros a b a' b' x. rewrite <-Hsg, !Hen. apply Hwf.
  - intros a b x. rewrite Hen. intros Hx. unfold connection.
    rewrite Hn1, Hn3, (fr_ends _ _ Hf), (fr_conns _ _ Hf), Hsg. simpl. rewrite (fr_gid _ _ Hf).
    by apply (Hwi a).
  - intros j. rewrite !Hon. destruct (decide (j < N s.1)) as [Hj|Hj].
    + assert (j ∈ all s.1) by (apply elem_of_seq; unfold N in Hj; lia).
      split; [apply (relinked_row _ _ _ _ _ H1)|apply (relinked_col _ _ _ _ _ H1)]; auto.
    + unfold is_on. rewrite !(en_frame s s1) by done.
      rewrite (en_outside _ i j), (en_outside _ j i) by (done || lia). done.
  - intros a b Ha Hb. rewrite Hon. apply (relinked_other _ _ _ _ _ H1); tauto.
Qed.

(** [ShutdownServer], given what the server's own part of it does. *)
Lemma ShutdownServer_isolates (i : nat) (old srv : Server) (e : store * W) (s : gst) :
  wf s.1 → wired s → srvs s.1 !! i = Some old → endNames srv = endNames old →
  (∀ n, shutdownServer old (mkTester n (t_labs s.2) (t_env s.2) (t_rng s.2)) =
     Ret (srv, mkTester n (t_labs s.2) e (t_rng s.2))) →
  wp (ShutdownServer i) (λ _ s', isolated i srv e s s') s.
Proof.
  clear crand.
  intros Hwf Hwi Hold Hends Hrun. unfold ShutdownServer.
  assert (i < N s.1) as Hi by by apply lookup_lt_Some in Hold.
  apply wp_bind, wp_gets. simpl. apply wp_bind.
  eapply wp_mono; [apply disconnect_spec; [done|done|]|].
  { intros j Hj. unfold all in Hj. apply elem_of_seq in Hj. unfold N. lia. }
  intros [] s1 H1. pose proof (proj1 (proj2 H1)) as Hf.
  apply wp_bind. unfold wp at 1, shared, upd_net. simpl.
  apply wp_bind. eapply wp_index; [exact Hold|].
  apply wp_bind. unfold wp at 1, shared. simpl.
  rewrite (fr_labs _ _ Hf), (fr_env _ _ Hf), (fr_rng _ _ Hf), Hrun. simpl.
  unfold wp, set_srv. simpl. rewrite decide_True by by rewrite (fr_srvs _ _ Hf).
  rewrite (fr_srvs _ _ Hf).
  match goal with |- isolated _ _ _ _ ?s' => set (s2 := s') end.
  destruct (replaced_links i old srv s s1 s2) as (H2 & H3 & H4 & H5); try done.
  split; try done; simpl.
  - apply H1.
  - unfold server_at. simpl. by rewrite lookup_insert_eq.
  - intros n Hn. unfold server_at. simpl. by rewrite lookup_insert_ne, (fr_servers _ _ Hf).
  - apply Hf.
  - apply Hf.
  - apply Hf.
  - apply Hf.
  - apply (fr_flags _ _ Hf).
Qed.

Lemma ShutdownServer_stops (i p : nat) (old : Server) (ps : Persister) (s : gst) :
  wf s.1 → wired s → srvs s.1 !! i = Some old →
  saved old = Some p → pers (t_env s.2).1 !! p = Some ps →
  wp (ShutdownServer i) (λ _ s', stopped i old ps s s') s.
Proof.
  clear crand.
  intros Hwf Hwi Hold Hsv Hps. set (q := fresh (dom (pers (t_env s.2).1))).
  eapply wp_mono; [apply (ShutdownServer_isolates i old
    (mkSrv (Some q) [] (endNames old) (clntEnds old))
    (kill_all (svcs old) (add_pers q (Persister.Copy ps) (t_env s.2)))); try done|].
  - intros n. unfold shutdownServer. rewrite Hsv.
    unfold mbind, M_bind. rewrite (copy_persister_run p ps) by done. simpl.
    by rewrite kill_loop.
  - intros [] s' H. split; [apply H|apply H|apply H|]. exists q.
    split_and!; [apply not_elem_of_dom, is_fresh|by rewrite (is_env _ _ _ _ _ H)|done].
Qed.

(** C16: [ShutdownServer] isolates the server: no link to or from it stays
    enabled, its name is no longer served, a fresh persister holds what was
    saved last before any service is killed, every service is killed once and
    in order, and all other links are untouched. *)
Theorem ShutdownServer_correct (i p : nat) (old : Server) (ps : Persister) (s : gst) :
  wf s.1 → wired s → srvs s.1 !! i = Some old →
  saved old = Some p → pers (t_env s.2).1 !! p = Some ps →
  wp (ShutdownServer i) (λ _ s', stopped i old ps s s') s.
Proof. apply ShutdownServer_stops. Qed.
End group.

(** [MakePartition]: the loop variables are [p1], [p2] and [j]. *)
Definition put (l : list nat) (i : nat) (x : nat) : outcome (list nat) :=
  if decide (i < length l) then Ret (<[i := x]> l) else Panic "index out of range".

Definition MakePartition_body (l : nat) (st : list nat * list nat * nat) (i : nat)
    : outcome (list nat * list nat * nat) :=
  let '(p1, p2, j) := st in
  if decide (i ≠ l) then
    if decide (j < length p1) then p1 ← put p1 j i; Ret (p1, p2, S j)
    else p2 ← put p2 (j - length p1) i; Ret (p1, p2, S j)
  else Ret (p1, p2, j).

Definition MakePartition (n l : nat) : outcome (list nat * list nat) :=
  '(p1, p2, _) ← ofold (MakePartition_body l)
                   (replicate (n / 2 + 1) 0, replicate (n / 2) 0, 0) (seq 0 n);
  match length p2 with
  | 0 => Panic "index out of range"
  | S k => p2 ← put p2 k l; Ret (p1, p2)
  end.

(** ** The majority split *)

Definition others (m l : nat) : list nat := filter (.≠ l) (seq 0 m).

Lemma others_S m l :
  others (S m) l = if decide (m = l) then others m l else others m l ++ [m].
Proof.
  unfold others. rewrite seq_S, filter_app, Nat.add_0_l. destruct (decide (m = l)) as [->|].
  - by rewrite filter_cons_False, filter_nil, app_nil_r by naive_solver.
  - by rewrite filter_cons_True, filter_nil by done.
Qed.

Lemma length_others m l : length (others m l) + (if decide (l < m) then 1 else 0) = m.
Proof.
  induction m as [|m IH]; [done|]. rewrite others_S.
  destruct (decide (m = l)) as [->|]; rewrite ?length_app; simpl.
  - revert IH. rewrite decide_False, decide_True by lia. lia.
  - destruct (decide (l < m)).
    + rewrite decide_True in * by lia. lia.
    + rewrite decide_False in * by lia. lia.
Qed.

Lemma others_perm n l : l < n → others n l ++ [l] ≡ₚ seq 0 n.
Proof.
  intros Hl. apply NoDup_Permutation.
  - apply NoDup_app. split_and!; [by apply NoDup_filter, NoDup_seq| |apply NoDup_singleton].
    intros x [Hx _]%list_elem_of_filter. set_solver.
  - apply NoDup_seq.
  - intros x. rewrite elem_of_app, list_elem_of_singleton. unfold others.
    rewrite list_elem_of_filter, elem_of_seq. destruct (decide (x = l)) as [->|]; [lia|].
    naive_solver lia.
Qed.

Lemma insert_snoc (os : list nat) r x :
  <[length os := x]> (os ++ replicate (S r) 0) = (os ++ [x]) ++ replicate r 0.
Proof.
  replace (length os) with (length os + 0) by lia.
  by rewrite insert_app_r, <-app_assoc.
Qed.

(** Writing [x] at position [j] of [p1 ++ p2], the way the loop does. *)
Lemma MakePartition_put l x p1 p2 os r :
  x ≠ l → p1 ++ p2 = os ++ replicate (S r) 0 →
  ∃ p1' p2', MakePartition_body l (p1, p2, length os) x = Ret (p1', p2', S (length os)) ∧
    length p1' = length p1 ∧ length p2' = length p2 ∧
    p1' ++ p2' = (os ++ [x]) ++ replicate r 0.
Proof.
  intros Hx Hp. pose proof (f_equal length Hp) as Hlen.
  rewrite !length_app, length_replicate in Hlen. unfold MakePartition_body, put.
  rewrite decide_True by done. rewrite <-insert_snoc, <-Hp.
  destruct (decide (length os < length p1)) as [Hlt|Hge].
  - simpl. eexists _, _. split_and!; [done|by rewrite length_insert|done|].
    by rewrite insert_app_l.
  - rewrite decide_True by lia. eexists _, _.
    split_and!; [done|done|by rewrite length_insert|]. rewrite insert_app_r_alt by lia. done.
Qed.

Lemma MakePartition_loop n l m : l < n → m ≤ n →
  ∃ p1 p2, ofold (MakePartition_body l) (replicate (n / 2 + 1) 0, replicate (n / 2) 0, 0)
      (seq 0 m) = Ret (p1, p2, length (others m l)) ∧
    length p1 = n / 2 + 1 ∧ length p2 = n / 2 ∧
    p1 ++ p2 = others m l ++ replicate (2 * (n / 2) + 1 - length (others m l)) 0.
Proof.
  intros Hl. induction m as [|m IH]; intros Hm.
  - eexists _, _. split_and!; [done|by rewrite length_replicate..|].
    change (others 0 l) with (@nil nat). rewrite <-replicate_add, app_nil_l. f_equal.
    change (length []) with 0. lia.
  - destruct IH as (p1 & p2 & Hrun & H1 & H2 & Hp); [lia|].
    rewrite seq_S, Nat.add_0_l, others_S.
    assert (∀ st, ofold (MakePartition_body l) (replicate (n / 2 + 1) 0, replicate (n / 2) 0, 0)
      (seq 0 m) = Ret st → ofold (MakePartition_body l)
      (replicate (n / 2 + 1) 0, replicate (n / 2) 0, 0) (seq 0 m ++ [m]) =
      MakePartition_body l st m) as Happ.
    { intros st Hst. rewrite ofold_app, Hst. simpl.
      destruct (MakePartition_body l st m); done. }
    rewrite (Happ _ Hrun). pose proof (length_others m l) as Ho.
    pose proof (Nat.div_mod_eq n 2). pose proof (Nat.mod_upper_bound n 2).
    destruct (decide (m = l)) as [->|Hml].
    + eexists _, _. split_and!; [|done..]. unfold MakePartition_body. simpl_decide. done.
    + destruct (MakePartition_put l m p1 p2 (others m l)
        (2 * (n / 2) + 1 - length (others m l) - 1)) as (p1' & p2' & Hb & H1' & H2' & Hp');
        [done| |].
      { rewrite Hp. do 2 f_equal. destruct (decide (l < m)); lia. }
      exists p1', p2'. rewrite Hb, length_app, Nat.add_1_r. split_and!; [done|congruence..|].
      rewrite Hp'. do 2 f_equal. simpl. lia.
Qed.

(** The result of [MakePartition] for any number of servers. *)
Lemma MakePartition_spec n l : 2 ≤ n → l < n →
  ∃ p1 p2, MakePartition n l = Ret (p1, p2) ∧
    length p1 = n / 2 + 1 ∧ length p2 = n / 2 ∧ List.last p2 0 = l ∧
    p1 ++ p2 = others n l ++ (if Nat.even n then [0; l] else [l]).
Proof.
  intros Hn Hl. destruct (MakePartition_loop n l n Hl) as (p1 & p2 & Hrun & H1 & H2 & Hp); [lia|].
  pose proof (length_others n l) as Ho. rewrite decide_True in Ho by done.
  pose proof (Nat.div_mod_eq n 2) as Hdm. pose proof (Nat.mod_upper_bound n 2).
  assert (∃ p2', p2 = p2' ++ [0]) as [p2' ->].
  { destruct p2 as [|y q _] using rev_ind; [simpl in *; lia|]. exists q.
    rewrite app_assoc in Hp. replace (2 * (n / 2) + 1 - length (others n l)) with
      (S (2 * (n / 2) + 1 - length (others n l) - 1)) in Hp by lia.
    rewrite replicate_S_end, app_assoc in Hp. by apply app_inj_tail in Hp as [_ ->]. }
  unfold MakePartition. rewrite Hrun. unfold mbind, outcome_bind.
  rewrite length_app, Nat.add_1_r. rewrite length_app, Nat.add_1_r in H2.
  unfold put. rewrite length_app, decide_True by (simpl; lia).
  replace (length p2') with (length p2' + 0) by lia. rewrite insert_app_r.
  exists p1, (p2' ++ [l]). split_and!; [done|done|by rewrite length_app, Nat.add_1_r| |].
  - apply List.last_last.
  - rewrite app_assoc in Hp |- *. destruct (Nat.even n) eqn:He.
    + apply Nat.even_spec in He as [k ->].
      replace (2 * k / 2) with k in * by (rewrite Nat.mul_comm, Nat.div_mul; lia).
      replace (2 * k + 1 - length (others (2 * k) l)) with 2 in Hp by lia.
      change [0; l] with ([0] ++ [l]). change (replicate 2 0) with ([0] ++ [0]) in Hp.
      rewrite app_assoc in Hp |- *. apply app_inj_tail in Hp as [-> _]. done.
    + assert (n mod 2 ≠ 0) as Hm.
      { intros Hm. apply Nat.Div0.mod_divides in Hm as [k ->]. by rewrite Nat.even_mul in He. }
      replace (2 * (n / 2) + 1 - length (others n l)) with 1 in Hp by lia.
      apply app_inj_tail in Hp as [-> _]. done.
Qed.

(** With an odd number of servers, [MakePartition l] splits them into a
    majority [p1] and a minority [p2] whose last member is the leader [l]. *)
Lemma MakePartition_odd (n l : nat) :
  2 ≤ n → Nat.odd n → l < n →
  ∃ p1 p2, MakePartition n l = Ret (p1, p2) ∧
    p1 ++ p2 ≡ₚ seq 0 n ∧ length p1 = n / 2 + 1 ∧ length p2 = n / 2 ∧ List.last p2 0 = l.
Proof.
  intros Hn Ho Hl. destruct (MakePartition_spec n l Hn Hl) as (p1 & p2 & ? & ? & ? & ? & Hp).
  exists p1, p2. split_and!; [done| |done..]. rewrite Hp.
  rewrite <-Nat.negb_even in Ho. destruct (Nat.even n); [done|]. by apply others_perm.
Qed.

(** With an even number of servers the two sides are no partition: server 0
    appears on the second side (left over from [make]) besides its own place,
    so [p1] and [p2] together list one server more than there are. *)
Lemma MakePartition_even (n l : nat) :
  2 ≤ n → Nat.even n → l < n →
  ∃ p1 p2, MakePartition n l = Ret (p1, p2) ∧
    p1 ++ p2 ≡ₚ 0 :: seq 0 n ∧ length p1 + length p2 = S n ∧ occ 0 (p1 ++ p2) = 2.
Proof.
  intros Hn He Hl. destruct (MakePartition_spec n l Hn Hl) as (p1 & p2 & ? & Hl1 & Hl2 & ? & Hp).
  assert (p1 ++ p2 ≡ₚ 0 :: seq 0 n) as Hperm.
  { rewrite Hp. destruct (Nat.even n); [|done]. rewrite <-(others_perm n l) by done.
    by rewrite <-Permutation_middle. }
  exists p1, p2. split_and!; [done|done| |].
  - rewrite <-length_app, Hperm. simpl. by rewrite length_seq.
  - rewrite Hperm. simpl. destruct n as [|n]; [lia|]. simpl. rewrite occ_not_elem; [done|]. rewrite elem_of_seq. lia.
Qed.

(** ** Concrete groups *)

Section demo.
#[local] Instance unit_values : GoValues unit unit := {
  Ty_eq_dec := _;
  type_of _ := tt;
  zero_of _ := tt;
  gob_encode _ := ([], true);
  gob_decode _ _ := (tt, true)
}.

(** Services that count how often they are killed. *)
Definition demo_kill (_ : unit) (e : store * nat) : store * nat := (e.1, S e.2).
Definition demo_crand (k n : nat) : list Z := replicate n (Z.of_nat k).
Definition demo_mks (_ : list ClientEnd) (_ : Tgid) (_ _ : nat) (e : store * nat)
    : list (option unit) * (store * nat) := ([Some tt], e).
Definition demo_t : @tester unit unit nat := mkTester MakeNetwork ∅ (store0, 0) 0.

Definition run_M {S A} (m : M S A) (s : S) (d : A * S) : A * S :=
  match m s with Ret r => r | _ => d end.

Definition demo_sg0 : @ServerGrp unit := mkGrp [] [] 0 [].
(** Three servers, started and all connected. *)
Definition demo_g : @ServerGrp unit * @tester unit unit nat :=
  Eval vm_compute in
    let '(sg, t) := run_M (makeSrvGrp (IService := unit) demo_crand 0 3) demo_t (demo_sg0, demo_t) in
    (run_M (StartServers (λ _, "Raft") (λ _, []) demo_crand demo_mks) (sg, t)
       (tt, (demo_sg0, demo_t))).2.

(** A decidable form of [wf]. *)
Definition wfb {I} (sg : @ServerGrp I) : bool :=
  bool_decide (servernames sg = ServerName (gid sg) <$> seq 0 (N sg)) &&
  bool_decide (length (connected sg) = N sg) &&
  forallb (λ s, bool_decide (length (endNames s) = N sg)) (srvs sg) &&
  bool_decide (NoDup (concat (endNames <$> srvs sg))).

Lemma NoDup_concat_inj {A} (ls : list (list A)) a b a' b' l l' x :
  NoDup (concat ls) → ls !! a = Some l → l !! b = Some x →
  ls !! a' = Some l' → l' !! b' = Some x → a = a' ∧ b = b'.
Proof.
  revert a a'. induction ls as [|k ls IH]; intros a a' Hnd Ha Hb Ha' Hb'; [done|].
  simpl in Hnd. apply NoDup_app in Hnd as (Hk & Hsep & Hls).
  assert (∀ c m y, ls !! c = Some m → y ∈ m → y ∈ concat ls) as Hin.
  { intros c m y Hc Hy. apply list_elem_of_In, in_concat. exists m.
    rewrite <-!list_elem_of_In. split; [by eapply list_elem_of_lookup_2|done]. }
  destruct a as [|a], a' as [|a']; simpl in *; simplify_eq.
  - split; [done|]. eapply NoDup_lookup; [exact Hk|done..].
  - destruct (Hsep x); [by eapply list_elem_of_lookup_2|].
    eapply Hin; [done|]. by eapply list_elem_of_lookup_2.
  - destruct (Hsep x); [by eapply list_elem_of_lookup_2|].
    eapply Hin; [done|]. by eapply list_elem_of_lookup_2.
  - destruct (IH a a') as [-> ->]; done.
Qed.

Lemma wfb_wf {I} (sg : @ServerGrp I) : wfb sg = true → wf sg.
Proof.
  unfold wfb. rewrite !andb_true_iff, !bool_decide_eq_true, forallb_forall.
  intros [[[H0 H1] H2] H3]. split; [done|done| |].
  - intros s Hs. apply list_elem_of_In, H2 in Hs. by apply bool_decide_eq_true in Hs.
  - intros a b a' b' x (s & Ha & Hb)%en_srv (s' & Ha' & Hb')%en_srv.
    eapply NoDup_concat_inj; [done|rewrite list_lookup_fmap, Ha; done|done|
      rewrite list_lookup_fmap, Ha'; done|done].
Qed.

Lemma demo_wf : wf demo_g.1.
Proof. apply wfb_wf. vm_compute. reflexivity. Qed.

Lemma demo_wired : wired demo_g.
Proof.
  intros a b x Hx. destruct a as [|[|[|a]]]; [..|discriminate Hx];
    (destruct b as [|[|[|b]]]; [..|discriminate Hx]);
    injection Hx as <-; (split; [eexists|]; vm_compute; reflexivity).
Qed.

Lemma Partition_correct_witness :
  ∃ s', Partition [0; 2] [1] demo_g = Ret (tt, s') ∧
    is_on s' 0 2 = true ∧ is_on s' 0 1 = false.
Proof.
  assert (wp (Partition [0; 2] [1]) (λ _ s', is_on s' 0 2 = true ∧ is_on s' 0 1 = false) demo_g)
    as H.
  - eapply wp_mono.
    + apply (Partition_correct [0; 2] [1] demo_g demo_wf).
      * set_solver.
      * change (N demo_g.1) with 3. intros j Hj. simpl in Hj. set_solver by lia.
    + intros u s' (_ & _ & Hon & _).
      rewrite !Hon by set_solver. split; vm_compute; reflexivity.
  - destruct (proj1 (wp_Ret _ _ _) H) as ([] & s' & Hrun & H'). exists s'.
    split; [exact Hrun|exact H'].
Defined.

Lemma StartServer_correct_witness :
  wp (StartServer (λ _, "Raft") (λ _, []) demo_crand demo_mks 1)
    (λ _ s', is_on s' 1 0 = false ∧ is_on s' 2 0 = true) demo_g.
Proof.
  destruct (srvs demo_g.1 !! 1) as [old|] eqn:Hold; [|discriminate Hold].
  destruct (last_saved old (t_env demo_g.2)) as [ps|] eqn:Hps;
    [|injection Hold as <-; discriminate Hps].
  eapply wp_mono.
  - apply (StartServer_correct (λ _, "Raft") (λ _, []) demo_crand demo_mks 1 old ps demo_g
      demo_wf demo_wired Hold).
    + split; [apply (bool_decide_unpack _); vm_compute; exact I|].
      intros x Hx. change (N demo_g.1) with 3 in Hx.
      repeat (apply elem_of_cons in Hx; destruct Hx as [->|Hx]; [vm_compute; reflexivity|]).
      by apply elem_of_nil in Hx.
    + exact Hps.
    + intros es g j p e. repeat constructor. by eexists.
  - intros u s' H. split; [apply H|]. rewrite (st_rest _ _ _ _ _ _ _ _ _ H) by lia. vm_compute. reflexivity.
Defined.

Lemma ShutdownServer_correct_witness :
  wp (ShutdownServer demo_kill 1) (λ _ s', is_on s' 0 1 = false ∧ is_on s' 2 0 = true) demo_g.
Proof.
  destruct (srvs demo_g.1 !! 1) as [old|] eqn:Hold; [|discriminate Hold].
  destruct (saved old) as [p|] eqn:Hp; [|injection Hold as <-; discriminate Hp].
  destruct (pers (t_env demo_g.2).1 !! p) as [ps|] eqn:Hps;
    [|injection Hold as <-; injection Hp as <-; discriminate Hps].
  eapply wp_mono.
  - apply (ShutdownServer_correct demo_kill 1 p old ps demo_g demo_wf demo_wired Hold Hp Hps).
  - intros u s' H. split; [apply H|].
    rewrite (sp_rest _ _ _ _ _ _ H) by lia. vm_compute. reflexivity.
Defined.

Lemma MakePartition_odd_witness :
  MakePartition 5 3 = Ret ([0; 1; 2], [4; 3]) ∧
  ∃ p1 p2, MakePartition 5 3 = Ret (p1, p2) ∧ p1 ++ p2 ≡ₚ seq 0 5.
Proof.
  split; [vm_compute; reflexivity|].
  destruct (MakePartition_odd 5 3) as (p1 & p2 & H & Hp & _); [lia|exact I|lia|].
  exists p1, p2. by split.
Defined.

Lemma MakePartition_even_witness :
  MakePartition 4 2 = Ret ([0; 1; 3], [0; 2]) ∧
  ∃ p1 p2, MakePartition 4 2 = Ret (p1, p2) ∧ occ 0 (p1 ++ p2) = 2.
Proof.
  split; [vm_compute; reflexivity|].
  destruct (MakePartition_even 4 2) as (p1 & p2 & H & _ & _ & Ho); [lia|exact I|lia|].
  exists p1, p2. by split.
Defined.
End demo.
