(* ===== verification/Clnts.v ===== *)
(** * The clients of a test and the test configuration:
    [tester1/clnts.go], [tester1/config.go]

    A clerk makes its ends lazily, one per server it calls; which servers it may
    reach is decided by [srvs] when the end is made and by the flags of the
    network afterwards. *)

From S2P Require Export ServerGroup.
#[local] Set Default Proof Using "Type".

Record end_ := mkEnd { end_name : string; end_end : ClientEnd }.

(** [srvs] is a slice: [None] is nil, which allows every server. *)
Record Clnt := mkClnt { c_ends : gmap string end_; c_srvs : option (list string) }.

Definition makeClntTo (srvs : option (list string)) : Clnt := mkClnt ∅ srvs.

Definition allowedL (clnt : Clnt) (server : string) : bool :=
  match c_srvs clnt with
  | None => true
  | Some l => existsb (λ n, bool_decide (n = server)) l
  end.

Section clnt.
Context {V Ty W : Type} `{GV : GoValues V Ty}.
Context (crand : nat → nat → list Z).
Abbreviation tester := (@tester V Ty W).
Abbreviation T := (M tester).
(** The state of an operation of a clerk. *)
Abbreviation C := (M (Clnt * tester)).

Definition net_do {A} (m : T A) : C A := λ s, '(a, t) ← m s.2; Ret (a, (s.1, t)).
Definition clnt {A} (f : Clnt → A) : C A := λ s, Ret (f s.1, s).
Definition set_clnt (f : Clnt → Clnt) : C unit := λ s, Ret (tt, (f s.1, s.2)).

Definition enable (e : end_) (b : bool) : C unit :=
  net_do (upd_net (Enable (Some (NStr (end_name e))) b)).

Definition makeEnd (server : string) : C end_ :=
  c ← clnt id;
  match c_ends c !! server with
  | Some e => mret e
  | None =>
      name ← net_do (draw crand);
      e ← net_do (at_net (MakeEnd (Some (NStr name))));
      _ ← net_do (upd_net (Connect (Some (NStr name)) (Some (NStr server))));
      let e := mkEnd name e in
      _ ← enable e (allowedL c server);
      _ ← set_clnt (λ c, mkClnt (<[server := e]> (c_ends c)) (c_srvs c));
      mret e
  end.

(** [Clnt.Call] up to the request it sends; [Labrpc.Call_result] is the rest.  The
    flag of [args] tells whether it is a pointer. *)
Definition Call (server method : string) (args : bool * V) : C (@reqMsg Ty) :=
  e ← makeEnd server; lift (Call_request (end_end e) method args).

(** The loops over [ends]; Go visits the entries in any order. *)
Definition for_ends (f : string → end_ → C unit) : C unit :=
  c ← clnt id; mfor (map_to_list (c_ends c)) (λ '(s, e), f s e).

Definition ConnectAll : C unit :=
  _ ← for_ends (λ _ e, enable e true);
  set_clnt (λ c, mkClnt (c_ends c) None).

Definition ConnectTo (srvs : option (list string)) : C unit :=
  _ ← set_clnt (λ c, mkClnt (c_ends c) srvs);
  c ← clnt id;
  for_ends (λ s e, if allowedL c s then enable e true else mret tt).

Definition Disconnect (srv : string) : C unit :=
  for_ends (λ s e, if bool_decide (s = srv) then enable e false else mret tt).

Definition DisconnectAll : C unit :=
  _ ← for_ends (λ _ e, enable e false);
  set_clnt (λ c, mkClnt (c_ends c) (Some [])).

Definition remove : C unit :=
  for_ends (λ _ e, net_do (at_net (λ n,
    n ← DeleteEnd (Some (NStr (end_name e))) n; Ret (tt, n)))).

(** ** [Clnts]: the clerks of a test; [None] is the nil map that [cleanup]
    leaves behind. *)

Record Clnts := mkClnts {
  cl_t : tester;
  clerks : option (gset nat);
  cl_objs : gmap nat Clnt
}.

Definition makeClnts (t : tester) : Clnts := mkClnts t (Some ∅) ∅.

(** [Clnts.makeEnd]: an end that is enabled at once and belongs to no clerk. *)
Definition Clnts_makeEnd (servername : string) : M Clnts ClientEnd := λ s,
  '(e, t) ← (name ← draw crand;
             e ← at_net (MakeEnd (Some (NStr name)));
             _ ← upd_net (Connect (Some (NStr name)) (Some (NStr servername)));
             _ ← upd_net (Enable (Some (NStr name)) true);
             mret e) (cl_t s);
  Ret (e, mkClnts t (clerks s) (cl_objs s)).

Definition MakeClientTo (srvs : option (list string)) : M Clnts nat := λ s,
  match clerks s with
  | None => Panic "assignment to entry in nil map"
  | Some cs =>
      let p := fresh (dom (cl_objs s)) in
      Ret (p, mkClnts (cl_t s) (Some ({[p]} ∪ cs)) (<[p := makeClntTo srvs]> (cl_objs s)))
  end.
Definition MakeClient : M Clnts nat := MakeClientTo None.

Definition on_clnt {A} (p : nat) (m : C A) : M Clnts A := λ s,
  match cl_objs s !! p with
  | None => Panic "nil pointer dereference"
  | Some c =>
      '(a, (c, t)) ← m (c, cl_t s);
      Ret (a, mkClnts t (clerks s) (<[p := c]> (cl_objs s)))
  end.

Definition set_clerks (cs : option (gset nat)) : M Clnts unit :=
  modify (λ s, mkClnts (cl_t s) cs (cl_objs s)).

Definition Clnts_cleanup : M Clnts unit :=
  cs ← gets clerks;
  _ ← mfor (elements (default ∅ cs)) (λ p, on_clnt p remove);
  set_clerks None.

Definition DeleteClient (p : nat) : M Clnts unit :=
  cs ← gets clerks;
  match cs with
  | Some cs =>
      if bool_decide (p ∈ cs) then _ ← on_clnt p remove; set_clerks (Some (cs ∖ {[p]}))
      else mret tt
  | None => mret tt
  end.

(** ** Which servers a clerk can reach *)

Abbreviation cst := (Clnt * tester)%type.

(** Whether a call to [srv] goes through an enabled end. *)
Definition reach (s : cst) (srv : string) : bool :=
  match c_ends s.1 !! srv with
  | Some e => is_enabled (t_net s.2) (Some (NStr (end_name e)))
  | None => allowedL s.1 srv
  end.

(** The ends of a clerk exist, are distinct and lead where they should. *)
Record wfc (s : cst) : Prop := {
  wc_inj : ∀ a b e f, c_ends s.1 !! a = Some e → c_ends s.1 !! b = Some f →
    end_name e = end_name f → a = b;
  wc_net : ∀ a e, c_ends s.1 !! a = Some e →
    is_Some (ends (t_net s.2) !! Some (NStr (end_name e))) ∧
    end_end e = mkClientEnd (Some (NStr (end_name e))) ∧
    connection (t_net s.2) (Some (NStr (end_name e))) = Some (NStr a)
}.

Definition set_enabled (e : end_) (b : bool) (s : cst) : cst :=
  (s.1, mkTester (Enable (Some (NStr (end_name e))) b (t_net s.2))
          (t_labs s.2) (t_env s.2) (t_rng s.2)).

Lemma enable_run e b s : enable e b s = Ret (tt, set_enabled e b s).
Proof. by destruct s as [c []]. Qed.

(** Everything that no operation of a clerk changes, apart from [makeEnd]'s name. *)
Definition rest (t : tester) :=
  (servers (t_net t), net_flags (t_net t), t_labs t, t_env t, t_rng t).

(** A loop over the ends that sets the flag of each as [d] says. *)
Record flagged (d : string → option bool) (s s' : cst) : Prop := {
  fl_clnt : s'.1 = s.1;
  fl_ends : ends (t_net s'.2) = ends (t_net s.2);
  fl_conns : connections (t_net s'.2) = connections (t_net s.2);
  fl_rest : rest s'.2 = rest s.2;
  fl_mine : ∀ a e, c_ends s.1 !! a = Some e →
    is_enabled (t_net s'.2) (Some (NStr (end_name e))) =
    default (is_enabled (t_net s.2) (Some (NStr (end_name e)))) (d a);
  fl_other : ∀ n, (∀ a e, c_ends s.1 !! a = Some e → n ≠ Some (NStr (end_name e))) →
    is_enabled (t_net s'.2) n = is_enabled (t_net s.2) n
}.

Lemma set_enabled_same e b s :
  is_enabled (t_net (set_enabled e b s).2) (Some (NStr (end_name e))) = b.
Proof. unfold is_enabled. simpl. by rewrite lookup_insert_eq. Qed.
Lemma set_enabled_other e b s n :
  n ≠ Some (NStr (end_name e)) →
  is_enabled (t_net (set_enabled e b s).2) n = is_enabled (t_net s.2) n.
Proof. intros H. unfold is_enabled. simpl. by rewrite lookup_insert_ne. Qed.

Lemma for_ends_spec (f : string → end_ → C unit) (d : string → option bool) s :
  wfc s →
  (∀ a e s, f a e s = Ret (tt, match d a with Some b => set_enabled e b s | None => s end)) →
  wp (for_ends f) (λ _ s', flagged d s s') s.
Proof.
  clear crand. intros Hwf Hf. unfold for_ends. apply wp_bind, wp_gets. simpl.
  set (l := map_to_list (c_ends s.1)).
  assert (NoDup l.*1) as Hnd by apply NoDup_fst_map_to_list.
  assert (∀ a e, (a, e) ∈ l ↔ c_ends s.1 !! a = Some e) as Hl by (intros; apply elem_of_map_to_list).
  eapply wp_mono.
  { apply (wp_mfor (λ pre s', flagged (λ a, if decide (a ∈ pre.*1) then d a else None) s s')).
    - by split.
    - intros pre [a e] post s' Hpre [H1 H2 H3 Hre H4 H5]. unfold wp. rewrite Hf.
      assert (c_ends s.1 !! a = Some e) as Ha by (apply Hl; rewrite Hpre; set_solver).
      assert (a ∉ pre.*1) as Hnin.
      { rewrite Hpre, fmap_app in Hnd. apply NoDup_app in Hnd as (_ & Hsep & _).
        intros Hin. apply (Hsep a Hin). simpl. left. }
      assert (∀ a', a' ≠ a → a' ∈ (pre ++ [(a, e)]).*1 ↔ a' ∈ pre.*1) as Hpre'.
      { intros a' Hne. rewrite fmap_app, elem_of_app. simpl. set_solver. }
      assert (a ∈ (pre ++ [(a, e)]).*1) as Hin'.
      { rewrite fmap_app, elem_of_app. right. left. }
      split; [by destruct (d a)..| |].
      + intros a' e' Ha'. destruct (decide (a' = a)) as [->|Hne].
        * assert (e' = e) as -> by congruence. rewrite decide_True by done.
          specialize (H4 a e Ha). rewrite decide_False in H4 by done.
          destruct (d a) as [b|]; [by rewrite set_enabled_same|done].
        * specialize (H4 a' e' Ha').
          rewrite (decide_ext _ (a' ∈ pre.*1)) by auto. rewrite <-H4.
          destruct (d a); [|done]. apply set_enabled_other. intros [= He].
          by apply Hne, (wc_inj _ Hwf a' a e' e).
      + intros n Hn. destruct (d a); [|by apply H5].
        rewrite set_enabled_other by by eapply Hn. by apply H5. }
  intros [] s' [H1 H2 H3 Hre H4 H5]. split; [done..| |done]. intros a e Ha.
  rewrite (H4 a e Ha), decide_True; [done|]. apply list_elem_of_fmap. exists (a, e).
  by rewrite Hl.
Qed.

Lemma flagged_wfc d s s' : wfc s → flagged d s s' → wfc s'.
Proof.
  intros [H1 H2] [F1 F2 F3 _ _ _]. split; rewrite F1; [done|]. intros a e Ha.
  unfold connection. rewrite F2, F3. by apply (H2 a).
Qed.

Lemma wfc_set_srvs s srvs : wfc s → wfc (mkClnt (c_ends s.1) srvs, s.2).
Proof. by intros []; split. Qed.

Lemma reach_flagged d s s' srvs a :
  flagged d s s' →
  reach (mkClnt (c_ends s'.1) srvs, s'.2) a =
  match c_ends s.1 !! a with
  | Some e => default (reach s a) (d a)
  | None => allowedL (mkClnt ∅ srvs) a
  end.
Proof.
  intros [F1 _ _ _ F4 _]. unfold reach. simpl. rewrite F1.
  destruct (c_ends s.1 !! a) as [e|] eqn:Ha; [|done]. by rewrite (F4 a e Ha).
Qed.

(** Only the flags of the clerk's own ends may differ. *)
Record own_flags (s s' : cst) : Prop := {
  of_clnt : c_ends s'.1 = c_ends s.1;
  of_ends : ends (t_net s'.2) = ends (t_net s.2);
  of_conns : connections (t_net s'.2) = connections (t_net s.2);
  of_rest : rest s'.2 = rest s.2;
  of_other : ∀ n, (∀ a e, c_ends s.1 !! a = Some e → n ≠ Some (NStr (end_name e))) →
    is_enabled (t_net s'.2) n = is_enabled (t_net s.2) n
}.

Lemma flagged_own {d s0 s s' s''} : flagged d s s' → s.2 = s0.2 → c_ends s.1 = c_ends s0.1 →
  s''.2 = s'.2 → c_ends s''.1 = c_ends s0.1 → own_flags s0 s''.
Proof.
  intros [F1 F2 F3 F4 F5 F6] H2 H1 Ht Hc. rewrite <-H1 in Hc.
  split; rewrite ?Ht, <-?H2, <-?H1; done.
Qed.

(** What the four operations make of the reachable servers. *)
Definition becomes (s : cst) (r : string → bool) (s' : cst) : Prop :=
  wfc s' ∧ own_flags s s' ∧ ∀ a, reach s' a = r a.

Lemma ConnectAll_reach (s : cst) :
  wfc s →
  wp ConnectAll (λ _, becomes s (λ _, true)) s.
Proof.
  clear crand. intros Hwf. apply wp_bind. eapply wp_mono.
  { apply (for_ends_spec _ (λ _, Some true) s Hwf). intros. apply enable_run. }
  intros [] s' Hf. apply (wfc_set_srvs _ None) in Hwf as Hwf1.
  pose proof (fl_clnt _ _ _ Hf) as Hc. split_and!; simpl.
  + by apply (wfc_set_srvs s'), (flagged_wfc _ s s' Hwf Hf).
  + apply (flagged_own Hf); try done. simpl. by rewrite Hc.
  + intros a. rewrite (reach_flagged _ _ _ _ _ Hf). by destruct (_ !! a).
Qed.

Lemma DisconnectAll_reach (s : cst) :
  wfc s →
  wp DisconnectAll (λ _, becomes s (λ _, false)) s.
Proof.
  clear crand. intros Hwf. apply wp_bind. eapply wp_mono.
  { apply (for_ends_spec _ (λ _, Some false) s Hwf). intros. apply enable_run. }
  intros [] s' Hf. pose proof (fl_clnt _ _ _ Hf) as Hc. split_and!; simpl.
  + by apply (wfc_set_srvs s'), (flagged_wfc _ s s' Hwf Hf).
  + apply (flagged_own Hf); try done. simpl. by rewrite Hc.
  + intros a. rewrite (reach_flagged _ _ _ _ _ Hf). by destruct (_ !! a).
Qed.

(** The servers of a slice; nil stands for all. *)
Definition listed (l : option (list string)) (a : string) : bool :=
  match l with None => true | Some l => bool_decide (a ∈ l) end.

Lemma ConnectTo_reach l (s : cst) :
  wfc s →
  wp (ConnectTo l) (λ _, becomes s (λ a,
    listed l a || (bool_decide (is_Some (c_ends s.1 !! a)) && reach s a))) s.
Proof.
  clear crand. intros Hwf. pose proof (wfc_set_srvs s l Hwf) as Hwf1.
  set (s1 := (mkClnt (c_ends s.1) l, s.2)) in *.
  assert (∀ a, allowedL s1.1 a = listed l a) as Hall.
  { intros a. destruct l as [l|]; [|done]. change (existsb (λ n, bool_decide (n = a)) l = bool_decide (a ∈ l)).
    clear. induction l as [|b l IH]; [done|]. simpl. rewrite IH.
    rewrite <-bool_decide_or. apply bool_decide_ext. set_solver. }
  apply wp_bind. unfold wp at 1, set_clnt. apply wp_bind, wp_gets. fold s1.
  eapply wp_mono.
  { apply (for_ends_spec _ (λ a, if allowedL s1.1 a then Some true else None) s1 Hwf1).
    intros a e s2. change (id _) with s1.1. destruct (allowedL s1.1 a); [apply enable_run|done]. }
  intros [] s' Hf. split_and!.
  + by eapply flagged_wfc.
  + apply (flagged_own Hf); try done. by rewrite (fl_clnt _ _ _ Hf).
  + intros a. pose proof (reach_flagged _ _ _ l a Hf) as Hr.
    assert ((mkClnt (c_ends s'.1) l, s'.2) = s') as Hs'.
    { pose proof (fl_clnt _ _ _ Hf) as Hc. destruct s' as [c' t']. simpl in Hc. by subst c'. }
    rewrite Hs' in Hr. rewrite Hr, Hall. unfold reach. simpl.
    destruct (c_ends s.1 !! a) as [e|] eqn:Ha.
    * rewrite (bool_decide_true (is_Some _)) by done. by destruct (listed l a).
    * rewrite (bool_decide_false (is_Some _)) by by intros [? ?].
      rewrite orb_false_r. exact (Hall a).
Qed.

Lemma Disconnect_reach srv (s : cst) :
  wfc s →
  wp (Disconnect srv) (λ _, becomes s (λ a,
    if bool_decide (a = srv ∧ is_Some (c_ends s.1 !! a)) then false else reach s a)) s.
Proof.
  clear crand. intros Hwf. eapply wp_mono.
  { apply (for_ends_spec _ (λ a, if bool_decide (a = srv) then Some false else None) s Hwf).
    intros a e s2. destruct (bool_decide _); [apply enable_run|done]. }
  intros [] s' Hf. split_and!.
  + by eapply flagged_wfc.
  + apply (flagged_own Hf); try done. by rewrite (fl_clnt _ _ _ Hf).
  + intros a. pose proof (fl_mine _ _ _ Hf a) as Hm. unfold reach.
    rewrite (fl_clnt _ _ _ Hf). destruct (c_ends s.1 !! a) as [e|] eqn:Ha.
    * rewrite (Hm e eq_refl). destruct (decide (a = srv)) as [->|Hne].
      -- by rewrite !bool_decide_true.
      -- by rewrite !bool_decide_false by tauto.
    * by rewrite bool_decide_false by by intros [_ [? ?]].
Qed.

(** C18: [ConnectAll] lets a clerk reach every server and [DisconnectAll] none;
    [ConnectTo l] lets it reach the servers of [l], or every server if [l] is nil,
    and, besides, those it could reach through an end it already had; [Disconnect srv] cuts only [srv], and
    only if the clerk already has an end to it. *)
Theorem Clnt_reach (s : cst) (l : option (list string)) (srv : string) :
  wfc s →
  wp ConnectAll (λ _, becomes s (λ _, true)) s ∧
  wp DisconnectAll (λ _, becomes s (λ _, false)) s ∧
  wp (ConnectTo l) (λ _, becomes s (λ a,
    listed l a || (bool_decide (is_Some (c_ends s.1 !! a)) && reach s a))) s ∧
  wp (Disconnect srv) (λ _, becomes s (λ a,
    if bool_decide (a = srv ∧ is_Some (c_ends s.1 !! a)) then false else reach s a)) s.
Proof.
  intros Hwf. split_and!;
    [by apply ConnectAll_reach|by apply DisconnectAll_reach|by apply ConnectTo_reach
    |by apply Disconnect_reach].
Qed.

(** [makeEnd] gives a clerk one end per server, made on first use and
    returned unchanged afterwards; the end leads to the server, is enabled
    exactly if the server may be reached, and making it changes no other
    server's reachability. *)
Lemma makeEnd_correct (s : cst) (server : string) :
  wfc s → fresh_names crand s.2 1 →
  wp (makeEnd server) (λ e s',
    wfc s' ∧ c_ends s'.1 !! server = Some e ∧ c_srvs s'.1 = c_srvs s.1 ∧
    (∀ a, reach s' a = reach s a) ∧
    (∀ a, a ≠ server → c_ends s'.1 !! a = c_ends s.1 !! a) ∧
    (is_Some (c_ends s.1 !! server) → s' = s)) s.
Proof.
  intros Hwf [_ Hfr]. unfold makeEnd. apply wp_bind, wp_gets. simpl.
  destruct (c_ends s.1 !! server) as [e|] eqn:He.
  { apply wp_mret. by split_and!. }
  set (x := Randstring 20 (crand (t_rng s.2) 40)) in *.
  specialize (Hfr x ltac:(simpl; left)).
  unfold wp, net_do, draw, at_net, upd_net, MakeEnd, enable, set_clnt, mbind, M_bind. simpl.
  fold x. rewrite Hfr. simpl.
  assert (∀ a f, c_ends s.1 !! a = Some f → Some (NStr x) ≠ Some (NStr (end_name f))) as Hne.
  { intros a f Ha [= Hx]. destruct (wc_net _ Hwf a f Ha) as [[? Hin] _].
    rewrite <-Hx in Hin. congruence. }
  split_and!.
  - split; simpl.
    + intros a b e f Ha Hb Hef. apply lookup_insert_Some in Ha as [[<- <-]|[Hna Ha]],
        Hb as [[<- <-]|[Hnb Hb]]; [done|..].
      * exfalso. apply (Hne b f Hb). by rewrite <-Hef.
      * exfalso. apply (Hne a e Ha). by rewrite Hef.
      * by apply (wc_inj _ Hwf a b e f).
    + intros a e Ha. unfold connection. simpl.
      apply lookup_insert_Some in Ha as [[<- <-]|[Hna Ha]]; simpl.
      * rewrite !lookup_insert_eq. eauto.
      * rewrite !lookup_insert_ne by by eapply Hne. by apply (wc_net _ Hwf a e).
  - by rewrite lookup_insert_eq.
  - done.
  - intros a. unfold reach, is_enabled. simpl. destruct (decide (a = server)) as [->|Ha].
    + by rewrite lookup_insert_eq, He, lookup_insert_eq.
    + rewrite lookup_insert_ne by done. destruct (c_ends s.1 !! a) as [f|] eqn:Hf; [|done].
      by rewrite !lookup_insert_ne by by eapply Hne.
  - intros a Ha. by rewrite lookup_insert_ne.
  - by intros [? ?].
Qed.

(** [remove], which [DeleteClient] and [cleanup] run for a clerk, deletes
    every end of the clerk from the network and no other. *)
Lemma remove_correct (s : cst) :
  wfc s →
  wp remove (λ _ s', s'.1 = s.1 ∧ rest s'.2 = rest s.2 ∧
    (∀ a e, c_ends s.1 !! a = Some e → ends (t_net s'.2) !! Some (NStr (end_name e)) = None ∧
       is_enabled (t_net s'.2) (Some (NStr (end_name e))) = false) ∧
    (∀ n, (∀ a e, c_ends s.1 !! a = Some e → n ≠ Some (NStr (end_name e))) →
       ends (t_net s'.2) !! n = ends (t_net s.2) !! n ∧
       is_enabled (t_net s'.2) n = is_enabled (t_net s.2) n ∧
       connection (t_net s'.2) n = connection (t_net s.2) n)) s.
Proof.
  clear crand. intros Hwf. unfold remove, for_ends. apply wp_bind, wp_gets. simpl.
  set (l := map_to_list (c_ends s.1)).
  assert (NoDup l.*1) as Hnd by apply NoDup_fst_map_to_list.
  assert (∀ a e, (a, e) ∈ l ↔ c_ends s.1 !! a = Some e) as Hl by (intros; apply elem_of_map_to_list).
  eapply wp_mono.
  { apply (wp_mfor (λ pre s', s'.1 = s.1 ∧ rest s'.2 = rest s.2 ∧
      (∀ a e, (a, e) ∈ pre → ends (t_net s'.2) !! Some (NStr (end_name e)) = None ∧
         is_enabled (t_net s'.2) (Some (NStr (end_name e))) = false) ∧
      (∀ n, (∀ a e, (a, e) ∈ pre → n ≠ Some (NStr (end_name e))) →
         ends (t_net s'.2) !! n = ends (t_net s.2) !! n ∧
         is_enabled (t_net s'.2) n = is_enabled (t_net s.2) n ∧
         connection (t_net s'.2) n = connection (t_net s.2) n))).
    - split_and!; [done|done|set_solver|done].
    - intros pre [a e] post s' Hpre (H1 & Hre & H2 & H3).
      assert (c_ends s.1 !! a = Some e) as Ha by (apply Hl; rewrite Hpre; set_solver).
      destruct (wc_net _ Hwf a e Ha) as ([ce Hce] & _).
      destruct (H3 (Some (NStr (end_name e)))) as (He & _).
      { intros b f Hb [= Hef]. assert (c_ends s.1 !! b = Some f) as Hbf
          by (apply Hl; rewrite Hpre; set_solver).
        assert (a = b) as <- by by apply (wc_inj _ Hwf a b e f).
        rewrite Hpre, fmap_app in Hnd. apply NoDup_app in Hnd as (_ & Hsep & _).
        apply (Hsep a); [|simpl; left]. apply list_elem_of_fmap. by exists (a, f). }
      unfold wp, net_do, at_net, DeleteEnd. simpl. rewrite He, Hce. simpl.
      split_and!; [done|exact Hre|..].
      + intros b f [Hb|Hb%list_elem_of_singleton]%elem_of_app; unfold is_enabled; simpl.
        * destruct (H2 b f Hb) as [Hn Hd]. unfold is_enabled in Hd.
          destruct (decide (end_name f = end_name e)) as [->|Hfe].
          -- by rewrite !lookup_delete_eq.
          -- by rewrite !lookup_delete_ne by congruence.
        * injection Hb as -> ->. by rewrite !lookup_delete_eq.
      + intros n Hn. assert (Some (NStr (end_name e)) ≠ n).
        { intros <-. apply (Hn a e); [set_solver|done]. }
        unfold is_enabled, connection. simpl. rewrite !lookup_delete_ne by done.
        apply H3. intros b f Hb. apply (Hn b f). set_solver. }
  intros [] s' (H1 & Hre & H2 & H3). split_and!; [done|done|..].
  - intros a e Ha. apply (H2 a). by apply Hl.
  - intros n Hn. apply H3. intros a e Ha. apply (Hn a). by apply Hl.
Qed.
End clnt.

(** ** [Config] *)

(** The parts of a test: the clerks, the groups and the statistics.  The
    network is shared, so it is the one of [cf_t]. *)
Record Config {V Ty W I : Type} := mkConfig {
  cf_t : @tester V Ty W;
  cf_grps : gmap Tgid nat;
  cf_objs : gmap nat (@ServerGrp I);
  cf_clerks : option (gset nat);
  cf_clnts : gmap nat Clnt;
  rpcs0 : Z;
  ops : Z                                  (* int32 *)
}.

Section config.
Context {V Ty W I : Type} `{GV : GoValues V Ty}.
Context (svc_tname : I → string) (svc_refl : I → list (@Method V Ty W))
  (Kill : I → store * W → store * W) (crand : nat → nat → list Z)
  (mks : list ClientEnd → Tgid → nat → nat → store * W → list (option I) * (store * W)).
Abbreviation Config := (@Config V Ty W I).
Abbreviation K := (M Config).

Definition on_groups {A} (m : M (@world V Ty W I) A) : K A := λ c,
  '(a, w) ← m (mkWorld (cf_t c) (cf_grps c) (cf_objs c));
  Ret (a, mkConfig _ _ _ _ (w_t w) (grps w) (w_objs w) (cf_clerks c) (cf_clnts c)
            (rpcs0 c) (ops c)).
Definition on_clnts {A} (m : M (@Clnts V Ty W) A) : K A := λ c,
  '(a, s) ← m (mkClnts (cf_t c) (cf_clerks c) (cf_clnts c));
  Ret (a, mkConfig _ _ _ _ (cl_t s) (cf_grps c) (cf_objs c) (clerks s) (cl_objs s)
            (rpcs0 c) (ops c)).
Definition on_net {A} (f : Network → outcome (A * Network)) : K A :=
  on_groups (w_tester (at_net f)).

Definition GRP0 : Tgid := 0%Z.

Definition Group (gid : Tgid) : K (option nat) := on_groups (lookupGroup gid).

Definition MakeGroupStart (gid : Tgid) (nsrv : nat) : K unit :=
  _ ← on_groups (MakeGroup crand gid nsrv);
  p ← Group gid;
  on_groups (on_group p (StartServers svc_tname svc_refl crand mks)).

Definition ExitGroup (gid : Tgid) : K unit :=
  p ← Group gid;
  _ ← on_groups (on_group p (Shutdown Kill));
  on_groups (Groups_delete gid).

(** [rng] is where the supply of random names starts. *)
Definition MakeConfig (n : nat) (reliable : bool) (e : store * W) (rng : nat)
    : outcome Config :=
  '(_, c) ← (_ ← MakeGroupStart GRP0 n;
             on_net (λ rn, Ret (tt, Reliable reliable rn)))
     (mkConfig _ _ _ _ (mkTester MakeNetwork ∅ e rng) ∅ ∅ (Some ∅) ∅ 0 0);
  Ret c.

Definition SetReliable (b : bool) : K unit := on_net (λ rn, Ret (tt, Reliable b rn)).
Definition Config_IsReliable (c : Config) : bool := IsReliable (t_net (cf_t c)).
Definition SetLongReordering (b : bool) : K unit :=
  on_net (λ rn, Ret (tt, LongReordering b rn)).
Definition SetLongDelays (b : bool) : K unit := on_net (λ rn, Ret (tt, LongDelays b rn)).

Definition RpcTotal (c : Config) : Z := GetTotalCount (t_net (cf_t c)).
Definition BytesTotal (c : Config) : Z := GetTotalBytes (t_net (cf_t c)).

Definition set_stat (r o : Z) (c : Config) : Config :=
  mkConfig _ _ _ _ (cf_t c) (cf_grps c) (cf_objs c) (cf_clerks c) (cf_clnts c) r o.
Definition Begin : K unit := modify (λ c, set_stat (RpcTotal c) 0 c).
Definition Op : K unit := modify (λ c, set_stat (rpcs0 c) (wrap_i32 (ops c + 1)) c).

(** [elapsed] is [time.Since(cfg.start)] in seconds, [failed] is [t.Failed()]. *)
Definition CheckTimeout (elapsed : Z) (failed : bool) : K unit :=
  if negb failed && (120 <? elapsed)%Z then lift (Fatal "test took longer than 120 seconds")
  else mret tt.

(** What [End] prints: peers, RPCs since [Begin] (an [int]) and operations. *)
Definition End_ (elapsed : Z) (failed : bool) : K (option (nat * Z * Z)) :=
  _ ← CheckTimeout elapsed failed;
  if failed then mret None else
  p ← Group GRP0;
  npeers ← on_groups (on_group p (grp N));
  c ← gets id;
  mret (Some (npeers, (RpcTotal c - rpcs0 c)%Z, ops c)).

(** The annotations of the framework are the only part of [Cleanup] left out:
    see [Annotation].  [order] is the order in which Go visits the groups. *)
Definition Cleanup_ (order : list Tgid) (elapsed : Z) (failed : bool) : K unit :=
  _ ← on_clnts Clnts_cleanup;
  _ ← on_groups (Groups_cleanup Kill order);
  _ ← on_net (λ rn, rn ← Cleanup rn; Ret (tt, rn));
  CheckTimeout elapsed failed.
End config.

(** [Test.ConnectClnts] of [kvtest1/kvtest.go]; [ps] are pointers to clerks. *)
Definition ConnectClnts {V Ty W : Type} (ps : list nat) : M (@Clnts V Ty W) unit :=
  mfor ps (λ p, on_clnt p ConnectAll).

(** ** Helpers of [config.go] *)

(** [Fatalf]: [frames] are the calls on the stack, file and line, that
    [runtime.Callers] found.  It prints those in test files and ends the test. *)
Fixpoint str_Contains (s sub : string) : bool :=
  String.prefix sub s || match s with EmptyString => false | String _ s => str_Contains s sub end.
Definition Fatalf_lines (frames : list (string * Z)) : outcome (list (string * Z)) :=
  match frames with
  | [] => Panic "testing: zero callers found"
  | _ => Ret (filter (λ f, str_Contains f.1 "test.go" = true) frames)
  end.

(** [random_handles]: [d i] is the source of [rand.Intn(i + 1)]. *)
Definition swap {A} (l : list A) (i j : nat) : list A :=
  match l !! i, l !! j with
  | Some x, Some y => <[j := x]> (<[i := y]> l)
  | _, _ => l
  end.
Definition random_handles {A} (d : nat → nat) (kvh : list A) : list A :=
  foldl (λ sa i, swap sa i (d i mod S i)) kvh (seq 0 (length kvh)).

Lemma swap_perm {A} (l : list A) i j : swap l i j ≡ₚ l.
Proof.
  unfold swap. destruct (l !! i) as [x|] eqn:Hi; [|done].
  destruct (l !! j) as [y|] eqn:Hj; [|done].
  destruct (decide (i = j)) as [->|Hij].
  { assert (x = y) as -> by congruence. by rewrite !list_insert_id; rewrite ?list_insert_id. }
  symmetry. apply Permutation_inj. split; [by rewrite !length_insert|].
  exists (λ k, if decide (k = i) then j else if decide (k = j) then i else k). split.
  - intros a b. repeat case_decide; congruence.
  - intros k. pose proof (lookup_lt_Some _ _ _ Hi). pose proof (lookup_lt_Some _ _ _ Hj).
    destruct (decide (k = j)) as [->|Hkj]; [rewrite decide_False by done|destruct (decide (k = i)) as [->|Hki]].
    + by rewrite list_lookup_insert_ne, list_lookup_insert_eq by done.
    + by rewrite list_lookup_insert_eq by by rewrite length_insert.
    + by rewrite !list_lookup_insert_ne by done.
Qed.

(** The shuffled handles are the handles. *)
Lemma random_handles_perm {A} (d : nat → nat) (kvh : list A) : random_handles d kvh ≡ₚ kvh.
Proof.
  unfold random_handles. generalize (seq 0 (length kvh)). intros js.
  revert kvh. induction js as [|j js IH]; intros l; simpl; [done|].
  by rewrite IH, swap_perm.
Qed.

(** ** A concrete clerk *)

Section clnt_demo.
Abbreviation dt := (@tester unit unit nat).

Definition demo_end : end_ := mkEnd "e0" (mkClientEnd (Some (NStr "e0"))).
Definition demo_clnt : Clnt := mkClnt {[ "s0" := demo_end ]} None.
(** The clerk has one enabled end, to the server "s0". *)
Definition demo_cst : Clnt * dt :=
  (demo_clnt,
   mkTester (mkNetwork true false false {[ Some (NStr "e0") := end_end demo_end ]}
     {[ Some (NStr "e0") := true ]} ∅ {[ Some (NStr "e0") := Some (NStr "s0") ]} 0 0 false)
     ∅ (store0, 0%nat) 0%nat).

Lemma demo_wfc : wfc demo_cst.
Proof.
  assert (∀ a e, c_ends demo_cst.1 !! a = Some e → a = "s0" ∧ e = demo_end) as Hone.
  { intros a e Ha. change (({[ "s0" := demo_end ]} : gmap string end_) !! a = Some e) in Ha.
    by apply lookup_singleton_Some in Ha as [<- <-]. }
  split.
  - intros a b e f Ha Hb _. by destruct (Hone a e Ha) as [-> _], (Hone b f Hb) as [-> _].
  - intros a e Ha. destruct (Hone a e Ha) as [-> ->]. split_and!; [by eexists|done..].
Qed.

Lemma Clnt_reach_witness :
  wp (ConnectTo (Some ["s1"])) (λ _ s', reach s' "s1" = true ∧ reach s' "s0" = true ∧
    reach s' "s2" = false) demo_cst.
Proof.
  destruct (Clnt_reach demo_cst (Some ["s1"]) "s0" demo_wfc) as (_ & _ & H & _).
  eapply wp_mono; [exact H|]. intros u s' (_ & _ & Hr).
  rewrite !Hr. split_and!; vm_compute; reflexivity.
Defined.

Lemma makeEnd_correct_witness :
  wp (makeEnd demo_crand "s1") (λ e s', c_ends s'.1 !! "s1" = Some e ∧ reach s' "s1" = true)
    demo_cst.
Proof.
  eapply wp_mono.
  - apply (makeEnd_correct demo_crand demo_cst "s1" demo_wfc).
    split; [apply (bool_decide_unpack _); vm_compute; exact I|].
    intros x Hx. apply list_elem_of_singleton in Hx. subst x. vm_compute. reflexivity.
  - intros e s' (_ & He & _ & Hr & _). split; [exact He|]. rewrite Hr. vm_compute. reflexivity.
Defined.

Lemma remove_correct_witness :
  wp remove (λ _ s', ends (t_net s'.2) !! Some (NStr "e0") = None) demo_cst.
Proof.
  eapply wp_mono; [apply (remove_correct demo_cst demo_wfc)|].
  intros u s' (_ & _ & H & _). apply (H "s0" demo_end). vm_compute. reflexivity.
Defined.
End clnt_demo.
