(* ===== verification/Effect.v ===== *)
(** * What an operation of the tester leaves alone

    Groups and clerks share one network.  [effect own own' g t t'] bounds what an
    operation of one of them does to the shared state: it changes only ends that
    its owner had or whose names it drew, only servers of the group [g], and
    loses no object.  What the others rely on then still holds. *)

From S2P Require Export ServerGroup.
#[local] Set Default Proof Using "Type".

Section effect.
Context {V Ty W : Type} `{GV : GoValues V Ty}.
Context (crand : nat → nat → list Z).
Abbreviation tester := (@tester V Ty W).

(** The [k]-th random name of a run. *)
Definition rand_name (k : nat) : string := Randstring 20 (crand k 40).

(** Every end on the network has one of the names that were drawn. *)
Definition names_used (t : tester) : Prop :=
  ∀ x, is_Some (ends (t_net t) !! Some (NStr x)) → ∃ k, k < t_rng t ∧ x = rand_name k.

(** [x] was drawn between [t] and [t']. *)
Definition new_name (t t' : tester) (x : string) : Prop :=
  ∃ k, t_rng t ≤ k < t_rng t' ∧ x = rand_name k.

Definition same_end (x : string) (t t' : tester) : Prop :=
  ends (t_net t') !! Some (NStr x) = ends (t_net t) !! Some (NStr x) ∧
  is_enabled (t_net t') (Some (NStr x)) = is_enabled (t_net t) (Some (NStr x)) ∧
  connection (t_net t') (Some (NStr x)) = connection (t_net t) (Some (NStr x)).

Record effect (own own' : string → Prop) (g : option Tgid) (t t' : tester) : Prop := {
  ef_rng : t_rng t ≤ t_rng t';
  ef_used : names_used t → names_used t';
  ef_own x : own' x → own x ∨ new_name t t' x;
  ef_ends x : ¬ own x → ¬ new_name t t' x → same_end x t t';
  ef_servers n : (∀ g0 i, g = Some g0 → n ≠ Some (NStr (ServerName g0 i))) →
    server_at (t_net t') n = server_at (t_net t) n;
  ef_labs : t_labs t ⊆ t_labs t';
  ef_pers q : is_Some (pers (t_env t).1 !! q) → is_Some (pers (t_env t').1 !! q)
}.

#[export] Instance same_end_refl x : Reflexive (same_end x).
Proof. intros t. by split_and!. Qed.
#[export] Instance same_end_trans x : Transitive (same_end x).
Proof. intros t1 t2 t3 (? & ? & ?) (? & ? & ?). split_and!; congruence. Qed.

Lemma new_name_l t1 t2 t3 x : t_rng t2 ≤ t_rng t3 → new_name t1 t2 x → new_name t1 t3 x.
Proof. intros Hr (k & ? & ->). exists k. split; [lia|done]. Qed.
Lemma new_name_r t1 t2 t3 x : t_rng t1 ≤ t_rng t2 → new_name t2 t3 x → new_name t1 t3 x.
Proof. intros Hr (k & ? & ->). exists k. split; [lia|done]. Qed.

Lemma effect_refl own g t : effect own own g t t.
Proof. split; auto; done. Qed.

Lemma effect_trans o1 o2 o3 g t1 t2 t3 :
  effect o1 o2 g t1 t2 → effect o2 o3 g t2 t3 → effect o1 o3 g t1 t3.
Proof.
  intros H1 H2. pose proof (ef_rng _ _ _ _ _ H1) as Hr1. pose proof (ef_rng _ _ _ _ _ H2) as Hr2.
  split; [lia|intros Hu; by apply H2, H1|..].
  - intros x [[Ho|Hn]%(ef_own _ _ _ _ _ H1)|Hn]%(ef_own _ _ _ _ _ H2); [by left|..]; right;
      [by apply (new_name_l _ t2)|by apply (new_name_r _ t2)].
  - intros x Ho Hn.
    assert (¬ new_name t1 t2 x) as Hn1 by (intros H; by eapply Hn, new_name_l).
    etrans; [by apply (ef_ends _ _ _ _ _ H1)|]. apply (ef_ends _ _ _ _ _ H2).
    + by intros [?|?]%(ef_own _ _ _ _ _ H1).
    + intros H. by eapply Hn, new_name_r.
  - intros n Hn. rewrite (ef_servers _ _ _ _ _ H2) by done. by apply H1.
  - etrans; [apply H1|apply H2].
  - intros q Hq. by apply H2, H1.
Qed.

Lemma effect_weaken o1 o2 o1' o2' g g' t t' :
  (∀ x, o1 x → o1' x) → (∀ x, o2' x → o2 x) → g = None ∨ g = g' →
  effect o1 o2 g t t' → effect o1' o2' g' t t'.
Proof.
  intros H1 H2 Hg H. split; try apply H.
  - intros x [Ho|Hn]%H2%(ef_own _ _ _ _ _ H); auto.
  - intros x Ho. apply (ef_ends _ _ _ _ _ H). auto.
  - intros n Hn. apply (ef_servers _ _ _ _ _ H). intros g0 i Hg0. apply Hn.
    destruct Hg; congruence.
Qed.

(** An operation does not touch what its owner has besides. *)
Lemma effect_union o1 o2 (o : string → Prop) g t t' :
  effect o1 o2 g t t' → effect (λ x, o x ∨ o1 x) (λ x, o x ∨ o2 x) g t t'.
Proof.
  intros H. split; try apply H.
  - intros x [?|[?|?]%(ef_own _ _ _ _ _ H)]; auto.
  - intros x Ho. apply (ef_ends _ _ _ _ _ H). auto.
Qed.

(** An end that was there before and belongs to somebody else. *)
Lemma effect_other own own' g t t' limit x :
  (∀ k k', k < limit → k' < limit → rand_name k = rand_name k' → k = k') →
  effect own own' g t t' → names_used t → t_rng t' ≤ limit → ¬ own x →
  is_Some (ends (t_net t) !! Some (NStr x)) → same_end x t t'.
Proof.
  intros Hinj H Hu Hl Ho Hx. apply (ef_ends _ _ _ _ _ H); [done|].
  intros (k & Hk & ->). destruct (Hu _ Hx) as (k' & Hk' & He). apply Hinj in He; lia.
Qed.

(** The ends of a group. *)
Definition owns {I : Type} (sg : @ServerGrp I) (x : string) : Prop := ∃ a b, en sg a b = Some x.

Lemma frame_effect {I : Type} (s s' : @ServerGrp I * tester) :
  frame s s' → effect (owns s.1) (owns s'.1) None s.2 s'.2.
Proof.
  intros Hf. split.
  - by rewrite (fr_rng _ _ Hf).
  - intros Hu x. rewrite (fr_ends _ _ Hf), (fr_rng _ _ Hf). apply Hu.
  - intros x (a & b & Hx). left. exists a, b. by rewrite <-(en_frame s s').
  - intros x Hx _. unfold same_end, connection. rewrite (fr_ends _ _ Hf), (fr_conns _ _ Hf).
    split_and!; [done| |done]. apply (fr_other _ _ Hf). intros a b y Hy [= ->]. apply Hx.
    by exists a, b.
  - intros n _. unfold server_at. by rewrite (fr_servers _ _ Hf).
  - by rewrite (fr_labs _ _ Hf).
  - intros q. by rewrite (fr_env _ _ Hf).
Qed.

(** Making the ends of a server. *)
Lemma made_effect g n t t' :
  made g (drawn crand t n) t t' → effect (λ _, False) (λ x, x ∈ drawn crand t n) None t t'.
Proof.
  intros Hm. assert (length (drawn crand t n) = n) as Hlen
    by (unfold drawn; by rewrite length_map, length_seq).
  pose proof (md_rng _ _ _ _ Hm) as Hr. rewrite Hlen in Hr.
  assert (∀ x, x ∈ drawn crand t n → new_name t t' x) as Hnew.
  { intros x (k & -> & Hk)%list_elem_of_fmap. apply elem_of_seq in Hk. exists k.
    split; [lia|done]. }
  assert (∀ x, ¬ new_name t t' x → same_end x t t') as Hold.
  { intros x Hx. apply (md_old _ _ _ _ Hm). intros y Hy [= ->]. by apply Hx, Hnew. }
  split; [lia| |by right; apply Hnew|by intros x _; apply Hold| | |].
  - intros Hu x Hx. destruct (decide (x ∈ drawn crand t n)) as [Hin|Hnin].
    + destruct (Hnew x Hin) as (k & Hk & ->). exists k. split; [lia|done].
    + rewrite (proj1 (md_old _ _ _ _ Hm (Some (NStr x)) ltac:(naive_solver))) in Hx.
      destruct (Hu x Hx) as (k & Hk & ->). exists k. split; [lia|done].
  - intros m _. unfold server_at. by rewrite (md_servers _ _ _ _ Hm).
  - by rewrite (md_labs _ _ _ _ Hm).
  - intros q. by rewrite (md_env _ _ _ _ Hm).
Qed.
End effect.
