(* ===== verification/GroupLife.v ===== *)
(** * The life of a group of servers: [tester1/group.go], [tester1/config.go]

    What holds of a group whatever a test does with it.  [group_ok] is the
    invariant of a group on the shared network; every operation keeps it and
    succeeds, so that the hypotheses of the single operations in [ServerGroup] are
    met along every script of a test.  It holds of a group that
    [Config.MakeGroupStart] has started, which moreover is fully connected. *)

From S2P Require Export Effect Clnts.
#[local] Set Default Proof Using "Type".

Lemma ServerName_ne gid i j :
  i ≠ j → Some (NStr (ServerName gid i)) ≠ Some (NStr (ServerName gid j)).
Proof.
  intros Hne He. assert (ServerName gid i = ServerName gid j) as H by congruence.
  by apply ServerName_inj in H as [_ ?].
Qed.

Lemma elem_of_insert_inv {A} (l : list A) i x y : y ∈ <[i := x]> l → y = x ∨ y ∈ l.
Proof.
  intros [k Hk]%list_elem_of_lookup. apply list_lookup_insert_Some in Hk as [(_ & <- & _)|[_ Hk]];
    [by left|right]. by eapply list_elem_of_lookup_2.
Qed.

Section life.
Context {V Ty W IService : Type} `{GV : GoValues V Ty}.
Context (svc_tname : IService → string) (svc_refl : IService → list (@Method V Ty W))
  (Kill : IService → store * W → store * W) (crand : nat → nat → list Z)
  (mks : list ClientEnd → Tgid → nat → nat → store * W → list (option IService) * (store * W)).
Abbreviation tester := (@tester V Ty W).
Abbreviation gst := (@ServerGrp IService * tester)%type.
Abbreviation G := (M gst).

Abbreviation rand_name := (rand_name crand).
Abbreviation names_used := (names_used crand).
Abbreviation effect := (effect crand).

(** What the tester relies on: the random names of a run are distinct, up to the
    [limit] of names that it draws; the constructor returns no nil service; a
    persister that was passed on does not disappear. *)
Class Labs (limit : nat) : Prop := {
  lab_names k k' : k < limit → k' < limit → rand_name k = rand_name k' → k = k';
  lab_svcs es g i p e : all_services (mks es g i p e).1;
  lab_keeps es g i p e q : is_Some (pers e.1 !! q) → is_Some (pers (mks es g i p e).2.1 !! q);
  lab_kill svc e q : is_Some (pers e.1 !! q) → is_Some (pers (Kill svc e).1 !! q)
}.

(** Server [i] is served under its name by exactly its services. *)
Definition served (s : gst) (i : nat) : Prop := ∃ srv ptr labsrv,
  srvs s.1 !! i = Some srv ∧ register svc_tname svc_refl (svcs srv) = Ret labsrv ∧
  server_at (t_net s.2) (Some (NStr (ServerName (gid s.1) i))) = Some ptr ∧
  t_labs s.2 !! ptr = Some labsrv.

Record group_ok (s : gst) : Prop := {
  ok_wf : wf s.1;
  ok_wired : wired s;
  ok_used : names_used s.2;
  ok_ends srv : srv ∈ srvs s.1 →
    clntEnds srv = (λ x, mkClientEnd (Some (NStr x))) <$> endNames srv;
  (* an enabled end leads from a connected server to a connected one *)
  ok_on a b : is_on s a b = true → conn s.1 a = true ∧ conn s.1 b = true;
  ok_saved srv p : srv ∈ srvs s.1 → saved srv = Some p → is_Some (pers (t_env s.2).1 !! p);
  ok_served i srv : srvs s.1 !! i = Some srv → svcs srv ≠ [] → served s i
}.

(** What an operation that draws [n] names makes of a group, and what it does to
    everything else on the network. *)
Definition kept (n : nat) (s s' : gst) : Prop :=
  group_ok s' ∧ gid s'.1 = gid s.1 ∧ N s'.1 = N s.1 ∧ t_rng s'.2 = t_rng s.2 + n ∧
  effect (owns s.1) (owns s'.1) (Some (gid s.1)) s.2 s'.2.

Lemma kept_refl s : group_ok s → kept 0 s s.
Proof. intros Hok. unfold kept. split_and!; [done|done|done|by rewrite Nat.add_0_r|apply effect_refl]. Qed.
Lemma kept_trans n m s1 s2 s3 : kept n s1 s2 → kept m s2 s3 → kept (n + m) s1 s3.
Proof.
  intros (_ & Hg & ? & ? & H1) (? & ? & ? & ? & H2). rewrite Hg in H2. unfold kept.
  split_and!; [done|congruence..|lia|]. by eapply effect_trans.
Qed.

(** A loop of operations that keep the group. *)
Lemma mfor_kept {A} (f : A → G unit) (cost : A → nat) l (B : nat) s :
  group_ok s → t_rng s.2 + sum_list_with cost l ≤ B →
  (∀ x s', x ∈ l → group_ok s' → gid s'.1 = gid s.1 → N s'.1 = N s.1 →
     t_rng s'.2 + cost x ≤ B → wp (f x) (λ _, kept (cost x) s') s') →
  wp (mfor l f) (λ _, kept (sum_list_with cost l) s) s.
Proof.
  intros Hok HB Hf.
  eapply wp_mono; [apply (wp_mfor (λ pre, kept (sum_list_with cost pre) s))|].
  - by apply kept_refl.
  - intros pre x post s' -> Hk. rewrite sum_list_with_app in HB. simpl in HB.
    destruct Hk as (Hok' & Hg & HN & Hr & He) eqn:E. clear E.
    eapply wp_mono; [apply Hf; [set_solver|done..|lia]|].
    intros [] s'' Hk'. rewrite sum_list_with_app. simpl. rewrite Nat.add_0_r.
    by eapply kept_trans.
  - done.
Qed.

(** The same with a constant cost [c]. *)
Lemma mfor_kept_const {A} (f : A → G unit) c l (B : nat) s :
  group_ok s → t_rng s.2 + length l * c ≤ B →
  (∀ x s', x ∈ l → group_ok s' → gid s'.1 = gid s.1 → N s'.1 = N s.1 →
     t_rng s'.2 + c ≤ B → wp (f x) (λ _, kept c s') s') →
  wp (mfor l f) (λ _, kept (length l * c) s) s.
Proof.
  assert (length l * c = sum_list_with (λ _, c) l) as -> by (induction l; simpl; lia).
  apply mfor_kept.
Qed.
Lemma mfor_kept_0 {A} (f : A → G unit) l s :
  group_ok s →
  (∀ x s', x ∈ l → group_ok s' → N s'.1 = N s.1 → wp (f x) (λ _, kept 0 s') s') →
  wp (mfor l f) (λ _, kept 0 s) s.
Proof.
  intros Hok Hf. eapply wp_mono; [apply (mfor_kept_const f 0 l (t_rng s.2)); [done|lia|auto]|].
  intros []. by rewrite Nat.mul_0_r.
Qed.

(** ** Connections *)

Lemma served_frame s s' i : frame s s' → served s i → served s' i.
Proof.
  intros Hf (srv & ptr & labsrv & H). exists srv, ptr, labsrv. unfold server_at.
  by rewrite (fr_srvs _ _ Hf), (fr_labs _ _ Hf), (fr_servers _ _ Hf), (fr_gid _ _ Hf).
Qed.

Lemma kept_frame s s' :
  group_ok s → frame s s' → wf s'.1 →
  (∀ a b, is_on s' a b = true → conn s'.1 a = true ∧ conn s'.1 b = true) → kept 0 s s'.
Proof.
  intros [H1 H2 H3 He H4 H5 H6] Hf Hwf Hon.
  split; [|split_and!; [by rewrite (fr_gid _ _ Hf)|by apply frame_N|rewrite (fr_rng _ _ Hf); lia|]].
  2:{ eapply effect_weaken; [..|by apply frame_effect]; auto. }
  split; [done| | | |done|..].
  - intros a b x. rewrite (en_frame s s') by done. unfold connection.
    rewrite (fr_ends _ _ Hf), (fr_conns _ _ Hf), (fr_gid _ _ Hf). apply H2.
  - intros x. rewrite (fr_ends _ _ Hf), (fr_rng _ _ Hf). apply H3.
  - rewrite (fr_srvs _ _ Hf). apply He.
  - rewrite (fr_srvs _ _ Hf), (fr_env _ _ Hf). apply H5.
  - intros i srv. rewrite (fr_srvs _ _ Hf). intros Hi Hne. by eapply served_frame, H6.
Qed.

Lemma relinked_false_on i js (s0 s : gst) a b :
  relinked false i js s0 s → is_on s a b = true → is_on s0 a b = true.
Proof. intros (_ & _ & Hon). rewrite Hon. by destruct (_ || _). Qed.

Lemma relinked_true_on i js (s0 s : gst) a b :
  relinked true i js s0 s → conn s.1 i = true → is_on s a b = true →
  is_on s0 a b = true ∨ (conn s.1 a = true ∧ conn s.1 b = true).
Proof.
  intros (_ & _ & Hon) Hi. rewrite Hon. simpl. destruct (_ || _) eqn:Hb; [|by left].
  intros _. right. apply orb_true_iff in Hb.
  destruct Hb as [[[-> _]%bool_decide_eq_true Hc]%andb_true_iff|
                  [[-> _]%bool_decide_eq_true Hc]%andb_true_iff]; by rewrite Hc.
Qed.

(** Connecting after a state in which at most server [i] lost its flag. *)
Lemma connect_kept i js s0 s :
  group_ok s0 → frame s0 s → wf s.1 → i < N s.1 → (∀ j, j ∈ js → j < N s.1) →
  (∀ a b, is_on s a b = true → is_on s0 a b = true) →
  (∀ j, j ≠ i → conn s.1 j = conn s0.1 j) →
  wp (connect i js) (λ _, kept 0 s0) s.
Proof.
  intros Hok Hf Hwf Hi Hjs Hon Hc.
  eapply wp_mono; [by apply connect_spec|]. intros [] s1 H1.
  assert (∀ j, conn s1.1 j = if decide (j = i) then true else conn s0.1 j) as Hc1.
  { intros j. rewrite (relinked_conn _ _ _ _ _ H1) by done. by case_decide; [|apply Hc]. }
  apply kept_frame; [done|etrans; [done|apply H1]|by eapply relinked_wf|].
  intros a b Hab. apply (relinked_true_on _ _ _ _ _ _ H1) in Hab;
    [|by rewrite Hc1, decide_True].
  destruct Hab as [Hab|]; [|done].
  destruct (ok_on _ Hok a b (Hon _ _ Hab)) as [Ha Hb]. rewrite !Hc1.
  split; by case_decide.
Qed.

Lemma all_lt (s : gst) j : j ∈ all s.1 → j < N s.1.
Proof. intros Hj. unfold all in Hj. apply elem_of_seq in Hj. unfold N. lia. Qed.

Lemma ConnectOne_kept i s : group_ok s → i < N s.1 → wp (ConnectOne i) (λ _, kept 0 s) s.
Proof.
  intros Hok Hi. unfold ConnectOne. apply wp_bind, wp_gets.
  apply connect_kept; try done; [apply Hok|]. intros j. by apply all_lt.
Qed.

Lemma DisconnectAll_kept i s :
  group_ok s → i < N s.1 → wp (ServerGroup.DisconnectAll i) (λ _, kept 0 s) s.
Proof.
  intros Hok Hi. unfold ServerGroup.DisconnectAll. apply wp_bind, wp_gets.
  eapply wp_mono; [apply disconnect_spec; [apply Hok|done|apply all_lt]|].
  intros [] s1 H1. pose proof (ok_wf _ Hok) as Hwf. pose proof (proj1 (proj2 H1)) as Hf.
  apply kept_frame; [done|done|by eapply relinked_wf|].
  intros a b Hab. pose proof (relinked_false_on _ _ _ _ _ _ H1 Hab) as Hab0.
  destruct (ok_on _ Hok a b Hab0) as [Ha Hb].
  assert (a < N s.1 ∧ b < N s.1) as [HaN HbN].
  { unfold is_on in Hab0. split; apply Nat.nle_gt; intros Hle;
      rewrite (en_outside _ a b) in Hab0; auto; done. }
  assert (∀ j, j < N s.1 → j ∈ all s.1) as Hall by (intros j Hj; apply elem_of_seq; unfold N in Hj; lia).
  rewrite !(relinked_conn _ _ _ _ _ H1) by done.
  destruct (decide (a = i)) as [->|_].
  { rewrite (relinked_row _ _ _ _ _ H1) in Hab by auto. done. }
  destruct (decide (b = i)) as [->|_]; [|done].
  rewrite (relinked_col _ _ _ _ _ H1) in Hab by auto. done.
Qed.

Lemma side_kept p q s :
  group_ok s → (∀ j, j ∈ p ++ q → j < N s.1) →
  wp (mfor p (λ i, _ ← disconnect i q; connect i p)) (λ _, kept 0 s) s.
Proof.
  intros Hok Hlt. apply mfor_kept_0; [done|]. intros i s' Hi Hok' HN. apply wp_bind.
  eapply wp_mono; [apply disconnect_spec; [apply Hok'|rewrite HN; apply Hlt; set_solver|]|].
  { intros j Hj. rewrite HN. apply Hlt. set_solver. }
  intros [] s1 H1. pose proof (ok_wf _ Hok') as Hwf'. pose proof (proj1 (proj2 H1)) as Hf.
  assert (i < N s'.1) as HiN by (rewrite HN; apply Hlt; set_solver).
  apply connect_kept; [done|done|by eapply relinked_wf|by rewrite (frame_N _ _ Hf)|..].
  - intros j Hj. rewrite (frame_N _ _ Hf), HN. apply Hlt. set_solver.
  - intros a b. apply (relinked_false_on _ _ _ _ _ _ H1).
  - intros j Hj. by rewrite (relinked_conn _ _ _ _ _ H1), decide_False.
Qed.

Lemma Partition_kept p q s :
  group_ok s → (∀ j, j ∈ p ++ q → j < N s.1) → wp (ServerGroup.Partition p q) (λ _, kept 0 s) s.
Proof.
  intros Hok Hlt. apply wp_bind. eapply wp_mono; [by apply side_kept|].
  intros [] s1 Hk. eapply wp_mono.
  - apply side_kept; [apply Hk|]. intros j Hj.
    rewrite (proj1 (proj2 (proj2 Hk))). apply Hlt. set_solver.
  - intros [] s2. by apply (kept_trans 0 0).
Qed.

(** Every two servers are connected. *)
Definition full (s : gst) : Prop := ∀ a b, a < N s.1 → b < N s.1 → is_on s a b = true.

Lemma ConnectAll_full s :
  group_ok s → wp ServerGroup.ConnectAll (λ _ s', kept 0 s s' ∧ frame s s' ∧ full s') s.
Proof.
  intros Hok. unfold ServerGroup.ConnectAll. apply wp_bind, wp_gets.
  eapply wp_mono; [apply (wp_mfor (λ pre s', kept 0 s s' ∧ frame s s' ∧
    ∀ a b, a ∈ pre → b ∈ pre → is_on s' a b = true))|].
  - split; [by apply kept_refl|]. split; [done|]. intros a b Ha. by apply elem_of_nil in Ha.
  - intros pre i post s' Hall (Hk & Hf & Hon).
    assert (∀ j, j ∈ pre ++ [i] → j < N s'.1) as Hlt.
    { intros j Hj. rewrite (frame_N _ _ Hf). apply all_lt. unfold id in Hall. rewrite Hall.
      set_solver. }
    assert (i < N s'.1) as Hi by (apply Hlt; set_solver).
    pose proof (ok_wf _ (proj1 Hk)) as Hwf. unfold wp.
    pose proof (ConnectOne_kept i s' (proj1 Hk) Hi) as Hk'. unfold ConnectOne in Hk'.
    assert (wp (ConnectOne i) (λ _, relinked true i (all s'.1) s') s') as H1.
    { unfold ConnectOne. apply wp_bind, wp_gets. apply connect_spec; [done..|]. apply all_lt. }
    unfold ConnectOne in *. unfold wp in Hk', H1. destruct (_ ≫= _) as [[[] s1]|?|?|]; try done.
    split; [by apply (kept_trans 0 0 _ s')|]. split; [etrans; [done|apply H1]|].
    assert (∀ j, j ∈ pre ++ [i] → j ∈ all s'.1) as Hin.
    { intros j Hj%Hlt. apply elem_of_seq. unfold N in Hj. lia. }
    assert (∀ j, j ∈ pre ++ [i] → conn s1.1 j = true) as Hc.
    { intros j Hj. rewrite (relinked_conn _ _ _ _ _ H1) by done. case_decide; [done|].
      assert (j ∈ pre) as Hp by set_solver.
      by apply (ok_on _ (proj1 Hk) j j), Hon. }
    intros a b Ha Hb. destruct (decide (a = i)) as [->|].
    { apply (relinked_row _ _ _ _ _ H1); auto. }
    destruct (decide (b = i)) as [->|].
    { apply (relinked_col _ _ _ _ _ H1); auto. }
    rewrite (relinked_other _ _ _ _ _ H1) by naive_solver. apply Hon; set_solver.
  - intros [] s' (Hk & Hf & Hon). split_and!; [done|done|]. intros a b Ha Hb.
    rewrite (frame_N _ _ Hf) in Ha, Hb. unfold N in Ha, Hb.
    apply Hon; apply elem_of_seq; unfold id; lia.
Qed.

(** ** Starting and stopping *)

Section labs.
Context (limit : nat) `{LB : !Labs limit}.

Lemma fresh_supply (t : tester) n : names_used t → t_rng t + n ≤ limit → fresh_names crand t n.
Proof using LB.
  intros Hu Hl. split.
  - apply NoDup_fmap_2_strong; [|apply NoDup_seq]. intros k k' Hk Hk'.
    apply elem_of_seq in Hk, Hk'. apply lab_names; lia.
  - intros x (k & -> & Hk)%list_elem_of_fmap. apply elem_of_seq in Hk.
    destruct (ends (t_net t) !! _) eqn:He; [|done]. exfalso.
    destruct (Hu (rand_name k)) as (k' & Hk' & Hn); [by eexists|].
    apply lab_names in Hn; lia.
Qed.

Lemma drawn_used (t : tester) n x : x ∈ drawn crand t n → ∃ k, k < t_rng t + n ∧ x = rand_name k.
Proof. intros (k & -> & Hk)%list_elem_of_fmap. apply elem_of_seq in Hk. exists k. split; [lia|done]. Qed.

Lemma last_saved_ok s i srv :
  group_ok s → srvs s.1 !! i = Some srv → ∃ ps, last_saved srv (t_env s.2) = Some ps.
Proof.
  intros Hok Hi. unfold last_saved. destruct (saved srv) as [p|] eqn:Hp; [|eauto].
  destruct (ok_saved _ Hok srv p) as [ps ->]; [by eapply list_elem_of_lookup_2|done|].
  by eexists.
Qed.

Lemma add_pers_keeps p ps (e : store * W) q :
  is_Some (pers e.1 !! q) → is_Some (pers (add_pers p ps e).1 !! q).
Proof. intros H. simpl. rewrite lookup_insert_is_Some. destruct (decide (p = q)); auto. Qed.

Lemma kill_all_keeps ss (e : store * W) q :
  is_Some (pers e.1 !! q) → is_Some (pers (kill_all Kill ss e).1 !! q).
Proof using LB.
  revert e. induction ss as [|svc ss IH]; intros e H; [done|]. simpl. apply IH.
  destruct svc as [svc|]; [by eapply lab_kill|done].
Qed.

Lemma served_started i old ps s s' :
  started svc_tname svc_refl crand mks i old ps s s' → i < N s.1 →
  served s' i ∧ ∀ j, j ≠ i → served s j → served s' j.
Proof.
  intros Hst Hi. destruct (st_run _ _ _ _ _ _ _ _ _ Hst) as
    (q & xs & rs & ptr & labsrv & _ & _ & Hsrvs & Hreg & _ & Hptr & Hat).
  pose proof (st_gid _ _ _ _ _ _ _ _ _ Hst) as Hgid. split.
  - eexists _, ptr, labsrv. rewrite Hsrvs, Hgid. split_and!; [by apply list_lookup_insert_eq|done..].
  - intros j Hj (srv & ptr' & labsrv' & H1 & H2 & H3 & H4). exists srv, ptr', labsrv'.
    rewrite Hsrvs, Hgid, list_lookup_insert_ne by done. split_and!; [done|done| |].
    + rewrite (st_others _ _ _ _ _ _ _ _ _ Hst); [done|by apply ServerName_ne].
    + eapply lookup_weaken; [exact H4|apply Hst].
Qed.

Lemma start_effect i old ps s s' :
  started svc_tname svc_refl crand mks i old ps s s' → srvs s.1 !! i = Some old →
  (names_used s.2 → names_used s'.2) →
  (∀ p, is_Some (pers (t_env s.2).1 !! p) → is_Some (pers (t_env s'.2).1 !! p)) →
  effect (owns s.1) (owns s'.1) (Some (gid s.1)) s.2 s'.2.
Proof.
  intros Hst Hold Hused Hkeep. pose proof (st_rng _ _ _ _ _ _ _ _ _ Hst) as Hrng.
  assert (∀ x, x ∈ drawn crand s.2 (N s.1) → new_name crand s.2 s'.2 x) as Hnew.
  { intros x (k & -> & Hk)%list_elem_of_fmap. apply elem_of_seq in Hk. exists k.
    split; [lia|done]. }
  split; [lia|done| | | |apply Hst|done].
  - intros x (a & b & (srv & Ha & Hb)%en_srv).
    destruct (st_run _ _ _ _ _ _ _ _ _ Hst) as (q & xs & rs & _ & _ & _ & _ & Hsrvs & _).
    destruct (decide (a = i)) as [->|Hai].
    + right. apply Hnew, (st_new _ _ _ _ _ _ _ _ _ Hst). rewrite Ha. by eapply list_elem_of_lookup_2.
    + left. exists a, b. unfold en. rewrite Hsrvs, list_lookup_insert_ne in Ha by done.
      by rewrite Ha.
  - intros x _ Hx. apply (st_ends _ _ _ _ _ _ _ _ _ Hst). intros y Hy [= ->]. by apply Hx, Hnew.
  - intros n Hn. apply (st_others _ _ _ _ _ _ _ _ _ Hst). by eapply Hn.
Qed.

Lemma StartServer_kept i s :
  group_ok s → i < N s.1 → t_rng s.2 + N s.1 ≤ limit →
  wp (StartServer svc_tname svc_refl crand mks i) (λ _ s', kept (N s.1) s s' ∧
    served s' i ∧ ∀ j, j ≠ i → served s j → served s' j) s.
Proof using LB.
  intros Hok Hi Hlim. destruct (lookup_lt_is_Some_2 _ _ Hi) as [old Hold].
  destruct (last_saved_ok _ _ _ Hok Hold) as [ps Hps].
  eapply wp_mono.
  { apply (StartServer_starts svc_tname svc_refl crand mks i old ps s); try done.
    - apply Hok.
    - apply Hok.
    - apply fresh_supply; [apply Hok|done].
    - intros. apply lab_svcs. }
  intros [] s' Hst.
  destruct (st_run _ _ _ _ _ _ _ _ _ Hst) as (q & xs & rs & ptr & labsrv & _ & Hrs & Hsrvs &
    _ & _ & _ & _).
  destruct (served_started _ _ _ _ _ Hst Hi) as [Hsi Hsj].
  pose proof (st_conn _ _ _ _ _ _ _ _ _ Hst) as Hconn.
  pose proof (st_rng _ _ _ _ _ _ _ _ _ Hst) as Hrng.
  assert (N s'.1 = N s.1) as HN by (unfold N; by rewrite Hsrvs, length_insert).
  assert (∀ p, is_Some (pers (add_pers q ps (t_env s.2)).1 !! p) →
    is_Some (pers (t_env s'.2).1 !! p)) as Hkeep.
  { intros p Hp. apply (lab_keeps ((λ x, mkClientEnd (Some (NStr x))) <$> xs) (gid s.1) i q) in Hp.
    by rewrite <-Hrs in Hp. }
  assert (names_used s.2 → names_used s'.2) as Hused.
  { intros Hu x Hx. rewrite Hrng.
    destruct (decide (x ∈ drawn crand s.2 (N s.1))) as [Hin|Hnin]; [by apply drawn_used|].
    rewrite (proj1 (st_ends _ _ _ _ _ _ _ _ _ Hst (Some (NStr x)) ltac:(naive_solver))) in Hx.
    destruct (Hu x Hx) as (k & Hk & ->). exists k. split; [lia|done]. }
  split; [|done]. split; [|split_and!; [apply Hst|done|done|]].
  2:{ eapply start_effect; [exact Hst|exact Hold|exact Hused|].
      intros p Hp. by apply Hkeep, add_pers_keeps. }
  split; [apply Hst|apply Hst|..].
  - by apply Hused, Hok.
  - intros srv. rewrite Hsrvs. intros [->|Hin]%elem_of_insert_inv; [done|by apply (ok_ends _ Hok)].
  - intros a b Hab. unfold conn. rewrite Hconn. destruct (decide (a = i)) as [->|Ha].
    + by rewrite (st_out _ _ _ _ _ _ _ _ _ Hst) in Hab.
    + rewrite (st_rest _ _ _ _ _ _ _ _ _ Hst) in Hab by done. by apply (ok_on _ Hok).
  - intros srv p Hin Hp. apply Hkeep. rewrite Hsrvs in Hin.
    apply elem_of_insert_inv in Hin as [->|Hin].
    + simpl in Hp. injection Hp as <-. simpl. rewrite lookup_insert_eq. by eexists.
    + by apply add_pers_keeps, (ok_saved _ Hok srv p).
  - intros k srv Hk Hne. rewrite Hsrvs in Hk. apply list_lookup_insert_Some in Hk as [(<- & <- & _)|[Hki Hk]].
    + done.
    + apply Hsj; [done|]. by apply (ok_served _ Hok k srv).
Qed.

Lemma isolated_effect i old srv e (s s' : gst) :
  isolated i srv e s s' → srvs s.1 !! i = Some old → endNames srv = endNames old →
  (∀ p, is_Some (pers (t_env s.2).1 !! p) → is_Some (pers (t_env s'.2).1 !! p)) →
  effect (owns s.1) (owns s'.1) (Some (gid s.1)) s.2 s'.2.
Proof.
  intros H Hold Hends Hkeep. split; try done.
  - by rewrite (is_rng _ _ _ _ _ H).
  - intros Hu x. rewrite (is_ends _ _ _ _ _ H), (is_rng _ _ _ _ _ H). apply Hu.
  - intros x (a & b & Hx). left. exists a, b. unfold en in *. rewrite (is_srvs _ _ _ _ _ H) in Hx.
    destruct (decide (a = i)) as [->|Ha]; [|by rewrite list_lookup_insert_ne in Hx].
    rewrite list_lookup_insert_eq in Hx by by eapply lookup_lt_Some. rewrite Hold. simpl in *.
    by rewrite <-Hends.
  - intros x Hx _. unfold same_end, connection.
    rewrite (is_ends _ _ _ _ _ H), (is_conns _ _ _ _ _ H). split_and!; [done| |done].
    apply (is_enabled_other _ _ _ _ _ H). intros a b y Hy [= ->]. apply Hx. by exists a, b.
  - intros n Hn. apply (is_others _ _ _ _ _ H). by eapply Hn.
  - by rewrite (is_labs _ _ _ _ _ H).
Qed.

(** [shutdownServer] on a server of the group: no persister is lost, and the one it
    leaves exists. *)
Lemma shutdownServer_run i old s :
  group_ok s → srvs s.1 !! i = Some old →
  ∃ p e, (∀ q, is_Some (pers (t_env s.2).1 !! q) → is_Some (pers e.1 !! q)) ∧
    (∀ q, p = Some q → is_Some (pers e.1 !! q)) ∧
    ∀ n, shutdownServer Kill old (mkTester n (t_labs s.2) (t_env s.2) (t_rng s.2)) =
      Ret (mkSrv p [] (endNames old) (clntEnds old), mkTester n (t_labs s.2) e (t_rng s.2)).
Proof using LB.
  intros Hok Hold. destruct (last_saved_ok _ _ _ Hok Hold) as [ps Hps].
  unfold shutdownServer, last_saved in *. destruct (saved old) as [p|].
  - apply fmap_Some in Hps as (ps0 & Hp & ->).
    set (q := fresh (dom (pers (t_env s.2).1))).
    exists (Some q), (kill_all Kill (svcs old) (add_pers q (Persister.Copy ps0) (t_env s.2))).
    split_and!.
    + intros q' Hq'. by apply kill_all_keeps, add_pers_keeps.
    + intros q' [= <-]. apply kill_all_keeps. simpl. rewrite lookup_insert_eq. by eexists.
    + intros n. unfold mbind, M_bind. rewrite (copy_persister_run p ps0) by done. simpl.
      by rewrite kill_loop.
  - exists None, (kill_all Kill (svcs old) (t_env s.2)). split_and!; [|done|].
    + intros q Hq. by apply kill_all_keeps.
    + intros n. unfold mbind, M_bind. simpl. by rewrite kill_loop.
Qed.

Lemma ShutdownServer_kept i s :
  group_ok s → i < N s.1 → wp (ShutdownServer Kill i) (λ _, kept 0 s) s.
Proof using LB.
  intros Hok Hi. destruct (lookup_lt_is_Some_2 _ _ Hi) as [old Hold].
  destruct (shutdownServer_run i old s Hok Hold) as (p & e & Hkeep & Hnew & Hrun).
  eapply wp_mono.
  { apply (ShutdownServer_isolates Kill i old (mkSrv p [] (endNames old) (clntEnds old)) e s);
      try done; apply Hok. }
  intros [] s' His. pose proof (is_srvs _ _ _ _ _ His) as Hsrvs.
  pose proof (is_gid _ _ _ _ _ His) as Hgid.
  assert (N s'.1 = N s.1) as HN by (unfold N; by rewrite Hsrvs, length_insert).
  split; [|split_and!; [done|done|by rewrite (is_rng _ _ _ _ _ His), Nat.add_0_r|]].
  2:{ eapply isolated_effect; [exact His|exact Hold|done|].
      intros q Hq. rewrite (is_env _ _ _ _ _ His). by apply Hkeep. }
  split; [apply His|apply His|..].
  - intros x. rewrite (is_ends _ _ _ _ _ His), (is_rng _ _ _ _ _ His). apply Hok.
  - intros srv. rewrite Hsrvs. intros [->|Hin]%elem_of_insert_inv; [|by apply (ok_ends _ Hok)].
    apply (ok_ends _ Hok old). by eapply list_elem_of_lookup_2.
  - intros a b Hab. unfold conn. rewrite (is_conn _ _ _ _ _ His).
    destruct (decide (a = i)) as [->|Ha]; [by rewrite (proj1 (is_cut _ _ _ _ _ His b)) in Hab|].
    destruct (decide (b = i)) as [->|Hb]; [by rewrite (proj2 (is_cut _ _ _ _ _ His a)) in Hab|].
    rewrite !list_lookup_insert_ne by done.
    rewrite (is_rest _ _ _ _ _ His) in Hab by done. by apply (ok_on _ Hok).
  - intros srv q Hin Hq. rewrite (is_env _ _ _ _ _ His). rewrite Hsrvs in Hin.
    apply elem_of_insert_inv in Hin as [->|Hin]; [by apply Hnew|].
    by apply Hkeep, (ok_saved _ Hok srv q).
  - intros k srv Hk Hne. pose proof Hk as Hk'. rewrite Hsrvs in Hk.
    apply list_lookup_insert_Some in Hk as [(_ & <- & _)|[Hki Hk]]; [done|].
    destruct (ok_served _ Hok k srv Hk Hne) as (srv' & ptr & labsrv & H1 & H2 & H3 & H4).
    exists srv', ptr, labsrv. rewrite Hgid, (is_labs _ _ _ _ _ His), (is_others _ _ _ _ _ His)
      by (by apply ServerName_ne). split_and!; [congruence|done..].
Qed.

(** ** Making a group *)

Definition names_from (r n : nat) : list string := rand_name <$> seq r n.

Lemma names_from_lookup r n j x :
  names_from r n !! j = Some x → j < n ∧ x = rand_name (r + j).
Proof. intros (k & -> & [-> ?]%lookup_seq)%list_lookup_fmap_Some. done. Qed.

(** Servers made one after the other, from state [t] to [t']. *)
Record servers_made (g : Tgid) (n : nat) (ys : list (@Server IService)) (t t' : tester) : Prop := {
  mk_rng : t_rng t' = t_rng t + length ys * n;
  mk_effect : effect (λ _, False) (λ x, ∃ srv, srv ∈ ys ∧ x ∈ endNames srv) None t t';
  mk_used : names_used t';
  mk_srv a srv : ys !! a = Some srv →
    saved srv = None ∧ svcs srv = [] ∧ endNames srv = names_from (t_rng t + a * n) n ∧
    clntEnds srv = (λ x, mkClientEnd (Some (NStr x))) <$> endNames srv;
  mk_ends a srv j x : ys !! a = Some srv → endNames srv !! j = Some x →
    is_Some (ends (t_net t') !! Some (NStr x)) ∧
    is_enabled (t_net t') (Some (NStr x)) = false ∧
    connection (t_net t') (Some (NStr x)) = Some (NStr (ServerName g j))
}.

Lemma servers_made_snoc g n ys t t1 :
  servers_made g n ys t t1 → t_rng t1 + n ≤ limit →
  wp (makeServer crand g n) (λ srv t', servers_made g n (ys ++ [srv]) t t') t1.
Proof using LB.
  intros [Hr Hef Hu Hs He] Hl. pose proof (fresh_supply t1 n Hu Hl) as Hfr.
  eapply wp_mono; [by apply makeServer_spec|].
  intros srv t2 (Hsv & Hn & Hss & Hce & Hm). change (drawn crand t1 n) with (names_from (t_rng t1) n) in *.
  assert (length (names_from (t_rng t1) n) = n) as Hlen
    by (unfold names_from; by rewrite length_fmap, length_seq).
  assert (∀ x, x ∈ names_from (t_rng t1) n → ∀ y, is_Some (ends (t_net t1) !! Some (NStr y)) →
    Some (NStr y) ≠ Some (NStr x)) as Hsep.
  { intros x Hx y [? Hy] [= ->]. destruct Hfr as [_ Hfr]. by rewrite (Hfr x Hx) in Hy. }
  split.
  - rewrite (md_rng _ _ _ _ Hm), Hlen, Hr, length_app. simpl. lia.
  - eapply effect_trans; [exact Hef|].
    eapply effect_weaken; [..|by eapply effect_union, made_effect]; [| |by left]; simpl.
    + intros x [Hx|[]]. exact Hx.
    + intros x (srv' & [Hin| ->%list_elem_of_singleton]%elem_of_app & Hx); [left|right].
      * by exists srv'.
      * change (x ∈ names_from (t_rng t1) n). by rewrite <-Hn.
  - intros x Hx. rewrite (md_rng _ _ _ _ Hm), Hlen.
    destruct (decide (x ∈ names_from (t_rng t1) n)) as [Hin|Hnin]; [by apply drawn_used|].
    destruct (md_old _ _ _ _ Hm (Some (NStr x))) as (Hx' & _); [naive_solver|].
    rewrite Hx' in Hx. destruct (Hu x Hx) as (k & Hk & ->). exists k. split; [lia|done].
  - intros a srv' [[_ Ha]|[-> <-]]%lookup_snoc_Some; [by apply Hs|].
    rewrite Hce, Hn, Hr. done.
  - intros a srv' j x [[_ Ha]|[-> <-]]%lookup_snoc_Some Hj.
    + destruct (He a srv' j x Ha Hj) as (H1 & H2 & H3).
      destruct (md_old _ _ _ _ Hm (Some (NStr x))) as (-> & -> & ->); [|done].
      intros y Hy. by apply Hsep.
    + rewrite Hn in Hj. destruct (md_new _ _ _ _ Hm j x Hj) as (-> & -> & ->). eauto.
Qed.

Lemma names_from_inj r n m a b a' b' x y :
  r + m * n ≤ limit → a < m → a' < m →
  names_from (r + a * n) n !! b = Some x → names_from (r + a' * n) n !! b' = Some y → x = y →
  a = a' ∧ b = b'.
Proof using LB.
  intros Hl Ha Ha' [Hb ->]%names_from_lookup [Hb' ->]%names_from_lookup He.
  assert (∀ c d, c < m → d < n → r + c * n + d < limit) as Hlt by (intros; nia).
  apply lab_names in He; [|by apply Hlt..].
  assert (a = (a * n + b) / n ∧ a' = (a' * n + b') / n) as [H1 H2].
  { rewrite !Nat.div_add_l, !Nat.div_small by lia. lia. }
  assert (a = a') by (rewrite H1, H2; f_equal; lia). split; [done|]. subst. lia.
Qed.

(** [n] servers that were just made are a group. *)
Lemma servers_made_ok g n ys t t' :
  servers_made g n ys t t' → length ys = n → t_rng t + n * n ≤ limit →
  group_ok (mkGrp ys (ServerName g <$> seq 0 n) g (replicate n false), t').
Proof using LB.
  intros [Hr _ Hu Hs He] Hlen Hl.
  assert (∀ a b x, en (mkGrp ys (ServerName g <$> seq 0 n) g (replicate n false)) a b = Some x →
    ∃ srv, ys !! a = Some srv ∧ endNames srv !! b = Some x ∧ a < n ∧
      endNames srv = names_from (t_rng t + a * n) n) as Hen.
  { intros a b x (srv & Ha & Hb)%en_srv. exists srv. simpl in Ha.
    split_and!; [done|done|by apply lookup_lt_Some in Ha; rewrite Hlen in Ha|by apply (Hs a srv)]. }
  split; [split| |done|..]; unfold N; simpl.
  - by rewrite Hlen.
  - by rewrite length_replicate.
  - intros srv [a Ha]%list_elem_of_lookup. destruct (Hs a srv Ha) as (_ & _ & -> & _).
    unfold names_from. by rewrite length_fmap, length_seq.
  - intros a b a' b' x (srv & _ & Hb & Ha & Hn)%Hen (srv' & _ & Hb' & Ha' & Hn')%Hen.
    rewrite Hn in Hb. rewrite Hn' in Hb'. by eapply (names_from_inj _ n n).
  - intros a b x (srv & Ha & Hb & _)%Hen. by destruct (He a srv b x Ha Hb) as (? & _ & ?).
  - intros srv [a Ha]%list_elem_of_lookup. by apply (Hs a srv).
  - intros a b Hab. unfold is_on in Hab. simpl in Hab.
    destruct (en _ a b) as [x|] eqn:Hx; [|done]. apply Hen in Hx as (srv & Ha & Hb & _).
    by rewrite (proj1 (proj2 (He a srv b x Ha Hb))) in Hab.
  - intros srv p [a Ha]%list_elem_of_lookup Hp. destruct (Hs a srv Ha) as (Hno & _). congruence.
  - intros i srv Hi Hne. by destruct (Hs i srv Hi) as (_ & Hno & _ & _).
Qed.

Lemma makeSrvGrp_ok g n t :
  names_used t → t_rng t + n * n ≤ limit →
  wp (makeSrvGrp crand g n) (λ sg t', group_ok (sg, t') ∧ gid sg = g ∧ N sg = n ∧
    t_rng t' = t_rng t + n * n ∧ effect (λ _, False) (owns sg) None t t') t.
Proof using LB.
  intros Hu Hl. apply wp_bind.
  eapply wp_mono; [apply (wp_mmap (λ pre ys t', length ys = length pre ∧ servers_made g n ys t t'))|].
  - split; [done|]. split; [by rewrite Nat.add_0_r| |done|by intros|by intros].
    eapply effect_weaken; [..|apply (effect_refl crand (λ _, False))]; [done| |by left].
    intros x (srv & Hin & _). by apply elem_of_nil in Hin.
  - intros pre i post ys t' Hpre [Hlen Hmk].
    pose proof (f_equal length Hpre) as Hc. rewrite length_seq, length_app in Hc. simpl in Hc.
    eapply wp_mono; [apply (servers_made_snoc g n ys t t' Hmk)|].
    + rewrite (mk_rng _ _ _ _ _ Hmk), Hlen. nia.
    + intros srv t2 H2. rewrite !length_app, Hlen. done.
  - intros ys t' [Hlen Hmk]. rewrite length_seq in Hlen. apply wp_mret.
    split_and!; [|done|done|by rewrite (mk_rng _ _ _ _ _ Hmk), Hlen|].
    + by apply (servers_made_ok g n ys t t').
    + eapply effect_weaken; [..|apply (mk_effect _ _ _ _ _ Hmk)]; [done| |by left].
      intros x (a & b & (srv & Ha & Hb)%en_srv). exists srv. simpl in Ha.
      split; by eapply list_elem_of_lookup_2.
Qed.

Lemma start_kept s :
  group_ok s → t_rng s.2 + N s.1 * N s.1 ≤ limit →
  wp (start svc_tname svc_refl crand mks) (λ _ s', kept (N s.1 * N s.1) s s' ∧
    ∀ i, i < N s.1 → served s' i) s.
Proof using LB.
  intros Hok Hl. unfold start. apply wp_bind, wp_gets. unfold id.
  assert (length (all s.1) = N s.1) as Hall by apply length_seq.
  eapply wp_mono; [apply (wp_mfor (λ pre s', kept (length pre * N s.1) s s' ∧
    ∀ i, i ∈ pre → served s' i))|].
  - split; [by apply kept_refl|]. intros i Hi. by apply elem_of_nil in Hi.
  - intros pre i post s' Hpre [Hk Hs]. destruct Hk as (Hok' & Hg & HN & Hr & He) eqn:E.
    assert (i < N s'.1) as Hi by (rewrite HN; apply all_lt; rewrite Hpre; set_solver).
    pose proof (f_equal length Hpre) as Hc. rewrite Hall, length_app in Hc. simpl in Hc.
    eapply wp_mono; [apply (StartServer_kept i s' Hok' Hi); rewrite HN, Hr; nia|].
    intros [] s'' (Hk' & Hi' & Hj). split.
    + rewrite length_app, Nat.mul_add_distr_r. simpl. rewrite Nat.add_0_r.
      rewrite HN in Hk'. by eapply kept_trans.
    + intros j Hjin. destruct (decide (j = i)) as [->|Hji]; [done|].
      apply Hj; [done|]. apply Hs. set_solver.
  - intros [] s' [Hk Hs]. rewrite Hall in Hk. split; [done|].
    intros i Hi. apply Hs, elem_of_seq. unfold N in Hi. lia.
Qed.

Lemma StartServers_full s :
  group_ok s → t_rng s.2 + N s.1 * N s.1 ≤ limit →
  wp (StartServers svc_tname svc_refl crand mks) (λ _ s', kept (N s.1 * N s.1) s s' ∧
    full s' ∧ ∀ i, i < N s.1 → served s' i) s.
Proof using LB.
  intros Hok Hl. apply wp_bind. eapply wp_mono; [by apply start_kept|].
  intros [] s1 [Hk Hs]. eapply wp_mono; [apply ConnectAll_full, Hk|].
  intros [] s2 (Hk2 & Hf & Hfull). split; [|split; [done|]].
  - rewrite <-(Nat.add_0_r (N s.1 * N s.1)). by eapply kept_trans.
  - intros i Hi. by eapply served_frame, Hs.
Qed.

Lemma Shutdown_kept s : group_ok s → wp (Shutdown Kill) (λ _, kept 0 s) s.
Proof using LB.
  intros Hok. unfold Shutdown. apply wp_bind, wp_gets. apply mfor_kept_0; [done|].
  intros i s' Hi%all_lt Hok' HN. apply ShutdownServer_kept; [done|]. by rewrite HN.
Qed.

(** ** Scripts *)

(** A call of a test on a group. *)
Inductive group_call :=
  | c_ConnectOne (i : nat) | c_ConnectAll | c_DisconnectAll (i : nat)
  | c_Partition (p1 p2 : list nat)
  | c_StartServer (i : nat) | c_StartServers
  | c_ShutdownServer (i : nat) | c_Shutdown.

Definition do_call (c : group_call) : G unit :=
  match c with
  | c_ConnectOne i => ConnectOne i
  | c_ConnectAll => ServerGroup.ConnectAll
  | c_DisconnectAll i => ServerGroup.DisconnectAll i
  | c_Partition p1 p2 => ServerGroup.Partition p1 p2
  | c_StartServer i => StartServer svc_tname svc_refl crand mks i
  | c_StartServers => StartServers svc_tname svc_refl crand mks
  | c_ShutdownServer i => ShutdownServer Kill i
  | c_Shutdown => Shutdown Kill
  end.

(** The servers it names are servers of the group. *)
Definition call_ok (n : nat) (c : group_call) : Prop :=
  match c with
  | c_ConnectOne i | c_DisconnectAll i | c_StartServer i | c_ShutdownServer i => i < n
  | c_Partition p1 p2 => ∀ j, j ∈ p1 ++ p2 → j < n
  | c_ConnectAll | c_StartServers | c_Shutdown => True
  end.

(** How many random names it draws. *)
Definition draws (n : nat) (c : group_call) : nat :=
  match c with c_StartServer _ => n | c_StartServers => n * n | _ => 0 end.

Lemma call_kept c s :
  group_ok s → call_ok (N s.1) c → t_rng s.2 + draws (N s.1) c ≤ limit →
  wp (do_call c) (λ _, kept (draws (N s.1) c) s) s.
Proof using LB.
  intros Hok Hc Hl. destruct c; simpl in *.
  - by apply ConnectOne_kept.
  - eapply wp_mono; [by apply ConnectAll_full|]. by intros [] s' [? _].
  - by apply DisconnectAll_kept.
  - by apply Partition_kept.
  - eapply wp_mono; [by apply StartServer_kept|]. by intros [] s' [? _].
  - eapply wp_mono; [by apply StartServers_full|]. by intros [] s' [? _].
  - by apply ShutdownServer_kept.
  - by apply Shutdown_kept.
Qed.

(** A group is well-formed whatever a test does with it.  Every sequence of
    calls that start, stop, connect, disconnect and partition its servers runs to
    its end without a panic, keeps the group, its identifier and its size, and
    draws no more random names than counted: every end exists once and leads to
    its server, an enabled one connects two connected servers, every server has
    the persister it was given, and a server with services is served by them. *)
Lemma script_ok (cs : list group_call) (s : gst) :
  group_ok s → Forall (call_ok (N s.1)) cs →
  t_rng s.2 + sum_list_with (draws (N s.1)) cs ≤ limit →
  wp (mfor cs do_call) (λ _, kept (sum_list_with (draws (N s.1)) cs) s) s.
Proof using LB.
  intros Hok Hcs Hl. apply (mfor_kept _ _ _ limit); [done|done|].
  intros c s' Hc Hok' _ HN Hl'. rewrite <-HN in Hl' |- *. apply call_kept; [done| |done].
  rewrite HN. by apply (proj1 (Forall_forall _ _) Hcs).
Qed.

(** ** Making a group and starting it *)

Lemma MakeGroupStart_makes (g : Tgid) (n : nat) (c : @Config V Ty W IService) :
  names_used (cf_t c) → t_rng (cf_t c) + 2 * (n * n) ≤ limit →
  wp (MakeGroupStart svc_tname svc_refl crand mks g n) (λ _ c', ∃ p sg,
    cf_objs c !! p = None ∧ cf_grps c' = <[g := p]> (cf_grps c) ∧
    cf_objs c' = <[p := sg]> (cf_objs c) ∧ cf_clerks c' = cf_clerks c ∧
    cf_clnts c' = cf_clnts c ∧ t_rng (cf_t c') = t_rng (cf_t c) + 2 * (n * n) ∧
    effect (λ _, False) (owns sg) (Some g) (cf_t c) (cf_t c') ∧
    let s := (sg, cf_t c') in
    group_ok s ∧ gid sg = g ∧ N sg = n ∧ full s ∧ ∀ i, i < n → served s i) c.
Proof using LB.
  intros Hu Hl. pose proof (makeSrvGrp_ok g n (cf_t c) Hu) as Hmk.
  unfold wp in Hmk. unfold MakeGroupStart, wp, Group, on_groups, MakeGroup, w_tester.
  unfold mbind, M_bind. simpl. unfold mbind, M_bind, outcome_bind. simpl.
  destruct (makeSrvGrp crand g n (cf_t c)) as [[sg t]|?|?|]; try (specialize (Hmk ltac:(lia)); done).
  destruct Hmk as (Hok & Hg & HN & Hr & Hef); [lia|]. simpl.
  set (p := fresh (dom (cf_objs c))). rewrite lookup_insert_eq. unfold on_group. simpl.
  rewrite lookup_insert_eq.
  pose proof (StartServers_full (sg, t) Hok) as Hst. simpl in Hst. rewrite HN, Hr in Hst.
  specialize (Hst ltac:(lia)). unfold wp in Hst. unfold mbind, M_bind, outcome_bind.
  destruct (StartServers _ _ _ _ (sg, t)) as [[[] [sg' t']]|?|?|]; try done. simpl.
  destruct Hst as ((Hok' & Hg' & HN' & Hr' & He') & Hfull & Hsv). simpl in *.
  exists p, sg'. split_and!; try done; try congruence; try lia.
  - apply not_elem_of_dom, is_fresh.
  - by rewrite insert_insert_eq.
  - eapply effect_trans; [|rewrite Hg in He'; exact He'].
    eapply effect_weaken; [..|exact Hef]; auto.
Qed.

(** [MakeGroupStart], on a network whose ends all have random names, makes a
    well-formed group of the given size, registers it under its identifier and
    starts it: every server can reach every server, and each is served under its
    name by the services that its constructor returned.  The clerks and all other
    groups are the same objects as before, and their ends and servers are
    untouched. *)
Lemma MakeGroupStart_full (g : Tgid) (n : nat) (c : @Config V Ty W IService) :
  names_used (cf_t c) → t_rng (cf_t c) + 2 * (n * n) ≤ limit →
  wp (MakeGroupStart svc_tname svc_refl crand mks g n) (λ _ c', ∃ p sg,
    cf_objs c !! p = None ∧ cf_grps c' = <[g := p]> (cf_grps c) ∧
    cf_objs c' = <[p := sg]> (cf_objs c) ∧ cf_clerks c' = cf_clerks c ∧
    cf_clnts c' = cf_clnts c ∧ t_rng (cf_t c') = t_rng (cf_t c) + 2 * (n * n) ∧
    effect (λ _, False) (owns sg) (Some g) (cf_t c) (cf_t c') ∧
    let s := (sg, cf_t c') in
    group_ok s ∧ gid sg = g ∧ N sg = n ∧ full s ∧ ∀ i, i < n → served s i) c.
Proof using LB. by apply MakeGroupStart_makes. Qed.
End labs.
End life.

(** ** Calls between the servers of a group *)

Section rpc.
Context {V Ty W IService : Type} `{GV : GoValues V Ty} `{GL : !GobLaws V Ty}.
Context (svc_tname : IService → string) (svc_refl : IService → list (@Method V Ty W))
  (crand : nat → nat → list Z).

(** Services of different types are all found in their server. *)
Lemma register_lookup (ss : list (option IService)) (svc : IService) (rs : @Labrpc.Server V Ty W) :
  register svc_tname svc_refl ss = Ret rs → NoDup (option_map svc_tname <$> ss) → Some svc ∈ ss →
  services rs !! svc_tname svc = Some (MakeService (svc_tname svc) (svc_refl svc)).
Proof.
  unfold register. intros Hr Hnd Hin.
  enough (∀ rs0, Some svc ∈ ss ∨
    (services rs0 !! svc_tname svc = Some (MakeService (svc_tname svc) (svc_refl svc)) ∧
     Some (svc_tname svc) ∉ (option_map svc_tname <$> ss)) →
    ofold (λ labsrv o, match o with
      | Some svc => Ret (AddService (MakeService (svc_tname svc) (svc_refl svc)) labsrv)
      | None => Panic "nil pointer dereference" end) rs0 ss = Ret rs →
    services rs !! svc_tname svc = Some (MakeService (svc_tname svc) (svc_refl svc))) as H
    by by eapply H; [left|].
  clear Hr Hin. induction ss as [|o ss IH]; intros rs0 Hin Hr; simpl in *.
  - injection Hr as <-. destruct Hin as [Hin|[Hin _]]; [by apply elem_of_nil in Hin|done].
  - apply NoDup_cons in Hnd as [Hni Hnd]. destruct o as [svc'|]; [|done]. simpl in Hr.
    eapply (IH Hnd); [|exact Hr]. destruct Hin as [Hin|[Hs Hni']].
    + apply elem_of_cons in Hin as [[= <-]|Hin]; [|by left]. right. split; [|done].
      simpl. by rewrite lookup_insert_eq.
    + apply not_elem_of_cons in Hni' as [Hne Hni']. right. split; [|done].
      simpl. rewrite lookup_insert_ne; [done|]. intros He. apply Hne. simpl. by rewrite He.
Qed.

(** The state of the network in which the group [s] is, without a call under
    way; its goroutine runs as long as it is not destroyed. *)
Definition sys_of (s : @ServerGrp IService * @tester V Ty W) : @sys V Ty W :=
  mkSys (t_net s.2) (t_labs s.2) (t_env s.2).2 ∅ (negb (done_closed (t_net s.2))).

(** C8: in a well-formed group a call on the end from server [a] to server [b] is
    a call of the method of [b]'s service, if the two are connected, the
    network is reliable and server [b] runs services of different types: the call
    can complete, and every schedule that completes it gives the value that the
    method of [b] returns, with the method's effect. *)
Theorem group_rpc (s : @ServerGrp IService * @tester V Ty W) (a b : nat) (sa sb : Server)
    (e : ClientEnd) (svc : IService) (meth : string) (method : Method) (recv : bool * Ty)
    (b1 b2 : bool) (v rv : V) (w' : W) (req : reqMsg) :
  group_ok svc_tname svc_refl crand s →
  done_closed (t_net s.2) = false → reliable (t_net s.2) = true →
  srvs s.1 !! a = Some sa → clntEnds sa !! b = Some e → is_on s a b = true →
  srvs s.1 !! b = Some sb → Some svc ∈ svcs sb → NoDup (option_map svc_tname <$> svcs sb) →
  has_byte dot_byte meth = false →
  svc_methods (MakeService (svc_tname svc) (svc_refl svc)) !! meth = Some method →
  m_in method = [recv; (b1, type_of v); (b2, type_of rv)] →
  m_func method (t_env s.2).2 v (zero_of (type_of rv)) = Ret (w', rv) →
  Call_request e (svc_tname svc +:+ String dot_byte meth) (b1, v) = Ret req →
  (gob_encode rv).2 = true →
  (∃ l s1 g, Forall (own 0) l ∧ run (A_accept 0 req :: l) (sys_of s) = Some s1 ∧
     s_reqs s1 !! 0 = Some g ∧ answered g = true) ∧
  ∀ l s1 g r, Forall (own 0) l → run (A_accept 0 req :: l) (sys_of s) = Some s1 →
    s_reqs s1 !! 0 = Some g → g_pc g = P_done r →
    Call_result r (zero_of (type_of rv)) = Ret (true, rv) ∧ s_world s1 = w'.
Proof using GL.
  intros Hok Hopen Hrel Ha He Hon Hb Hin Hnd Hdot Hm Hargs Hf Hreq Henc.
  rewrite (ok_ends _ _ _ _ Hok sa) in He by by eapply list_elem_of_lookup_2.
  apply list_lookup_fmap_Some in He as (x & -> & Hx).
  assert (en s.1 a b = Some x) as Hen by (unfold en; rewrite Ha; done).
  destruct (ok_wired _ _ _ _ Hok a b x Hen) as [_ Hconn].
  unfold is_on in Hon. rewrite Hen in Hon.
  destruct (ok_served _ _ _ _ Hok b sb Hb) as (sb' & p & rs & Hb' & Hreg & Hat & Hlab).
  { intros H0. rewrite H0 in Hin. by apply elem_of_nil in Hin. }
  assert (sb' = sb) as -> by congruence.
  destruct (rpc_runs_locally (sys_of s) 0 (mkClientEnd (Some (NStr x)))
    (NStr (ServerName (gid s.1) b)) p rs (MakeService (svc_tname svc) (svc_refl svc))
    (svc_tname svc) meth method recv b1 b2 v rv w' req) as [H1 H2]; try done.
  - simpl. by rewrite Hopen.
  - by apply (register_lookup (svcs sb)).
  - split; [done|]. intros l s1 g r Hl Hrun Hg Hr. by destruct (H2 l s1 g r Hl Hrun Hg Hr) as (? & ? & _).
Qed.
End rpc.

(** ** Three concrete servers *)

Section demo.
#[local] Existing Instance unit_values.

Lemma demo_labs : Labs demo_kill demo_crand demo_mks 100.
Proof.
  split.
  - assert (NoDup (rand_name demo_crand <$> seq 0 100)) as Hnd
      by (apply (bool_decide_unpack _); vm_compute; exact I).
    intros k k' Hk Hk' He. apply (NoDup_lookup _ k k' (rand_name demo_crand k) Hnd).
    + by rewrite list_lookup_fmap, lookup_seq_lt.
    + by rewrite He, list_lookup_fmap, lookup_seq_lt.
  - intros es g i p e. repeat constructor. by eexists.
  - by intros es g i p e q.
  - by intros svc e q.
Qed.

Lemma demo_names_used : names_used demo_crand demo_t.
Proof. by intros x [e He]. Qed.

(** Start, lose a server, split, bring it back and heal. *)
Definition demo_script : list group_call :=
  [c_StartServers; c_ShutdownServer 1; c_Partition [0] [2]; c_StartServer 1; c_ConnectAll].

Lemma script_ok_witness :
  ∃ s, makeSrvGrp demo_crand 0 3 demo_t = Ret s ∧
    wp (mfor demo_script (do_call (λ _, "Raft") (λ _, []) demo_kill demo_crand demo_mks))
      (λ _ s', wf s'.1 ∧ wired s' ∧ t_rng s'.2 = 21) s.
Proof.
  pose proof (makeSrvGrp_ok (IService := unit) (λ _, "Raft") (λ _, []) demo_kill demo_crand
    demo_mks 100 (LB := demo_labs) 0 3 demo_t demo_names_used ltac:(simpl; lia)) as H.
  unfold wp in H. destruct (makeSrvGrp _ _ _ _) as [[sg t]|?|?|]; try done.
  destruct H as (Hok & _ & HN & Hr & _). exists (sg, t). split; [reflexivity|].
  eapply wp_mono.
  - apply (script_ok (λ _, "Raft") (λ _, []) demo_kill demo_crand demo_mks 100
      (LB := demo_labs) demo_script (sg, t) Hok); simpl; rewrite HN.
    + apply Forall_forall. intros c Hc. unfold demo_script in Hc.
      repeat (apply elem_of_cons in Hc; destruct Hc as [->|Hc]); [..|by apply elem_of_nil in Hc];
        simpl; [exact I|lia|set_solver by lia|lia|exact I].
    + rewrite Hr. simpl. lia.
  - intros u s' ([H1 H2 _ _ _ _ _] & _ & _ & Hr' & _). split; [exact H1|]. split; [exact H2|].
    rewrite Hr'. simpl. rewrite HN, Hr. reflexivity.
Defined.

Lemma MakeGroupStart_full_witness :
  wp (MakeGroupStart (λ _ : unit, "Raft") (λ _, []) demo_crand demo_mks 1 3)
    (λ _ c', ∃ p sg, cf_grps c' !! 1%Z = Some p ∧ cf_objs c' !! p = Some sg ∧
      is_on (sg, cf_t c') 2 0 = true)
    (mkConfig _ _ _ _ demo_t ∅ ∅ (Some ∅) ∅ 0 0).
Proof.
  eapply wp_mono.
  - apply (MakeGroupStart_full (λ _, "Raft") (λ _, []) demo_kill demo_crand demo_mks 100
      (LB := demo_labs)); [exact demo_names_used|simpl; lia].
  - intros u c' (p & sg & _ & Hg & Ho & _ & _ & _ & _ & _ & _ & HN & Hfull & _).
    exists p, sg. rewrite Hg, Ho, !lookup_insert_eq. split; [reflexivity|].
    split; [reflexivity|]. apply Hfull; simpl; rewrite HN; lia.
Defined.

(** Two servers that add to a common counter. *)
Definition ctr_mks (_ : list ClientEnd) (_ : Tgid) (_ _ : nat) (e : store * Z)
    : list (option unit) * (store * Z) := ([Some tt], e).
Definition ctr_t : @tester Z unit Z := mkTester MakeNetwork ∅ (store0, 5%Z) 0.
Definition ctr_kill (_ : unit) (e : store * Z) : store * Z := e.
Definition ctr_refl (_ : unit) : list (@Method Z unit Z) := [ex_add].
Definition ctr_start : outcome (unit * (@ServerGrp unit * @tester Z unit Z)) :=
  s ← makeSrvGrp demo_crand 0 2 ctr_t; StartServers (λ _, "Ctr") ctr_refl demo_crand ctr_mks s.
Definition ctr_s : @ServerGrp unit * @tester Z unit Z :=
  match ctr_start with Ret (_, s) => s | _ => (mkGrp [] [] 0 [], ctr_t) end.
Definition ctr_server : @Server unit :=
  Eval vm_compute in default (mkSrv None [] [] []) (srvs ctr_s.1 !! 0).
Definition ctr_req : reqMsg (Ty := unit) :=
  Eval vm_compute in mkReq (default None (endname <$> clntEnds ctr_server !! 1)) "Ctr.Add" (true, tt) [7%Z].

Lemma ctr_labs : Labs ctr_kill demo_crand ctr_mks 100.
Proof.
  split; [apply demo_labs|..].
  - intros es g i p e. repeat constructor. by eexists.
  - by intros es g i p e q.
  - by intros svc e q.
Qed.

Lemma ctr_ok : group_ok (λ _, "Ctr") ctr_refl demo_crand ctr_s ∧ N ctr_s.1 = 2 ∧ full ctr_s.
Proof.
  pose proof (makeSrvGrp_ok (IService := unit) (λ _, "Ctr") ctr_refl ctr_kill demo_crand
    ctr_mks 100 (LB := ctr_labs) 0 2 ctr_t) as H.
  unfold ctr_s, ctr_start, wp, mbind, outcome_bind in *.
  destruct (makeSrvGrp _ _ _ _) as [[sg t]|?|?|];
    try (specialize (H ltac:(by intros x [e He]) ltac:(simpl; lia)); done).
  destruct H as (Hok & _ & HN & Hr & _); [by intros x [e He]|simpl; lia|].
  pose proof (StartServers_full (λ _, "Ctr") ctr_refl ctr_kill demo_crand
    ctr_mks 100 (LB := ctr_labs) (sg, t) Hok) as Hs. simpl in Hs. rewrite HN, Hr in Hs.
  specialize (Hs ltac:(simpl; lia)). unfold wp in Hs.
  destruct (StartServers _ _ _ _ _) as [[u s]|?|?|]; try done.
  destruct Hs as ((? & _ & HN' & _ & _) & ? & _). split_and!; [done|by rewrite HN'|done].
Qed.

Lemma group_rpc_witness :
  ∃ l s1 g, Forall (own 0) l ∧ run (A_accept 0 ctr_req :: l) (sys_of ctr_s) = Some s1 ∧
    s_reqs s1 !! 0 = Some g ∧ answered g = true.
Proof.
  refine (proj1 (group_rpc (λ _, "Ctr") ctr_refl demo_crand ctr_s 0 1 ctr_server
    (default ctr_server (srvs ctr_s.1 !! 1)) (default (mkClientEnd None) (clntEnds ctr_server !! 1)) tt "Add" ex_add
    (true, tt) true true 7%Z 12%Z 12%Z ctr_req _ _ _ _ _ _ _ _ _ _ _ _ _ _ _)).
  - apply ctr_ok.
  - vm_compute. reflexivity.
  - vm_compute. reflexivity.
  - vm_compute. reflexivity.
  - vm_compute. reflexivity.
  - destruct ctr_ok as (_ & HN & Hfull). apply Hfull; rewrite HN; lia.
  - vm_compute. reflexivity.
  - apply (bool_decide_unpack _). vm_compute. exact I.
  - apply (bool_decide_unpack _). vm_compute. exact I.
  - vm_compute. reflexivity.
  - vm_compute. reflexivity.
  - vm_compute. reflexivity.
  - vm_compute. reflexivity.
  - vm_compute. reflexivity.
  - vm_compute. reflexivity.
Defined.
End demo.
