(* ===== verification/World.v ===== *)
(** * All groups and clerks of a test on one network: [tester1/config.go]

    A [Config] has any number of groups and clerks that share the network, the
    supply of names and the persisters.  [config_ok] says that each is in order
    and that no end belongs to two of them; every operation of a test on one of
    them keeps it and leaves the others as they were. *)

From S2P Require Export GroupLife.
#[local] Set Default Proof Using "Type".

(** The ends of a clerk. *)
Definition owns_c (ck : Clnt) (x : string) : Prop :=
  ∃ a e, c_ends ck !! a = Some e ∧ end_name e = x.

Section world.
Context {V Ty W IService : Type} `{GV : GoValues V Ty}.
Context (svc_tname : IService → string) (svc_refl : IService → list (@Method V Ty W))
  (Kill : IService → store * W → store * W) (crand : nat → nat → list Z)
  (mks : list ClientEnd → Tgid → nat → nat → store * W → list (option IService) * (store * W)).
Abbreviation tester := (@tester V Ty W).
Abbreviation Config := (@Config V Ty W IService).
Abbreviation K := (M Config).
Abbreviation cst := (Clnt * tester)%type.
Abbreviation effect := (effect crand).
Abbreviation names_used := (names_used crand).
Abbreviation group_ok := (group_ok svc_tname svc_refl crand).
Context (limit : nat) `{LB : !Labs Kill crand mks limit}.

(** ** Groups and clerks side by side *)

(** The parts of a test, by the names that it has for them. *)
Inductive part := P_group (g : Tgid) | P_clerk (q : nat).
#[export] Instance part_eq_dec : EqDecision part.
Proof. solve_decision. Defined.

(** A part and what it owns. *)
Definition obj : Type := @ServerGrp IService + Clnt.
Definition owns_o (o : obj) : string → Prop :=
  match o with inl sg => owns sg | inr ck => owns_c ck end.

Definition group_at (c : Config) (g : Tgid) : option (@ServerGrp IService) :=
  cf_grps c !! g ≫= (cf_objs c !!.).
Definition clerk_at (c : Config) (q : nat) : option Clnt :=
  if decide (q ∈ default ∅ (cf_clerks c)) then cf_clnts c !! q else None.
Definition part_at (c : Config) (X : part) : option obj :=
  match X with
  | P_group g => inl <$> group_at c g
  | P_clerk q => inr <$> clerk_at c q
  end.
Definition owns_at (c : Config) (X : part) (x : string) : Prop :=
  ∃ o, part_at c X = Some o ∧ owns_o o x.

Definition obj_ok (t : tester) (X : part) (o : obj) : Prop :=
  match X, o with
  | P_group g, inl sg => gid sg = g ∧ group_ok (sg, t)
  | P_clerk q, inr ck => wfc (ck, t)
  | _, _ => False
  end.

Record config_ok (c : Config) : Prop := {
  co_used : names_used (cf_t c);
  co_grps g p : cf_grps c !! g = Some p → is_Some (cf_objs c !! p);
  co_clerks q : q ∈ default ∅ (cf_clerks c) → is_Some (cf_clnts c !! q);
  co_part X o : part_at c X = Some o → obj_ok (cf_t c) X o;
  co_own X Y x : owns_at c X x → owns_at c Y x → X = Y
}.

Lemma names_inj k k' :
  k < limit → k' < limit → rand_name crand k = rand_name crand k' → k = k'.
Proof using LB. apply LB. Qed.

(** What a part needs of the shared state is what others do not touch. *)
Lemma group_other own own' g sg (t t' : tester) :
  group_ok (sg, t) → effect own own' g t t' → t_rng t' ≤ limit →
  (∀ x, owns sg x → ¬ own x) → (∀ g0, g = Some g0 → gid sg ≠ g0) →
  group_ok (sg, t') ∧ ∀ a b, is_on (sg, t') a b = is_on (sg, t) a b.
Proof using LB.
  intros [H1 H2 H3 H4 H5 H6 H7] He Hl Hown Hg. simpl in *.
  assert (∀ a b x, en sg a b = Some x → same_end x t t') as Hsame.
  { intros a b x Hx. eapply (effect_other crand own own' g); [|done|done|done| |].
    - exact names_inj.
    - apply Hown. by exists a, b.
    - by apply (H2 a b). }
  assert (∀ a b, is_on (sg, t') a b = is_on (sg, t) a b) as Hon.
  { intros a b. unfold is_on. simpl. destruct (en sg a b) as [x|] eqn:Hx; [|done].
    by apply (Hsame a b). }
  split; [|done]. split; simpl; [done| |by apply He|done|..].
  - intros a b x Hx. simpl in Hx. destruct (Hsame a b x Hx) as (He1 & _ & He3). simpl.
    rewrite He1, He3. by apply (H2 a b).
  - intros a b. rewrite Hon. apply H5.
  - intros srv p Hs Hp. by apply (ef_pers _ _ _ _ _ _ He), (H6 srv).
  - intros i srv Hi Hne. destruct (H7 i srv Hi Hne) as (srv' & ptr & labsrv & Hs & Hr & Hat & Hlb).
    exists srv', ptr, labsrv. split_and!; [done|done| |by eapply lookup_weaken, He]. simpl in *.
    rewrite (ef_servers _ _ _ _ _ _ He); [done|]. intros g0 j ->.
    intros Hn. assert (ServerName (gid sg) i = ServerName g0 j) as Hn' by congruence.
    apply ServerName_inj in Hn' as [Hgg _]. by eapply Hg.
Qed.

Lemma clerk_other own own' g ck (t t' : tester) :
  wfc (ck, t) → effect own own' g t t' → names_used t → t_rng t' ≤ limit →
  (∀ x, owns_c ck x → ¬ own x) →
  wfc (ck, t') ∧ ∀ a, reach (ck, t') a = reach (ck, t) a.
Proof using LB.
  intros [H1 H2] He Hu Hl Hown. simpl in *.
  assert (∀ a e, c_ends ck !! a = Some e → same_end (end_name e) t t') as Hsame.
  { intros a e Ha. eapply (effect_other crand own own' g); [|done|done|done| |].
    - exact names_inj.
    - apply Hown. by exists a, e.
    - by apply (H2 a e). }
  split.
  - split; [done|]. intros a e Ha. simpl. destruct (Hsame a e Ha) as (-> & _ & ->).
    by apply (H2 a).
  - intros a. unfold reach. simpl. destruct (c_ends ck !! a) as [e|] eqn:Ha; [|done].
    by apply (Hsame a).
Qed.

(** ** An operation on one part *)

Definition same_links (o : obj) (t t' : tester) : Prop :=
  match o with
  | inl sg => ∀ a b, is_on (sg, t') a b = is_on (sg, t) a b
  | inr ck => ∀ a, reach (ck, t') a = reach (ck, t) a
  end.

(** The parts other than [X] are the same objects with the same links. *)
Definition others_same (X : part) (c c' : Config) : Prop := ∀ Y, Y ≠ X →
  part_at c' Y = part_at c Y ∧
  ∀ o, part_at c Y = Some o → same_links o (cf_t c) (cf_t c').

Definition gid_of (X : part) : option Tgid :=
  match X with P_group g => Some g | P_clerk _ => None end.

Lemma owns_used c X x :
  config_ok c → owns_at c X x → is_Some (ends (t_net (cf_t c)) !! Some (NStr x)).
Proof.
  intros Hok (o & Ho & Hx). pose proof (co_part _ Hok X o Ho) as Hobj.
  destruct X as [g|q], o as [sg|ck]; simpl in *; try done.
  - destruct Hx as (a & b & Hx). by apply (ok_wired _ _ _ _ (proj2 Hobj) a b).
  - destruct Hx as (a & e & Ha & <-). by apply (wc_net _ Hobj a e).
Qed.

Lemma obj_other own own' g X o t t' :
  obj_ok t X o → names_used t → effect own own' g t t' → t_rng t' ≤ limit →
  (∀ x, owns_o o x → ¬ own x) → (∀ g0, g = Some g0 → X ≠ P_group g0) →
  obj_ok t' X o ∧ same_links o t t'.
Proof using LB.
  intros Hobj Hu He Hl Hown Hg. destruct X as [g1|q], o as [sg|ck]; try done.
  - destruct Hobj as [<- Hok].
    destruct (group_other own own' g sg t t' Hok He Hl Hown) as [H1 H2]; [|done].
    intros g0 Hg0 <-. by eapply Hg.
  - by apply (clerk_other own own' g ck t t').
Qed.

Lemma config_step X c c' :
  config_ok c →
  (∀ Y, Y ≠ X → part_at c' Y = part_at c Y) →
  effect (owns_at c X) (owns_at c' X) (gid_of X) (cf_t c) (cf_t c') →
  (∀ o, part_at c' X = Some o → obj_ok (cf_t c') X o) →
  (∀ g p, cf_grps c' !! g = Some p → is_Some (cf_objs c' !! p)) →
  (∀ q, q ∈ default ∅ (cf_clerks c') → is_Some (cf_clnts c' !! q)) →
  t_rng (cf_t c') ≤ limit →
  config_ok c' ∧ others_same X c c'.
Proof using LB.
  intros Hok Hsame He HX Hg Hq Hl.
  assert (∀ Y o, Y ≠ X → part_at c Y = Some o →
    obj_ok (cf_t c') Y o ∧ same_links o (cf_t c) (cf_t c')) as Hother.
  { intros Y o HY Ho. eapply (obj_other (owns_at c X)); [by apply co_part|apply Hok|done|done|..].
    - intros x Hx Hox. apply HY. eapply co_own; [done| |done]. by exists o.
    - intros g0 Hg0 ->. apply HY. destruct X; simpl in Hg0; congruence. }
  assert (∀ Y x, Y ≠ X → owns_at c' X x → owns_at c' Y x → False) as Hdisj.
  { intros Y x HY HoX (o & Ho & Hx). rewrite Hsame in Ho by done.
    assert (owns_at c Y x) as HoY by by exists o.
    destruct (ef_own _ _ _ _ _ _ He x HoX) as [HoX'|(k & Hk & ->)].
    - apply HY. by eapply co_own.
    - destruct (co_used _ Hok _ (owns_used _ _ _ Hok HoY)) as (k' & Hk' & Hkk).
      apply names_inj in Hkk; lia. }
  split.
  - split; [apply He, Hok|done|done|..].
    + intros Y o Ho. destruct (decide (Y = X)) as [->|HY]; [by apply HX|].
      rewrite Hsame in Ho by done. by apply Hother.
    + intros Y Z x HY HZ. destruct (decide (Y = X)) as [->|HYX], (decide (Z = X)) as [->|HZX];
        [done|by destruct (Hdisj Z x)|by destruct (Hdisj Y x)|].
      destruct HY as (o & Ho & Hx), HZ as (o' & Ho' & Hx').
      rewrite Hsame in Ho, Ho' by done. eapply (co_own c Hok); by eexists.
  - intros Y HY. split; [by apply Hsame|]. intros o Ho.
    by apply (Hother Y o).
Qed.

(** *** Groups *)

Definition set_group (p : nat) (s : @ServerGrp IService * tester) (c : Config) : Config :=
  mkConfig _ _ _ _ s.2 (cf_grps c) (<[p := s.1]> (cf_objs c)) (cf_clerks c) (cf_clnts c)
    (rpcs0 c) (ops c).

(** Run an operation of the group that the test calls [g]. *)
Definition with_group {A} (g : Tgid) (m : M (@ServerGrp IService * tester) A) : K A :=
  p ← Group g; on_groups (on_group p m).

Lemma group_at_ptr c g sg :
  group_at c g = Some sg → ∃ p, cf_grps c !! g = Some p ∧ cf_objs c !! p = Some sg.
Proof. intros (p & ? & ?)%bind_Some. eauto. Qed.

Lemma group_at_gid c g sg : config_ok c → group_at c g = Some sg → gid sg = g ∧ group_ok (sg, cf_t c).
Proof.
  intros Hok Hg. assert (part_at c (P_group g) = Some (inl sg)) as Hp by (simpl; by rewrite Hg).
  apply (co_part _ Hok _ _ Hp).
Qed.

Lemma with_group_wp {A} g p sg (m : M (@ServerGrp IService * tester) A) c Q :
  cf_grps c !! g = Some p → cf_objs c !! p = Some sg →
  wp m (λ a s, Q a (set_group p s c)) (sg, cf_t c) → wp (with_group g m) Q c.
Proof.
  intros Hg Hp. unfold with_group, wp, Group, on_groups, lookupGroup, on_group, gets, mbind, M_bind.
  simpl. rewrite Hg. simpl. rewrite Hp. unfold outcome_bind.
  by destruct (m (sg, cf_t c)) as [[a [sg' t']]|?|?|].
Qed.

Lemma group_step c g p sg s' :
  config_ok c → cf_grps c !! g = Some p → cf_objs c !! p = Some sg →
  effect (owns sg) (owns s'.1) (Some g) (cf_t c) s'.2 → gid s'.1 = g → group_ok s' →
  t_rng s'.2 ≤ limit →
  config_ok (set_group p s' c) ∧ others_same (P_group g) c (set_group p s' c).
Proof using LB.
  intros Hok Hg Hp He Hgid Hok' Hl. set (c' := set_group p s' c).
  assert (group_at c g = Some sg) as Hat by (unfold group_at; by rewrite Hg).
  assert (group_at c' g = Some s'.1) as Hat'.
  { unfold group_at. simpl. rewrite Hg. simpl. by rewrite lookup_insert_eq. }
  apply config_step; [done|..|done].
  - intros [g'|q] HY; simpl; [|done]. f_equal. unfold group_at. simpl.
    destruct (cf_grps c !! g') as [p'|] eqn:Hg'; [|done]. simpl.
    rewrite lookup_insert_ne; [done|]. intros <-. apply HY. f_equal.
    assert (group_at c g' = Some sg) as Hat2 by (unfold group_at; by rewrite Hg').
    apply group_at_gid in Hat, Hat2; [|done..]. naive_solver.
  - eapply effect_weaken; [..|exact He]; [|..|by right].
    + intros x Hx. exists (inl sg). simpl. by rewrite Hat.
    + intros x (o & Ho & Hx). simpl in Ho. rewrite Hat' in Ho. by injection Ho as <-.
  - intros o Ho. simpl in Ho. rewrite Hat' in Ho. injection Ho as <-. simpl.
    split; [done|]. by destruct s'.
  - intros g' p' Hg'. simpl in *. destruct (decide (p' = p)) as [->|].
    + rewrite lookup_insert_eq. by eexists.
    + rewrite lookup_insert_ne by done. by apply (co_grps _ Hok g').
  - apply Hok.
Qed.

Lemma with_group_post g sg n (P : @ServerGrp IService * tester → Prop)
    (m : M (@ServerGrp IService * tester) unit) c :
  config_ok c → group_at c g = Some sg → t_rng (cf_t c) + n ≤ limit →
  wp m (λ _ s', kept svc_tname svc_refl crand n (sg, cf_t c) s' ∧ P s') (sg, cf_t c) →
  wp (with_group g m) (λ _ c', config_ok c' ∧ others_same (P_group g) c c' ∧
    t_rng (cf_t c') = t_rng (cf_t c) + n ∧ cf_clerks c' = cf_clerks c ∧
    ∃ sg', group_at c' g = Some sg' ∧ N sg' = N sg ∧ P (sg', cf_t c')) c.
Proof using LB.
  intros Hok Hat Hl Hm. destruct (group_at_ptr _ _ _ Hat) as (p & Hg & Hp).
  destruct (group_at_gid _ _ _ Hok Hat) as [Hgid _].
  eapply with_group_wp; [done..|]. eapply wp_mono; [exact Hm|].
  intros [] s' [(Hok' & Hgid' & HN & Hr & He) HP]. simpl in *. rewrite Hgid in He.
  destruct (group_step c g p sg s') as [H1 H2]; try done; [congruence|lia|].
  split_and!; [done..|]. exists s'.1. split_and!; [|done|by destruct s'].
  unfold group_at. simpl. rewrite Hg. simpl. by rewrite lookup_insert_eq.
Qed.

Lemma with_group_ok g sg n (m : M (@ServerGrp IService * tester) unit) c :
  config_ok c → group_at c g = Some sg → t_rng (cf_t c) + n ≤ limit →
  wp m (λ _, kept svc_tname svc_refl crand n (sg, cf_t c)) (sg, cf_t c) →
  wp (with_group g m) (λ _ c', config_ok c' ∧ others_same (P_group g) c c' ∧
    t_rng (cf_t c') = t_rng (cf_t c) + n ∧
    ∃ sg', group_at c' g = Some sg' ∧ N sg' = N sg) c.
Proof using LB.
  intros Hok Hat Hl Hm. eapply wp_mono.
  { apply (with_group_post g sg n (λ _, True)); [done..|].
    eapply wp_mono; [exact Hm|]. by intros [] s' H. }
  intros [] c' (H1 & H2 & H3 & _ & sg' & H4 & H5 & _). split_and!; [done..|]. by exists sg'.
Qed.

Lemma MakeGroupStart_ok g n c :
  config_ok c → t_rng (cf_t c) + 2 * (n * n) ≤ limit →
  wp (MakeGroupStart svc_tname svc_refl crand mks g n) (λ _ c', config_ok c' ∧
    others_same (P_group g) c c' ∧ t_rng (cf_t c') = t_rng (cf_t c) + 2 * (n * n) ∧
    ∃ sg, group_at c' g = Some sg ∧ N sg = n ∧ full (sg, cf_t c') ∧
      ∀ i, i < n → served svc_tname svc_refl (sg, cf_t c') i) c.
Proof using LB.
  intros Hok Hl. eapply wp_mono.
  { apply (MakeGroupStart_makes svc_tname svc_refl Kill crand mks limit g n c); [apply Hok|done]. }
  intros [] c' (p & sg & Hp & Hgr & Hob & Hcl & Hcn & Hr & He & Hgok & Hgid & HN & Hfull & Hs).
  assert (group_at c' g = Some sg) as Hat.
  { unfold group_at. rewrite Hgr, lookup_insert_eq. simpl. by rewrite Hob, lookup_insert_eq. }
  destruct (config_step (P_group g) c c') as [H1 H2]; [done|..].
  - intros [g'|q] HY; simpl.
    + f_equal. unfold group_at. rewrite Hgr, lookup_insert_ne by congruence.
      destruct (cf_grps c !! g') as [p'|] eqn:Hg'; [|done]. simpl.
      destruct (co_grps _ Hok _ _ Hg') as [sg' Hsg'].
      rewrite Hob, lookup_insert_ne; [done|]. intros <-. congruence.
    + f_equal. unfold clerk_at. by rewrite Hcl, Hcn.
  - eapply effect_weaken; [..|exact He]; [done| |by right].
    intros x (o & Ho & Hx). simpl in Ho. rewrite Hat in Ho. by injection Ho as <-.
  - intros o Ho. simpl in Ho. rewrite Hat in Ho. by injection Ho as <-.
  - intros g' p' Hg'. rewrite Hgr in Hg'. rewrite Hob. apply lookup_insert_is_Some.
    destruct (decide (p = p')) as [|Hne]; [by left|right]. split; [done|].
    apply lookup_insert_Some in Hg' as [[_ ?]|[_ Hg']]; [done|]. by apply (co_grps _ Hok g').
  - rewrite Hcl, Hcn. apply Hok.
  - lia.
  - split_and!; [done|done|done|]. by exists sg.
Qed.

Lemma ExitGroup_ok g sg c :
  config_ok c → group_at c g = Some sg → t_rng (cf_t c) ≤ limit →
  wp (ExitGroup Kill g) (λ _ c', config_ok c' ∧ others_same (P_group g) c c' ∧
    t_rng (cf_t c') = t_rng (cf_t c) ∧ group_at c' g = None) c.
Proof using LB.
  intros Hok Hat Hl. destruct (group_at_ptr _ _ _ Hat) as (p & Hg & Hp).
  destruct (group_at_gid _ _ _ Hok Hat) as [Hgid Hgok].
  assert (wp (_ ← with_group g (Shutdown Kill); on_groups (Groups_delete g)) (λ _ c',
    config_ok c' ∧ others_same (P_group g) c c' ∧ t_rng (cf_t c') = t_rng (cf_t c) ∧
    group_at c' g = None) c) as H.
  { apply wp_bind. eapply with_group_wp; [done..|].
    eapply wp_mono; [by apply (Shutdown_kept svc_tname svc_refl Kill crand mks limit)|].
    intros [] s' (Hok' & Hgid' & HN & Hr & He). simpl in *. rewrite Nat.add_0_r in Hr.
    unfold wp, on_groups, Groups_delete, modify. simpl.
    set (c' := mkConfig _ _ _ _ _ _ _ _ _ _ _).
    assert (group_at c' g = None) as Hat' by (unfold group_at; simpl; by rewrite lookup_delete_eq).
    rewrite Hgid in He.
    destruct (config_step (P_group g) c c') as [H1 H2]; [done|..].
    - intros [g'|q] HY; simpl; [|done]. f_equal. unfold group_at. simpl.
      rewrite lookup_delete_ne by congruence.
      destruct (cf_grps c !! g') as [p'|] eqn:Hg'; [|done]. simpl.
      rewrite lookup_insert_ne; [done|]. intros <-. apply HY. f_equal.
      assert (group_at c g' = Some sg) as Hat2 by (unfold group_at; by rewrite Hg').
      apply group_at_gid in Hat2; [|done]. naive_solver.
    - eapply effect_weaken; [..|exact He]; [| |by right].
      + intros x Hx. exists (inl sg). simpl. by rewrite Hat.
      + intros x (o & Ho & Hx). simpl in Ho. by rewrite Hat' in Ho.
    - intros o Ho. simpl in Ho. by rewrite Hat' in Ho.
    - intros g' p' Hg'. simpl in *. apply lookup_insert_is_Some.
      destruct (decide (p = p')) as [|Hne]; [by left|right]. split; [done|].
      apply lookup_delete_Some in Hg' as [_ Hg']. by apply (co_grps _ Hok g').
    - apply Hok.
    - simpl. lia.
    - done. }
  revert H. unfold with_group, ExitGroup, wp, mbind, M_bind, Group, on_groups, lookupGroup, gets.
  simpl. rewrite Hg. simpl. rewrite Hp. by destruct (Shutdown Kill (sg, cf_t c)) as [[[] []]|?|?|].
Qed.

(** *** Clerks *)

Definition set_clerk (q : nat) (s : cst) (c : Config) : Config :=
  mkConfig _ _ _ _ s.2 (cf_grps c) (cf_objs c) (cf_clerks c) (<[q := s.1]> (cf_clnts c))
    (rpcs0 c) (ops c).

Lemma clerk_at_ptr c q ck :
  clerk_at c q = Some ck → q ∈ default ∅ (cf_clerks c) ∧ cf_clnts c !! q = Some ck.
Proof. unfold clerk_at. by case_decide. Qed.

Lemma clerk_at_wfc c q ck : config_ok c → clerk_at c q = Some ck → wfc (ck, cf_t c).
Proof.
  intros Hok Hq. assert (part_at c (P_clerk q) = Some (inr ck)) as Hp by (simpl; by rewrite Hq).
  apply (co_part _ Hok _ _ Hp).
Qed.

Lemma with_clerk_wp {A} q ck (m : M cst A) c Q :
  clerk_at c q = Some ck → wp m (λ a s, Q a (set_clerk q s c)) (ck, cf_t c) →
  wp (on_clnts (on_clnt q m)) Q c.
Proof.
  intros [_ Hq]%clerk_at_ptr. unfold wp, on_clnts, on_clnt. simpl. rewrite Hq.
  by destruct (m (ck, cf_t c)) as [[a [ck' t']]|?|?|].
Qed.

Lemma set_clerk_at c q ck s : clerk_at c q = Some ck → clerk_at (set_clerk q s c) q = Some s.1.
Proof.
  intros [Hin _]%clerk_at_ptr. unfold clerk_at. simpl. rewrite decide_True by done.
  by rewrite lookup_insert_eq.
Qed.

Lemma clerk_step c q ck s' :
  config_ok c → clerk_at c q = Some ck →
  effect (owns_c ck) (owns_c s'.1) None (cf_t c) s'.2 → wfc s' → t_rng s'.2 ≤ limit →
  config_ok (set_clerk q s' c) ∧ others_same (P_clerk q) c (set_clerk q s' c).
Proof using LB.
  intros Hok Hat He Hwf Hl. pose proof (set_clerk_at c q ck s' Hat) as Hat'.
  set (c' := set_clerk q s' c) in *. apply config_step; [done|..|done].
  - intros [g|q'] HY; simpl; [done|]. f_equal. unfold clerk_at. simpl.
    case_decide; [|done]. by rewrite lookup_insert_ne by congruence.
  - eapply effect_weaken; [..|exact He]; [|..|by left].
    + intros x Hx. exists (inr ck). simpl. by rewrite Hat.
    + intros x (o & Ho & Hx). simpl in Ho. rewrite Hat' in Ho. by injection Ho as <-.
  - intros o Ho. simpl in Ho. rewrite Hat' in Ho. injection Ho as <-. simpl. by destruct s'.
  - apply Hok.
  - intros q' Hq'. simpl in *. apply lookup_insert_is_Some.
    destruct (decide (q = q')) as [|Hne]; [by left|right]. split; [done|]. by apply Hok.
Qed.

Lemma own_flags_effect (s s' : cst) :
  own_flags s s' → effect (owns_c s.1) (owns_c s'.1) None s.2 s'.2.
Proof.
  intros [H1 H2 H3 [= R1 _ _ _ _ R3 R4 R5] H5]. split.
  - by rewrite R5.
  - intros Hu x. rewrite H2, R5. apply Hu.
  - intros x (a & e & Ha & <-). left. exists a, e. by rewrite <-H1.
  - intros x Hx _. unfold same_end, connection. rewrite H2, H3. split_and!; [done| |done].
    apply H5. intros a e Ha [= ->]. apply Hx. by exists a, e.
  - intros n _. unfold server_at. by rewrite R1.
  - by rewrite R3.
  - intros q. by rewrite R4.
Qed.

Lemma makeEnd_effect server (s : cst) :
  names_used s.2 → fresh_names crand s.2 1 →
  wp (makeEnd crand server) (λ _ s', effect (owns_c s.1) (owns_c s'.1) None s.2 s'.2 ∧
    t_rng s'.2 ≤ t_rng s.2 + 1 ∧ net_flags (t_net s'.2) = net_flags (t_net s.2) ∧
    servers (t_net s'.2) = servers (t_net s.2) ∧ t_labs s'.2 = t_labs s.2 ∧
    t_env s'.2 = t_env s.2) s.
Proof.
  intros Hu [_ Hfr]. unfold makeEnd. apply wp_bind, wp_gets. simpl.
  destruct (c_ends s.1 !! server) as [e|] eqn:He.
  { apply wp_mret. split; [apply effect_refl|]. split; [lia|done]. }
  set (x := Randstring 20 (crand (t_rng s.2) 40)) in *.
  specialize (Hfr x ltac:(simpl; left)).
  unfold wp, net_do, draw, at_net, upd_net, MakeEnd, enable, set_clnt, mbind, M_bind. simpl.
  fold x. rewrite Hfr. simpl. split_and!; [|lia|done..].
  assert (new_name crand s.2 (mkTester (t_net s.2) (t_labs s.2) (t_env s.2) (S (t_rng s.2))) x)
    as Hnew by (exists (t_rng s.2); simpl; split; [lia|done]).
  split; simpl; [lia| | | |done..].
  - intros _ y. simpl. rewrite lookup_insert_is_Some.
    intros [[= <-]|[_ Hy]]; [exists (t_rng s.2); split; [lia|done]|].
    destruct (Hu y Hy) as (k & Hk & ->). exists k. split; [lia|done].
  - intros y (a & e & Ha & <-). simpl in Ha.
    apply lookup_insert_Some in Ha as [[_ <-]|[_ Ha]]; [by right|left]. by exists a, e.
  - intros y _ Hy. unfold same_end, is_enabled, connection. simpl.
    assert (Some (NStr x) ≠ Some (NStr y)) by (intros [= <-]; by apply Hy).
    by rewrite !lookup_insert_ne.
Qed.

(** What a test or a call does with a clerk. *)
Inductive clerk_call :=
  | k_makeEnd (server : string) | k_ConnectAll | k_ConnectTo (srvs : option (list string))
  | k_Disconnect (srv : string) | k_DisconnectAll.

Definition do_clerk_call (k : clerk_call) : M cst unit :=
  match k with
  | k_makeEnd server => _ ← makeEnd crand server; mret tt
  | k_ConnectAll => ConnectAll
  | k_ConnectTo l => ConnectTo l
  | k_Disconnect srv => Disconnect srv
  | k_DisconnectAll => DisconnectAll
  end.
Definition clerk_draws (k : clerk_call) : nat := match k with k_makeEnd _ => 1 | _ => 0 end.

Lemma becomes_effect r (s s' : cst) :
  becomes s r s' →
  wfc s' ∧ effect (owns_c s.1) (owns_c s'.1) None s.2 s'.2 ∧ t_rng s'.2 ≤ t_rng s.2.
Proof.
  intros (Hwf & Hown & _). split; [done|]. split; [by apply own_flags_effect|].
  pose proof (of_rest _ _ Hown) as [= _ _ _ _ _ _ _ Hr]. lia.
Qed.

Lemma clerk_call_effect k (s : cst) :
  wfc s → names_used s.2 → t_rng s.2 + clerk_draws k ≤ limit →
  wp (do_clerk_call k) (λ _ s', wfc s' ∧ effect (owns_c s.1) (owns_c s'.1) None s.2 s'.2 ∧
    t_rng s'.2 ≤ t_rng s.2 + clerk_draws k) s.
Proof using LB.
  intros Hwf Hu Hl. destruct k; simpl in *; rewrite ?Nat.add_0_r.
  - pose proof (fresh_supply Kill crand mks limit s.2 1 Hu Hl) as Hfr.
    apply wp_bind. eapply wp_mono; [apply wp_and; [by apply (makeEnd_effect server)|
      by apply (makeEnd_correct crand s server)]|].
    intros e s' [(He & Hr & _) [Hwf' _]]. by apply wp_mret.
  - eapply wp_mono; [by apply ConnectAll_reach|]. intros []. by eapply becomes_effect.
  - eapply wp_mono; [by apply ConnectTo_reach|]. intros []. by eapply becomes_effect.
  - eapply wp_mono; [by apply Disconnect_reach|]. intros []. by eapply becomes_effect.
  - eapply wp_mono; [by apply DisconnectAll_reach|]. intros []. by eapply becomes_effect.
Qed.

Lemma with_clerk_ok q ck k c :
  config_ok c → clerk_at c q = Some ck → t_rng (cf_t c) + clerk_draws k ≤ limit →
  wp (on_clnts (on_clnt q (do_clerk_call k))) (λ _ c', config_ok c' ∧
    others_same (P_clerk q) c c' ∧ t_rng (cf_t c') ≤ t_rng (cf_t c) + clerk_draws k) c.
Proof using LB.
  intros Hok Hat Hl. eapply with_clerk_wp; [done|].
  eapply wp_mono; [apply clerk_call_effect; [by eapply clerk_at_wfc|apply Hok|done]|].
  intros [] s' (Hwf & He & Hr). simpl in *.
  destruct (clerk_step c q ck s') as [H1 H2]; [done|done|done|done|lia|done].
Qed.

Lemma MakeClientTo_ok srvs c :
  config_ok c → is_Some (cf_clerks c) → t_rng (cf_t c) ≤ limit →
  wp (on_clnts (MakeClientTo srvs)) (λ q c', config_ok c' ∧ others_same (P_clerk q) c c' ∧
    cf_t c' = cf_t c ∧ clerk_at c q = None ∧ clerk_at c' q = Some (makeClntTo srvs) ∧
    is_Some (cf_clerks c')) c.
Proof using LB.
  intros Hok [cs Hcs] Hl. unfold wp, on_clnts, MakeClientTo. simpl. rewrite Hcs. simpl.
  set (q := fresh (dom (cf_clnts c))). set (c' := mkConfig _ _ _ _ _ _ _ _ _ _ _).
  assert (cf_clnts c !! q = None) as Hq by apply not_elem_of_dom, is_fresh.
  assert (clerk_at c q = None) as Hat by (unfold clerk_at; by case_decide).
  assert (clerk_at c' q = Some (makeClntTo srvs)) as Hat'.
  { unfold clerk_at. simpl. rewrite decide_True by set_solver. by rewrite lookup_insert_eq. }
  destruct (config_step (P_clerk q) c c') as [H1 H2]; [done|..|by split_and!].
  - intros [g|q'] HY; simpl; [done|]. f_equal. unfold clerk_at. simpl. rewrite Hcs. simpl.
    assert (q ≠ q') by congruence. destruct (decide (q' ∈ cs)) as [Hin|Hni].
    + by rewrite decide_True, lookup_insert_ne by set_solver.
    + by rewrite decide_False by set_solver.
  - eapply effect_weaken; [..|apply (effect_refl crand (λ _, False))]; [done| |by left].
    intros x (o & Ho & Hx). simpl in Ho. rewrite Hat' in Ho. injection Ho as <-.
    destruct Hx as (a & e & Ha & _). simpl in Ha. by rewrite lookup_empty in Ha.
  - intros o Ho. simpl in Ho. rewrite Hat' in Ho. injection Ho as <-. simpl.
    split; simpl; intros a; intros; by rewrite lookup_empty in *.
  - apply Hok.
  - intros q' Hq'. simpl in *. apply lookup_insert_is_Some. destruct (decide (q = q')) as [|Hne];
      [by left|right]. split; [done|]. apply Hok. rewrite Hcs. simpl. set_solver.
  - done.
Qed.

Lemma remove_effect (s : cst) :
  wfc s → wp remove (λ _ s', s'.1 = s.1 ∧
    effect (owns_c s.1) (λ _, False) None s.2 s'.2 ∧ t_rng s'.2 = t_rng s.2) s.
Proof.
  intros Hwf. eapply wp_mono; [by apply remove_correct|].
  intros [] s' (Hc & [= R1 _ _ _ _ R3 R4 R5] & Hdel & Hoth). split; [done|]. split; [|done].
  assert (∀ x, ¬ owns_c s.1 x → same_end x s.2 s'.2) as Hsame.
  { intros x Hx. apply Hoth. intros a e Ha [= ->]. apply Hx. by exists a, e. }
  split; [by rewrite R5| |done|by intros x Hx _; apply Hsame| |by rewrite R3|].
  - intros Hu x Hx. rewrite R5. apply Hu.
    assert (¬ owns_c s.1 x) as Ho.
    { intros (a & e & Ha & <-). rewrite (proj1 (Hdel a e Ha)) in Hx. by destruct Hx. }
    by rewrite <-(proj1 (Hsame x Ho)).
  - intros n _. unfold server_at. by rewrite R1.
  - intros q. by rewrite R4.
Qed.

Lemma DeleteClient_ok q c :
  config_ok c → t_rng (cf_t c) ≤ limit →
  wp (on_clnts (DeleteClient q)) (λ _ c', config_ok c' ∧ others_same (P_clerk q) c c' ∧
    t_rng (cf_t c') = t_rng (cf_t c) ∧ clerk_at c' q = None) c.
Proof using LB.
  intros Hok Hl. destruct (clerk_at c q) as [ck|] eqn:Hat.
  - destruct (clerk_at_ptr _ _ _ Hat) as [Hin Hq].
    destruct (cf_clerks c) as [cs|] eqn:Hcs; [|by apply elem_of_empty in Hin]. simpl in Hin.
    pose proof (remove_effect (ck, cf_t c) (clerk_at_wfc _ _ _ Hok Hat)) as H.
    unfold wp, on_clnts, DeleteClient, on_clnt, gets, mbind, M_bind in *. simpl. rewrite Hcs.
    rewrite bool_decide_true by done. simpl. rewrite Hq.
    destruct (remove (ck, cf_t c)) as [[[] [ck' t']]|?|?|]; try done. simpl in *.
    destruct H as (-> & He & Hr). set (c' := mkConfig _ _ _ _ _ _ _ _ _ _ _).
    assert (clerk_at c' q = None) as Hat'.
    { unfold clerk_at. simpl. rewrite decide_False by set_solver. done. }
    destruct (config_step (P_clerk q) c c') as [H1 H2]; [done|..|by split_and!].
    + intros [g|q'] HY; simpl; [done|]. f_equal. unfold clerk_at. simpl. rewrite Hcs. simpl.
      assert (q ≠ q') by congruence. destruct (decide (q' ∈ cs)) as [Hin'|Hni].
      * by rewrite decide_True, lookup_insert_ne by set_solver.
      * by rewrite decide_False by set_solver.
    + eapply effect_weaken; [..|exact He]; [| |by left].
      * intros x Hx. exists (inr ck). simpl. by rewrite Hat.
      * intros x (o & Ho & _). simpl in Ho. by rewrite Hat' in Ho.
    + intros o Ho. simpl in Ho. by rewrite Hat' in Ho.
    + apply Hok.
    + intros q' Hq'. simpl in *. apply lookup_insert_is_Some. destruct (decide (q = q')) as [|Hne];
        [by left|right]. split; [done|]. apply Hok. rewrite Hcs. simpl. set_solver.
    + simpl. lia.
  - assert (wp (on_clnts (DeleteClient q)) (λ _ c', c' = c) c) as H.
    { unfold clerk_at in Hat. unfold wp, on_clnts, DeleteClient, gets, mbind, M_bind. simpl.
      destruct (cf_clerks c) as [cs|] eqn:Hcs; simpl; [|by destruct c; simpl in *; subst].
      rewrite bool_decide_false; [simpl; destruct c; simpl in *; by subst|].
      intros Hin. rewrite decide_True in Hat by done.
      destruct (co_clerks _ Hok q) as [ck Hck]; [by rewrite Hcs|]. congruence. }
    eapply wp_mono; [exact H|]. intros [] c' ->. split_and!; [done| |done|done].
    intros Y _. split; [done|]. by intros [sg|ck].
Qed.

(** *** The switches of the network *)

Lemma flags_ok (f : Network → Network) c :
  config_ok c → t_rng (cf_t c) ≤ limit →
  (∀ rn, ends (f rn) = ends rn ∧ enabled (f rn) = enabled rn ∧ connections (f rn) = connections rn ∧
     servers (f rn) = servers rn) →
  wp (on_net (λ rn, Ret (tt, f rn))) (λ _ c', config_ok c' ∧ (∀ X, others_same X c c') ∧
    t_rng (cf_t c') = t_rng (cf_t c) ∧ (∀ X, part_at c' X = part_at c X) ∧
    ∀ X o, part_at c X = Some o → same_links o (cf_t c) (cf_t c')) c.
Proof using LB.
  intros Hok Hl Hf. unfold wp, on_net, on_groups, w_tester, at_net. simpl.
  destruct (Hf (t_net (cf_t c))) as (H1 & H2 & H3 & H4).
  set (c' := mkConfig _ _ _ _ _ _ _ _ _ _ _).
  assert (∀ Y, part_at c' Y = part_at c Y) as Hp by by intros [].
  assert (∀ X, effect (owns_at c X) (owns_at c' X) (gid_of X) (cf_t c) (cf_t c')) as He.
  { intros X. split; simpl; try done.
    - intros Hu x. simpl. rewrite H1. apply Hu.
    - intros x (o & Ho & Hx). left. exists o. by rewrite <-Hp.
    - intros x _ _. unfold same_end, is_enabled, connection. simpl. by rewrite H1, H2, H3.
    - intros n _. unfold server_at. by rewrite H4. }
  assert (∀ X o, part_at c X = Some o →
    obj_ok (cf_t c') X o ∧ same_links o (cf_t c) (cf_t c')) as Hall.
  { intros X o Ho. eapply (obj_other (λ _, False) (λ _, False) None);
      [by apply co_part|apply Hok| |exact Hl|by intros x _ []|done].
    split; simpl; try done.
    - intros Hu x. simpl. rewrite H1. apply Hu.
    - intros x _ _. unfold same_end, is_enabled, connection. simpl. by rewrite H1, H2, H3.
    - intros n _. unfold server_at. by rewrite H4. }
  assert (∀ X, config_ok c' ∧ others_same X c c') as Hx.
  { intros X. apply config_step; [done|by intros Y _|done| |apply Hok|apply Hok|done].
    intros o Ho. rewrite Hp in Ho. by apply Hall. }
  split_and!; [by apply (Hx (P_clerk 0))|apply Hx|done|done|]. intros X o Ho. by apply (Hall X).
Qed.

(** *** The counters of the test *)

Lemma stat_ok c r o :
  config_ok c → config_ok (set_stat r o c) ∧ (∀ X, part_at (set_stat r o c) X = part_at c X) ∧
  ∀ ob, same_links ob (cf_t c) (cf_t (set_stat r o c)).
Proof.
  intros [H1 H2 H3 H4 H5]. assert (∀ X, part_at (set_stat r o c) X = part_at c X) as Hp
    by by intros [].
  split_and!; [|done|by intros []]. split; [done|done|done| |].
  - intros X ob. rewrite Hp. apply H4.
  - intros X Y x HX HY. apply (H5 X Y x).
    + destruct HX as (ob & Hob & ?). exists ob. by rewrite <-Hp.
    + destruct HY as (ob & Hob & ?). exists ob. by rewrite <-Hp.
Qed.

(** ** All calls *)

(** What a test may call on its configuration. *)
Inductive config_call :=
  | w_group (g : Tgid) (gc : group_call) | w_start (g : Tgid) (n : nat) | w_exit (g : Tgid)
  | w_client (srvs : option (list string)) | w_clerk (q : nat) (k : clerk_call) | w_delete (q : nat)
  | w_reliable (b : bool) | w_longReordering (b : bool) | w_longDelays (b : bool)
  | w_Begin | w_Op.

Definition do_config_call (call : config_call) : K unit :=
  match call with
  | w_group g gc => with_group g (do_call svc_tname svc_refl Kill crand mks gc)
  | w_start g n => MakeGroupStart svc_tname svc_refl crand mks g n
  | w_exit g => ExitGroup Kill g
  | w_client srvs => _ ← on_clnts (MakeClientTo srvs); mret tt
  | w_clerk q k => on_clnts (on_clnt q (do_clerk_call k))
  | w_delete q => on_clnts (DeleteClient q)
  | w_reliable b => SetReliable b
  | w_longReordering b => SetLongReordering b
  | w_longDelays b => SetLongDelays b
  | w_Begin => Begin
  | w_Op => Op
  end.

(** The groups, servers and clerks it names exist. *)
Definition config_call_ok (c : Config) (call : config_call) : Prop :=
  match call with
  | w_group g gc => ∃ sg, group_at c g = Some sg ∧ call_ok (N sg) gc
  | w_exit g => is_Some (group_at c g)
  | w_clerk q _ => is_Some (clerk_at c q)
  | w_client _ => is_Some (cf_clerks c)
  | _ => True
  end.

(** At most so many random names it draws. *)
Definition config_draws (c : Config) (call : config_call) : nat :=
  match call with
  | w_group g gc => match group_at c g with Some sg => draws (N sg) gc | None => 0 end
  | w_start _ n => 2 * (n * n)
  | w_clerk _ k => clerk_draws k
  | _ => 0
  end.

(** The part of the test that it is about. *)
Definition about (call : config_call) : option part :=
  match call with
  | w_group g _ | w_start g _ | w_exit g => Some (P_group g)
  | w_clerk q _ | w_delete q => Some (P_clerk q)
  | _ => None
  end.

(** The parts that [call] is not about are the same objects with the same links. *)
Definition rest_same (call : config_call) (c c' : Config) : Prop :=
  ∀ Y o, about call ≠ Some Y → part_at c Y = Some o →
    part_at c' Y = Some o ∧ same_links o (cf_t c) (cf_t c').

Lemma others_rest call X c c' :
  others_same X c c' → about call = Some X ∨ part_at c X = None → rest_same call c c'.
Proof.
  intros Ho Hx Y o HY Hat. destruct (Ho Y) as [Hp Hl].
  { intros ->. destruct Hx; congruence. }
  rewrite Hp. split; [done|by apply Hl].
Qed.

Lemma config_call_wp call c :
  config_ok c → config_call_ok c call → t_rng (cf_t c) + config_draws c call ≤ limit →
  wp (do_config_call call) (λ _ c', config_ok c' ∧ rest_same call c c' ∧
    t_rng (cf_t c') ≤ t_rng (cf_t c) + config_draws c call) c.
Proof using LB.
  intros Hok Hv Hl.
  assert (∀ f, (∀ rn, ends (f rn) = ends rn ∧ enabled (f rn) = enabled rn ∧
    connections (f rn) = connections rn ∧ servers (f rn) = servers rn) →
    about call = None → wp (on_net (λ rn, Ret (tt, f rn))) (λ _ c', config_ok c' ∧
      rest_same call c c' ∧ t_rng (cf_t c') ≤ t_rng (cf_t c) + config_draws c call) c) as Hflags.
  { intros f Hf _. eapply wp_mono; [by apply flags_ok; [|lia|]|].
    intros [] c' (H1 & _ & H3 & H4 & H5). split_and!; [done| |lia].
    intros Y o _ Ho. rewrite H4. split; [done|by apply (H5 Y)]. }
  destruct call as [g gc|g n|g|srvs|q k|q|b|b|b| |]; simpl in *.
  - destruct Hv as (sg & Hat & Hgc). rewrite Hat in *.
    eapply wp_mono; [eapply (with_group_ok g sg); [done|done|exact Hl|]|].
    + apply (call_kept svc_tname svc_refl Kill crand mks limit); [by apply (group_at_gid c g)|done|done].
    + intros [] c' (H1 & H2 & H3 & _). split_and!; [done| |lia].
      eapply others_rest; [done|by left].
  - eapply wp_mono; [by apply MakeGroupStart_ok|].
    intros [] c' (H1 & H2 & H3 & _). split_and!; [done| |lia]. eapply others_rest; [done|by left].
  - destruct Hv as [sg Hat]. eapply wp_mono; [eapply ExitGroup_ok; [done|done|lia]|].
    intros [] c' (H1 & H2 & H3 & _). split_and!; [done| |lia]. eapply others_rest; [done|by left].
  - apply wp_bind. eapply wp_mono; [apply MakeClientTo_ok; [done|done|lia]|].
    intros q c' (H1 & H2 & H3 & H4 & _ & _). apply wp_mret. split_and!; [done| |by rewrite H3; lia].
    eapply others_rest; [done|]. right. simpl. by rewrite H4.
  - destruct Hv as [ck Hat]. eapply wp_mono; [by eapply with_clerk_ok|].
    intros [] c' (H1 & H2 & H3). split_and!; [done| |done]. eapply others_rest; [done|by left].
  - eapply wp_mono; [apply DeleteClient_ok; [done|lia]|].
    intros [] c' (H1 & H2 & H3 & _). split_and!; [done| |lia]. eapply others_rest; [done|by left].
  - by apply Hflags.
  - by apply Hflags.
  - by apply Hflags.
  - destruct (stat_ok c (RpcTotal c) 0 Hok) as (H1 & H2 & H3). split_and!; [done| |simpl; lia].
    by intros Y o _ Ho; split; [rewrite H2|apply H3].
  - destruct (stat_ok c (rpcs0 c) (wrap_i32 (ops c + 1)) Hok) as (H1 & H2 & H3).
    split_and!; [done| |simpl; lia]. by intros Y o _ Ho; split; [rewrite H2|apply H3].
Qed.

(** ** From the start of a test *)

Definition config0 (e : store * W) (rng : nat) : Config :=
  mkConfig _ _ _ _ (mkTester MakeNetwork ∅ e rng) ∅ ∅ (Some ∅) ∅ 0 0.

Lemma config0_part e rng X : part_at (config0 e rng) X = None.
Proof.
  destruct X as [g|q]; simpl.
  - unfold group_at. simpl. by rewrite lookup_empty.
  - unfold clerk_at. simpl. by rewrite decide_False by apply not_elem_of_empty.
Qed.

Lemma config0_ok e rng : config_ok (config0 e rng).
Proof.
  split; simpl.
  - by intros x [? ?].
  - intros g p Hg. by rewrite lookup_empty in Hg.
  - intros q Hq. by apply elem_of_empty in Hq.
  - intros X o Ho. by rewrite config0_part in Ho.
  - intros X Y x (o & Ho & _). by rewrite config0_part in Ho.
Qed.

Lemma MakeConfig_ok n rel e rng :
  rng + 2 * (n * n) ≤ limit →
  ∃ c, MakeConfig svc_tname svc_refl crand mks n rel e rng = Ret c ∧ config_ok c ∧
    t_rng (cf_t c) ≤ limit ∧ reliable (t_net (cf_t c)) = rel ∧
    ∃ sg, group_at c GRP0 = Some sg ∧ N sg = n ∧ full (sg, cf_t c) ∧
      ∀ i, i < n → served svc_tname svc_refl (sg, cf_t c) i.
Proof using LB.
  intros Hl. pose proof (MakeGroupStart_ok GRP0 n (config0 e rng) (config0_ok e rng) Hl) as H.
  unfold wp in H. unfold MakeConfig, mbind, M_bind, outcome_bind. fold (config0 e rng).
  destruct (MakeGroupStart _ _ _ _ _ _ (config0 e rng)) as [[[] c]|?|?|]; try done.
  destruct H as (Hok & _ & Hr & sg & Hat & HN & Hfull & Hs). simpl in Hr.
  pose proof (flags_ok (Reliable rel) c Hok ltac:(lia) ltac:(by intros rn; split_and!)) as Hf.
  unfold wp in Hf. simpl in Hf |- *. set (c' := mkConfig _ _ _ _ _ _ _ _ _ _ _) in *.
  destruct Hf as (Hok' & _ & Hr' & Hp & Hlk). exists c'. split_and!; [done|done|simpl; lia|done|].
  exists sg.
  assert (part_at c (P_group GRP0) = Some (inl sg)) as Hpc by (simpl; by rewrite Hat).
  assert (group_at c' GRP0 = Some sg) as Hat' by exact Hat.
  split_and!; [done|done| |done]. intros a b Ha Hb.
  change (is_on (sg, cf_t c') a b = true). rewrite (Hlk _ _ Hpc). by apply Hfull.
Qed.

(** The configurations of a test. *)
Inductive config_reachable : Config → Prop :=
  | cr_make n rel e c :
      2 * (n * n) ≤ limit → MakeConfig svc_tname svc_refl crand mks n rel e 0 = Ret c →
      config_reachable c
  | cr_call c call c' :
      config_reachable c → config_call_ok c call →
      t_rng (cf_t c) + config_draws c call ≤ limit → do_config_call call c = Ret (tt, c') →
      config_reachable c'.

Lemma config_reachable_ok c : config_reachable c → config_ok c.
Proof using LB.
  induction 1 as [n rel e c Hl Hc|c call c' _ IH Hv Hl Hc].
  - destruct (MakeConfig_ok n rel e 0 Hl) as (c' & Hc' & Hok & _). congruence.
  - pose proof (config_call_wp call c IH Hv Hl) as H. unfold wp in H. rewrite Hc in H. apply H.
Qed.

(** C5: a test cannot get stuck and its parts do not disturb one another.  Whatever
    groups and clerks a test has made, started, stopped, partitioned, connected
    and deleted since [MakeConfig], its configuration is in order, and every
    further call about parts that exist succeeds, leads to a configuration in
    order, and leaves every part that it is not about as it was: the same servers
    with the same links, the same clerk that reaches the same servers. *)
Theorem config_safe (c : Config) (call : config_call) :
  config_reachable c → config_call_ok c call →
  t_rng (cf_t c) + config_draws c call ≤ limit →
  config_ok c ∧ ∃ c', do_config_call call c = Ret (tt, c') ∧ config_ok c' ∧ rest_same call c c'.
Proof using LB.
  intros Hr%config_reachable_ok Hv Hl. split; [done|].
  pose proof (config_call_wp call c Hr Hv Hl) as H. unfold wp in H.
  destruct (do_config_call call c) as [[[] c']|?|?|]; try done. exists c'. by destruct H as (? & ? & _).
Qed.

(** ** Calls of a clerk *)

Section rpc.
Context `{GL : !GobLaws V Ty}.

(** Where the end of a clerk leads. *)
Lemma reached_end (s : cst) a e :
  wfc s → c_ends s.1 !! a = Some e →
  end_end e = mkClientEnd (Some (NStr (end_name e))) ∧
  connection (t_net s.2) (Some (NStr (end_name e))) = Some (NStr a) ∧
  is_enabled (t_net s.2) (Some (NStr (end_name e))) = reach s a.
Proof.
  intros Hwf Ha. destruct (wc_net _ Hwf a e Ha) as (_ & H1 & H2).
  split_and!; [done|done|]. unfold reach. by rewrite Ha.
Qed.

(** [Clnt.Call] finds or makes the end to the server and encodes the arguments. *)
Lemma Call_end (s : cst) srv meth b (v : V) :
  wfc s → names_used s.2 → t_rng s.2 + 1 ≤ limit → (gob_encode v).2 = true →
  wp (Clnts.Call crand srv meth (b, v)) (λ req s', ∃ e, wfc s' ∧
    c_ends s'.1 !! srv = Some e ∧ Call_request (end_end e) meth (b, v) = Ret req ∧
    (∀ a, reach s' a = reach s a) ∧ effect (owns_c s.1) (owns_c s'.1) None s.2 s'.2 ∧
    t_rng s'.2 ≤ t_rng s.2 + 1 ∧ net_flags (t_net s'.2) = net_flags (t_net s.2) ∧
    t_env s'.2 = t_env s.2) s.
Proof using LB.
  intros Hwf Hu Hl Henc.
  pose proof (fresh_supply Kill crand mks limit s.2 1 Hu Hl) as Hfr.
  apply wp_bind. eapply wp_mono; [apply wp_and;
    [by apply (makeEnd_effect srv)|by apply (makeEnd_correct crand s srv)]|].
  intros e s' [(He & Hr & Hfl & _ & _ & Henv) (Hwf' & Hend & _ & Hreach & _)].
  assert (∃ req, Call_request (end_end e) meth (b, v) = Ret req) as [req Hreq].
  { unfold Call_request. simpl. destruct (gob_encode v) as [qb good]. simpl in Henc. subst. by eexists. }
  unfold wp, lift. rewrite Hreq. exists e. by split_and!.
Qed.

(** C6: a clerk's [Call] is a call of the server's method.  In every
    configuration that a test can reach, if the clerk may reach the server, the
    network is reliable and the server runs services of different types, then
    [Call] makes its end if it has none and sends its request without a panic;
    the parts of the test stay in order and the others as they were; the request
    can complete, and every schedule that completes it gives the value that the
    method returns, with the method's effect. *)
Theorem clerk_rpc (c : Config) (q : nat) (ck : Clnt) (g : Tgid) (sg : @ServerGrp IService)
    (b : nat) (sb : @ServerGroup.Server IService) (svc : IService) (meth : string)
    (method : Method) (recv : bool * Ty) (b1 b2 : bool) (v rv : V) (w' : W) :
  config_reachable c → clerk_at c q = Some ck → group_at c g = Some sg →
  reach (ck, cf_t c) (ServerName g b) = true → t_rng (cf_t c) + 1 ≤ limit →
  done_closed (t_net (cf_t c)) = false → reliable (t_net (cf_t c)) = true →
  srvs sg !! b = Some sb → Some svc ∈ svcs sb → NoDup (option_map svc_tname <$> svcs sb) →
  has_byte dot_byte meth = false →
  svc_methods (MakeService (svc_tname svc) (svc_refl svc)) !! meth = Some method →
  m_in method = [recv; (b1, type_of v); (b2, type_of rv)] →
  m_func method (t_env (cf_t c)).2 v (zero_of (type_of rv)) = Ret (w', rv) →
  (gob_encode v).2 = true → (gob_encode rv).2 = true →
  wp (on_clnts (on_clnt q (Clnts.Call crand (ServerName g b) (svc_tname svc +:+ String dot_byte meth) (b1, v))))
    (λ req c', config_ok c' ∧ others_same (P_clerk q) c c' ∧
      (∃ l s1 r, Forall (own 0) l ∧ run (A_accept 0 req :: l) (sys_of (sg, cf_t c')) = Some s1 ∧
        s_reqs s1 !! 0 = Some r ∧ answered r = true) ∧
      ∀ l s1 r rep, Forall (own 0) l → run (A_accept 0 req :: l) (sys_of (sg, cf_t c')) = Some s1 →
        s_reqs s1 !! 0 = Some r → g_pc r = P_done rep →
        Call_result rep (zero_of (type_of rv)) = Ret (true, rv) ∧ s_world s1 = w') c.
Proof using LB GL.
  intros Hok%config_reachable_ok Hck Hsg Hre Hl Hopen Hrel Hb Hin Hnd Hdot Hm Hargs Hf Hv Hrv.
  eapply with_clerk_wp; [done|].
  eapply wp_mono; [apply Call_end; [by eapply clerk_at_wfc|apply Hok|done|done]|].
  intros req s' (e & Hwf' & He & Hreq & Hreach & Heff & Hr & Hfl & Henv). simpl in Hr.
  destruct (clerk_step c q ck s' Hok Hck Heff Hwf') as [Hok' Hoth]; [lia|].
  split; [done|]. split; [done|]. clear Hok'.
  destruct (group_at_gid _ _ _ Hok Hsg) as [Hgid Hgok].
  destruct (group_other (owns_c ck) (owns_c s'.1) None sg (cf_t c) s'.2 Hgok Heff)
    as [Hgok' _]; [lia| |done|].
  { intros x Hx Hxc. assert (P_group g = P_clerk q) as Hbad; [|done].
    apply (co_own c Hok _ _ x); eexists; simpl; rewrite ?Hsg, ?Hck; by split. }
  destruct (reached_end s' _ _ Hwf' He) as (Hend & Hconn & Hen). rewrite Hreach, Hre in Hen.
  destruct (ok_served _ _ _ _ Hgok' b sb Hb) as (sb' & p & rs & Hb' & Hreg & Hat & Hlab).
  { intros H0. rewrite H0 in Hin. by apply elem_of_nil in Hin. }
  simpl in Hb', Hat, Hlab. rewrite Hgid in Hat. assert (sb' = sb) as -> by congruence.
  rewrite Hend in Hreq. injection Hfl as Hfr _ _ Hfd.
  destruct (rpc_runs_locally (sys_of (sg, s'.2)) 0 (mkClientEnd (Some (NStr (end_name e))))
    (NStr (ServerName g b)) p rs (MakeService (svc_tname svc) (svc_refl svc))
    (svc_tname svc) meth method recv b1 b2 v rv w' req) as [H1 H2]; simpl; try done.
  - by rewrite Hfd, Hopen.
  - congruence.
  - by apply (register_lookup svc_tname svc_refl (svcs sb)).
  - by rewrite Henv.
  - split; [done|]. intros l s1 r rep Hlo Hrun Hg Hrep.
    by destruct (H2 l s1 r rep Hlo Hrun Hg Hrep) as (? & ? & _).
Qed.
End rpc.
End world.

(** ** A test with two groups of two servers and two clerks *)

Section demo.
Definition ctr_call := do_config_call (λ _ : unit, "Ctr") ctr_refl ctr_kill demo_crand ctr_mks.
Definition ctr_reachable :=
  config_reachable (λ _ : unit, "Ctr") ctr_refl ctr_kill demo_crand ctr_mks 100.
Definition ctr_after (c : @Config Z unit Z unit) (call : config_call) : Config :=
  match ctr_call call c with Ret (_, c') => c' | _ => c end.
Definition ctr_c0 : Config :=
  match MakeConfig (λ _, "Ctr") ctr_refl demo_crand ctr_mks 2 true (store0, 5%Z) 0 with
  | Ret c => c
  | _ => config0 (store0, 5%Z) 0
  end.
(** One clerk for all servers, one for server 0 only. *)
Definition ctr_c2 : Config :=
  ctr_after (ctr_after ctr_c0 (w_client None)) (w_client (Some [ServerName 0 0])).
Definition ctr_c3 : Config := ctr_after ctr_c2 (w_start 7 2).

Lemma ctr_after_reachable c call :
  ctr_reachable c → config_call_ok c call → t_rng (cf_t c) + config_draws c call ≤ 100 →
  ctr_reachable (ctr_after c call).
Proof.
  intros Hr Hv Hl. pose proof (config_reachable_ok _ _ _ _ _ 100 (LB := ctr_labs) c Hr) as Hok.
  pose proof (config_call_wp (λ _, "Ctr") ctr_refl ctr_kill demo_crand ctr_mks 100
    (LB := ctr_labs) call c Hok Hv Hl) as H. unfold wp in H. fold (ctr_call call c) in H.
  unfold ctr_after. destruct (ctr_call call c) as [[[] c']|?|?|] eqn:Hc; try done.
  by eapply cr_call.
Qed.

Lemma ctr_c2_reachable : ctr_reachable ctr_c2.
Proof.
  assert (ctr_reachable ctr_c0) as H0.
  { destruct (MakeConfig_ok (λ _, "Ctr") ctr_refl ctr_kill demo_crand ctr_mks 100
      (LB := ctr_labs) 2 true (store0, 5%Z) 0 ltac:(lia)) as (c & Hc & _).
    unfold ctr_c0. rewrite Hc. by eapply cr_make; [|exact Hc]; lia. }
  apply ctr_after_reachable; [apply ctr_after_reachable; [done|..]|..].
  all: first [apply (bool_decide_unpack (is_Some (cf_clerks _))) | apply (bool_decide_unpack (_ ≤ _))];
    vm_compute; exact I.
Qed.

Lemma ctr_c3_reachable : ctr_reachable ctr_c3.
Proof.
  apply ctr_after_reachable; [apply ctr_c2_reachable|exact I|].
  apply (bool_decide_unpack (_ ≤ _)). vm_compute. exact I.
Qed.

(** The second group appears, and what the others had stays. *)
Lemma config_safe_witness :
  ∃ c', ctr_call (w_start 7 2) ctr_c2 = Ret (tt, c') ∧
    rest_same (w_start 7 2) ctr_c2 c' ∧ t_rng (cf_t ctr_c2) = 8.
Proof.
  destruct (config_safe (λ _, "Ctr") ctr_refl ctr_kill demo_crand ctr_mks 100 (LB := ctr_labs)
    ctr_c2 (w_start 7 2) ctr_c2_reachable I) as (_ & c' & H1 & _ & H3).
  - apply (bool_decide_unpack (_ ≤ _)). vm_compute. exact I.
  - exists c'. split; [exact H1|]. split; [exact H3|]. vm_compute. reflexivity.
Defined.

(** The first clerk, which has no end yet, calls server 1 of the second group. *)
Lemma clerk_rpc_witness :
  wp (on_clnts (on_clnt 0 (Clnts.Call demo_crand (ServerName 7 1) "Ctr.Add" (true, 7%Z))))
    (λ req c', ∀ l s1 r rep, Forall (own 0) l →
      run (A_accept 0 req :: l)
        (sys_of (default (mkGrp [] [] 0 []) (group_at ctr_c3 7), cf_t c')) = Some s1 →
      s_reqs s1 !! 0 = Some r → g_pc r = P_done rep →
      Call_result rep 0%Z = Ret (true, 12%Z) ∧ s_world s1 = 12%Z) ctr_c3.
Proof.
  eapply wp_mono.
  - refine (clerk_rpc (λ _, "Ctr") ctr_refl ctr_kill demo_crand ctr_mks 100 (LB := ctr_labs)
      ctr_c3 0 (mkClnt ∅ None) 7 (default (mkGrp [] [] 0 []) (group_at ctr_c3 7)) 1
      (default (mkSrv None [] [] []) (srvs (default (mkGrp [] [] 0 []) (group_at ctr_c3 7)) !! 1))
      tt "Add" ex_add (true, tt) true true 7%Z 12%Z 12%Z ctr_c3_reachable _ _ _ _ _ _ _ _ _ _ _ _ _ _ _);
      try (vm_compute; reflexivity).
    + apply (bool_decide_unpack (_ ≤ _)). vm_compute. exact I.
    + apply (bool_decide_unpack _). vm_compute. exact I.
    + apply (bool_decide_unpack _). vm_compute. exact I.
  - intros req c' (_ & _ & _ & H). exact H.
Defined.
End demo.
