(* ===== verification/Repartition.v ===== *)
(** * Repartitioning a group: [Partitioner] of [kvtest1/kvtest.go]

    The goroutine that splits the servers of a group at random, again and again,
    until the test tells it to stop. *)

From S2P Require Export GroupLife.
#[local] Set Default Proof Using "Type".

(** The sides for the draws [a]. *)
Definition Partitioner_sides (a : list Z) : list nat * list nat :=
  (filter (λ j, a !! j = Some 0%Z) (seq 0 (length a)),
   filter (λ j, a !! j = Some 1%Z) (seq 0 (length a))).

Lemma Partitioner_sides_elem a j :
  (j ∈ (Partitioner_sides a).1 ↔ a !! j = Some 0%Z) ∧
  (j ∈ (Partitioner_sides a).2 ↔ a !! j = Some 1%Z).
Proof.
  unfold Partitioner_sides. simpl. rewrite !list_elem_of_filter, elem_of_seq.
  split; (split; [by intros [? _]|]); intros Hj; (split; [done|]);
    apply lookup_lt_Some in Hj; lia.
Qed.

Section repartition.
Context {V Ty W IService : Type} `{GV : GoValues V Ty}.
Abbreviation gst := (@ServerGrp IService * @tester V Ty W)%type.
Abbreviation G := (M gst).

(** One turn; [rand i] is the result of [rand.Int()] for server [i].  It returns
    what it hands to [AnnotateTwoPartitions]. *)
Definition Partitioner_turn (rand : nat → Z) : G (list nat * list nat) :=
  n ← grp N;
  let pa := Partitioner_sides ((λ i, Z.rem (rand i) 2) <$> seq 0 n) in
  _ ← ServerGroup.Partition pa.1 pa.2;
  mret pa.

(** [turns] are the draws of the turns made before the channel had something. *)
Definition Partitioner (turns : list (nat → Z)) : G (list (list nat * list nat)) :=
  mmap Partitioner_turn turns.

Context (svc_tname : IService → string) (svc_refl : IService → list (@Method V Ty W))
  (crand : nat → nat → list Z).
Abbreviation kept := (kept svc_tname svc_refl crand).
Abbreviation group_ok := (group_ok svc_tname svc_refl crand).

Lemma Partitioner_turn_splits (rand : nat → Z) (s : gst) :
  group_ok s → (∀ i, 0 <= rand i)%Z →
  wp (Partitioner_turn rand) (λ pa s', kept 0 s s' ∧
    (∀ j, j < N s.1 → conn s'.1 j = true) ∧
    ∀ a b, a < N s.1 → b < N s.1 →
      is_on s' a b = bool_decide (Z.rem (rand a) 2 = Z.rem (rand b) 2)) s.
Proof.
  intros Hok Hr. unfold Partitioner_turn. apply wp_bind, wp_gets.
  set (l := (λ i, Z.rem (rand i) 2) <$> seq 0 (N s.1)).
  assert (∀ j x, l !! j = Some x ↔ j < N s.1 ∧ x = Z.rem (rand j) 2) as Hl.
  { intros j x. unfold l. rewrite list_lookup_fmap, fmap_Some. setoid_rewrite lookup_seq.
    split; [intros (k & [-> ?] & ->); done|intros [? ->]; exists j; done]. }
  pose proof (Partitioner_sides_elem l) as Hs. destruct (Partitioner_sides l) as [p1 p2].
  simpl in *.
  assert (∀ j, j ∈ p1 ++ p2 ↔ j < N s.1) as Hall.
  { intros j. rewrite elem_of_app, (proj1 (Hs j)), (proj2 (Hs j)), !Hl.
    pose proof (Hr j). pose proof (Z.rem_bound_pos (rand j) 2). split; [tauto|]. intros Hj.
    assert (Z.rem (rand j) 2 = 0 ∨ Z.rem (rand j) 2 = 1)%Z as [|] by lia; auto. }
  assert (p1 ## p2) as Hd.
  { intros j. rewrite (proj1 (Hs j)), (proj2 (Hs j)). congruence. }
  pose proof (Partition_splits p1 p2 s (ok_wf _ _ _ _ Hok) Hd) as H1.
  pose proof (Partition_kept svc_tname svc_refl crand p1 p2 s Hok) as H2.
  specialize (H1 ltac:(apply Hall)). specialize (H2 ltac:(apply Hall)).
  apply wp_bind. unfold wp in *. destruct (ServerGroup.Partition p1 p2 s) as [[[] s']|?|?|]; try done.
  destruct H1 as (_ & _ & Hon & Hc & _). split; [done|]. split.
  - intros j Hj. rewrite Hc, bool_decide_true; [done|]. by apply Hall.
  - intros a b Ha Hb. rewrite Hon by by apply Hall. apply bool_decide_ext.
    rewrite (proj1 (Hs a)), (proj1 (Hs b)), !Hl.
    pose proof (Z.rem_bound_pos (rand a) 2 (Hr a)). pose proof (Z.rem_bound_pos (rand b) 2 (Hr b)).
    split; [|intros ->; tauto]. intros [H3 H4].
    destruct (decide (0 = Z.rem (rand a) 2)%Z) as [Hz|Hz].
    + destruct (H3 (conj Ha Hz)). lia.
    + destruct (decide (0 = Z.rem (rand b) 2)%Z) as [H5|H5]; [destruct (H4 (conj Hb H5)); lia|lia].
Qed.

(** Whatever the draws and however many turns it makes, [Partitioner] returns
    once it is told to and leaves the group well-formed, split as the last turn
    drew, so that [ConnectAll] heals it. *)
Lemma Partitioner_splits (turns : list (nat → Z)) (rand : nat → Z) (s : gst) :
  group_ok s → (∀ f, f ∈ turns ++ [rand] → ∀ i, 0 <= f i)%Z →
  wp (Partitioner (turns ++ [rand])) (λ pas s', kept 0 s s' ∧ length pas = S (length turns) ∧
    ∀ a b, a < N s.1 → b < N s.1 →
      is_on s' a b = bool_decide (Z.rem (rand a) 2 = Z.rem (rand b) 2)) s.
Proof.
  intros Hok Hr. unfold Partitioner.
  eapply wp_mono; [apply (wp_mmap (λ pre pas s', kept 0 s s' ∧ length pas = length pre ∧
    ∀ f, last pre = Some f → ∀ a b, a < N s.1 → b < N s.1 →
      is_on s' a b = bool_decide (Z.rem (f a) 2 = Z.rem (f b) 2)))|].
  - split_and!; [by apply kept_refl|done..].
  - intros pre f post pas s' Hpre (Hk & Hlen & _). pose proof (proj1 Hk) as Hok'.
    eapply wp_mono; [apply (Partitioner_turn_splits f s' Hok'), Hr; rewrite Hpre; set_solver|].
    intros pa s'' (Hk' & _ & Hon). rewrite (proj1 (proj2 (proj2 Hk))) in Hon.
    split; [by apply (kept_trans _ _ _ 0 0 _ s')|]. rewrite !length_app, Hlen. split; [done|].
    intros g Hg. rewrite last_snoc in Hg. by injection Hg as ->.
  - intros pas s' (Hk & Hlen & Hon). split; [done|]. rewrite Hlen, length_app.
    split; [simpl; lia|]. apply Hon, last_snoc.
Qed.
End repartition.
