(* ===== verification/KvTest.v ===== *)
(** * The key/value tester: [kvtest1/kvtest.go], [kvtest1/porcupine.go]

    What the tests of the key/value labs do through the clerk interface
    [IKVClerk], whose implementation is the students' code: puts and gets that
    are logged for the linearizability checker, retry loops and checks of what
    ended up on the server. *)

From Stdlib Require Import Ascii.
From S2P Require Export KvModel ServerGroup.
#[local] Set Default Proof Using "Type".
Local Open Scope Z_scope.

(** ** The interface of a clerk

    [W] is everything a clerk call may read or change: the clerk, the network,
    the servers and the other clients. *)
Class IKVClerk (W : Type) := {
  ck_Get : string → W → (string * Tversion * Err) * W;
  ck_Put : string → string → Tversion → W → Err * W
}.

(** [encoding/json] on the values of one type: [Unmarshal] decodes into an
    existing value. *)
Class Json (E : Type) := {
  Marshal : E → option string;
  Unmarshal : string → E → option E
}.

Record ClntRes := mkRes { Nok : Z; Nmaybe : Z }.
Record EntryV := mkEntryV { ev_Id : Z; ev_V : Tversion }.
Record entry := mkEntry { en_Id : Z; en_N : Z }.
Record EntryN := mkEntryN { e_Id : Z; e_N : Z }.

(** [RandValue n]: one draw of [rand.Int63()] per letter. *)
Definition letterBytes : string := "abcdefghijklmnopqrstuvwxyzABCDEFGHIJKLMNOPQRSTUVWXYZ".
Fixpoint RandValue (draws : list Z) : string :=
  match draws with
  | [] => ""
  | d :: draws =>
      String (default "?"%char (String.get (Z.to_nat (Z.rem d 52)) letterBytes))
        (RandValue draws)
  end.

(** ** [OpLog] *)

Definition OpLog := list Operation.
Definition Len (log : OpLog) : nat := length log.
Definition Append (op : Operation) (log : OpLog) : OpLog := log ++ [op].
Definition Read (log : OpLog) : list Operation := log.

Section kvtest.
Context {W : Type} `{CK : IKVClerk W}.
(** The [k]-th reading of [time.Since(t0)]. *)
Context (clock : nat → Z).

(** The mutable part of a [Test]; [t_oplog] is nil or a log. *)
Record Test := mkTest {
  t_w : W;
  t_oplog : option OpLog;
  t_ops : Z;                      (* int32 *)
  t_ticks : nat;
  randomkeys : bool
}.
Abbreviation K := (M Test).

Definition MakeTest (w : W) (randomkeys : bool) : Test := mkTest w (Some []) 0 0 randomkeys.

Definition now : K Z := λ s,
  Ret (clock (t_ticks s), mkTest (t_w s) (t_oplog s) (t_ops s) (S (t_ticks s)) (randomkeys s)).
Definition clerk {A} (f : W → A * W) : K A := λ s,
  let '(a, w) := f (t_w s) in
  Ret (a, mkTest w (t_oplog s) (t_ops s) (t_ticks s) (randomkeys s)).
Definition Op : K unit := λ s,
  Ret (tt, mkTest (t_w s) (t_oplog s) (wrap_i32 (t_ops s + 1)) (t_ticks s) (randomkeys s)).
(** [if log != nil { log.Append(op) }] *)
Definition log_op (op : Operation) : K unit := λ s,
  Ret (tt, mkTest (t_w s) (Append op <$> t_oplog s) (t_ops s) (t_ticks s) (randomkeys s)).

Definition Get (key : string) (cli : Z) : K (string * Tversion * Err) :=
  start ← now;
  r ← clerk (ck_Get key);
  end_ ← now;
  _ ← Op;
  let '(val, ver, err) := r in
  _ ← log_op (mkOp cli (mkIn 0 key "" 0) start (mkOut val ver err) end_);
  mret (val, ver, err).

Definition Put (key value : string) (version : Tversion) (cli : Z) : K Err :=
  start ← now;
  err ← clerk (ck_Put key value version);
  end_ ← now;
  _ ← Op;
  _ ← log_op (mkOp cli (mkIn 1 key value version) start (mkOut "" 0 err) end_);
  mret err.

(** [(ts *Test) Get] and [(ts *Test) Put] repeat the bodies of [Get] and [Put]
    with the log of the test. *)
Definition Test_Get := Get.
Definition Test_Put := Put.

(** ** [kvtest.go] *)

(** The loop of [PutAtLeastOnce], with fuel. *)
Fixpoint PutAtLeastOnce (fuel : nat) (key value : string) (ver : Tversion) (me : Z)
    : K Tversion :=
  match fuel with
  | O => lift Diverge
  | S fuel =>
      err ← Test_Put key value ver me;
      if decide (err = OK) then mret (ver_incr ver)
      else if decide (err = ErrMaybe ∨ err = ErrVersion) then
        PutAtLeastOnce fuel key value (ver_incr ver) me
      else if decide (ver ≠ 0) then lift (Fatal "Put")
      else PutAtLeastOnce fuel key value ver me
  end.

Definition CheckGet (key value : string) (version : Tversion) : K unit :=
  '(val, ver, err) ← Test_Get key 0;
  if decide (err ≠ OK) then lift (Fatal "Get returns error")
  else if decide (val ≠ value ∨ ver ≠ version) then lift (Fatal "Get returns a wrong value")
  else mret tt.

Definition GetJson {E} `{Json E} (key : string) (me : Z) (v : E) : K (Tversion * E) :=
  '(val, ver, err) ← Get key me;
  if decide (err = OK) then
    match Unmarshal val v with
    | Some v => mret (ver, v)
    | None => lift (Fatal "Unmarshal")
    end
  else lift (Fatal "Get").

Definition PutJson {E} `{Json E} (key : string) (v : E) (ver : Tversion) (me : Z) : K Err :=
  match Marshal v with
  | Some b => Put key b ver me
  | None => lift (Fatal "marshal")
  end.

Fixpoint PutAtLeastOnceJson {E} `{Json E} (fuel : nat) (key : string) (value : E)
    (ver : Tversion) (me : Z) : K Tversion :=
  match fuel with
  | O => lift Diverge
  | S fuel =>
      err ← PutJson key value 0 me;
      if decide (err ≠ ErrMaybe) then mret ver
      else PutAtLeastOnceJson fuel key value (ver_incr ver) me
  end.

(** [rpc.Tversion(n)] of an [int]. *)
Definition CheckPutConcurrent `{Json EntryV} (key : string) (rs : list ClntRes)
    (res : ClntRes) (reliable : bool) : K ClntRes :=
  '(ver0, _) ← GetJson key (-1) (mkEntryV 0 0);
  let res := foldl (λ res r, mkRes (Nok res + Nok r) (Nmaybe res + Nmaybe r)) res rs in
  if reliable then
    if decide (ver0 ≠ wrap_u64 (Nok res)) then lift (Fatal "Reliable: Wrong number of puts")
    else mret res
  else if decide (wrap_u64 (Nok res + Nmaybe res) < ver0) then
    lift (Fatal "Unreliable: Wrong number of puts")
  else mret res.

Fixpoint OnePut `{Json EntryV} (fuel : nat) (me : Z) (key : string) (ver : Tversion)
    : K (Tversion * bool) :=
  match fuel with
  | O => lift Diverge
  | S fuel =>
      err ← PutJson key (mkEntryV me ver) ver me;
      if decide (¬ (err = OK ∨ err = ErrVersion ∨ err = ErrMaybe)) then lift (Fatal "Wrong error")
      else
        '(ver0, e) ← GetJson key me (mkEntryV 0 0);
        _ ← (if decide (err = OK ∧ ver0 = ver_incr ver) then
               if decide (ev_Id e ≠ me ∧ ev_V e ≠ ver) then lift (Fatal "Wrong value")
               else mret tt
             else mret tt);
        if decide (err = OK ∨ err = ErrMaybe) then mret (ver0, bool_decide (err = OK))
        else OnePut fuel me key ver0
  end.

(** [OneClientPut]: [picks] are the draws [rand.Int()] of the iterations made
    before [done] was received. *)
Fixpoint OneClientPut `{Json EntryV} (fuel : nat) (cli : Z) (ka : list string)
    (picks : list Z) (verm : gmap string Tversion) (res : ClntRes) : K ClntRes :=
  match picks with
  | [] => mret res
  | d :: picks =>
      rk ← gets randomkeys;
      k ← lift (if (rk : bool) then
                  match ka with
                  | [] => Panic "integer divide by zero"
                  | _ => index ka (Z.to_nat (Z.rem d (Z.of_nat (length ka))))
                  end
                else index ka 0);
      '(v, ok) ← OnePut fuel cli k (default 0 (verm !! k));
      OneClientPut fuel cli ka picks (<[k := v]> verm)
        (if (ok : bool) then mkRes (Nok res + 1) (Nmaybe res) else mkRes (Nok res) (Nmaybe res + 1))
  end.

Definition MakeKeys (n : nat) : list string := (λ i, "k" +:+ Itoa (Z.of_nat i)) <$> seq 0 n.

(** [rand] are the random bytes of the values. *)
Definition SpreadPutsSize (n valsz : nat) (rand : list (list Z)) : K (list string * list string) :=
  let ka := MakeKeys n in
  let va := Randstring valsz <$> take n rand in
  _ ← mfor (zip ka va) (λ '(k, v), _ ← clerk (ck_Put k v 0); mret tt);
  _ ← mfor (zip ka va) (λ '(k, v), CheckGet k v 1);
  mret (ka, va).
Definition SpreadPuts (n : nat) (rand : list (list Z)) : K (list string * list string) :=
  SpreadPutsSize n 20 rand.

(** The inner loop of [OneClientAppend]: keep trying to append [(me, i)]; the
    result says whether the put was acknowledged. *)
Fixpoint append_entry `{Json (list entry)} (fuel : nat) (me i : Z) : K bool :=
  match fuel with
  | O => lift Diverge
  | S fuel =>
      '(ver, es) ← GetJson "k" me [];
      err ← PutJson "k" (es ++ [mkEntry me i]) ver me;
      if decide (err = OK) then mret true
      else if decide (err = ErrMaybe) then mret false
      else append_entry fuel me i
  end.

(** [iters] iterations are made before [done] is received. *)
Fixpoint OneClientAppend `{Json (list entry)} (fuel : nat) (me : Z) (i : Z) (iters : nat)
    (nok nmay : Z) : K ClntRes :=
  match iters with
  | O => mret (mkRes nok nmay)
  | S iters =>
      b ← append_entry fuel me i;
      if (b : bool) then OneClientAppend fuel me (i + 1) iters (nok + 1) nmay
      else OneClientAppend fuel me (i + 1) iters nok (nmay + 1)
  end.
End kvtest.

(** ** [CheckAppends]

    [expect] and [skipped] are Go maps: an absent key reads as 0.  The counters are
    [int]s. *)

Definition mget (m : gmap Z Z) (c : Z) : Z := default 0 (m !! c).

Definition CheckAppends_entry (st : gmap Z Z * gmap Z Z) (e : EntryN)
    : outcome (gmap Z Z * gmap Z Z) :=
  let '(expect, skipped) := st in
  let x := mget expect (e_Id e) in
  if decide (e_N e < x) then Fatal "wrong expecting"
  else if decide (x = e_N e) then Ret (<[e_Id e := wrap_i64 (x + 1)]> expect, skipped)
  else
    let s := wrap_i64 (e_N e - x) in
    Ret (<[e_Id e := wrap_i64 (e_N e + 1)]> expect,
         <[e_Id e := wrap_i64 (mget skipped (e_Id e) + s)]> skipped).

(** [rs[c]] for an [int] index. *)
Definition res_at (rs : list ClntRes) (c : Z) : outcome ClntRes :=
  if decide (c < 0) then Panic "index out of range" else index rs (Z.to_nat c).

Definition CheckAppends_client (skipped : gmap Z Z) (rs : list ClntRes) (_ : unit)
    (cn : Z * Z) : outcome unit :=
  let '(c, n) := cn in
  r ← res_at rs c;
  if decide (Nmaybe r < mget skipped c) then Fatal "skipped puts"
  else if decide (wrap_i64 (Nok r + Nmaybe r) < n) then Fatal "puts on server > ok+maybe"
  else Ret tt.

Definition CheckAppends (es : list EntryN) (nclnt : nat) (rs : list ClntRes) (ver : Tversion)
    : outcome unit :=
  let zeros : gmap Z Z := list_to_map ((λ i, (Z.of_nat i, 0)) <$> seq 0 nclnt) in
  '(expect, skipped) ← ofold CheckAppends_entry (zeros, zeros) es;
  if decide (Z.of_nat (length es) + 1 ≠ wrap_i64 ver) then Fatal "appends in val != puts on server"
  else ofold (CheckAppends_client skipped rs) tt (map_to_list expect).

(** ** What [CheckAppends] accepts *)

(** The counters that client [c] appended, in the order of the list. *)
Definition counters (c : Z) (es : list EntryN) : list Z :=
  e_N <$> filter (λ e, e_Id e = c) es.

(** Strictly increasing, starting at [x] or later. *)
Fixpoint increasing_from (x : Z) (ns : list Z) : Prop :=
  match ns with [] => True | n :: ns => x ≤ n ∧ increasing_from (n + 1) ns end.
(** One more than the last counter. *)
Definition next_after (x : Z) (ns : list Z) : Z :=
  match last ns with Some n => n + 1 | None => x end.

Lemma next_after_cons x n ns : next_after x (n :: ns) = next_after (n + 1) ns.
Proof. unfold next_after. rewrite last_cons. by destruct (last ns). Qed.

Lemma counters_cons c e es :
  counters c (e :: es) = if decide (e_Id e = c) then e_N e :: counters c es else counters c es.
Proof. unfold counters. rewrite filter_cons. by destruct (decide _). Qed.

Lemma mget_insert m c x d :
  mget (<[c := x]> m) d = if decide (c = d) then x else mget m d.
Proof.
  unfold mget. destruct (decide (c = d)) as [->|]; [by rewrite lookup_insert_eq|].
  by rewrite lookup_insert_ne.
Qed.

#[local] Arguments CheckAppends_entry : simpl never.
#[local] Arguments CheckAppends_client : simpl never.

(** No counter of an entry is the largest [int]; then none wraps around. *)
Definition fits (e : EntryN) : Prop := e_N e < 2 ^ 63 - 1.
Definition maps_fit (expect skipped : gmap Z Z) : Prop :=
  ∀ c, 0 ≤ mget skipped c ≤ mget expect c ∧ mget expect c < 2 ^ 63.

(** One entry: the counter must not lie behind, and then the two maps move on. *)
Lemma CheckAppends_entry_spec expect skipped e :
  fits e → maps_fit expect skipped →
  match CheckAppends_entry (expect, skipped) e with
  | Ret (expect', skipped') =>
      mget expect (e_Id e) ≤ e_N e ∧ expect' = <[e_Id e := e_N e + 1]> expect ∧
      (∀ c, mget skipped' c = mget skipped c +
         if decide (e_Id e = c) then e_N e - mget expect c else 0) ∧
      maps_fit expect' skipped'
  | _ => e_N e < mget expect (e_Id e)
  end.
Proof.
  intros He Hm. pose proof (Hm (e_Id e)) as Hid. unfold fits in He.
  unfold CheckAppends_entry. destruct (decide (e_N e < _)); [done|].
  destruct (decide (mget expect (e_Id e) = e_N e)) as [Heq|Hne].
  - rewrite wrap_i64_id by lia. split_and!; [lia|by rewrite Heq|..].
    + intros c. destruct (decide _) as [<-|]; lia.
    + intros c. pose proof (Hm c). rewrite mget_insert. destruct (decide _) as [<-|]; lia.
  - rewrite !wrap_i64_id by (rewrite ?wrap_i64_id; lia). split_and!; [lia|done|..].
    + intros c. rewrite mget_insert. destruct (decide (e_Id e = c)) as [<-|]; lia.
    + intros c. pose proof (Hm c). rewrite !mget_insert. destruct (decide _) as [<-|]; lia.
Qed.

Lemma CheckAppends_entries es : Forall fits es → ∀ expect skipped,
  maps_fit expect skipped →
  match ofold CheckAppends_entry (expect, skipped) es with
  | Ret (expect', skipped') =>
      (∀ c, increasing_from (mget expect c) (counters c es)) ∧
      (∀ c, mget expect' c = next_after (mget expect c) (counters c es)) ∧
      (∀ c, mget skipped' c = mget skipped c + mget expect' c - mget expect c
                              - Z.of_nat (length (counters c es))) ∧
      (∀ c, c ∈ dom expect' ↔ c ∈ dom expect ∨ ∃ e, e ∈ es ∧ e_Id e = c)
  | _ => ¬ ∀ c, increasing_from (mget expect c) (counters c es)
  end.
Proof.
  induction 1 as [|e es Hfit _ IH]; intros expect skipped Hm; simpl.
  - split_and!; [done|done|intros c; unfold next_after; simpl; lia|set_solver].
  - pose proof (CheckAppends_entry_spec expect skipped e Hfit Hm) as He.
    destruct (CheckAppends_entry (expect, skipped) e) as [[exp1 sk1]|?|?|] eqn:Hrun; simpl.
    2-4: intros Hinc; specialize (Hinc (e_Id e)); rewrite counters_cons, decide_True in Hinc
           by done; destruct Hinc; lia.
    destruct He as (Hle & -> & Hsk & Hm1). specialize (IH (<[e_Id e := e_N e + 1]> expect) sk1 Hm1).
    assert (∀ c, increasing_from (mget expect c) (counters c (e :: es)) ↔
      increasing_from (mget (<[e_Id e := e_N e + 1]> expect) c) (counters c es)) as Hinc.
    { intros c. rewrite counters_cons, mget_insert.
      destruct (decide (e_Id e = c)) as [<-|]; simpl; [naive_solver|done]. }
    destruct (ofold _ _ es) as [[exp2 sk2]|?|?|].
    2-4: intros H; apply IH; intros c; by apply Hinc.
    destruct IH as (H1 & H2 & H3 & H4). split_and!.
    + intros c. by apply Hinc.
    + intros c. rewrite H2, counters_cons, mget_insert.
      destruct (decide (e_Id e = c)) as [<-|]; [by rewrite next_after_cons|done].
    + intros c. rewrite H3, Hsk, counters_cons, mget_insert.
      destruct (decide (e_Id e = c)) as [<-|]; simpl; lia.
    + intros c. rewrite H4, dom_insert, elem_of_union, elem_of_singleton.
      setoid_rewrite elem_of_cons. naive_solver.
Qed.

Lemma CheckAppends_client_spec skipped rs c n :
  CheckAppends_client skipped rs tt (c, n) = Ret tt ↔
  ∃ r, res_at rs c = Ret r ∧ mget skipped c ≤ Nmaybe r ∧ n ≤ wrap_i64 (Nok r + Nmaybe r).
Proof.
  unfold CheckAppends_client. rewrite outcome_bind_Ret. apply exist_proper. intros r.
  destruct (decide (Nmaybe r < mget skipped c)); [split; [by intros []|lia]|].
  destruct (decide (wrap_i64 (Nok r + Nmaybe r) < n)); [split; [by intros []|lia]|].
  split; intros [? ?]; split_and!; (done || lia).
Qed.

Lemma CheckAppends_clients skipped rs l :
  ofold (CheckAppends_client skipped rs) tt l = Ret tt ↔
  ∀ c n, (c, n) ∈ l → ∃ r, res_at rs c = Ret r ∧
    mget skipped c ≤ Nmaybe r ∧ n ≤ wrap_i64 (Nok r + Nmaybe r).
Proof.
  induction l as [|[c n] l IH]; simpl.
  - split; [|done]. intros _ c n Hin. by apply elem_of_nil in Hin.
  - rewrite outcome_bind_Ret. split.
    + intros ([] & Hc & Hl) c' n' Hin. apply elem_of_cons in Hin as [[= -> ->]|Hin].
      * by apply CheckAppends_client_spec.
      * by apply IH.
    + intros H. exists tt. split; [apply CheckAppends_client_spec, H; left|].
      apply IH. intros c' n' Hin. apply H. by right.
Qed.

Definition zeros (nclnt : nat) : gmap Z Z :=
  list_to_map ((λ i, (Z.of_nat i, 0)) <$> seq 0 nclnt).

Lemma elem_of_zeros nclnt c : c ∈ dom (zeros nclnt) ↔ 0 ≤ c < Z.of_nat nclnt.
Proof.
  unfold zeros. rewrite dom_list_to_map_L, elem_of_list_to_set.
  rewrite <-list_fmap_compose, list_elem_of_fmap. simpl. setoid_rewrite elem_of_seq.
  split; [intros (i & -> & ?); simpl; lia|]. intros Hc. exists (Z.to_nat c). simpl. lia.
Qed.

Lemma mget_zeros nclnt c : mget (zeros nclnt) c = 0.
Proof.
  unfold mget. destruct (zeros nclnt !! c) as [x|] eqn:Hx; [|done].
  by apply elem_of_list_to_map_2, list_elem_of_fmap in Hx as (i & [= _ ->] & _).
Qed.

Lemma res_at_Some rs c r : 0 ≤ c → rs !! Z.to_nat c = Some r → res_at rs c = Ret r.
Proof. intros Hc Hr. unfold res_at, index. rewrite decide_False by lia. by rewrite Hr. Qed.

Lemma increasing_all (rs : list ClntRes) es nclnt c :
  length rs = nclnt → (∀ e, e ∈ es → 0 ≤ e_Id e < Z.of_nat nclnt) →
  (∀ i r, rs !! i = Some r → increasing_from 0 (counters (Z.of_nat i) es)) →
  increasing_from 0 (counters c es).
Proof.
  intros Hlen Hids H. destruct (decide (0 ≤ c < Z.of_nat nclnt)) as [Hc|Hc].
  - destruct (lookup_lt_is_Some_2 rs (Z.to_nat c)) as [r Hr]; [lia|].
    specialize (H _ _ Hr). by rewrite Z2Nat.id in H by lia.
  - assert (counters c es = []) as ->; [|done]. unfold counters.
    destruct (filter _ es) as [|e l] eqn:Hf; [done|].
    assert (e ∈ filter (λ e, e_Id e = c) es) as [He Hin]%list_elem_of_filter
      by (rewrite Hf; left).
    destruct Hc. rewrite <-He. by apply Hids.
Qed.

Lemma CheckAppends_spec (es : list EntryN) (nclnt : nat) (rs : list ClntRes) (ver : Tversion) :
  length rs = nclnt → (∀ e, e ∈ es → 0 ≤ e_Id e < Z.of_nat nclnt) →
  Forall fits es → Forall (λ r, - 2 ^ 63 ≤ Nok r + Nmaybe r < 2 ^ 63) rs →
  CheckAppends es nclnt rs ver = Ret tt ↔
  Z.of_nat (length es) + 1 = wrap_i64 ver ∧
  ∀ c r, rs !! c = Some r →
    let ns := counters (Z.of_nat c) es in
    increasing_from 0 ns ∧
    next_after 0 ns - Z.of_nat (length ns) ≤ Nmaybe r ∧
    next_after 0 ns ≤ Nok r + Nmaybe r.
Proof.
  intros Hlen Hids Hfit Hres. unfold CheckAppends. fold (zeros nclnt).
  pose proof (CheckAppends_entries es Hfit (zeros nclnt) (zeros nclnt)) as He.
  specialize (He ltac:(intros c; rewrite mget_zeros; lia)).
  rewrite outcome_bind_Ret.
  destruct (ofold CheckAppends_entry _ es) as [[expect skipped]|?|?|].
  2-4: split; [by intros (? & [=] & _)|]; intros [_ H]; destruct He; intros c;
    rewrite mget_zeros; eapply increasing_all; try done; intros ?? Hr; by apply H in Hr as [? _].
  destruct He as (Hinc & Hex & Hsk & Hdom).
  transitivity (Z.of_nat (length es) + 1 = wrap_i64 ver ∧
    ofold (CheckAppends_client skipped rs) tt (map_to_list expect) = Ret tt).
  { split.
    - intros ([??] & [= <- <-] & Hrun). by destruct (decide _) as [|Hv%dec_stable].
    - intros [Hv Hrun]. eexists. split; [done|]. simpl. by rewrite decide_False by tauto. }
  rewrite CheckAppends_clients. apply and_iff_compat_l. split.
  - intros H c r Hr.
    assert (Z.of_nat c ∈ dom expect) as Hc.
    { apply Hdom. left. apply elem_of_zeros. apply lookup_lt_Some in Hr. lia. }
    apply elem_of_dom in Hc as [n Hn]. pose proof (Hex (Z.of_nat c)) as Hxc.
    destruct (H (Z.of_nat c) n) as (r' & Hr' & Hs & Hx); [by apply elem_of_map_to_list|].
    rewrite (res_at_Some _ _ r) in Hr' by (rewrite ?Nat2Z.id; (done || lia)).
    injection Hr' as <-.
    rewrite wrap_i64_id in Hx by (by apply (Forall_lookup_1 _ _ _ _ Hres Hr)). unfold mget in Hxc at 1. rewrite Hn, mget_zeros in Hxc. simpl in Hxc.
    specialize (Hsk (Z.of_nat c)). rewrite Hex, !mget_zeros in Hsk.
    specialize (Hinc (Z.of_nat c)). rewrite mget_zeros in Hinc. simpl. split_and!; [done|lia..].
  - intros H c n Hn%elem_of_map_to_list.
    assert (c ∈ dom expect) as Hc by by eapply elem_of_dom_2.
    assert (0 ≤ c < Z.of_nat nclnt) as Hrange.
    { apply Hdom in Hc as [Hc|(e & He & <-)]; [by apply elem_of_zeros in Hc|by apply Hids]. }
    destruct (lookup_lt_is_Some_2 rs (Z.to_nat c)) as [r Hr]; [lia|].
    exists r. split; [apply res_at_Some; [lia|done]|].
    rewrite wrap_i64_id by (by apply (Forall_lookup_1 _ _ _ _ Hres Hr)).
    destruct (H _ _ Hr) as (_ & H1 & H2). rewrite Z2Nat.id in H1, H2 by lia.
    rewrite Hsk, !Hex, !mget_zeros. specialize (Hex c). rewrite mget_zeros in Hex.
    unfold mget in Hex. rewrite Hn in Hex. simpl in Hex. lia.
Qed.


(** ** A key that only one clerk writes

    What the documentation of the clerk promises for such a key: [view] is the
    value and version on the server.  A put that the server did not refuse at
    its first attempt is answered [OK] if its reply arrives; [ErrMaybe] is
    answered only when a repeated attempt met another version, so the put was
    done or the version was already another one.  [mays] bounds how many puts
    will still be answered [ErrMaybe]. *)

Definition version_of (o : option (string * Tversion)) : Tversion :=
  match o with Some (_, ver) => ver | None => 0 end.

Class SoleWriter (W : Type) `{IKVClerk W} (key : string) := {
  view : W → option (string * Tversion);
  mays : W → nat;
  sole_put (value : string) (ver : Tversion) (w : W) :
    let '(err, w') := ck_Put key value ver w in
    (mays w' ≤ mays w)%nat ∧
    ((err = OK ∧ version_of (view w) = ver ∧ view w' = Some (value, ver_incr ver)) ∨
     (err = ErrVersion ∧ view w ≠ None ∧ version_of (view w) ≠ ver ∧ view w' = view w) ∨
     (err = ErrNoKey ∧ view w = None ∧ ver ≠ 0 ∧ view w' = None) ∨
     (err = ErrMaybe ∧ (mays w' < mays w)%nat ∧
      ((version_of (view w) = ver ∧ view w' = Some (value, ver_incr ver)) ∨
       (view w ≠ None ∧ version_of (view w) ≠ ver ∧ view w' = view w))));
  sole_get (w : W) :
    let '(r, w') := ck_Get key w in
    view w' = view w ∧ (mays w' ≤ mays w)%nat ∧
    r = match view w with Some (v, ver) => (v, ver, OK) | None => ("", 0, ErrNoKey) end
}.

Section sole.
Context {W : Type} `{CK : IKVClerk W} (key : string) `{SW : !SoleWriter W key}.
Context (clock : nat → Z).

(** A logged put or get is the clerk's, up to the log and the clock. *)
Lemma Put_wp value ver me (s : @Test W) :
  wp (Test_Put clock key value ver me)
    (λ err s', (err, t_w s') = ck_Put key value ver (t_w s)) s.
Proof.
  unfold wp, Test_Put, Put, mbind, M_bind, now, clerk, Op, log_op. simpl.
  by destruct (ck_Put key value ver (t_w s)).
Qed.

Lemma Get_wp me (s : @Test W) :
  wp (Test_Get clock key me) (λ r s', (r, t_w s') = ck_Get key (t_w s)) s.
Proof.
  unfold wp, Test_Get, Get, mbind, M_bind, now, clerk, Op, log_op. simpl.
  by destruct (ck_Get key (t_w s)) as [[[??]?]?].
Qed.

(** The loop of [PutAtLeastOnce] ends: in every iteration that does not return,
    [ver] gets closer to the version on the server or an uncertain answer is
    used up. *)
Lemma PutAtLeastOnce_loop value me fuel : ∀ ver (s : @Test W),
  let c := version_of (view (t_w s)) in
  let n := Z.of_nat (mays (t_w s)) in
  0 ≤ ver ≤ c → (view (t_w s) = None → ver = 0) → c + n + 1 < 2 ^ 64 →
  (c - ver) + n < Z.of_nat fuel →
  wp (PutAtLeastOnce clock fuel key value ver me) (λ v' s',
    view (t_w s') = Some (value, v') ∧ c < v' ≤ c + n + 1) s.
Proof.
  induction fuel as [|fuel IH]; intros ver s c n Hver Hnone Hfit Hfuel; [lia|].
  simpl. apply wp_bind. eapply wp_mono; [apply Put_wp|]. intros err s1 Hput.
  pose proof (sole_put value ver (t_w s)) as Hlaw. rewrite <-Hput in Hlaw.
  destruct Hlaw as [Hm [(-> & Hv & Hview)|[(-> & Hs & Hv & Hview)|[(-> & Hs & Hz & _)|
    (-> & Hm' & [[Hv Hview]|(Hs & Hv & Hview)])]]]]; fold c in Hv || idtac.
  - rewrite decide_True by done. apply wp_mret. unfold ver_incr in *.
    rewrite wrap_u64_id in * by lia. split; [done|lia].
  - rewrite decide_False, decide_True by (by auto). unfold ver_incr.
    rewrite wrap_u64_id by lia. specialize (IH (ver + 1) s1). cbv zeta in IH.
    rewrite Hview in IH. fold c in IH.
    eapply wp_mono; [apply IH; [lia|done|lia..]|]. intros v' s' [? ?]. split; [done|lia].
  - specialize (Hnone Hs). lia.
  - rewrite decide_False, decide_True by (by auto). unfold ver_incr in *.
    rewrite wrap_u64_id in * by lia. specialize (IH (ver + 1) s1). cbv zeta in IH.
    rewrite Hview in IH. simpl in IH.
    eapply wp_mono; [apply IH; [lia|done|lia..]|]. intros v' s' [? ?]. split; [done|lia].
  - rewrite decide_False, decide_True by (by auto). unfold ver_incr.
    rewrite wrap_u64_id by lia. specialize (IH (ver + 1) s1). cbv zeta in IH.
    rewrite Hview in IH. fold c in IH.
    eapply wp_mono; [apply IH; [lia|done|lia..]|]. intros v' s' [? ?]. split; [done|lia].
Qed.

Lemma CheckGet_passes value ver (s : @Test W) :
  view (t_w s) = Some (value, ver) →
  wp (CheckGet clock key value ver) (λ _ s', view (t_w s') = Some (value, ver)) s.
Proof.
  intros Hv. unfold CheckGet. apply wp_bind. eapply wp_mono; [apply Get_wp|].
  intros r s1 Hget. pose proof (sole_get (t_w s)) as Hlaw. rewrite <-Hget in Hlaw.
  destruct Hlaw as (Hview & _ & ->). rewrite Hv in *.
  rewrite decide_False by (intros H; by apply H). rewrite decide_False by naive_solver.
  by apply wp_mret.
Qed.


(** [PutAtLeastOnceJson] puts with version 0 whatever version it is given:
    on a key that exists with another version it gives up, without an error and
    without storing the value. *)
Lemma PutAtLeastOnceJson_no_effect {E} `{Json E} (value : E) (b old : string)
    (cur ver : Tversion) (me : Z) (fuel : nat) (s : @Test W) :
  Marshal value = Some b → view (t_w s) = Some (old, cur) → cur ≠ 0 →
  (mays (t_w s) < fuel)%nat →
  wp (PutAtLeastOnceJson clock fuel key value ver me)
    (λ _ s', view (t_w s') = Some (old, cur)) s.
Proof.
  intros Hb. revert ver s. induction fuel as [|fuel IH]; intros ver s Hv Hcur Hfuel; [lia|].
  simpl. unfold PutJson. rewrite Hb. apply wp_bind.
  eapply wp_mono; [apply Put_wp|]. intros err s1 Hput.
  pose proof (sole_put b 0 (t_w s)) as Hlaw. rewrite <-Hput in Hlaw.
  rewrite Hv in Hlaw. simpl in Hlaw.
  destruct Hlaw as [Hm [(_ & ? & _)|[(-> & _ & _ & Hview)|[(_ & ? & _)|
    (-> & Hm' & [[? _]|(_ & _ & Hview)])]]]]; try done.
  rewrite decide_False by (intros Hn; by apply Hn). apply IH; [done|done|lia].
Qed.
End sole.

(** ** The documented clerk over a network that loses replies

    [Put] and [Get] as the comments of [kvsrv1/client.go] describe them: a
    request is repeated until a reply arrives.  The list says for the next puts
    how many replies get lost. *)

Record doc_world := mkDoc { dw_store : kvstore; dw_losses : list nat }.

(** The put is executed [S lost] times; only the last reply arrives. *)
Fixpoint resend (lost : nat) (m : kvstore) (key value : string) (ver : Tversion)
    : Err * kvstore :=
  let '(e, m') := srv_Put m key value ver in
  match lost with O => (e, m') | S lost => resend lost m' key value ver end.

Definition doc_Put (key value : string) (ver : Tversion) (w : doc_world) : Err * doc_world :=
  let lost := default O (head (dw_losses w)) in
  let '(e, m) := resend lost (dw_store w) key value ver in
  (if decide (e = ErrVersion ∧ lost ≠ O) then ErrMaybe else e, mkDoc m (tail (dw_losses w))).

#[export] Instance doc_clerk : IKVClerk doc_world := {
  ck_Get key w := (srv_Get (dw_store w) key, w);
  ck_Put := doc_Put
}.

Lemma ver_incr_neq ver : ver_incr ver ≠ ver.
Proof.
  unfold ver_incr. intros H. pose proof (wrap_u64_range (ver + 1)) as Hr. rewrite H in Hr.
  destruct (decide (ver = 2 ^ 64 - 1)) as [->|]; [done|].
  rewrite wrap_u64_id in H by lia. lia.
Qed.

Lemma resend_stable lost m key value ver e :
  srv_Put m key value ver = (e, m) → e ≠ OK → resend lost m key value ver = (e, m).
Proof. intros Hs He. induction lost; simpl; rewrite Hs; done. Qed.

Lemma resend_spec lost m key value ver :
  resend lost m key value ver =
  let '(e, m') := srv_Put m key value ver in
  (if decide (e = OK ∧ lost ≠ O) then ErrVersion else e, m').
Proof.
  destruct lost as [|lost]; simpl.
  { destruct (srv_Put m key value ver) as [e m']. by rewrite decide_False by naive_solver. }
  destruct (srv_Put m key value ver) as [e m'] eqn:Hs.
  unfold srv_Put in Hs. destruct (m !! key) as [[v cur]|] eqn:Hk.
  - destruct (decide (cur = ver)) as [->|Hne]; injection Hs as <- <-.
    + rewrite decide_True by done. apply resend_stable; [|done].
      unfold srv_Put. rewrite lookup_insert_eq, decide_False by apply ver_incr_neq. done.
    + rewrite decide_False by naive_solver. apply resend_stable; [|done].
      unfold srv_Put. by rewrite Hk, decide_False.
  - destruct (decide (ver = 0)) as [->|Hne]; injection Hs as <- <-.
    + rewrite decide_True by done. apply resend_stable; [|done].
      unfold srv_Put. by rewrite lookup_insert_eq, decide_False.
    + rewrite decide_False by naive_solver. apply resend_stable; [|done].
      unfold srv_Put. by rewrite Hk, decide_False.
Qed.

Definition lossy (w : doc_world) : nat :=
  count_if (λ n, negb (Nat.eqb n 0)) (dw_losses w).

Lemma lossy_tail m w : (lossy (mkDoc m (tail (dw_losses w))) ≤ lossy w)%nat.
Proof. unfold lossy. destruct (dw_losses w); simpl; lia. Qed.

Lemma lossy_head m w :
  default O (head (dw_losses w)) ≠ O → (lossy (mkDoc m (tail (dw_losses w))) < lossy w)%nat.
Proof.
  unfold lossy. destruct (dw_losses w) as [|[|l] ls]; simpl; intros H; [done|done|lia].
Qed.

(** The documented clerk keeps the promises of [SoleWriter]. *)
#[export] Program Instance doc_sole (key : string) : SoleWriter doc_world key := {
  view w := dw_store w !! key;
  mays := lossy
}.
Next Obligation.
  intros key value ver w. simpl. unfold doc_Put. rewrite resend_spec.
  set (lost := default O (head (dw_losses w))).
  assert (∀ m, (lossy (mkDoc m (tail (dw_losses w))) ≤ lossy w)%nat) as Hle
    by (intros; apply lossy_tail).
  assert (∀ m, lost ≠ O → (lossy (mkDoc m (tail (dw_losses w))) < lossy w)%nat) as Hlt
    by (intros; by apply lossy_head).
  clearbody lost. unfold srv_Put.
  destruct (dw_store w !! key) as [[v cur]|] eqn:Hk;
    (destruct (decide (cur = ver)) as [->|Hne] || destruct (decide (ver = 0)) as [->|Hne]);
    (destruct (decide (lost = O)) as [->|Hl]).
  all: repeat (rewrite decide_True by (by split) || rewrite decide_False by naive_solver).
  all: split; [by apply Hle|]; simpl; rewrite ?lookup_insert_eq; auto 10.
  all: rewrite (decide_True (P := OK = OK ∧ lost ≠ O)), decide_True by (by split).
  all: right; right; right; split; [done|]; split; [by apply Hlt|by left].
Qed.
Next Obligation.
  intros key w. simpl. split_and!; [done|lia|]. unfold srv_Get. by destruct (dw_store w !! key) as [[]|].
Qed.

(** ** Concrete runs *)

Definition demo_clock (k : nat) : Z := Z.of_nat k.
(** The key exists with version 1; the replies of the next two puts get lost. *)
Definition demo_doc : doc_world := mkDoc {[ "k" := ("old", 1) ]} [1%nat; 1%nat].
Definition demo_test : @Test doc_world := MakeTest demo_doc false.


Definition string_json : Json string := {| Marshal s := Some s; Unmarshal s _ := Some s |}.

Lemma PutAtLeastOnceJson_no_effect_witness :
  wp (PutAtLeastOnceJson (H := string_json) demo_clock 3 "k" "new" 1 7)
    (λ _ s', dw_store (t_w s') !! "k" = Some ("old", 1)) demo_test.
Proof.
  eapply wp_mono.
  - apply (PutAtLeastOnceJson_no_effect (H := string_json) "k" demo_clock "new" "new" "old" 1 1 7
      3 demo_test).
    + reflexivity.
    + vm_compute. reflexivity.
    + discriminate.
    + vm_compute. lia.
  - intros v s' Hv. exact Hv.
Defined.


(** With the largest counter the checker's own wraps around, and a list that is not
    increasing passes. *)
Example CheckAppends_wraps :
  CheckAppends [mkEntryN 0 (2 ^ 63 - 1); mkEntryN 0 0] 1 [mkRes 0 1] 3 = Ret tt.
Proof. by vm_compute. Qed.
