(* ===== verification/RaftCheck.v ===== *)
(** * The Raft tester: [raft1/server.go], [raft1/test.go], [raftapi]

    The tester's copy of the committed log of every server, the checks on each
    applied command, the snapshots it takes and ingests, and the checks on
    leaders, terms and commitment.  Raft itself is the students' code and a
    parameter.  What the other goroutines do while one of the tester sleeps, or
    between two of its steps, is the parameter [sleep]: servers are asked for their
    state, or to start a command, one after the other and not all at once. *)

From S2P Require Export GoStd.
Local Open Scope Z_scope.

(** Every stored value is an [any]: [None] is nil. *)
Record ApplyMsg {Cmd : Type} := mkMsg {
  CommandValid : bool;
  Command : option Cmd;
  CommandIndex : Z;
  SnapshotValid : bool;
  Snapshot : option (list Z);        (* [None] is the nil slice *)
  SnapshotTerm : Z;
  SnapshotIndex : Z
}.
Arguments ApplyMsg : clear implicits.

(** The interface [raftapi.Raft]; the [nat] names the instance. *)
Class Raft (W Cmd : Type) := {
  rf_Start : nat → option Cmd → W → (Z * Z * bool) * W;
  rf_GetState : nat → W → Z * bool;
  rf_Snapshot : nat → Z → list Z → W → W
}.

Definition SnapShotInterval : Z := 10.

Section raft.
Context {W Cmd : Type} `{EqDecision Cmd} `{RF : !Raft W Cmd}.
(** How [fmt] prints a command. *)
Context (show : option Cmd → string).
(** [labgob] on a snapshot: the index and the log. *)
Context (snap_encode : Z → list (option Cmd) → list Z)
        (snap_decode : list Z → option (Z * list (option Cmd))).

(** ** State *)

Record rfsrv := mkRfsrv {
  me : nat;
  applyErr : string;
  lastApplied : Z;
  raft_nil : bool;                   (* rs.raft == nil *)
  logs : gmap Z (option Cmd)
}.

(** [objs] is the heap of [rfsrv] objects; [srvs] holds pointers to them.  A
    restarted server is a new object. *)
Record Test := mkTest {
  objs : gmap nat rfsrv;
  srvs : list (option nat);
  maxIndex : Z;
  t_w : W
}.
Abbreviation K := (M Test).

Definition set_obj (p : nat) (rs : rfsrv) : K unit :=
  modify (λ ts, mkTest (<[p := rs]> (objs ts)) (srvs ts) (maxIndex ts) (t_w ts)).
Definition get_obj (p : option nat) : K (nat * rfsrv) := λ ts,
  match p with
  | None => Panic "nil pointer dereference"
  | Some p =>
      match objs ts !! p with
      | Some rs => Ret ((p, rs), ts)
      | None => Panic "nil pointer dereference"
      end
  end.

(** ** [server.go] *)

Definition with_logs (l : gmap Z (option Cmd)) (rs : rfsrv) : rfsrv :=
  mkRfsrv (me rs) (applyErr rs) (lastApplied rs) (raft_nil rs) l.
Definition with_applied (i : Z) (rs : rfsrv) : rfsrv :=
  mkRfsrv (me rs) (applyErr rs) i (raft_nil rs) (logs rs).

(** [Kill] also saves the persister's own contents back to it. *)
Definition Kill (p : nat) : K unit :=
  '(p, rs) ← get_obj (Some p);
  set_obj p (mkRfsrv (me rs) (applyErr rs) (lastApplied rs) true (logs rs)).

Definition Logs (rs : rfsrv) (i : Z) : option (option Cmd) := logs rs !! i.

(** The map of a decoded log: index [j] holds [xlog[j]]. *)
Definition log_map (xlog : list (option Cmd)) : gmap Z (option Cmd) :=
  list_to_map (imap (λ j v, (Z.of_nat j, v)) xlog).

(** The error string, "" when there is none. *)
Definition ingestSnap (p : nat) (snapshot : option (list Z)) (index : Z) : K string :=
  '(p, rs) ← get_obj (Some p);
  match snapshot with
  | None => lift (Fatal "nil snapshot")
  | Some bs =>
      match snap_decode bs with
      | None => lift (Fatal "snapshot decode error")
      | Some (lastIncludedIndex, xlog) =>
          if decide (index ≠ -1 ∧ index ≠ lastIncludedIndex) then
            mret ("server " +:+ Itoa (Z.of_nat (me rs)) +:+
                  " snapshot doesn't match m.SnapshotIndex")
          else
            _ ← set_obj p (with_applied lastIncludedIndex (with_logs (log_map xlog) rs));
            mret ""
      end
  end.

(** The first part of [newRfsrv], up to the start of the goroutines; [snapshot]
    is [ts.snapshot] and [snap] what [persister.ReadSnapshot] returned. *)
Definition newRfsrv (srv : nat) (snapshot : bool) (snap : list Z) : K nat :=
  p ← gets (λ ts, fresh (dom (objs ts)));
  _ ← set_obj p (mkRfsrv srv "" 0 false ∅);
  _ ← (if snapshot && negb (bool_decide (snap = [])) then
         err ← ingestSnap p (Some snap) (-1);
         if decide (err ≠ "") then lift (Fatal err) else mret tt
       else mret tt);
  mret p.

(** The rest of [mksrv]: the new server takes its place. *)
Definition mksrv (srv : nat) (snapshot : bool) (snap : list Z) : K unit :=
  p ← newRfsrv srv snapshot snap;
  ts ← gets id;
  if decide (srv < length (srvs ts))%nat then
    modify (λ ts, mkTest (objs ts) (<[srv := Some p]> (srvs ts)) (maxIndex ts) (t_w ts))
  else lift (Panic "index out of range").

(** ** [checkLogs] *)

(** The loop over the servers: the last disagreement is reported. *)
Definition checkLogs_conflict (i : nat) (m : ApplyMsg Cmd) (err : string)
    (jp : nat * option nat) : K string :=
  let '(j, p) := jp in
  '(_, rs) ← get_obj p;
  match Logs rs (CommandIndex m) with
  | Some old =>
      if decide (old ≠ Command m) then
        mret ("commit index=" +:+ Itoa (CommandIndex m) +:+ " server=" +:+ Itoa (Z.of_nat i) +:+
              " " +:+ show (Command m) +:+ " != server=" +:+ Itoa (Z.of_nat j) +:+ " " +:+ show old)
      else mret err
  | None => mret err
  end.

Fixpoint checkLogs_loop (i : nat) (m : ApplyMsg Cmd) (err : string)
    (l : list (nat * option nat)) : K string :=
  match l with
  | [] => mret err
  | jp :: l => err ← checkLogs_conflict i m err jp; checkLogs_loop i m err l
  end.

Definition checkLogs (i : nat) (m : ApplyMsg Cmd) : K (string * bool) :=
  ts ← gets id;
  mep ← lift (index (srvs ts) i);
  err_msg ← checkLogs_loop i m "" (imap pair (srvs ts));
  '(p, rs) ← get_obj mep;
  let prevok := bool_decide (is_Some (logs rs !! (CommandIndex m - 1))) in
  _ ← set_obj p (with_logs (<[CommandIndex m := Command m]> (logs rs)) rs);
  _ ← modify (λ ts, if decide (maxIndex ts < CommandIndex m) then
                      mkTest (objs ts) (srvs ts) (CommandIndex m) (t_w ts) else ts);
  mret (err_msg, prevok).

(** ** The readers of the apply channel, one message at a time *)

Definition out_of_order (srv : nat) (i : Z) : string :=
  "server " +:+ Itoa (Z.of_nat srv) +:+ " apply out of order " +:+ Itoa i.

Definition applier (p : nat) (m : ApplyMsg Cmd) : K unit :=
  if negb (CommandValid m) then mret tt
  else
    '(_, rs) ← get_obj (Some p);
    '(err_msg, prevok) ← checkLogs (me rs) m;
    let err_msg := if decide (1 < CommandIndex m ∧ prevok = false)
                   then out_of_order (me rs) (CommandIndex m) else err_msg in
    if decide (err_msg ≠ "") then lift (Fatal err_msg) else mret tt.

(** The log that a snapshot at index [i] contains; a missing entry reads as nil. *)
Definition xlog_of (l : gmap Z (option Cmd)) (i : Z) : list (option Cmd) :=
  (λ j, default None (l !! Z.of_nat j)) <$> seq 0 (Z.to_nat (i + 1)).

Definition take_snapshot (p : nat) (i : Z) : K unit :=
  '(p, rs) ← get_obj (Some p);
  if raft_nil rs then lift (Panic "nil pointer dereference")
  else modify (λ ts, mkTest (objs ts) (srvs ts) (maxIndex ts)
                       (rf_Snapshot p i (snap_encode i (xlog_of (logs rs) i)) (t_w ts))).

Definition applierSnap_command (p : nat) (m : ApplyMsg Cmd) : K string :=
  '(_, rs) ← get_obj (Some p);
  let i := CommandIndex m in
  err_msg ← (if decide (i ≠ lastApplied rs + 1) then
               mret ("server " +:+ Itoa (Z.of_nat (me rs)) +:+ " apply out of order, expected index " +:+
                     Itoa (lastApplied rs + 1) +:+ ", got " +:+ Itoa i)
             else
               '(err_msg, prevok) ← checkLogs (me rs) m;
               mret (if decide (1 < i ∧ prevok = false) then out_of_order (me rs) i else err_msg));
  '(p, rs) ← get_obj (Some p);
  _ ← set_obj p (with_applied i rs);
  _ ← (if decide (Z.rem (i + 1) SnapShotInterval = 0) then take_snapshot p i else mret tt);
  mret err_msg.

Definition applierSnap (p : nat) (m : ApplyMsg Cmd) : K unit :=
  err_msg ← (if SnapshotValid m then ingestSnap p (Snapshot m) (SnapshotIndex m)
             else if CommandValid m then applierSnap_command p m
             else mret "");
  if decide (err_msg ≠ "") then lift (Fatal err_msg) else mret tt.

(** ** [nCommitted] *)

Fixpoint nCommitted_loop (index : Z) (l : list (option nat)) (count : Z) (cmd : option Cmd)
    : K (Z * option Cmd) :=
  match l with
  | [] => mret (count, cmd)
  | p :: l =>
      '(_, rs) ← get_obj p;
      if decide (applyErr rs ≠ "") then lift (Fatal (applyErr rs))
      else
        match Logs rs index with
        | Some cmd1 =>
            if decide (0 < count ∧ cmd ≠ cmd1) then
              lift (Fatal "committed values at index do not match")
            else nCommitted_loop index l (count + 1) cmd1
        | None => nCommitted_loop index l count cmd
        end
  end.

Definition nCommitted (index : Z) : K (Z * option Cmd) :=
  ts ← gets id; nCommitted_loop index (srvs ts) 0 None.

Definition checkNoAgreement (index : Z) : K unit :=
  '(n, _) ← nCommitted index;
  if decide (0 < n) then lift (Fatal "committed but no majority") else mret tt.

(** ** Leaders and terms *)

(** [ts.g.IsConnected], the clock in milliseconds and [ts.finished]; what the
    other goroutines do during [time.Sleep] of so many milliseconds, where 0 stands
    for the time between two steps. *)
Context (IsConnected : W → nat → bool) (clock : W → Z) (checkFinished : W → bool)
  (sleep : Z → Test → Test).

Definition do_sleep (ms : Z) : K unit := modify (sleep ms).
Definition others : K unit := do_sleep 0.

(** [rs.GetState()]; a nil [rs.raft] is a panic. *)
Definition GetState (p : option nat) : K (Z * bool) :=
  '(p, rs) ← get_obj p;
  if raft_nil rs then lift (Panic "nil pointer dereference")
  else gets (λ ts, rf_GetState p (t_w ts)).

(** [if ts.g.IsConnected(i) { ... ts.srvs[i].GetState() ... }]: the answer of
    server [i], if it is connected. *)
Definition ask (i : nat) : K (option (Z * bool)) :=
  _ ← others;
  w ← gets t_w;
  if IsConnected w i then
    _ ← others;
    ts ← gets id;
    p ← lift (index (srvs ts) i);
    r ← GetState p;
    mret (Some r)
  else mret None.
(** [for i := 0; i < ts.n; i++] *)
Definition servers : K (list nat) := gets (λ ts, seq 0 (length (srvs ts))).

(** [leaders[term] = append(leaders[term], i)] for the connected leaders. *)
Definition claim (i : nat) (r : option (Z * bool)) (leaders : gmap Z (list nat))
    : gmap Z (list nat) :=
  match r with
  | Some (term, true) => <[term := default [] (leaders !! term) ++ [i]]> leaders
  | _ => leaders
  end.
Fixpoint find_leaders (l : list nat) (leaders : gmap Z (list nat)) : K (gmap Z (list nat)) :=
  match l with
  | [] => mret leaders
  | i :: l => r ← ask i; find_leaders l (claim i r leaders)
  end.

(** The loop over the map; which of several overfull terms is reported depends
    on the order of the map, but not whether one is. *)
Definition last_term (leaders : gmap Z (list nat)) : outcome Z :=
  ofold (λ last '(term, ls),
    if decide (1 < length ls)%nat then Fatal "term has >1 leaders"
    else Ret (if decide (last < term) then term else last)) (-1) (map_to_list leaders).

(** [draws] are the random sleeps of the iterations. *)
Fixpoint checkOneLeader (draws : list Z) : K nat :=
  match draws with
  | [] => lift (Fatal "expected one leader, got none")
  | ms :: draws =>
      _ ← do_sleep (450 + Z.rem ms 100);
      l ← servers;
      leaders ← find_leaders l ∅;
      last ← lift (last_term leaders);
      if decide (leaders ≠ ∅) then lift (index (default [] (leaders !! last)) 0)
      else checkOneLeader draws
  end.

Fixpoint checkTerms_loop (l : list nat) (term : Z) : K Z :=
  match l with
  | [] => mret term
  | i :: l =>
      r ← ask i;
      match r with
      | Some (xterm, _) =>
          if decide (term = -1) then checkTerms_loop l xterm
          else if decide (term ≠ xterm) then lift (Fatal "servers disagree on term")
          else checkTerms_loop l term
      | None => checkTerms_loop l term
      end
  end.
Definition checkTerms : K Z := l ← servers; checkTerms_loop l (-1).

Fixpoint checkNoLeader_loop (l : list nat) : K unit :=
  match l with
  | [] => mret tt
  | i :: l =>
      r ← ask i;
      match r with
      | Some (_, true) => lift (Fatal "leader")
      | _ => checkNoLeader_loop l
      end
  end.
Definition checkNoLeader : K unit := l ← servers; checkNoLeader_loop l.

(** ** [one] and [wait] *)

(** One round over the servers, beginning after [starts]: the index of the
    command if a server took it, and the new [starts]. *)
Fixpoint try_start (cmd : option Cmd) (rounds starts : nat) : K (Z * nat) :=
  match rounds with
  | O => mret (-1, starts)
  | S rounds =>
      _ ← others;
      ts ← gets id;
      let starts := Nat.modulo (starts + 1) (length (srvs ts)) in
      if IsConnected (t_w ts) starts then
        _ ← others;
        ts ← gets id;
        p ← lift (index (srvs ts) starts);
        '(p, rs) ← get_obj p;
        if raft_nil rs then try_start cmd rounds starts
        else
          '(index1, _, ok) ← (λ ts, let '(r, w) := rf_Start p cmd (t_w ts) in
                                    Ret (r, mkTest (objs ts) (srvs ts) (maxIndex ts) w));
          if (ok : bool) then mret (index1, starts) else try_start cmd rounds starts
      else try_start cmd rounds starts
  end.

(** Wait up to two seconds for agreement on [cmd] at [index]. *)
Fixpoint await (fuel : nat) (cmd : option Cmd) (index expected t1 : Z) : K bool :=
  match fuel with
  | O => lift Diverge
  | S fuel =>
      w ← gets t_w;
      if decide (clock w - t1 < 2000) then
        '(nd, cmd1) ← nCommitted index;
        if decide (0 < nd ∧ expected ≤ nd ∧ cmd1 = cmd) then mret true
        else _ ← do_sleep 20; await fuel cmd index expected t1
      else mret false
  end.

(** At most [turns] turns, and [polls] turns of each wait for agreement. *)
Fixpoint one_loop (turns polls : nat) (cmd : option Cmd) (expected : Z) (retry : bool) (t0 : Z)
    (starts : nat) : K Z :=
  match turns with
  | O => lift Diverge
  | S turns =>
      w ← gets t_w;
      if bool_decide (clock w - t0 < 10000) && negb (checkFinished w) then
        ts ← gets id;
        '(index, starts) ← try_start cmd (length (srvs ts)) starts;
        if decide (index ≠ -1) then
          t1 ← gets (λ ts, clock (t_w ts));
          b ← await polls cmd index expected t1;
          if (b : bool) then mret index
          else if negb retry then lift (Fatal "failed to reach agreement")
          else one_loop turns polls cmd expected retry t0 starts
        else _ ← do_sleep 50; one_loop turns polls cmd expected retry t0 starts
      else if negb (checkFinished w) then lift (Fatal "failed to reach agreement")
      else mret (-1)
  end.

Definition one (turns polls : nat) (cmd : option Cmd) (expected : Z) (retry : bool) : K Z :=
  t0 ← gets (λ ts, clock (t_w ts));
  one_loop turns polls cmd expected retry t0 0.

(** The result of [wait] is -1 (here [inl]) or the command. *)
Fixpoint moved_on (l : list (option nat)) (startTerm : Z) : K bool :=
  match l with
  | [] => mret false
  | p :: l =>
      _ ← others;
      '(t, _) ← GetState p;
      if decide (startTerm < t) then mret true else moved_on l startTerm
  end.

Fixpoint wait_loop (iters : nat) (index n startTerm to : Z) : K bool :=
  match iters with
  | O => mret false
  | S iters =>
      '(nd, _) ← nCommitted index;
      if decide (n ≤ nd) then mret false
      else
        _ ← do_sleep to;
        let to := if decide (to < 1000) then to * 2 else to in
        ts ← gets id;
        b ← (if decide (-1 < startTerm) then moved_on (srvs ts) startTerm else mret false);
        if (b : bool) then mret true else wait_loop iters index n startTerm to
  end.

Definition wait (index n startTerm : Z) : K (Z + option Cmd) :=
  b ← wait_loop 30 index n startTerm 10;
  if (b : bool) then mret (inl (-1))
  else
    '(nd, cmd) ← nCommitted index;
    if decide (nd < n) then lift (Fatal "only few decided for index") else mret (inr cmd).
End raft.

(** ** Proofs: the state of the servers' logs *)

Section raft_proofs.
Context {W Cmd : Type} `{EqDecision Cmd} `{RF : !Raft W Cmd}.
Context (show : option Cmd → string).
Context (snap_encode : Z → list (option Cmd) → list Z)
        (snap_decode : list Z → option (Z * list (option Cmd))).
Abbreviation Test := (@Test W Cmd).

Definition log_of (ts : Test) (p : nat) (i : Z) : option (option Cmd) :=
  rs ← objs ts !! p; logs rs !! i.

(** Every started server has an object, without an error. *)
Definition objs_ok (ts : Test) : Prop := ∀ p, Some p ∈ srvs ts →
  ∃ rs, objs ts !! p = Some rs ∧ applyErr rs = "".
(** The committed logs of the servers never differ at an index. *)
Definition agree (ts : Test) : Prop := ∀ p q i a b,
  Some p ∈ srvs ts → Some q ∈ srvs ts →
  log_of ts p i = Some a → log_of ts q i = Some b → a = b.
(** A log has no gaps above index 1. *)
Definition contiguous (ts : Test) : Prop := ∀ p i,
  Some p ∈ srvs ts → 1 < i → is_Some (log_of ts p i) → is_Some (log_of ts p (i - 1)).

Record Inv (ts : Test) : Prop := {
  inv_objs : objs_ok ts;
  inv_agree : agree ts;
  inv_contig : contiguous ts
}.

(** Some server has another command at the index of the message. *)
Definition conflict (ts : Test) (m : ApplyMsg Cmd) : Prop :=
  ∃ q old, Some q ∈ srvs ts ∧ log_of ts q (CommandIndex m) = Some old ∧ old ≠ Command m.
Definition conflictb (ts : Test) (m : ApplyMsg Cmd) : bool :=
  existsb (λ p, match p with
    | Some q => match log_of ts q (CommandIndex m) with
                | Some old => bool_decide (old ≠ Command m)
                | None => false
                end
    | None => false
    end) (srvs ts).

Lemma conflictb_spec ts m : conflictb ts m = true ↔ conflict ts m.
Proof.
  unfold conflictb, conflict. rewrite existsb_exists. split.
  - intros ([q|] & Hq & H); [|done]. destruct (log_of _ _ _) as [old|] eqn:Hlog; [|done].
    exists q, old. rewrite list_elem_of_In. by apply bool_decide_eq_true in H.
  - intros (q & old & Hq & Hlog & Hne). exists (Some q). rewrite <-list_elem_of_In, Hlog.
    split; [done|]. by apply bool_decide_eq_true.
Qed.

#[export] Instance conflict_dec ts m : Decision (conflict ts m).
Proof.
  refine (cast_if (decide (conflictb ts m = true))); by rewrite <-conflictb_spec.
Defined.
(** The server whose log is extended lacks the previous index. *)
Definition gap (ts : Test) (q : nat) (m : ApplyMsg Cmd) : Prop :=
  1 < CommandIndex m ∧ log_of ts q (CommandIndex m - 1) = None.

(** The state after [m] was entered in the log of object [q]. *)
Definition recorded (ts : Test) (q : nat) (m : ApplyMsg Cmd) : Test :=
  mkTest (alter (λ rs, with_logs (<[CommandIndex m := Command m]> (logs rs)) rs) q (objs ts))
    (srvs ts) (Z.max (maxIndex ts) (CommandIndex m)) (t_w ts).

Lemma get_obj_run p rs (ts : Test) :
  objs ts !! p = Some rs → get_obj (Some p) ts = Ret ((p, rs), ts).
Proof. intros H. unfold get_obj. by rewrite H. Qed.

#[local] Arguments checkLogs_conflict : simpl never.
#[local] Arguments get_obj : simpl never.

(** The loop finds a conflict exactly if there is one among its servers. *)
Lemma checkLogs_loop_spec i m (ts : Test) l err :
  (∀ j p, (j, p) ∈ l → ∃ q, p = Some q ∧ is_Some (objs ts !! q)) →
  ∃ err', checkLogs_loop show i m err l ts = Ret (err', ts) ∧
    (err' = "" ↔ err = "" ∧ ∀ j q old, (j, Some q) ∈ l →
       log_of ts q (CommandIndex m) = Some old → old = Command m).
Proof.
  revert err. induction l as [|[j p] l IH]; intros err Hl; simpl.
  - exists err. split; [done|]. split; [|tauto]. intros ->. split; [done|].
    intros j q old Hin. by apply elem_of_nil in Hin.
  - destruct (Hl j p) as (q & -> & rs & Hrs); [left|].
    assert (∃ err1, checkLogs_conflict show i m err (j, Some q) ts = Ret (err1, ts) ∧
      (err1 = "" ↔ err = "" ∧ ∀ old, log_of ts q (CommandIndex m) = Some old → old = Command m))
      as (err1 & Hrun & Herr1).
    { unfold checkLogs_conflict, mbind, M_bind. rewrite (get_obj_run q rs) by done.
      unfold Logs, log_of. rewrite Hrs. simpl. destruct (logs rs !! _) as [old|].
      - destruct (decide (old ≠ Command m)) as [Hne|Heq].
        + eexists. split; [done|]. split; [done|]. intros [_ H]. destruct Hne. by apply H.
        + exists err. split; [done|]. apply dec_stable in Heq. naive_solver.
      - exists err. split; [done|]. naive_solver. }
    destruct (IH err1) as (err' & Hrun' & Herr'); [intros j0 p0 Hin; apply (Hl j0); by right|].
    exists err'. unfold mbind, M_bind. rewrite Hrun, Hrun'. split; [done|].
    rewrite Herr', Herr1. setoid_rewrite elem_of_cons. naive_solver.
Qed.

Lemma imap_pair_elem {A} (l : list A) j x : (j, x) ∈ imap pair l ↔ l !! j = Some x.
Proof.
  rewrite list_elem_of_lookup. setoid_rewrite list_lookup_imap. split.
  - intros [i Hi]. apply fmap_Some in Hi as (y & Hy & [= -> ->]). done.
  - intros H. exists j. by rewrite H.
Qed.

(** All servers are started. *)
Definition all_started (ts : Test) : Prop := ∀ p, p ∈ srvs ts → ∃ q, p = Some q.

Lemma checkLogs_spec i q m (ts : Test) :
  objs_ok ts → all_started ts → srvs ts !! i = Some (Some q) →
  ∃ err, checkLogs show i m ts =
    Ret ((err, bool_decide (is_Some (log_of ts q (CommandIndex m - 1)))), recorded ts q m) ∧
    (err = "" ↔ ¬ conflict ts m).
Proof.
  intros Hok Hall Hi.
  destruct (checkLogs_loop_spec i m ts (imap pair (srvs ts)) "") as (err & Hrun & Herr).
  { intros j p Hj%imap_pair_elem. destruct (Hall p) as [q' ->];
      [by eapply list_elem_of_lookup_2|]. exists q'. split; [done|].
    destruct (Hok q') as (rs & ? & _); [by eapply list_elem_of_lookup_2|]. eauto. }
  destruct (Hok q) as (rs & Hrs & _); [by eapply list_elem_of_lookup_2|].
  exists err. split.
  - unfold checkLogs, mbind, M_bind. unfold gets at 1. simpl. unfold lift, index. rewrite Hi. simpl.
    rewrite Hrun. rewrite (get_obj_run q rs) by done. unfold set_obj, modify, gets. simpl.
    unfold recorded, log_of. rewrite Hrs. simpl. rewrite (alter_as_insert _ _ _ rs) by done.
    destruct (decide (maxIndex ts < CommandIndex m)).
    + by rewrite Z.max_r by lia.
    + by rewrite Z.max_l by lia.
  - rewrite Herr. unfold conflict. split.
    + intros [_ H] (q' & old & Hq' & Hlog & Hne).
      apply list_elem_of_lookup in Hq' as [j Hj]. apply Hne, (H j q'); [|done].
      by apply imap_pair_elem.
    + intros H. split; [done|]. intros j q' old Hj%imap_pair_elem Hlog.
      destruct (decide (old = Command m)); [done|]. destruct H. exists q', old.
      split_and!; [by eapply list_elem_of_lookup_2|done|done].
Qed.

Lemma out_of_order_nonempty srv i : out_of_order srv i ≠ "".
Proof. done. Qed.

Lemma applier_outcome (p q : nat) (m : ApplyMsg Cmd) (rs : @rfsrv Cmd) (ts : Test) :
  objs_ok ts → all_started ts → objs ts !! p = Some rs → srvs ts !! me rs = Some (Some q) →
  CommandValid m = true →
  match applier show p m ts with
  | Ret (_, ts') => ¬ conflict ts m ∧ ¬ gap ts q m ∧ ts' = recorded ts q m
  | Fatal _ => conflict ts m ∨ gap ts q m
  | _ => False
  end.
Proof.
  intros Hok Hall Hp Hme Hv. destruct (checkLogs_spec (me rs) q m ts Hok Hall Hme)
    as (err & Hrun & Herr).
  unfold applier. rewrite Hv. simpl. unfold mbind, M_bind.
  rewrite (get_obj_run p rs), Hrun by done. unfold gap.
  destruct (decide (1 < _ ∧ _)) as [[H1 H2%bool_decide_eq_false]|Hgap].
  - simpl. right. split; [done|]. by apply eq_None_not_Some.
  - destruct (decide (err ≠ "")) as [He|He%dec_stable]; simpl.
    + left. apply dec_stable. by rewrite <-Herr.
    + split_and!; [by apply Herr| |done]. intros [H1 H2]. apply Hgap. split; [done|].
      apply bool_decide_eq_false. rewrite H2. by intros [? ?].
Qed.

(** The reader of the apply channel records a command exactly if no server
    has committed another command at its index and the server has the index
    before it; otherwise it ends the test. *)
Lemma applier_checks (p q : nat) (m : ApplyMsg Cmd) (rs : @rfsrv Cmd) (ts : Test) :
  objs_ok ts → all_started ts → objs ts !! p = Some rs → srvs ts !! me rs = Some (Some q) →
  CommandValid m = true →
  match applier show p m ts with
  | Ret (_, ts') => ¬ conflict ts m ∧ ¬ gap ts q m ∧ ts' = recorded ts q m
  | Fatal _ => conflict ts m ∨ gap ts q m
  | _ => False
  end.
Proof. apply applier_outcome. Qed.

(** ** Runs of the tester without snapshots *)

(** A server is (re)started, a message reaches the reader of an object, or an
    object is killed. *)
Inductive event :=
| Ev_start (srv : nat)
| Ev_apply (p : nat) (m : ApplyMsg Cmd)
| Ev_kill (p : nat).

Definition ev_step (e : event) : M Test unit :=
  match e with
  | Ev_start srv => mksrv snap_decode srv false []
  | Ev_apply p m => applier show p m
  | Ev_kill p => Kill p
  end.

Fixpoint run_events (l : list event) : M Test unit :=
  match l with
  | [] => mret tt
  | e :: l => _ ← ev_step e; run_events l
  end.

(** [makeTest] before the first server is started. *)
Definition test0 (n : nat) (w : W) : Test := mkTest ∅ (replicate n None) 0 w.

Lemma log_of_recorded ts q m p i :
  is_Some (objs ts !! q) →
  log_of (recorded ts q m) p i =
  if decide (p = q ∧ i = CommandIndex m) then Some (Command m) else log_of ts p i.
Proof.
  intros [rs Hq]. unfold log_of, recorded. simpl. destruct (decide (p = q)) as [->|Hne].
  - rewrite lookup_alter_eq, Hq. simpl. destruct (decide (i = CommandIndex m)) as [->|].
    + by rewrite lookup_insert_eq, decide_True.
    + by rewrite lookup_insert_ne, decide_False by naive_solver.
  - by rewrite lookup_alter_ne, decide_False by naive_solver.
Qed.

Lemma recorded_Inv ts q m :
  Inv ts → is_Some (objs ts !! q) → ¬ conflict ts m → ¬ gap ts q m → Inv (recorded ts q m).
Proof.
  intros [Hobj Hag Hco] Hq Hcf Hgap. split.
  - intros p Hp. destruct (Hobj p Hp) as (rs & Hrs & He). simpl.
    destruct (decide (p = q)) as [->|Hne].
    + rewrite lookup_alter_eq, Hrs. by eexists.
    + rewrite lookup_alter_ne by done. eauto.
  - intros p p' i a b Hp Hp'. rewrite !log_of_recorded by done.
    assert (∀ x, Some x ∈ srvs ts → ∀ c, log_of ts x (CommandIndex m) = Some c → c = Command m)
      as Hcf'.
    { intros x Hx c Hc. destruct (decide (c = Command m)); [done|]. destruct Hcf. by exists x, c. }
    destruct (decide (p = q ∧ _)) as [[-> ->]|H1], (decide (p' = q ∧ _)) as [[-> ?]|H2];
      intros Ha Hb; simplify_eq.
    + done.
    + symmetry. by apply (Hcf' p').
    + by apply (Hcf' p).
    + by apply (Hag p p' i).
  - intros p i Hp Hi. rewrite !log_of_recorded by done.
    destruct (decide (p = q ∧ i = _)) as [[-> ->]|H1].
    + intros _. rewrite decide_False by lia. unfold gap in Hgap.
      destruct (log_of ts q _) as [x|] eqn:Hx; [by eexists|]. destruct Hgap. by split.
    + intros Hlog. destruct (decide _); [by eexists|]. by apply Hco.
Qed.

Lemma get_obj_Ret p (ts : Test) r ts' :
  get_obj p ts = Ret (r, ts') → ∃ q rs, p = Some q ∧ objs ts !! q = Some rs ∧ r = (q, rs) ∧ ts' = ts.
Proof.
  unfold get_obj. destruct p as [q|]; [|done]. destruct (objs ts !! q) as [rs|] eqn:Hq; [|done].
  intros [= <- <-]. eauto 10.
Qed.

Lemma checkLogs_loop_started i m l err (ts : Test) r :
  checkLogs_loop show i m err l ts = Ret r → ∀ j p, (j, p) ∈ l → ∃ q, p = Some q.
Proof.
  revert err ts. induction l as [|[j p] l IH]; intros err ts Hrun j' p' Hin;
    [by apply elem_of_nil in Hin|]. simpl in Hrun.
  apply M_bind_Ret in Hrun as (err1 & ts1 & Hc & Hrun).
  apply elem_of_cons in Hin as [[= -> ->]|Hin]; [|by eapply IH].
  unfold checkLogs_conflict in Hc. apply M_bind_Ret in Hc as (? & ? & Hg & _).
  apply get_obj_Ret in Hg as (q & ? & -> & _). eauto.
Qed.

(** A message can only be recorded once all servers are started. *)
Lemma applier_Ret p m (ts : Test) r :
  applier show p m ts = Ret r → CommandValid m = true →
  all_started ts ∧ ∃ rs q, objs ts !! p = Some rs ∧ srvs ts !! me rs = Some (Some q).
Proof.
  unfold applier. intros Hrun Hv. rewrite Hv in Hrun. cbn [negb] in Hrun.
  apply M_bind_Ret in Hrun as ([p' rs] & ts1 & Hg & Hrun).
  apply get_obj_Ret in Hg as (q & rs' & [= <-] & Hp & [= -> ->] & ->).
  apply M_bind_Ret in Hrun as ([err prevok] & ts2 & Hc & _). unfold checkLogs in Hc.
  apply M_bind_Ret in Hc as (ts1 & ? & [= <- <-] & Hc).
  apply M_bind_Ret in Hc as (mep & ts3 & Hi & Hc). unfold lift, index in Hi.
  simpl in Hi. destruct (srvs ts !! me rs') as [mep'|] eqn:Hme; [|done]. injection Hi as -> <-.
  apply M_bind_Ret in Hc as (err1 & ts4 & Hl & Hc).
  assert (all_started ts) as Hall.
  { intros x Hx. apply list_elem_of_lookup in Hx as [j Hj].
    eapply (checkLogs_loop_started _ _ _ _ _ _ Hl j). by apply imap_pair_elem. }
  split; [done|]. destruct (Hall mep) as [q ->]; [by eapply list_elem_of_lookup_2|]. eauto.
Qed.

Lemma mksrv_Inv srv ts ts' :
  Inv ts → mksrv snap_decode srv false [] ts = Ret (tt, ts') → Inv ts'.
Proof.
  intros HI Hrun.
  unfold mksrv, newRfsrv, mbind, M_bind, gets, set_obj, modify, mret, M_ret in Hrun.
  simpl in Hrun. set (p := fresh (dom (objs ts))) in *.
  destruct (decide (srv < length (srvs ts))%nat) as [Hlt|]; [|done]. injection Hrun as <-.
  assert (∀ x, Some x ∈ srvs ts → x ≠ p) as Hfr.
  { intros x Hx ->. destruct (inv_objs _ HI p Hx) as (rs & Hp & _).
    apply elem_of_dom_2 in Hp. by apply is_fresh in Hp. }
  assert (∀ x, Some x ∈ <[srv := Some p]> (srvs ts) → x = p ∨ (x ≠ p ∧ Some x ∈ srvs ts)) as Hin.
  { intros x Hx. apply list_elem_of_lookup in Hx as [k Hk].
    apply list_lookup_insert_Some in Hk as [(_ & [= <-] & _)|[_ Hk]]; [by left|right].
    apply list_elem_of_lookup_2 in Hk. split; [by apply Hfr|done]. }
  set (new := mkRfsrv srv "" 0 false ∅).
  set (ts1 := mkTest (<[p := new]> (objs ts)) (<[srv := Some p]> (srvs ts)) (maxIndex ts) (t_w ts)).
  assert (∀ i, log_of ts1 p i = None) as Hp.
  { intros i. unfold log_of. simpl. by rewrite lookup_insert_eq. }
  assert (∀ x i, x ≠ p → log_of ts1 x i = log_of ts x i) as Hx.
  { intros x i Hne. unfold log_of. simpl. by rewrite lookup_insert_ne. }
  split.
  + intros x [->|[Hne Hx']]%Hin; simpl.
    * rewrite lookup_insert_eq. by eexists.
    * rewrite lookup_insert_ne by done. by apply (inv_objs _ HI).
  + intros x y i a b [->|[Hne Hx']]%Hin [->|[Hne' Hy']]%Hin; rewrite ?Hp; try done.
    rewrite !Hx by done. by apply (inv_agree _ HI).
  + intros x i [->|[Hne Hx']]%Hin Hi; [rewrite Hp; by intros [? ?]|].
    rewrite !Hx by done. by apply (inv_contig _ HI).
Qed.

Lemma applier_Inv p m ts ts' : Inv ts → applier show p m ts = Ret (tt, ts') → Inv ts'.
Proof.
  intros HI Hrun.
  destruct (CommandValid m) eqn:Hv.
  + destruct (applier_Ret p m ts _ Hrun Hv) as (Hall & rs & q & Hp & Hme).
    pose proof (applier_outcome p q m rs ts (inv_objs _ HI) Hall Hp Hme Hv) as H.
    rewrite Hrun in H. destruct H as (H1 & H2 & ->).
    apply recorded_Inv; [done| |done|done].
    destruct (inv_objs _ HI q) as (? & ? & _); [by eapply list_elem_of_lookup_2|by eexists].
  + unfold applier in Hrun. rewrite Hv in Hrun. by injection Hrun as <-.
Qed.

Lemma Kill_Inv p ts ts' : Inv ts → Kill p ts = Ret (tt, ts') → Inv ts'.
Proof.
  intros HI Hrun.
  unfold Kill in Hrun. apply M_bind_Ret in Hrun as ([p' rs] & ts1 & Hg & Hrun).
  apply get_obj_Ret in Hg as (q & rs' & [= <-] & Hp & [= -> ->] & ->).
  injection Hrun as <-. destruct HI as [Hobj Hag Hco].
  set (new := mkRfsrv _ _ _ _ _).
  assert (∀ x i, log_of (mkTest (<[p := new]> (objs ts)) (srvs ts) (maxIndex ts) (t_w ts)) x i
    = log_of ts x i) as Hlog.
  { intros x i. unfold log_of. simpl. destruct (decide (x = p)) as [->|].
    - by rewrite lookup_insert_eq, Hp.
    - by rewrite lookup_insert_ne. }
  split.
  + intros x Hx. destruct (Hobj x Hx) as (rs & Hrs & He). simpl.
    destruct (decide (x = p)) as [->|Hne].
    * rewrite lookup_insert_eq. eexists. split; [done|]. simpl. by simplify_eq.
    * rewrite lookup_insert_ne by done. eauto.
  + intros x y i a b Hx Hy. rewrite !Hlog. by apply Hag.
  + intros x i Hx Hi. rewrite !Hlog. by apply Hco.
Qed.

Lemma ev_step_Inv e ts ts' : Inv ts → ev_step e ts = Ret (tt, ts') → Inv ts'.
Proof. destruct e; [apply mksrv_Inv|apply applier_Inv|apply Kill_Inv]. Qed.

Lemma run_events_Inv l ts ts' : Inv ts → run_events l ts = Ret (tt, ts') → Inv ts'.
Proof.
  revert ts. induction l as [|e l IH]; simpl; intros ts HI Hrun; [by injection Hrun as <-|].
  apply M_bind_Ret in Hrun as ([] & ts1 & He & Hrun). eapply IH; [|done].
  by eapply ev_step_Inv.
Qed.

Lemma test0_Inv n w : Inv (test0 n w).
Proof.
  assert (∀ p, Some p ∉ srvs (test0 n w)) as Hn.
  { intros p Hp. simpl in Hp. by apply elem_of_replicate in Hp as [? _]. }
  split; [intros p Hp|intros p q i a b Hp|intros p i Hp]; by apply Hn in Hp.
Qed.

(** [nCommitted] when the logs agree: the number of servers with the entry, and
    the command they share. *)
Lemma nCommitted_loop_spec i (ts : Test) l count cmd :
  (∀ p, p ∈ l → ∃ q rs, p = Some q ∧ objs ts !! q = Some rs ∧ applyErr rs = "") →
  (∀ p q a b, Some p ∈ l → Some q ∈ l → log_of ts p i = Some a → log_of ts q i = Some b → a = b) →
  (0 ≤ count) →
  (0 < count → ∀ p a, Some p ∈ l → log_of ts p i = Some a → a = cmd) →
  ∃ count' cmd', nCommitted_loop i l count cmd ts = Ret ((count', cmd'), ts) ∧
    count' = count + Z.of_nat (count_if (λ p, bool_decide (is_Some (q ← p; log_of ts q i))) l) ∧
    (0 < count → cmd' = cmd) ∧
    (∀ p a, Some p ∈ l → log_of ts p i = Some a → cmd' = a).
Proof.
  revert count cmd. induction l as [|p l IH]; intros count cmd Hobj Hag Hc Hcmd; simpl.
  - exists count, cmd. split_and!; [done|lia|done|]. intros p a Hp. by apply elem_of_nil in Hp.
  - destruct (Hobj p) as (q & rs & -> & Hq & He); [left|].
    unfold mbind at 1, M_bind at 1. rewrite (get_obj_run q rs) by done.
    rewrite decide_False by (intros Hn; by apply Hn). unfold Logs.
    assert (log_of ts q i = logs rs !! i) as Hlog by (unfold log_of; by rewrite Hq).
    simpl. rewrite Hlog. destruct (logs rs !! i) as [c|] eqn:Hc1.
    + rewrite decide_False; [|intros [H0 Hne]; apply Hne; symmetry; apply (Hcmd H0 q); [left|done]].
      destruct (IH (count + 1) c) as (count' & cmd' & -> & Hn & Hk & Hall).
      * intros p Hp. apply Hobj. by right.
      * intros p p' a b Hp Hp'. apply Hag; by right.
      * lia.
      * intros _ p a Hp Ha. apply (Hag p q); [by right|left|done|done].
      * exists count', cmd'. rewrite bool_decide_true by by eexists.
        split_and!; [done|lia| |].
        -- intros H0. rewrite Hk by lia. apply (Hcmd H0 q); [left|done].
        -- intros p a Hp Ha. rewrite Hk by lia. apply elem_of_cons in Hp as [[= ->]|Hp].
           ++ congruence.
           ++ apply (Hag q p); [left|by right|done|done].
    + destruct (IH count cmd) as (count' & cmd' & -> & Hn & Hk & Hall).
      * intros p Hp. apply Hobj. by right.
      * intros p p' a b Hp Hp'. apply Hag; by right.
      * lia.
      * intros H0 p a Hp. apply (Hcmd H0). by right.
      * exists count', cmd'. rewrite bool_decide_false by by intros [? ?].
        split_and!; [done|lia|done|]. intros p a Hp Ha.
        apply elem_of_cons in Hp as [[= ->]|Hp]; [congruence|]. by apply (Hall p).
Qed.

(** C32: the tests without snapshots (3A to 3C).  In every state that such a test
    reaches without ending (servers started and restarted, commands applied by any
    server in any order, servers killed), the committed logs of all servers agree
    and have no gaps, and
    [nCommitted] does not fail: it returns how many servers have committed the
    index and the command they agree on.  (The servers of 3D take their log from
    snapshots, which the tester does not compare.) *)
Theorem reachable_agreement (n : nat) (w : W) (l : list event) (ts : Test) :
  run_events l (test0 n w) = Ret (tt, ts) →
  agree ts ∧ contiguous ts ∧
  (all_started ts → ∀ i, ∃ cmd,
     nCommitted i ts =
       Ret ((Z.of_nat (count_if (λ p, bool_decide (is_Some (q ← p; log_of ts q i))) (srvs ts)),
             cmd), ts) ∧
     ∀ p a, Some p ∈ srvs ts → log_of ts p i = Some a → cmd = a).
Proof.
  intros Hrun. destruct (run_events_Inv l _ ts (test0_Inv n w) Hrun) as [Hobj Hag Hco].
  split_and!; [done|done|]. intros Hall i.
  destruct (nCommitted_loop_spec i ts (srvs ts) 0 None) as (count & cmd & Hn & -> & _ & Hcmd).
  - intros p Hp. destruct (Hall p Hp) as [q ->]. destruct (Hobj q Hp) as (rs & ? & ?). eauto.
  - intros p q a b Hp Hq. by apply Hag.
  - done.
  - done.
  - exists cmd. by split.
Qed.

(** ** Snapshots *)

Lemma log_map_lookup (xlog : list (option Cmd)) j :
  log_map xlog !! j = if decide (0 ≤ j) then xlog !! Z.to_nat j else None.
Proof.
  unfold log_map. destruct (list_to_map _ !! j) as [v|] eqn:Hv.
  - apply elem_of_list_to_map_2 in Hv. apply list_elem_of_lookup in Hv as [k Hk].
    rewrite list_lookup_imap in Hk. apply fmap_Some in Hk as (x & Hx & [= -> ->]).
    rewrite decide_True by lia. by rewrite Nat2Z.id.
  - destruct (decide (0 ≤ j)) as [Hj|]; [|done].
    destruct (xlog !! Z.to_nat j) as [v|] eqn:Hx; [|done].
    apply not_elem_of_list_to_map in Hv. destruct Hv.
    apply list_elem_of_fmap. exists (j, v). split; [done|].
    apply list_elem_of_lookup. exists (Z.to_nat j). rewrite list_lookup_imap, Hx. simpl.
    by rewrite Z2Nat.id.
Qed.

Lemma log_map_xlog (l : gmap Z (option Cmd)) i j : 0 ≤ i →
  log_map (xlog_of l i) !! j = if decide (0 ≤ j ≤ i) then Some (default None (l !! j)) else None.
Proof.
  intros Hi. rewrite log_map_lookup. destruct (decide (0 ≤ j)) as [Hj|].
  - unfold xlog_of. rewrite list_lookup_fmap. destruct (decide (0 ≤ j ≤ i)).
    + rewrite lookup_seq_lt by lia. simpl. by rewrite Z2Nat.id.
    + rewrite lookup_seq_ge by lia. done.
  - by rewrite decide_False by lia.
Qed.

(** A snapshot that one server took at an index and another ingests gives
    the other server the first one's log up to the index (the missing entry 0
    becomes nil) and nothing else, and makes the index the last applied one. *)
Lemma snapshot_roundtrip (i : Z) (p q : nat) (rs rq : @rfsrv Cmd) (ts : Test) :
  (∀ i xlog, snap_decode (snap_encode i xlog) = Some (i, xlog)) →
  0 ≤ i → objs ts !! p = Some rs → objs ts !! q = Some rq →
  ∃ ts', ingestSnap snap_decode q (Some (snap_encode i (xlog_of (logs rs) i))) i ts = Ret ("", ts') ∧
    ∃ rq', objs ts' !! q = Some rq' ∧ lastApplied rq' = i ∧
      ∀ j, logs rq' !! j = if decide (0 ≤ j ≤ i) then Some (default None (logs rs !! j)) else None.
Proof.
  intros Hdec Hi Hp Hq. eexists. split.
  - unfold ingestSnap, mbind, M_bind. rewrite (get_obj_run q rq), Hdec by done.
    rewrite decide_False by tauto. done.
  - simpl. rewrite lookup_insert_eq. eexists. split_and!; [done|done|]. intros j. simpl.
    by apply log_map_xlog.
Qed.

(** ** One leader per term *)

Context (IsConnected : W → nat → bool) (sleep : Z → Test → Test).

(** What follows when server [j] is asked in [ts], and when the first [k] servers
    were asked one after the other. *)
Definition asked (j : nat) (ts : Test) : Test :=
  let ts := sleep 0 ts in if IsConnected (t_w ts) j then sleep 0 ts else ts.
Fixpoint tour (k : nat) (ts : Test) : Test :=
  match k with O => ts | S k => asked k (tour k ts) end.

(** In a round over the servers that begins in [ts], server [j] is connected when
    its turn comes, and when it is asked it claims to be the leader of term [t]. *)
Definition leads (ts : Test) (j : nat) (t : Z) : Prop :=
  (j < length (srvs ts))%nat ∧ IsConnected (t_w (sleep 0 (tour j ts))) j = true ∧
  ∃ q, srvs (asked j (tour j ts)) !! j = Some (Some q) ∧
    rf_GetState q (t_w (asked j (tour j ts))) = (t, true).

(** The rounds of [checkOneLeader] begin after its sleeps. *)
Fixpoint rounds (draws : list Z) (ts : Test) : Test :=
  match draws with
  | [] => ts
  | ms :: draws =>
      let ts := sleep (450 + Z.rem ms 100) ts in rounds draws (tour (length (srvs ts)) ts)
  end.

Lemma GetState_Ret p (ts : Test) r ts' :
  GetState p ts = Ret (r, ts') → ∃ q, p = Some q ∧ r = rf_GetState q (t_w ts) ∧ ts' = ts.
Proof.
  unfold GetState. intros H. apply M_bind_Ret in H as ([q rs] & ts1 & Hg & H).
  apply get_obj_Ret in Hg as (q' & rs' & -> & _ & [= -> ->] & ->).
  destruct (raft_nil rs'); [done|]. injection H as <- <-. eauto.
Qed.

(** The answer that server [j] gives in [ts]. *)
Definition answers (ts : Test) (j : nat) (r : option (Z * bool)) : Prop :=
  match r with
  | Some st => IsConnected (t_w (sleep 0 ts)) j = true ∧
      ∃ q, srvs (asked j ts) !! j = Some (Some q) ∧ rf_GetState q (t_w (asked j ts)) = st
  | None => IsConnected (t_w (sleep 0 ts)) j = false
  end.

Lemma ask_Ret j (ts : Test) r ts' :
  ask IsConnected sleep j ts = Ret (r, ts') → ts' = asked j ts ∧ answers ts j r.
Proof.
  unfold ask, others, do_sleep, asked, answers. intros H.
  apply M_bind_Ret in H as ([] & ts1 & [= <-] & H).
  apply M_bind_Ret in H as (w & ts2 & [= <- <-] & H).
  destruct (IsConnected (t_w (sleep 0 ts)) j) eqn:Hc.
  - apply M_bind_Ret in H as ([] & ts3 & [= <-] & H).
    apply M_bind_Ret in H as (ts4 & ts5 & [= <- <-] & H).
    apply M_bind_Ret in H as (p & ts6 & Hp & H).
    unfold lift, index in Hp. cbn [id] in Hp.
    destruct (srvs (sleep 0 (sleep 0 ts)) !! j) as [p'|] eqn:Hj; [|done].
    injection Hp as <- <-. apply M_bind_Ret in H as (st & ts7 & Hg & H).
    apply GetState_Ret in Hg as (q & -> & -> & ->). injection H as <- <-.
    split; [done|]. split; [done|]. exists q. unfold asked. by rewrite Hc.
  - injection H as <- <-. by split.
Qed.

(** The servers that were asked are found under the terms that they claimed. *)
Lemma find_leaders_spec n : ∀ k m0 (ts0 : Test) m ts',
  find_leaders IsConnected sleep (seq k n) m0 (tour k ts0) = Ret (m, ts') →
  ts' = tour (k + n) ts0 ∧
  ∀ t j, j ∈ default [] (m !! t) ↔
    j ∈ default [] (m0 !! t) ∨ (k ≤ j < k + n)%nat ∧ answers (tour j ts0) j (Some (t, true)).
Proof.
  clear show snap_encode snap_decode.
  induction n as [|n IH]; intros k m0 ts0 m ts' Hrun; cbn [seq find_leaders] in Hrun.
  { injection Hrun as <- <-. rewrite Nat.add_0_r. split; [done|].
    intros t j. split; [by left|]. intros [?|[? _]]; [done|lia]. }
  apply M_bind_Ret in Hrun as (r & ts1 & Ha & Hrun). apply ask_Ret in Ha as [-> Hr].
  change (asked k (tour k ts0)) with (tour (S k) ts0) in Hrun.
  apply IH in Hrun as [-> Hin]. clear IH.
  assert (∀ t, default [] (claim k r m0 !! t) =
    default [] (m0 !! t) ++ (if decide (r = Some (t, true)) then [k] else [])) as Hcl.
  { intros t. unfold claim. destruct r as [[t' []]|].
    - destruct (decide (t' = t)) as [->|Hne].
      + rewrite lookup_insert_eq, decide_True by done. done.
      + rewrite lookup_insert_ne, decide_False, app_nil_r by congruence. done.
    - rewrite decide_False, app_nil_r by congruence. done.
    - by rewrite decide_False, app_nil_r. }
  split; [f_equal; lia|].
  intros t j. rewrite Hin, Hcl, elem_of_app. split.
  - intros [[?|Hj]|[? ?]]; [by left| |right; split; [lia|done]]. right.
    case_decide; [|set_solver]. apply list_elem_of_singleton in Hj as ->. subst r. by split; [lia|].
  - intros [?|[Hk Ha]]; [by left; left|]. destruct (decide (j = k)) as [->|Hne].
    + left. right. rewrite decide_True; [set_solver|].
      destruct r as [st|]; simpl in Hr, Ha.
      * destruct Hr as (_ & q & Hq & <-), Ha as (_ & q' & Hq' & <-). congruence.
      * destruct Ha as [Ha _]. congruence.
    + right. split; [lia|done].
Qed.

Lemma last_term_fold l x r :
  ofold (λ last '(term, ls),
    if decide (1 < length (ls : list nat))%nat then Fatal "term has >1 leaders"
    else Ret (if decide (last < term) then term else last)) x l = Ret r →
  x ≤ r ∧ (∀ t ls, (t, ls) ∈ l → (length ls ≤ 1)%nat ∧ t ≤ r) ∧ (r = x ∨ ∃ ls, (r, ls) ∈ l).
Proof.
  revert x. induction l as [|[t ls] l IH]; intros x Hrun; simpl in Hrun.
  - injection Hrun as <-. split_and!; [done| |by left]. intros t ls Hin. by apply elem_of_nil in Hin.
  - destruct (decide (1 < length ls)%nat); [done|]. simpl in Hrun.
    apply IH in Hrun as (Hx & Hall & Hex). split_and!.
    + destruct (decide (x < t)); lia.
    + intros t' ls' [[= -> ->]|Hin]%elem_of_cons; [|by apply Hall].
      split; [lia|]. destruct (decide (x < t)); lia.
    + destruct Hex as [->|[ls' ?]]; [|right; exists ls'; by right].
      destruct (decide (x < t)); [right; exists ls; left|by left].
Qed.

Lemma last_term_spec m r :
  last_term m = Ret r →
  (∀ t ls, m !! t = Some ls → (length ls ≤ 1)%nat ∧ t ≤ r) ∧ (r = -1 ∨ is_Some (m !! r)).
Proof.
  intros Hrun. apply last_term_fold in Hrun as (_ & Hall & Hex). split.
  - intros t ls Hm. apply Hall. by apply elem_of_map_to_list.
  - destruct Hex as [->|[ls Hin]]; [by left|right]. apply elem_of_map_to_list in Hin. by eexists.
Qed.

Lemma leads_answers (ts : Test) j t :
  leads ts j t ↔ (j < length (srvs ts))%nat ∧ answers (tour j ts) j (Some (t, true)).
Proof. done. Qed.

(** C34: the server that [checkOneLeader] returns was found in the last of its
    rounds, in which every server was asked in turn: it was connected and claimed,
    when it was asked, to lead a term that no claim of the round exceeds, and no two
    servers claimed to lead the same term in this round.  The servers are asked one
    after the other: what one claims when another one is asked is not seen. *)
Theorem checkOneLeader_sound (draws : list Z) (ts ts' : Test) (i : nat) :
  checkOneLeader IsConnected sleep draws ts = Ret (i, ts') →
  ∃ pre ms post ts0, draws = pre ++ ms :: post ∧
    ts0 = sleep (450 + Z.rem ms 100) (rounds pre ts) ∧ ts' = tour (length (srvs ts0)) ts0 ∧
    (∃ t, leads ts0 i t ∧ ∀ j t', leads ts0 j t' → t' ≤ t) ∧
    (∀ j k t, leads ts0 j t → leads ts0 k t → j = k).
Proof.
  clear show snap_encode snap_decode. revert ts. induction draws as [|ms draws IH]; intros ts Hrun; [done|].
  cbn [checkOneLeader] in Hrun.
  apply M_bind_Ret in Hrun as ([] & ts1 & [= <-] & Hrun).
  apply M_bind_Ret in Hrun as (l & ts2 & [= <- <-] & Hrun).
  apply M_bind_Ret in Hrun as (m & ts3 & Hf & Hrun).
  set (ts0 := sleep (450 + Z.rem ms 100) ts) in *.
  apply (find_leaders_spec _ 0 ∅ ts0) in Hf as [-> Hin].
  apply M_bind_Ret in Hrun as (r & ts5 & Hl & Hrun). unfold lift in Hl.
  apply outcome_bind_Ret in Hl as (r' & Hl & Hr'). injection Hr' as -> <-.
  destruct (decide (m ≠ ∅)) as [Hne|He].
  2:{ apply IH in Hrun as (pre & ms' & post & ts4 & -> & Hts4 & H).
      exists (ms :: pre), ms', post, ts4. split; [done|]. by split. }
  unfold lift, index in Hrun.
  destruct (default [] (m !! r) !! 0%nat) as [x|] eqn:Hx; [|done]. injection Hrun as -> <-.
  apply last_term_spec in Hl as [Hall _].
  assert (∀ j t, leads ts0 j t ↔ j ∈ default [] (m !! t)) as Hleads.
  { intros j t. rewrite leads_answers, Hin, lookup_empty. simpl. split; [intros [? ?]; right; by split; [lia|]|].
    intros [?|[? ?]]; [set_solver|by split; [lia|]]. }
  exists [], ms, draws, ts0. split_and!; [done|done|done| |].
  - exists r. split; [apply Hleads; by eapply list_elem_of_lookup_2|].
    intros j t' Hj%Hleads. destruct (m !! t') as [ls|] eqn:Hm; [by apply (Hall t' ls)|set_solver].
  - intros j k t Hj%Hleads Hk%Hleads. destruct (m !! t) as [ls|] eqn:Hm; [|set_solver].
    destruct (Hall t ls Hm) as [Hlen _]. simpl in Hj, Hk.
    destruct ls as [|y [|z ls]]; simpl in Hlen; [set_solver|set_solver|lia].
Qed.
End raft_proofs.

(** ** Concrete runs *)

Section raft_demo.
(** The instance 1 claims to lead the term that the state holds. *)
#[local] Instance demo_raft : Raft Z nat := {
  rf_Start q cmd w := ((1, w, bool_decide (q = 1%nat)), w);
  rf_GetState q w := (w, bool_decide (q = 1%nat));
  rf_Snapshot _ _ _ w := w
}.
Definition demo_show (c : option nat) : string :=
  match c with Some n => Itoa (Z.of_nat n) | None => "<nil>" end.
Definition demo_encode (i : Z) (l : list (option nat)) : list Z :=
  i :: ((λ c, match c with Some n => Z.of_nat n | None => -1 end) <$> l).
Definition demo_decode (bs : list Z) : option (Z * list (option nat)) :=
  match bs with
  | i :: l => Some (i, (λ z, if decide (z < 0) then None else Some (Z.to_nat z)) <$> l)
  | [] => None
  end.

Lemma demo_decode_encode i l : demo_decode (demo_encode i l) = Some (i, l).
Proof.
  unfold demo_decode, demo_encode. do 2 f_equal.
  induction l as [|c l IH]; [done|]. rewrite !fmap_cons, IH. f_equal.
  destruct c as [n|]; [|done]. rewrite decide_False by lia. by rewrite Nat2Z.id.
Qed.

Definition demo_msg (i : Z) (c : nat) : ApplyMsg nat := mkMsg _ true (Some c) i false None 0 0.
Definition demo_events : list event :=
  [Ev_start 0; Ev_start 1; Ev_apply 0 (demo_msg 1 7); Ev_apply 0 (demo_msg 2 8);
   Ev_apply 1 (demo_msg 1 7)].
Definition demo_ts : Test :=
  Eval vm_compute in
    match run_events demo_show demo_decode demo_events (test0 2 5) with
    | Ret (_, ts) => ts
    | _ => test0 0 0
    end.

Lemma reachable_agreement_witness :
  run_events demo_show demo_decode demo_events (test0 2 5) = Ret (tt, demo_ts) ∧ agree demo_ts.
Proof.
  assert (run_events demo_show demo_decode demo_events (test0 2 5) = Ret (tt, demo_ts)) as H
    by (vm_compute; reflexivity).
  split; [exact H|].
  destruct (reachable_agreement demo_show demo_decode 2 5 demo_events demo_ts H) as [Ha _].
  exact Ha.
Defined.

Lemma demo_srvs p : p ∈ srvs demo_ts → p = Some 0%nat ∨ p = Some 1%nat.
Proof.
  intros Hp. change (p ∈ [Some 0%nat; Some 1%nat]) in Hp. set_solver.
Qed.

Lemma demo_ok : objs_ok demo_ts ∧ all_started demo_ts.
Proof.
  split.
  - intros p [[= ->]|[= ->]]%demo_srvs; eexists; split; vm_compute; reflexivity.
  - intros p [-> | ->]%demo_srvs; eauto.
Qed.

(** Server 1 applies another command at index 2 than server 0 did. *)
Lemma applier_checks_witness :
  ∃ why, applier demo_show 1 (demo_msg 2 9) demo_ts = Fatal why ∧
    (conflict demo_ts (demo_msg 2 9) ∨ gap demo_ts 1 (demo_msg 2 9)).
Proof.
  destruct demo_ok as [H1 H2].
  destruct (objs demo_ts !! 1%nat) as [rs|] eqn:Hrs; [|discriminate Hrs].
  assert (srvs demo_ts !! me rs = Some (Some 1%nat)) as Hme
    by (injection Hrs as <-; reflexivity).
  pose proof (applier_checks demo_show 1 1 (demo_msg 2 9) rs demo_ts H1 H2 Hrs Hme eq_refl) as H.
  eexists. split; [vm_compute; reflexivity|].
  assert (∃ why, applier demo_show 1 (demo_msg 2 9) demo_ts = Fatal why) as [why Hw]
    by (eexists; vm_compute; reflexivity).
  rewrite Hw in H. exact H.
Defined.

Lemma snapshot_roundtrip_witness :
  ∃ ts', ingestSnap demo_decode 1 (Some (demo_encode 2 [None; Some 7%nat; Some 8%nat])) 2 demo_ts
    = Ret ("", ts') ∧ log_of ts' 1 2 = Some (Some 8%nat).
Proof.
  destruct (objs demo_ts !! 0%nat) as [r0|] eqn:H0; [|discriminate H0].
  destruct (objs demo_ts !! 1%nat) as [r1|] eqn:H1; [|discriminate H1].
  destruct (snapshot_roundtrip demo_encode demo_decode 2 0 1 r0 r1 demo_ts demo_decode_encode)
    as (ts' & Hrun & rq & Hq & _ & Hl); [lia|exact H0|exact H1|].
  assert (xlog_of (logs r0) 2 = [None; Some 7%nat; Some 8%nat]) as Hx
    by (injection H0 as <-; vm_compute; reflexivity).
  rewrite Hx in Hrun. exists ts'. split; [exact Hrun|]. unfold log_of. rewrite Hq. simpl.
  rewrite Hl. injection H0 as <-. vm_compute. reflexivity.
Defined.

Lemma checkOneLeader_sound_witness :
  ∃ i ts', checkOneLeader (λ _ _, true) (λ _ ts, ts) [3] demo_ts = Ret (i, ts') ∧
    ∃ ts0 t, leads (λ _ _, true) (λ _ ts, ts) ts0 i t.
Proof.
  destruct (checkOneLeader (λ _ _, true) (λ _ ts, ts) [3] demo_ts) as [[i ts']|w|w|] eqn:H;
    [|vm_compute in H; discriminate H..].
  exists i, ts'. split; [reflexivity|].
  destruct (checkOneLeader_sound (λ _ _, true) (λ _ ts, ts) [3] demo_ts ts' i H)
    as (pre & ms & post & ts0 & _ & _ & _ & (t & Ht & _) & _).
  exists ts0, t. exact Ht.
Defined.
End raft_demo.
