(* ===== verification/RaftAgree.v ===== *)
(** * The agreement loops of the raft tester: [raft1/test.go], lines 208-326

    [one] ends, by its clocks and not by luck, and what it reports is committed;
    [wait] likewise. *)

From S2P Require Export RaftCheck.
#[local] Set Default Proof Using "Type".
Local Open Scope Z_scope.

Section agree.
Context {W Cmd : Type} `{EqDecision Cmd} `{RF : !Raft W Cmd}.
Context (IsConnected : W → nat → bool) (clock : W → Z) (checkFinished : W → bool)
  (sleep : Z → @Test W Cmd → @Test W Cmd).
Abbreviation Test := (@Test W Cmd).
Abbreviation time ts := (clock (t_w ts)).

(** What is known of the clock: [time.Sleep] takes at least its argument, and
    the clock does not go backwards during [Start]. *)
Hypothesis sleep_clock : ∀ ms ts, 0 ≤ ms → time ts + ms ≤ time (sleep ms ts).
Hypothesis start_clock : ∀ p cmd w, clock w ≤ clock (rf_Start p cmd w).2.

(** ** The parts of a turn *)

Lemma get_obj_ends p (ts : Test) (Q : nat * rfsrv → Test → Prop) :
  (∀ q rs, Q (q, rs) ts) → halts (get_obj p) Q ts.
Proof. intros HQ. unfold halts, get_obj. destruct p as [p|]; [|done]. by destruct (objs ts !! p). Qed.

(** [nCommitted] reads only, and always ends. *)
Lemma nCommitted_loop_ends i l : ∀ count cmd (ts : Test),
  halts (nCommitted_loop i l count cmd) (λ _ ts', ts' = ts) ts.
Proof.
  induction l as [|p l IH]; intros count cmd ts; [done|]. cbn [nCommitted_loop].
  apply halts_bind, get_obj_ends. intros q rs.
  destruct (decide (applyErr rs ≠ "")); [done|]. destruct (Logs rs i); [|apply IH].
  destruct (decide _); [done|apply IH].
Qed.
Lemma nCommitted_ends i (ts : Test) (Q : Z * option Cmd → Test → Prop) :
  (∀ r, nCommitted i ts = Ret (r, ts) → Q r ts) → halts (nCommitted i) Q ts.
Proof.
  intros HQ. pose proof (nCommitted_loop_ends i (srvs ts) 0 None ts) as H.
  change (halts (nCommitted i) (λ _ ts', ts' = ts) ts) in H. unfold halts in *.
  destruct (nCommitted i ts) as [[r ts']|?|?|]; try done. subst. by apply HQ.
Qed.

(** ** What happens during [one]

    Server [k], an instance [p] of raft, is connected and up when its turn comes. *)
Definition offers (k p : nat) (ts : Test) : Prop :=
  IsConnected (t_w ts) k = true ∧ srvs (sleep 0 ts) !! k = Some (Some p) ∧
  ∃ rs, objs (sleep 0 ts) !! p = Some rs ∧ raft_nil rs = false.
(** It is asked to start the command. *)
Definition started (p : nat) (cmd : option Cmd) (ts : Test) : Test :=
  let ts := sleep 0 ts in mkTest (objs ts) (srvs ts) (maxIndex ts) (rf_Start p cmd (t_w ts)).2.
Definition reply (p : nat) (cmd : option Cmd) (ts : Test) : Z * Z * bool :=
  (rf_Start p cmd (t_w (sleep 0 ts))).1.

(** Sleeps, and sleeps with starts of the command on servers that offer it. *)
Inductive sleeps (ts : Test) : Test → Prop :=
| sleeps_here : sleeps ts ts
| sleeps_on ms ts' : 0 ≤ ms → sleeps ts ts' → sleeps ts (sleep ms ts').
Inductive goes_on (cmd : option Cmd) (ts : Test) : Test → Prop :=
| go_here : goes_on cmd ts ts
| go_sleep ms ts' : 0 ≤ ms → goes_on cmd ts ts' → goes_on cmd ts (sleep ms ts')
| go_start k p ts' : offers k p ts' → goes_on cmd ts ts' → goes_on cmd ts (started p cmd ts').

Lemma sleeps_time ts ts' : sleeps ts ts' → time ts ≤ time ts'.
Proof using sleep_clock.
  induction 1 as [|ms ts' Hms _ IH]; [done|]. pose proof (sleep_clock ms ts' Hms). lia.
Qed.
Lemma goes_on_sleeps cmd ts ts1 ts2 : goes_on cmd ts ts1 → sleeps ts1 ts2 → goes_on cmd ts ts2.
Proof. induction 2; [done|by constructor]. Qed.
Lemma started_time p cmd ts : time ts ≤ time (started p cmd ts).
Proof using sleep_clock start_clock.
  pose proof (sleep_clock 0 ts (Z.le_refl 0)). unfold started. cbn [t_w].
  pose proof (start_clock p cmd (t_w (sleep 0 ts))). lia.
Qed.
Lemma goes_on_time cmd ts ts' : goes_on cmd ts ts' → time ts ≤ time ts'.
Proof using sleep_clock start_clock.
  induction 1 as [|ms ts' Hms _ IH|k p ts' _ _ IH]; [done| |].
  - pose proof (sleep_clock ms ts' Hms). lia.
  - pose proof (started_time p cmd ts'). lia.
Qed.

(** Since [ts], the command was started on a server that was connected and up, and
    that claimed to be the leader and answered index [i]; since then the tester only
    slept, until [ts']. *)
Definition submitted (cmd : option Cmd) (i : Z) (ts ts' : Test) : Prop :=
  ∃ ts1 k p term, goes_on cmd ts ts1 ∧ offers k p ts1 ∧ reply p cmd ts1 = (i, term, true) ∧
    sleeps (started p cmd ts1) ts'.

Lemma try_start_ends cmd rounds ts0 : ∀ starts (ts : Test),
  goes_on cmd ts0 ts →
  halts (try_start IsConnected sleep cmd rounds starts)
    (λ '(i, _) ts', goes_on cmd ts0 ts' ∧ time ts ≤ time ts' ∧ (i ≠ -1 → submitted cmd i ts0 ts')) ts.
Proof using sleep_clock start_clock.
  induction rounds as [|rounds IH]; intros starts ts Hgo; cbn [try_start].
  { apply halts_mret. by split_and!. }
  pose proof (sleep_clock 0 ts (Z.le_refl 0)) as Ht0.
  assert (goes_on cmd ts0 (sleep 0 ts)) as Hgo1 by (by apply go_sleep).
  apply halts_bind, halts_modify, halts_bind, halts_gets. cbn [id].
  set (k := Nat.modulo (starts + 1) (length (srvs (sleep 0 ts)))).
  set (ts1 := sleep 0 ts) in *. pose proof (sleep_clock 0 ts1 (Z.le_refl 0)) as Ht1.
  assert (∀ ts2, goes_on cmd ts0 ts2 → time ts1 ≤ time ts2 →
    halts (try_start IsConnected sleep cmd rounds k) (λ '(i, _) ts', goes_on cmd ts0 ts' ∧
      time ts ≤ time ts' ∧ (i ≠ -1 → submitted cmd i ts0 ts')) ts2) as Hrest.
  { intros ts2 Hg Ht. eapply halts_mono; [by apply IH|]. intros [i s] ts' (? & ? & ?).
    split_and!; [done|lia|done]. }
  destruct (IsConnected (t_w ts1) k) eqn:Hc; [|by apply Hrest].
  apply halts_bind, halts_modify, halts_bind, halts_gets, halts_bind, halts_index. intros p Hp.
  apply halts_bind. destruct p as [p|]; [|done]. unfold halts at 1, get_obj.
  destruct (objs (sleep 0 ts1) !! p) as [rs|] eqn:Hrs; [|done].
  destruct (raft_nil rs) eqn:Hnil; [apply Hrest; [by apply go_sleep|lia]|].
  apply halts_bind. unfold halts at 1. cbn [id].
  assert (offers k p ts1) as Hoff by (split; [done|split; [done|by exists rs]]).
  assert (goes_on cmd ts0 (started p cmd ts1)) as Hgo2 by (by eapply go_start).
  pose proof (started_time p cmd ts1) as Hst.
  destruct (rf_Start p cmd (t_w (sleep 0 ts1))) as [[[index1 term] ok] w] eqn:Hs.
  assert (mkTest (objs (sleep 0 ts1)) (srvs (sleep 0 ts1)) (maxIndex (sleep 0 ts1)) w
    = started p cmd ts1) as -> by (unfold started; by rewrite Hs).
  destruct ok; [|by apply Hrest].
  apply halts_mret. split_and!; [done|lia|]. intros _. exists ts1, k, p, term.
  split_and!; [done|done| |constructor]. unfold reply. by rewrite Hs.
Qed.

(** Enough servers have [cmd] at index [i]. *)
Definition decided (expected : Z) (cmd : option Cmd) (i : Z) (ts : Test) : Prop :=
  ∃ nd, nCommitted i ts = Ret ((nd, cmd), ts) ∧ 0 < nd ∧ expected ≤ nd.

Lemma await_ends cmd i expected t1 fuel : ∀ ts : Test,
  (1 ≤ fuel)%nat → 2000 ≤ (time ts - t1) + 20 * (Z.of_nat fuel - 1) →
  halts (await clock sleep fuel cmd i expected t1)
    (λ b ts', sleeps ts ts' ∧
       if (b : bool) then decided expected cmd i ts' else 2000 ≤ time ts' - t1) ts.
Proof using sleep_clock.
  induction fuel as [|fuel IH]; intros ts Hf Hb; [lia|]. cbn [await].
  apply halts_bind, halts_gets. destruct (decide (time ts - t1 < 2000)).
  - apply halts_bind, nCommitted_ends. intros [nd cmd1] Hn.
    destruct (decide (0 < nd ∧ expected ≤ nd ∧ cmd1 = cmd)) as [(? & ? & ->)|_].
    + apply halts_mret. split; [constructor|]. by exists nd.
    + apply halts_bind, halts_modify. pose proof (sleep_clock 20 ts ltac:(lia)) as Hs.
      eapply halts_mono; [apply IH; lia|]. intros b ts' [Ht Hd]. split; [|done].
      assert (0 ≤ 20) as H20 by lia. clear -Ht H20.
      induction Ht; [by repeat constructor|by constructor].
  - apply halts_mret. split; [constructor|]. simpl. lia.
Qed.

(** ** [one] *)

#[local] Arguments await : simpl never.

(** What [one], called in [ts], promises of its result. *)
Definition one_post (cmd : option Cmd) (expected : Z) (ts : Test) (i : Z) (ts' : Test) : Prop :=
  if decide (i = -1) then checkFinished (t_w ts') = true
  else submitted cmd i ts ts' ∧ decided expected cmd i ts'.

Lemma submitted_sleeps cmd i ts ts1 ts2 :
  submitted cmd i ts ts1 → sleeps ts1 ts2 → submitted cmd i ts ts2.
Proof.
  intros (ts3 & k & p & term & H1 & H2 & H3 & H4) Hs. exists ts3, k, p, term.
  split_and!; [done..|]. induction Hs; [done|by constructor].
Qed.

Lemma one_loop_ends cmd expected retry t0 ts0 turns polls : ∀ starts (ts : Test),
  (101 ≤ polls)%nat → goes_on cmd ts0 ts →
  (1 ≤ turns)%nat → 0 ≤ time ts - t0 → 10000 ≤ (time ts - t0) + 50 * (Z.of_nat turns - 1) →
  halts (one_loop IsConnected clock checkFinished sleep turns polls cmd expected retry t0 starts)
    (one_post cmd expected ts0) ts.
Proof using sleep_clock start_clock.
  induction turns as [|turns IH]; intros starts ts Hp Hgo Hf H0 Hb; [lia|]. cbn [one_loop].
  apply halts_bind, halts_gets. destruct (checkFinished (t_w ts)) eqn:Hfin; simpl.
  { rewrite andb_false_r. apply halts_mret. unfold one_post. by rewrite decide_True. }
  rewrite andb_true_r. case_bool_decide; [|done].
  apply halts_bind, halts_gets, halts_bind. eapply halts_mono; [by apply try_start_ends|].
  intros [i starts'] ts1 (Hgo1 & Ht1 & Hsub). destruct (decide (i ≠ -1)) as [Hi|].
  - apply halts_bind, halts_gets, halts_bind.
    eapply halts_mono; [apply (await_ends cmd i expected (time ts1)); lia|].
    intros b ts2 [Hsl Hd]. destruct b.
    + apply halts_mret. unfold one_post. rewrite decide_False by done.
      split; [|done]. by eapply submitted_sleeps; [apply Hsub|].
    + destruct (negb retry); [done|]. pose proof (sleeps_time _ _ Hsl).
      apply IH; [done|by eapply goes_on_sleeps|lia..].
  - apply halts_bind, halts_modify. pose proof (sleep_clock 50 ts1 ltac:(lia)) as Hs.
    apply IH; [done|by apply go_sleep; [lia|]|lia..].
Qed.

(** C33: [one] ends, whatever the servers and the other goroutines do, as long as a
    sleep takes the time it should: after at most 201 turns of its loop, each of
    which waits for agreement for at most 101 turns.  If it reports an index, then
    during this call a server that was connected and up and claimed to be the leader
    answered the index to this command; the tester only waited since; and now at
    least the expected number of servers, and one at least, have this command there,
    no server another one.  If it reports -1, the test is over. *)
Theorem one_agreement (turns polls : nat) (cmd : option Cmd) (expected : Z) (retry : bool) (ts : Test) :
  (201 ≤ turns)%nat → (101 ≤ polls)%nat →
  halts (one IsConnected clock checkFinished sleep turns polls cmd expected retry)
    (one_post cmd expected ts) ts.
Proof using sleep_clock start_clock.
  intros Ht Hp. unfold one. apply halts_bind, halts_gets, one_loop_ends; [done|constructor|lia..].
Qed.

(** ** [wait] *)

Lemma GetState_ends p (ts : Test) (Q : Z * bool → Test → Prop) :
  (∀ q, Q (rf_GetState q (t_w ts)) ts) → halts (GetState p) Q ts.
Proof.
  intros HQ. unfold GetState. apply halts_bind, get_obj_ends. intros q rs.
  destruct (raft_nil rs); [done|]. by apply halts_gets.
Qed.

Lemma moved_on_ends l start : ∀ ts : Test,
  halts (moved_on sleep l start)
    (λ b ts', b = true → ∃ q, start < (rf_GetState q (t_w ts')).1) ts.
Proof.
  induction l as [|p l IH]; intros ts; [done|]. cbn [moved_on].
  apply halts_bind, halts_modify, halts_bind, GetState_ends. intros q. destruct (rf_GetState q _) as [t b] eqn:Hq.
  destruct (decide (start < t)); [|apply IH]. intros _. exists q. by rewrite Hq.
Qed.

Lemma wait_loop_ends iters i n start : ∀ to (ts : Test),
  halts (wait_loop sleep iters i n start to)
    (λ b ts', b = true → -1 < start ∧ ∃ q, start < (rf_GetState q (t_w ts')).1) ts.
Proof.
  induction iters as [|iters IH]; intros to ts; cbn [wait_loop]; [done|].
  apply halts_bind, nCommitted_ends. intros [nd cmd] _. destruct (decide (n ≤ nd)); [done|].
  apply halts_bind, halts_modify, halts_bind, halts_gets, halts_bind.
  destruct (decide (-1 < start)); [|apply halts_mret, IH].
  eapply halts_mono; [apply moved_on_ends|]. intros [] ts' Hq; [|apply IH].
  apply halts_mret. intros _. split; [done|by apply Hq].
Qed.

(** [wait] returns a command that at least [n] servers have at the index, or -1
    if it was asked to mind the term and some server is past it. *)
Lemma wait_agreement (i n start : Z) (ts : Test) :
  halts (wait sleep i n start)
    (λ r ts', match r with
       | inr cmd => ∃ nd, nCommitted i ts' = Ret ((nd, cmd), ts') ∧ n ≤ nd
       | inl _ => -1 < start ∧ ∃ q, start < (rf_GetState q (t_w ts')).1
       end) ts.
Proof.
  unfold wait. apply halts_bind. eapply halts_mono; [apply wait_loop_ends|]. intros b ts' Hb.
  destruct b; [by apply halts_mret, Hb|]. apply halts_bind, nCommitted_ends. intros [nd cmd] Hn.
  destruct (decide (nd < n)); [done|]. apply halts_mret. exists nd. split; [done|lia].
Qed.
End agree.

(** ** An agreement *)

Section agree_demo.
(** The world is the clock.  Every instance takes commands at index 1, and during
    a sleep every server commits the command 7 there. *)
#[local] Instance calm_raft : Raft Z nat := {
  rf_Start q cmd w := ((1, 5, true), w);
  rf_GetState q w := (5, bool_decide (q = 1%nat));
  rf_Snapshot _ _ _ w := w
}.
Definition calm_sleep (ms : Z) (ts : @Test Z nat) : @Test Z nat :=
  mkTest ((λ rs, with_logs (<[1 := Some 7%nat]> (logs rs)) rs) <$> objs ts) (srvs ts)
    (maxIndex ts) (t_w ts + ms).
Definition calm_test : @Test Z nat :=
  mkTest {[ 0%nat := mkRfsrv 0 "" 0 false ∅; 1%nat := mkRfsrv 1 "" 0 false ∅ ]}
    [Some 0%nat; Some 1%nat] 0 0.

Lemma one_agreement_witness :
  ∃ ts', one (λ _ _, true) id (λ _, false) calm_sleep 201 101 (Some 7%nat) 2 false calm_test
           = Ret (1, ts') ∧ decided 2 (Some 7%nat) 1 ts'.
Proof.
  destruct (halts_run _ _ calm_test (λ i, i = 1)
    (one_agreement (RF := calm_raft) (λ _ _, true) id (λ _, false) calm_sleep
       (λ ms ts _, Z.le_refl _) (λ _ _ _, Z.le_refl _) 201 101 (Some 7%nat) 2 false calm_test
       (le_n 201) (le_n 101))) as (i & ts' & Hrun & -> & Hpost).
  { vm_compute. reflexivity. }
  exists ts'. split; [exact Hrun|]. unfold one_post in Hpost.
  rewrite decide_False in Hpost by discriminate. exact (proj2 Hpost).
Defined.
End agree_demo.
