(* ===== verification/MapReduce.v ===== *)
(** * MapReduce: [main/mrsequential.go], [mr], [mrapps]

    The sequential MapReduce that defines the expected output of the lab, the
    partitioning hash of the workers and the map and reduce functions of the
    applications.  The distributed coordinator and worker are left to the
    students. *)

From Stdlib Require Import Ascii.
From S2P Require Export GoStd.
#[local] Set Default Proof Using "Type".

Record KeyValue := mkKV { Key : string; Value : string }.

(** ** [mr/worker.go], [mr/coordinator.go] *)

Definition ihash (key : string) : Z := Z.land (fnv32a key) 2147483647.

(** The example RPC: an [int] incremented. *)
Definition Example_ (x : Z) : Z := wrap_i64 (x + 1).
Definition coordinatorSock (uid : Z) : string := "/var/tmp/5840-mr-" +:+ Itoa uid.

(** ** [mrsequential.go] *)

Definition key_le (a b : KeyValue) : Prop := String.le (Key a) (Key b).

(** The inner loop: the first index after the run of keys equal to that of [i]. *)
Fixpoint find_end (fuel : nat) (l : list KeyValue) (i j : nat) : outcome nat :=
  match fuel with
  | O => Diverge
  | S fuel =>
      if decide (j < length l) then
        a ← index l j;
        b ← index l i;
        if decide (Key a = Key b) then find_end fuel l i (S j) else Ret j
      else Ret j
  end.

(** The loop that collects [values]. *)
Definition collect (l : list KeyValue) (i j : nat) : outcome (list string) :=
  ofold (λ vs k, kv ← index l k; Ret (vs ++ [Value kv])) [] (seq i (j - i)).

Section sequential.
Context (mapf : string → string → list KeyValue) (reducef : string → list string → string).

Definition line (key output : string) : string := key +:+ " " +:+ output +:+ newline.

(** The outer loop; the result is the contents of [mr-out-0]. *)
Fixpoint reduce_loop (fuel : nat) (l : list KeyValue) (i : nat) (out : string)
    : outcome string :=
  match fuel with
  | O => Diverge
  | S fuel =>
      if decide (i < length l) then
        j ← find_end (length l) l i (S i);
        values ← collect l i j;
        kv ← index l i;
        reduce_loop fuel l j (out +:+ line (Key kv) (reducef (Key kv) values))
      else Ret out
  end.

(** The output of every map, in the order of the files. *)
Definition intermediate (files : list (string * string)) : list KeyValue :=
  concat ((λ '(name, contents), mapf name contents) <$> files).

(** [sort.Sort] is not stable: it may order equal keys in any way. *)
Context (Sort : list KeyValue → list KeyValue).

Definition mrsequential (files : list (string * string)) : outcome string :=
  let l := Sort (intermediate files) in
  reduce_loop (S (length l)) l 0 "".
End sequential.

(** ** The applications *)

(** [wc.go]; [IsLetter] is [unicode.IsLetter]. *)
Section wc.
Context (IsLetter : Z → bool).
Definition words (contents : string) : list string := FieldsFunc contents (λ r, negb (IsLetter r)).
Definition wc_Map (filename contents : string) : list KeyValue :=
  (λ w, mkKV w "1") <$> words contents.
Definition wc_Reduce (key : string) (values : list string) : string :=
  Itoa (Z.of_nat (length values)).

(** [indexer.go]: the map is emptied in any order; [order] is the one of this run. *)
Definition indexer_Map (order : list string → list string) (document value : string)
    : list KeyValue :=
  let m : gset string := list_to_set (words value) in
  (λ w, mkKV w document) <$> order (elements m).
Definition indexer_Reduce (key : string) (values : list string) : string :=
  Itoa (Z.of_nat (length values)) +:+ " " +:+ Join (sort_strings values) ",".
End wc.

(** [crash.go]: [draw] is the random number below 1000. *)
Definition maybeCrash (draw : Z) : outcome unit :=
  if (draw <? 330)%Z then Fatal "exit" else Ret tt.
Definition crash_kva (filename contents : string) : list KeyValue :=
  [mkKV "a" filename; mkKV "b" (Itoa (Z.of_nat (String.length filename)));
   mkKV "c" (Itoa (Z.of_nat (String.length contents))); mkKV "d" "xyzzy"].
Definition crash_Map (draw : Z) (filename contents : string) : outcome (list KeyValue) :=
  _ ← maybeCrash draw; Ret (crash_kva filename contents).
Definition sorted_join (values : list string) : string := Join (sort_strings values) " ".
Definition crash_Reduce (draw : Z) (key : string) (values : list string) : outcome string :=
  _ ← maybeCrash draw; Ret (sorted_join values).

(** [nocrash.go]: the same without the crash. *)
Definition nocrash_Map : string → string → list KeyValue := crash_kva.
Definition nocrash_Reduce (key : string) (values : list string) : string := sorted_join values.

(** [early_exit.go], up to the sleep of its reduce. *)
Definition early_Map (filename contents : string) : list KeyValue := [mkKV filename "1"].
Definition early_Reduce (key : string) (values : list string) : string :=
  Itoa (Z.of_nat (length values)).

(** [rtiming.go]: the map, and the reduce of [mtiming.go]. *)
Definition rtiming_Map (filename contents : string) : list KeyValue :=
  (λ k, mkKV k "1") <$> ["a"; "b"; "c"; "d"; "e"; "f"; "g"; "h"; "i"; "j"].
Definition mtiming_Reduce (key : string) (values : list string) : string := sorted_join values.

(** ** Runs of equal keys *)

Definition vals (k : string) (l : list KeyValue) : list string :=
  Value <$> filter (λ kv, Key kv = k) l.

Lemma vals_app k l1 l2 : vals k (l1 ++ l2) = vals k l1 ++ vals k l2.
Proof. unfold vals. by rewrite filter_app, fmap_app. Qed.
Lemma vals_all k l : (∀ kv, kv ∈ l → Key kv = k) → vals k l = Value <$> l.
Proof.
  intros H. unfold vals. f_equal. induction l as [|kv l IH]; [done|].
  rewrite filter_cons_True by (apply H; left). f_equal. apply IH. set_solver.
Qed.
Lemma vals_none k l : (∀ kv, kv ∈ l → Key kv ≠ k) → vals k l = [].
Proof.
  intros H. unfold vals. induction l as [|kv l IH]; [done|].
  rewrite filter_cons_False by (apply H; left). apply IH. set_solver.
Qed.
Lemma vals_perm k l1 l2 : l1 ≡ₚ l2 → vals k l1 ≡ₚ vals k l2.
Proof. intros H. unfold vals. by rewrite H. Qed.

(** [find_end] splits off the run of keys at the front of the suffix at [i]. *)
Lemma find_end_spec fuel : ∀ pre kv run0 rest,
  length rest < fuel → (∀ x, x ∈ run0 → Key x = Key kv) →
  ∃ run rest', rest = run ++ rest' ∧ (∀ x, x ∈ run → Key x = Key kv) ∧
    (∀ y, head rest' = Some y → Key y ≠ Key kv) ∧
    find_end fuel (pre ++ kv :: run0 ++ rest) (length pre) (length pre + S (length run0))
    = Ret (length pre + S (length (run0 ++ run))).
Proof.
  induction fuel as [|fuel IH]; intros pre kv run0 rest Hf Hrun; [lia|].
  assert (∀ rest, pre ++ kv :: run0 ++ rest = (pre ++ kv :: run0) ++ rest) as Hassoc.
  { intros. by rewrite <-app_assoc. }
  assert (length (pre ++ kv :: run0) = length pre + S (length run0)) as Hlen
    by (rewrite length_app; done).
  simpl. destruct rest as [|y rest].
  - exists [], []. split_and!; [done|set_solver|done|].
    rewrite Hassoc, !app_nil_r, Hlen. by rewrite decide_False by lia.
  - rewrite decide_True by (rewrite Hassoc, length_app, Hlen; simpl; lia).
    unfold index. rewrite (Hassoc (y :: rest)).
    rewrite (lookup_app_r (pre ++ kv :: run0) _ (length pre + S (length run0)))
      by (rewrite Hlen; lia).
    rewrite Hlen, Nat.sub_diag. simpl.
    rewrite <-app_assoc, lookup_app_r, Nat.sub_diag by lia. simpl.
    destruct (decide (Key y = Key kv)) as [Hy|Hy].
    + destruct (IH pre kv (run0 ++ [y]) rest) as (run & rest' & -> & Hr & Hh & Hfe).
      * simpl in Hf. lia.
      * intros x [Hx|Hx%list_elem_of_singleton]%elem_of_app; [by apply Hrun|by subst].
      * exists (y :: run), rest'. split_and!; [done| |done|].
        -- intros x [->|Hx]%elem_of_cons; [done|by apply Hr].
        -- rewrite <-!app_assoc in Hfe. simpl in Hfe. rewrite length_app in Hfe. simpl in Hfe.
           replace (S (length pre + S (length run0))) with (length pre + S (length run0 + 1)) by lia.
           done.
    + exists [], (y :: rest). split_and!; [done|set_solver|by intros ? [= <-]|].
      by rewrite app_nil_r.
Qed.

Lemma collect_spec pre mid post vs :
  ofold (λ vs k, kv ← index (pre ++ mid ++ post) k; Ret (vs ++ [Value kv])) vs
    (seq (length pre) (length mid)) = Ret (vs ++ (Value <$> mid)).
Proof.
  revert pre vs. induction mid as [|kv mid IH]; intros pre vs; simpl; [by rewrite app_nil_r|].
  rewrite (index_Some _ _ kv) by (by rewrite lookup_app_r, Nat.sub_diag by lia). simpl.
  specialize (IH (pre ++ [kv]) (vs ++ [Value kv])).
  rewrite length_app, Nat.add_1_r, <-!app_assoc in IH. exact IH.
Qed.

(** ** The output of the outer loop *)

Section output.
Context (reducef : string → list string → string).

Definition out_lines (l : list KeyValue) (ks : list string) : string :=
  str_concat ((λ k, line k (reducef k (vals k l))) <$> ks).

(** [ks] are the distinct keys of [l], in order. *)
Record keys_of (l : list KeyValue) (ks : list string) : Prop := {
  ko_nodup : NoDup ks;
  ko_sorted : StronglySorted String.le ks;
  ko_elem : ∀ k, k ∈ ks ↔ ∃ kv, kv ∈ l ∧ Key kv = k
}.

(** In a sorted list the keys after a run of equal keys are other keys. *)
Lemma after_run kv run rest :
  StronglySorted key_le (kv :: run ++ rest) →
  (∀ y, head rest = Some y → Key y ≠ Key kv) → ∀ x, x ∈ rest → Key x ≠ Key kv.
Proof.
  intros Hs Hh x Hx Heq. destruct rest as [|y rest]; [by apply elem_of_nil in Hx|].
  specialize (Hh y eq_refl). apply elem_of_cons in Hx as [->|Hx]; [done|].
  inversion Hs as [|? ? Hs1 Hall]; subst. apply Hh, (anti_symm String.le).
  - rewrite <-Heq. assert (StronglySorted key_le (y :: rest)) as Hs2.
    { clear -Hs1. induction run as [|z run IH]; [done|]. by inversion Hs1; auto. }
    inversion Hs2 as [|? ? _ Hall2]; subst. rewrite Forall_forall in Hall2. by apply Hall2.
  - rewrite Forall_forall in Hall. apply Hall. set_solver.
Qed.

Lemma StronglySorted_suffix (l1 l2 : list KeyValue) :
  StronglySorted key_le (l1 ++ l2) → StronglySorted key_le l2.
Proof. induction l1 as [|x l1 IH]; [done|]. intros H. inversion H; auto. Qed.

Lemma keys_of_run kv run rest ks :
  StronglySorted key_le (kv :: run ++ rest) → (∀ x, x ∈ run → Key x = Key kv) →
  (∀ x, x ∈ rest → Key x ≠ Key kv) → keys_of rest ks →
  keys_of (kv :: run ++ rest) (Key kv :: ks) ∧
  out_lines (kv :: run ++ rest) (Key kv :: ks) =
    line (Key kv) (reducef (Key kv) (Value <$> kv :: run)) +:+ out_lines rest ks.
Proof.
  intros Hs Hrun Hrest [Hnd Hsort Hin].
  assert (∀ k, k ∈ ks → k ≠ Key kv) as Hk.
  { intros k (x & Hx & <-)%Hin. by apply Hrest. }
  assert (∀ k, vals k (kv :: run ++ rest) = vals k (kv :: run) ++ vals k rest) as Hv.
  { intros k. apply (vals_app k (kv :: run) rest). }
  split; [split|].
  - apply NoDup_cons. split; [|done]. intros Hx. by apply (Hk (Key kv)).
  - constructor; [done|]. apply Forall_forall. intros k (x & Hx & <-)%Hin.
    inversion Hs as [|? ? _ Hall]; subst. rewrite Forall_forall in Hall.
    apply Hall. set_solver.
  - intros k. rewrite elem_of_cons, Hin. split.
    + intros [->|(x & Hx & <-)]; [exists kv|exists x]; set_solver.
    + intros (x & Hx & <-). rewrite elem_of_cons, elem_of_app in Hx.
      destruct Hx as [->|[Hx|Hx]]; [by left|left; by apply Hrun|right; eauto].
  - unfold out_lines, str_concat. simpl. f_equal.
    + rewrite Hv, (vals_none _ rest), app_nil_r by done.
      rewrite vals_all; [done|]. intros x [->|Hx]%elem_of_cons; [done|by apply Hrun].
    + f_equal. apply list_fmap_ext. intros i k Hi. apply list_elem_of_lookup_2, Hk in Hi.
      rewrite Hv, (vals_none k (kv :: run)); [done|].
      intros x [->|Hx]%elem_of_cons; [congruence|]. rewrite (Hrun x Hx). congruence.
Qed.

Lemma reduce_loop_spec fuel : ∀ pre suf out,
  length suf < fuel → StronglySorted key_le suf →
  ∃ ks, keys_of suf ks ∧
    reduce_loop reducef fuel (pre ++ suf) (length pre) out = Ret (out +:+ out_lines suf ks).
Proof.
  induction fuel as [|fuel IH]; intros pre suf out Hf Hs; [lia|]. simpl.
  destruct suf as [|kv rest].
  - exists []. split; [split; [constructor..|set_solver]|].
    rewrite app_nil_r, decide_False by lia. unfold out_lines, str_concat. simpl.
    by rewrite str_app_nil.
  - rewrite decide_True by (rewrite length_app; simpl; lia).
    destruct (find_end_spec (length (pre ++ kv :: rest)) pre kv [] rest)
      as (run & rest' & -> & Hrun & Hh & Hfe); [rewrite length_app; simpl; lia|set_solver|].
    simpl in Hfe. replace (S (length pre)) with (length pre + 1) by lia. rewrite Hfe. simpl.
    pose proof (after_run kv run rest' Hs Hh) as Hrest.
    unfold collect. replace (length pre + S (length run) - length pre) with (length (kv :: run))
      by (simpl; lia).
    pose proof (collect_spec pre (kv :: run) rest' []) as Hc. simpl in Hc.
    change (kv :: run ++ rest') with ((kv :: run) ++ rest'). simpl. rewrite Hc. simpl.
    rewrite (index_Some _ _ kv) by (by rewrite lookup_app_r, Nat.sub_diag by lia). simpl.
    assert (StronglySorted key_le rest') as Hs'.
    { by apply (StronglySorted_suffix (kv :: run)). }
    destruct (IH (pre ++ kv :: run) rest'
      (out +:+ line (Key kv) (reducef (Key kv) (Value kv :: (Value <$> run)))))
      as (ks & Hks & Hrl); [simpl in Hf; rewrite length_app in Hf; lia|done|].
    destruct (keys_of_run kv run rest' ks Hs Hrun Hrest Hks) as [Hko Hol].
    exists (Key kv :: ks). split; [done|]. rewrite Hol.
    rewrite length_app, <-app_assoc in Hrl. simpl in Hrl.
    etrans; [exact Hrl|]. by rewrite str_app_assoc.
Qed.
End output.

(** What [sort.Sort(ByKey(...))] guarantees: a permutation, ordered by the keys. *)
Definition sorts (Sort : list KeyValue → list KeyValue) : Prop :=
  ∀ l, Sort l ≡ₚ l ∧ Sorted key_le (Sort l).

#[local] Instance key_le_trans : Transitive key_le.
Proof. intros a b c. unfold key_le. apply transitivity. Qed.

Lemma keys_of_perm l1 l2 ks : l1 ≡ₚ l2 → keys_of l1 ks → keys_of l2 ks.
Proof. intros Hp [H1 H2 H3]. split; [done|done|]. intros k. rewrite H3. by setoid_rewrite Hp. Qed.

Lemma mrsequential_spec mapf reducef Sort files :
  sorts Sort →
  ∃ ks, keys_of (intermediate mapf files) ks ∧
    mrsequential mapf reducef Sort files =
      Ret (out_lines reducef (Sort (intermediate mapf files)) ks).
Proof.
  intros Hsort. destruct (Hsort (intermediate mapf files)) as [Hp Hs].
  apply Sorted_StronglySorted in Hs; [|apply _]. unfold mrsequential.
  destruct (reduce_loop_spec reducef (S (length (Sort (intermediate mapf files)))) []
    (Sort (intermediate mapf files)) "") as (ks & Hks & Hrun); [lia|done|].
  exists ks. split; [by eapply keys_of_perm|]. exact Hrun.
Qed.

(** The sequential MapReduce terminates and prints one line per distinct key
    of the map outputs, in the order of the keys, with the reduction of all
    values of that key; when the reduction does not depend on the order of its
    values, the result does not depend on how [sort.Sort] orders equal keys. *)
Lemma mrsequential_correct (mapf : string → string → list KeyValue)
    (reducef : string → list string → string) (Sort : list KeyValue → list KeyValue)
    (files : list (string * string)) :
  sorts Sort → (∀ k vs vs', vs ≡ₚ vs' → reducef k vs = reducef k vs') →
  ∃ ks, keys_of (intermediate mapf files) ks ∧
    mrsequential mapf reducef Sort files =
      Ret (str_concat ((λ k, line k (reducef k (vals k (intermediate mapf files)))) <$> ks)).
Proof.
  intros Hsort Hred. destruct (mrsequential_spec mapf reducef Sort files Hsort)
    as (ks & Hks & Hrun). exists ks. split; [done|]. rewrite Hrun. unfold out_lines. do 2 f_equal.
  apply list_fmap_ext. intros i k _. f_equal. apply Hred, vals_perm, Hsort.
Qed.

(** ** Word count *)

Lemma vals_wc w (ws : list string) :
  length (vals w ((λ x, mkKV x "1") <$> ws)) = occ w ws.
Proof.
  induction ws as [|x ws IH]; [done|]. unfold vals in *.
  change (occ w (x :: ws)) with ((if decide (w = x) then 1 else 0) + occ w ws).
  rewrite fmap_cons. destruct (decide (w = x)) as [->|Hne].
  - rewrite filter_cons_True by done. rewrite fmap_cons, <-IH. done.
  - rewrite filter_cons_False by (simpl; congruence). exact IH.
Qed.

Lemma intermediate_wc IsLetter files :
  intermediate (wc_Map IsLetter) files =
  (λ x, mkKV x "1") <$> concat ((λ f, words IsLetter f.2) <$> files).
Proof.
  unfold intermediate. induction files as [|[name c] files IH]; [done|].
  rewrite !fmap_cons. cbn [concat]. rewrite IH, fmap_app. done.
Qed.

(** With the word-count application, the output lists every word of the
    files once, in order, with the number of its occurrences in all files. *)
Lemma wc_counts (IsLetter : Z → bool) (Sort : list KeyValue → list KeyValue)
    (files : list (string * string)) :
  sorts Sort →
  let ws := concat ((λ f, words IsLetter f.2) <$> files) in
  ∃ ks, NoDup ks ∧ StronglySorted String.le ks ∧ (∀ w, w ∈ ks ↔ w ∈ ws) ∧
    mrsequential (wc_Map IsLetter) wc_Reduce Sort files =
      Ret (str_concat ((λ w, line w (Itoa (Z.of_nat (occ w ws)))) <$> ks)).
Proof.
  intros Hsort ws. destruct (mrsequential_spec (wc_Map IsLetter) wc_Reduce Sort files Hsort)
    as (ks & [H1 H2 H3] & Hrun). rewrite intermediate_wc in H3, Hrun. fold ws in H3, Hrun.
  exists ks. split_and!; [done|done| |].
  - intros w. rewrite H3. setoid_rewrite list_elem_of_fmap. split.
    + by intros (? & (x & -> & Hx) & <-).
    + intros Hw. exists (mkKV w "1"). eauto.
  - rewrite Hrun. unfold out_lines, wc_Reduce. do 2 f_equal. apply list_fmap_ext.
    intros i w _. do 3 f_equal. rewrite <-(vals_wc w ws).
    apply Permutation_length, vals_perm, Hsort.
Qed.

(** [ihash] is a non-negative [int], so [ihash(key) % NReduce] is a reduce
    task for every key. *)
Lemma ihash_bucket (key : string) (NReduce : Z) :
  (0 < NReduce)%Z → (0 ≤ ihash key < 2 ^ 31)%Z ∧ (0 ≤ Z.rem (ihash key) NReduce < NReduce)%Z.
Proof.
  intros Hn. assert (0 ≤ ihash key < 2 ^ 31)%Z as Hr.
  { unfold ihash. change 2147483647%Z with (Z.ones 31). rewrite Z.land_ones by lia.
    apply Z.mod_pos_bound. lia. }
  split; [done|]. apply Z.rem_bound_pos; lia.
Qed.

(** ** Concrete runs *)

Definition demo_letter (r : Z) : bool := (97 <=? r)%Z && (r <=? 122)%Z.

#[local] Instance key_le_dec : RelDecision key_le.
Proof. intros a b. unfold key_le. apply _. Defined.
#[local] Instance key_le_total : Total key_le.
Proof. intros a b. unfold key_le. apply (total String.le). Qed.
Definition demo_sort (l : list KeyValue) : list KeyValue := merge_sort key_le l.
Lemma demo_sorts : sorts demo_sort.
Proof. intros l. split; [apply merge_sort_Permutation|apply Sorted_merge_sort; apply _]. Qed.

Definition demo_files : list (string * string) := [("f", "to be, or"); ("g", "not to be")].

Lemma wc_counts_witness :
  mrsequential (wc_Map demo_letter) wc_Reduce demo_sort demo_files =
    Ret ("be 2" +:+ newline +:+ "not 1" +:+ newline +:+ "or 1" +:+ newline +:+
         "to 2" +:+ newline) ∧
  ∃ ks, "to" ∈ ks ∧ ∃ out, mrsequential (wc_Map demo_letter) wc_Reduce demo_sort demo_files = Ret out ∧
    out = str_concat ((λ w, line w (Itoa (Z.of_nat (occ w
      (concat ((λ f, words demo_letter f.2) <$> demo_files)))))) <$> ks).
Proof.
  split; [vm_compute; reflexivity|].
  destruct (wc_counts demo_letter demo_sort demo_files demo_sorts) as (ks & _ & _ & Hin & Hrun).
  exists ks. split; [apply Hin; apply (bool_decide_unpack _); vm_compute; exact I|].
  eexists. split; [exact Hrun|reflexivity].
Defined.

Lemma mrsequential_correct_witness :
  ∃ ks out, mrsequential (wc_Map demo_letter) indexer_Reduce demo_sort demo_files = Ret out ∧
    keys_of (intermediate (wc_Map demo_letter) demo_files) ks.
Proof.
  destruct (mrsequential_correct (wc_Map demo_letter) indexer_Reduce demo_sort demo_files demo_sorts)
    as (ks & Hks & Hrun).
  - intros k vs vs' Hvs. unfold indexer_Reduce. rewrite Hvs. reflexivity.
  - exists ks. eexists. split; [exact Hrun|exact Hks].
Defined.
