(* ===== verification/Timing.v ===== *)
(** * The applications that watch the workers:
    [mrapps/mtiming.go], [mrapps/rtiming.go], [mrapps/jobcount.go]

    They tell the test how many workers run at the same time, or how often a task
    was run, through files in the directory that the workers share.  A worker is a
    process with one of the plugins; the steps of any number of workers, their
    starts, exits and crashes, and other changes to the directory interleave. *)

From S2P Require Export MapReduce.
#[local] Set Default Proof Using "Type".
Local Open Scope Z_scope.

(** ** The code of the plugins *)

(** A directory is the set of its file names. *)
Abbreviation dir := (gset string).

(** Where a worker is in [nparallel]. *)
Inductive wpc :=
| W_out                                    (* outside, has not called it yet *)
| W_file                                   (* myfilename is written *)
| W_scan (names : list string) (ret : Z)   (* in the loop over names *)
| W_done (ret : Z).                        (* myfilename is removed, returns ret *)

(** What the worker does next, with the error of the call; [names] is what
    [Readdirnames] returns. *)
Inductive np_act :=
| N_write (err : bool)
| N_list (names : list string) (err : bool)
| N_probe
| N_remove (err : bool).

Definition pattern (phase : string) : string := "mr-worker-" +:+ phase +:+ "-".
Definition myfilename (phase : string) (pid : Z) : string := pattern phase +:+ Itoa pid.

(** [Readdirnames(1000000)]: names of the directory in any order, no more than
    that; none at all is the error [io.EOF].  [Remove] fails on a file that is
    not there.  [alive x]: whether [syscall.Kill(x, 0)] returns nil. *)
Definition nparallel (phase : string) (pid : Z) (alive : Z → bool) (a : np_act) (d : dir) (pc : wpc)
    : option (outcome (dir * wpc)) :=
  match a, pc with
  | N_write err, (W_out | W_done _) =>
      Some (if err then Panic "WriteFile" else Ret ({[myfilename phase pid]} ∪ d, W_file))
  | N_list names err, W_file =>
      if bool_decide (NoDup names ∧ Forall (λ n, n ∈ d) names ∧
           Z.of_nat (length names) = Z.min 1000000 (Z.of_nat (size d)))
      then Some (if err || bool_decide (names = []) then Panic "Readdirnames"
                 else Ret (d, W_scan names 0))
      else None
  | N_probe, W_scan (name :: names) ret =>
      let ret := match Sscanf_d (pattern phase) name with
                 | Some xpid => if alive xpid then ret + 1 else ret
                 | None => ret
                 end in
      Some (Ret (d, W_scan names ret))
  | N_remove err, W_scan [] ret =>
      Some (if err || negb (bool_decide (myfilename phase pid ∈ d)) then Panic "Remove"
            else Ret (d ∖ {[myfilename phase pid]}, W_done ret))
  | _, _ => None
  end.

(** The two copies of it, as they are called. *)
Definition mtiming_nparallel := nparallel "map".
Definition rtiming_nparallel := nparallel "reduce".

(** The rest of the two functions that call it; [ts] is the clock reading as
    ["%.1f"] prints it, [n] what [nparallel] returned. *)
Definition mtiming_Map (ts : string) (pid n : Z) : list KeyValue :=
  [mkKV ("times-" +:+ Itoa pid) ts; mkKV ("parallel-" +:+ Itoa pid) (Itoa n)].
Definition rtiming_Reduce (n : Z) : string := Itoa n.

(** [jobcount.go]; [count] is a variable of the process. *)
Definition job_file (me count : Z) : string :=
  "mr-worker-jobcount-" +:+ Itoa me +:+ "-" +:+ Itoa count.
Definition jobcount_Map (me count : Z) (err : bool) (d : dir)
    : outcome (list KeyValue * Z * dir) :=
  let f := job_file me count in
  let count := wrap_i64 (count + 1) in
  if err then Panic "WriteFile" else Ret ([mkKV "a" "x"], count, {[f]} ∪ d).

Definition count_job (invocations : Z) (name : string) : Z :=
  if HasPrefix name "mr-worker-jobcount" then invocations + 1 else invocations.
Definition jobcount_Reduce (err : bool) (d : dir) : outcome string :=
  if err then Panic "ReadDir" else Ret (Itoa (foldl count_job 0 (elements d))).

(** ** The workers *)

Inductive plugin := P_mtiming | P_rtiming | P_jobcount.
#[export] Instance plugin_eq_dec : EqDecision plugin.
Proof. solve_decision. Defined.

Record worker := mkWorker { wk_plugin : plugin; wk_pc : wpc; wk_count : Z }.

(** The files and the running workers by their process identifiers. *)
Record machine := mkMachine { files : dir; workers : gmap Z worker }.

Section machine.
(** Whether [syscall.Kill(x, 0)] returns nil for an [x] that is no worker: some
    other process, or a group of processes. *)
Context (foreign : Z → bool).

Definition kill0 (m : machine) (x : Z) : bool :=
  bool_decide (is_Some (workers m !! x)) || foreign x.

Inductive act :=
| T_start (pid : Z) (p : plugin)
| T_np (pid : Z) (a : np_act)
| T_job (pid : Z) (err : bool)           (* [jobcount.Map] *)
| T_exit (pid : Z)
| T_crash (pid : Z)
| T_add (name : string)                  (* other files come and go *)
| T_del (name : string).

#[export] Instance np_act_eq_dec : EqDecision np_act.
Proof. solve_decision. Defined.
#[export] Instance act_eq_dec : EqDecision act.
Proof. solve_decision. Defined.

Definition np_of (p : plugin) : option (Z → (Z → bool) → np_act → dir → wpc → option (outcome (dir * wpc))) :=
  match p with
  | P_mtiming => Some mtiming_nparallel
  | P_rtiming => Some rtiming_nparallel
  | P_jobcount => None
  end.

(** A panic ends the process. *)
Definition gone (pid : Z) (m : machine) : machine := mkMachine (files m) (delete pid (workers m)).
Definition outside (pc : wpc) : bool := match pc with W_out | W_done _ => true | _ => false end.

Definition step (a : act) (m : machine) : option machine :=
  match a with
  | T_start pid p =>
      if bool_decide (workers m !! pid = None ∧ 0 < pid < 2 ^ 31)
      then Some (mkMachine (files m) (<[pid := mkWorker p W_out 0]> (workers m))) else None
  | T_np pid a =>
      w ← workers m !! pid;
      np ← np_of (wk_plugin w);
      r ← np pid (kill0 m) a (files m) (wk_pc w);
      Some match r with
           | Ret (d, pc) => mkMachine d (<[pid := mkWorker (wk_plugin w) pc (wk_count w)]> (workers m))
           | _ => gone pid m
           end
  | T_job pid err =>
      w ← workers m !! pid;
      match wk_plugin w with
      | P_jobcount =>
          Some match jobcount_Map pid (wk_count w) err (files m) with
               | Ret (_, count, d) =>
                   mkMachine d (<[pid := mkWorker P_jobcount (wk_pc w) count]> (workers m))
               | _ => gone pid m
               end
      | _ => None
      end
  | T_exit pid =>
      w ← workers m !! pid;
      if outside (wk_pc w) then Some (gone pid m) else None
  | T_crash pid => w ← workers m !! pid; Some (gone pid m)
  | T_add name =>
      if HasPrefix name "mr-worker-" then None
      else Some (mkMachine ({[name]} ∪ files m) (workers m))
  | T_del name =>
      if HasPrefix name "mr-worker-" then None
      else Some (mkMachine (files m ∖ {[name]}) (workers m))
  end.

Fixpoint run (l : list act) (m : machine) : option machine :=
  match l with
  | [] => Some m
  | a :: l => m ← step a m; run l m
  end.

(** No worker crashes, and no call of the operating system fails. *)
Definition orderly (a : act) : bool :=
  match a with
  | T_crash _ | T_job _ true => false
  | T_np _ (N_write true) | T_np _ (N_list _ true) | T_np _ (N_remove true) => false
  | _ => true
  end.

(** A directory without files of workers, and no worker. *)
Definition fresh_start (m : machine) : Prop :=
  workers m = ∅ ∧ ∀ n, n ∈ files m → HasPrefix n "mr-worker-" = false.

(** ** The names of the files *)

Definition phase (p : plugin) : string :=
  match p with P_mtiming => "map" | P_rtiming => "reduce" | P_jobcount => "" end.
Definition watches (p : plugin) : Prop := p ≠ P_jobcount.

Lemma np_of_Some p np : np_of p = Some np → watches p ∧ np = nparallel (phase p).
Proof. destruct p; intros [= <-]; by split. Qed.

Lemma parse_mine p q x :
  watches p → watches q → 0 ≤ x < 2 ^ 63 →
  Sscanf_d (pattern (phase p)) (myfilename (phase q) x) = if decide (p = q) then Some x else None.
Proof.
  intros Hp Hq Hx. destruct (decide (p = q)) as [<-|Hne]; [by apply Sscanf_d_Itoa|].
  by destruct p, q.
Qed.
Lemma parse_job p x c : watches p → Sscanf_d (pattern (phase p)) (job_file x c) = None.
Proof. by destruct p. Qed.
Lemma parse_other p n x :
  Sscanf_d (pattern (phase p)) n = Some x → HasPrefix n "mr-worker-" = true.
Proof.
  unfold Sscanf_d. intros (r & ->%strip_Some & _)%bind_Some.
  unfold pattern. rewrite str_app_assoc. apply HasPrefix_app.
Qed.
Lemma myfilename_inj p q x y :
  watches p → watches q → 0 ≤ x < 2 ^ 63 → 0 ≤ y < 2 ^ 63 →
  myfilename (phase p) x = myfilename (phase q) y → p = q ∧ x = y.
Proof.
  intros Hp Hq Hx Hy He. pose proof (parse_mine p q y Hp Hq Hy) as H1.
  rewrite <-He, parse_mine, decide_True in H1 by done. by destruct (decide (p = q)); simplify_eq.
Qed.

(** ** The files of a run without crashes *)

(** Worker [x] with plugin [p] is between the writing and the removal of its file. *)
Definition inside (p : plugin) (m : machine) (x : Z) : Prop :=
  ∃ w, workers m !! x = Some w ∧ wk_plugin w = p ∧ outside (wk_pc w) = false.

Record files_ok (m : machine) : Prop := {
  fo_pid x w : workers m !! x = Some w → 0 < x < 2 ^ 31;
  fo_own p x : inside p m x → watches p ∧ myfilename (phase p) x ∈ files m;
  fo_file n : n ∈ files m → HasPrefix n "mr-worker-" = true →
    (∃ p x, watches p ∧ inside p m x ∧ n = myfilename (phase p) x) ∨ ∃ x c, n = job_file x c
}.

Lemma fresh_files_ok m : fresh_start m → files_ok m.
Proof.
  intros [Hw Hf]. split.
  - intros x w. by rewrite Hw, lookup_empty.
  - intros p x (w & Hx & _). by rewrite Hw, lookup_empty in Hx.
  - intros n Hn Hp. by rewrite Hf in Hp.
Qed.

(** A name that the scan of worker [x] reads is a file of a worker inside. *)
Lemma parsed_inside m p n x :
  files_ok m → watches p → n ∈ files m → Sscanf_d (pattern (phase p)) n = Some x →
  inside p m x ∧ n = myfilename (phase p) x.
Proof.
  intros Hok Hp Hn Hs.
  destruct (fo_file _ Hok n Hn (parse_other _ _ _ Hs)) as [(q & y & Hq & Hy & ->)|(y & c & ->)];
    [|by rewrite parse_job in Hs].
  destruct (Hy) as (w & Hw & _). pose proof (fo_pid _ Hok _ _ Hw).
  rewrite parse_mine in Hs by (done || lia). case_decide; [|done]. by simplify_eq.
Qed.

(** One worker changes; its file appears, disappears or stays. *)
Lemma files_ok_upd m x w' d :
  files_ok m → 0 < x < 2 ^ 31 →
  (outside (wk_pc w') = false → watches (wk_plugin w') ∧ myfilename (phase (wk_plugin w')) x ∈ d) →
  (∀ p y, inside p m y → y ≠ x → myfilename (phase p) y ∈ d) →
  (∀ n, n ∈ d → HasPrefix n "mr-worker-" = true →
     (n ∈ files m ∧ ∀ p, watches p → inside p m x → n = myfilename (phase p) x →
        outside (wk_pc w') = false ∧ wk_plugin w' = p) ∨
     (outside (wk_pc w') = false ∧ n = myfilename (phase (wk_plugin w')) x) ∨
     ∃ y c, n = job_file y c) →
  files_ok (mkMachine d (<[x := w']> (workers m))).
Proof.
  intros Hok Hx Hmine Hoth Hd. split; simpl.
  - intros y w [[<- <-]|[_ Hy]]%lookup_insert_Some; [done|]. by apply (fo_pid _ Hok y w).
  - intros p y (w & Hw & Hpl & Hout). simpl in Hw.
    apply lookup_insert_Some in Hw as [[<- <-]|[Hne Hw]].
    + rewrite <-Hpl. by apply Hmine.
    + assert (inside p m y) as Hin by by exists w.
      split; [by apply (fo_own _ Hok p y)|]. by apply Hoth.
  - intros n Hn Hp. destruct (Hd n Hn Hp) as [[Hf Hx']|[[Ho ->]|?]]; [|left|by right].
    + destruct (fo_file _ Hok n Hf Hp) as [(p & y & Hwp & Hin & ->)|?]; [left|by right].
      exists p, y. split; [done|]. split; [|done]. destruct (decide (y = x)) as [->|Hne].
      * destruct (Hx' p Hwp Hin eq_refl) as [? ?]. exists w'. simpl. by rewrite lookup_insert_eq.
      * destruct Hin as (w & ? & ? & ?). exists w. simpl. by rewrite lookup_insert_ne.
    + exists (wk_plugin w'), x. split; [by apply Hmine|]. split; [|done].
      exists w'. simpl. by rewrite lookup_insert_eq.
Qed.

Lemma files_ok_gone m x w :
  files_ok m → workers m !! x = Some w → outside (wk_pc w) = true → files_ok (gone x m).
Proof.
  intros Hok Hx Ho.
  assert (∀ p y, inside p m y → inside p (gone x m) y) as Hin.
  { intros p y (w' & Hy & Hp & Ho'). exists w'. simpl. split; [|done].
    rewrite lookup_delete_ne; [done|]. intros <-. congruence. }
  split; simpl.
  - intros y w' [_ Hy]%lookup_delete_Some. by apply (fo_pid _ Hok y w').
  - intros p y (w' & Hy & H). simpl in Hy. apply lookup_delete_Some in Hy as [_ Hy]. apply (fo_own _ Hok p y). by exists w'.
  - intros n Hn Hp. destruct (fo_file _ Hok n Hn Hp) as [(p & y & ? & ? & ->)|?]; [left|by right].
    exists p, y. by split_and!; [|apply Hin|].
Qed.

Lemma files_ok_dir m d :
  files_ok m → (∀ n, HasPrefix n "mr-worker-" = true → n ∈ d ↔ n ∈ files m) →
  files_ok (mkMachine d (workers m)).
Proof.
  intros Hok Hd. split; simpl.
  - apply Hok.
  - intros p x Hx. destruct (fo_own _ Hok p x Hx) as [? Hf]. split; [done|].
    apply Hd; [|done]. unfold myfilename, pattern. rewrite !str_app_assoc. apply HasPrefix_app.
  - intros n Hn Hp. apply (fo_file _ Hok n); [by apply Hd|done].
Qed.

(** [nparallel] of worker [x]. *)
Lemma files_ok_np m x w np a r :
  files_ok m → workers m !! x = Some w → np_of (wk_plugin w) = Some np →
  orderly (T_np x a) = true → np x (kill0 m) a (files m) (wk_pc w) = Some r →
  ∃ d pc, r = Ret (d, pc) ∧
    files_ok (mkMachine d (<[x := mkWorker (wk_plugin w) pc (wk_count w)]> (workers m))).
Proof.
  intros Hok Hx [Hw ->]%np_of_Some Ha Hr. pose proof (fo_pid _ Hok x w Hx) as Hpid.
  assert (∀ p y, inside p m y → y ≠ x → myfilename (phase p) y ∈ files m) as Hoth
    by (intros p y Hy _; by apply (fo_own _ Hok)).
  assert (∀ p, inside p m x → outside (wk_pc w) = false ∧ wk_plugin w = p) as Hme
    by (intros p (w' & Hx' & ? & ?); by simplify_eq).
  assert (outside (wk_pc w) = false → myfilename (phase (wk_plugin w)) x ∈ files m) as Hfile
    by (intros Ho; apply (fo_own _ Hok); by exists w).
  unfold nparallel in Hr. destruct a as [[]|names []| |[]]; try done;
    destruct (wk_pc w) as [| |[|n names'] ret|ret] eqn:Hpc; simplify_eq/=; try done.
  - eexists _, _. split; [done|]. apply files_ok_upd; simpl; [done|done|..].
    + split; [done|set_solver].
    + set_solver.
    + intros n [->%elem_of_singleton|Hn]%elem_of_union _; [by right; left|left].
      split; [done|]. intros p _ Hin. by destruct (Hme p Hin).
  - eexists _, _. split; [done|]. apply files_ok_upd; simpl; [done|done|..].
    + split; [done|set_solver].
    + set_solver.
    + intros n [->%elem_of_singleton|Hn]%elem_of_union _; [by right; left|left].
      split; [done|]. intros p _ Hin. by destruct (Hme p Hin).
  - case_bool_decide as Hnames; [|done]. simplify_eq/=.
    case_bool_decide as Hnil; simpl.
    + exfalso. destruct Hnames as (_ & _ & Hlen). subst names. simpl in Hlen.
      assert (size (files m) ≠ 0%nat); [|lia]. apply size_non_empty_iff. set_solver.
    + eexists _, _. split; [done|]. apply files_ok_upd; simpl; auto.
  - eexists _, _. split; [done|]. apply files_ok_upd; simpl; auto.
  - rewrite bool_decide_true by auto. eexists _, _. split; [done|].
    apply files_ok_upd; simpl; [done|done|done|..].
    + intros p y Hy Hne. apply elem_of_difference. split; [by apply Hoth|].
      intros He%elem_of_singleton. apply Hne. destruct (Hy) as (wy & Hwy & _).
      pose proof (fo_pid _ Hok y wy Hwy). eapply myfilename_inj; [..|exact He]; try done; try lia.
      by apply (fo_own _ Hok p y).
    + intros n [Hn Hne]%elem_of_difference _. left. split; [done|].
      intros p _ Hin ->. destruct (Hme p Hin) as [_ <-]. set_solver.
Qed.

Lemma files_ok_step a m m' :
  files_ok m → orderly a = true → step a m = Some m' → files_ok m'.
Proof.
  intros Hok Ha Hs. destruct a as [x p|x a|x err|x|x|n|n]; simpl in Hs; try done.
  - case_bool_decide as Hx; [|done]. destruct Hx as [Hx Hpid]. simplify_eq.
    apply files_ok_upd; simpl; [done|done|done|..].
    + intros q y Hy _. by apply (fo_own _ Hok).
    + intros n Hn _. left. split; [done|]. intros q _ (w & Hw & _). congruence.
  - destruct (workers m !! x) as [w|] eqn:Hx; [|done]. simpl in Hs.
    destruct (np_of (wk_plugin w)) as [np|] eqn:Hnp; [|done]. simpl in Hs.
    destruct (np x _ _ _ _) as [r|] eqn:Hr; [|done]. simplify_eq/=.
    by destruct (files_ok_np m x w np a r Hok Hx Hnp Ha Hr) as (d & pc & -> & ?).
  - destruct (workers m !! x) as [w|] eqn:Hx; [|done]. simpl in Hs.
    destruct (wk_plugin w) eqn:Hp, err; try done. simplify_eq/=.
    assert (∀ p, ¬ inside p m x) as Hout.
    { intros p Hin. destruct (fo_own _ Hok p x Hin) as [Hwp _]. apply Hwp.
      destruct Hin as (w' & ? & <- & _). congruence. }
    apply files_ok_upd; simpl; [done|by apply (fo_pid _ Hok x w)|..].
    + intros Ho. destruct (Hout P_jobcount). by exists w.
    + intros q y Hy _. apply elem_of_union_r. by apply (fo_own _ Hok).
    + intros n [->%elem_of_singleton|Hn]%elem_of_union _; [right; right; eauto|left].
      split; [done|]. intros q _ Hin. by destruct (Hout q).
  - destruct (workers m !! x) as [w|] eqn:Hx; [|done]. simpl in Hs.
    destruct (outside (wk_pc w)) eqn:Ho; [|done]. simplify_eq. by eapply files_ok_gone.
  - destruct (HasPrefix n _) eqn:Hn; [done|]. simplify_eq. apply files_ok_dir; [done|].
    intros n' Hn'. rewrite elem_of_union, elem_of_singleton. intuition congruence.
  - destruct (HasPrefix n _) eqn:Hn; [done|]. simplify_eq. apply files_ok_dir; [done|].
    intros n' Hn'. rewrite elem_of_difference, elem_of_singleton. intuition congruence.
Qed.

Lemma files_ok_run l : ∀ m m',
  files_ok m → Forall (λ a, orderly a = true) l → run l m = Some m' → files_ok m'.
Proof.
  induction l as [|a l IH]; intros m m' Hok Hl Hr; simpl in Hr; [by simplify_eq|].
  apply Forall_cons in Hl as [Ha Hl].
  destruct (step a m) as [m1|] eqn:Hs; [|done].
  eapply (IH m1); [by eapply files_ok_step|done|done].
Qed.

(** ** What a worker counts *)

(** How an orderly step changes the workers. *)
Inductive wstep (m : machine) : act → gmap Z worker → Prop :=
| ws_start x p : workers m !! x = None →
    wstep m (T_start x p) (<[x := mkWorker p W_out 0]> (workers m))
| ws_np x a w d pc : workers m !! x = Some w → watches (wk_plugin w) →
    nparallel (phase (wk_plugin w)) x (kill0 m) a (files m) (wk_pc w) = Some (Ret (d, pc)) →
    wstep m (T_np x a) (<[x := mkWorker (wk_plugin w) pc (wk_count w)]> (workers m))
| ws_job x c w : workers m !! x = Some w → wk_plugin w = P_jobcount →
    wstep m (T_job x false) (<[x := mkWorker P_jobcount (wk_pc w) c]> (workers m))
| ws_exit x w : workers m !! x = Some w → wstep m (T_exit x) (delete x (workers m))
| ws_other a : wstep m a (workers m).

Lemma step_wstep a m m' :
  files_ok m → orderly a = true → step a m = Some m' → wstep m a (workers m').
Proof.
  intros Hok Ha Hs. destruct a as [x p|x a|x err|x|x|n|n]; simpl in Hs; try done.
  - case_bool_decide as Hx; [|done]. destruct Hx as [Hx _]. simplify_eq. by apply ws_start.
  - destruct (workers m !! x) as [w|] eqn:Hx; [|done]. simpl in Hs.
    destruct (np_of (wk_plugin w)) as [np|] eqn:Hnp; [|done]. simpl in Hs.
    destruct (np x _ _ _ _) as [r|] eqn:Hr; [|done]. simplify_eq/=.
    destruct (files_ok_np m x w np a r Hok Hx Hnp Ha Hr) as (d & pc & -> & _).
    apply np_of_Some in Hnp as [Hw ->]. by eapply ws_np.
  - destruct (workers m !! x) as [w|] eqn:Hx; [|done]. simpl in Hs.
    destruct (wk_plugin w) eqn:Hp, err; try done. simplify_eq/=. by eapply ws_job.
  - destruct (workers m !! x) as [w|] eqn:Hx; [|done]. simpl in Hs.
    destruct (outside _); [|done]. simplify_eq. by eapply ws_exit.
  - destruct (HasPrefix n _); [done|]. simplify_eq. simpl. apply ws_other.
  - destruct (HasPrefix n _); [done|]. simplify_eq. simpl. apply ws_other.
Qed.

Section scan.
(** Worker [x] with plugin [p] reads [names]; the workers of [Q] do not exit
    before it is done. *)
Context (p : plugin) (x : Z) (names : list string) (Q : gset Z).

Definition pids (l : list string) : list Z := omap (Sscanf_d (pattern (phase p))) l.
Definition seen (l : list string) (ret : Z) : Prop :=
  Z.of_nat (length (filter (λ q, q ∈ Q) (pids l))) ≤ ret ≤ Z.of_nat (length (pids l)).

Record scan_ok (m : machine) : Prop := {
  so_files : files_ok m;
  so_alive q : q ∈ Q → is_Some (workers m !! q);
  so_scan w : workers m !! x = Some w →
    match wk_pc w with
    | W_out => True
    | W_file => False
    | W_scan todo ret => wk_plugin w = p ∧ ∃ l, names = l ++ todo ∧ seen l ret
    | W_done ret => wk_plugin w = p ∧ seen names ret
    end
}.

Definition quiet (a : act) : Prop :=
  orderly a = true ∧ (∀ q, q ∈ Q → a ≠ T_exit q) ∧ ∀ err, a ≠ T_np x (N_write err).

Lemma seen_snoc l n ret (alive : Z → bool) :
  (∀ q, q ∈ Q → alive q = true) → seen l ret →
  seen (l ++ [n]) (match Sscanf_d (pattern (phase p)) n with
                   | Some xpid => if alive xpid then ret + 1 else ret
                   | None => ret
                   end).
Proof.
  intros Hq. unfold seen, pids. rewrite omap_app. simpl.
  destruct (Sscanf_d _ n) as [q|]; simpl; [|by rewrite app_nil_r].
  rewrite filter_app, !length_app. simpl. rewrite filter_cons, filter_nil.
  case_decide as Hin; simpl; [rewrite (Hq q Hin); lia|]. destruct (alive q); lia.
Qed.

Lemma scan_ok_step a m m' : scan_ok m → quiet a → step a m = Some m' → scan_ok m'.
Proof.
  intros [Hok Hal Hsc] (Ha & Hexit & Hwrite) Hs.
  assert (∀ q, q ∈ Q → kill0 m q = true) as Hkill.
  { intros q Hq. unfold kill0. by rewrite bool_decide_true by by apply Hal. }
  pose proof (step_wstep a m m' Hok Ha Hs) as Hws.
  split; [by eapply files_ok_step|..].
  - intros q Hq. specialize (Hal q Hq). inversion Hws; subst; try (by apply lookup_insert_is_Some';
      right); [|done].
    rewrite lookup_delete_ne; [done|]. intros ->. by destruct (Hexit q Hq).
  - intros w Hw. inversion Hws as [y q Hy Ha' Hm|y b v d pc Hy Hv Hn Ha' Hm|y c v Hy Hv Ha' Hm
      |y v Hy Ha' Hm|]; subst; try rewrite <-Hm in Hw.
    + apply lookup_insert_Some in Hw as [[-> <-]|[_ Hw]]; [done|by apply Hsc].
    + apply lookup_insert_Some in Hw as [[-> <-]|[_ Hw]]; [|by apply Hsc]. simpl.
      specialize (Hsc v Hy). unfold nparallel in Hn. destruct b as [err|l err| |err]; simpl in Hn.
      * by destruct (Hwrite err).
      * by destruct (wk_pc v) eqn:?.
      * destruct (wk_pc v) as [| |[|n todo] ret|]; try done. destruct Hsc as [Hp (l & -> & Hl)].
        injection Hn as <- <-. split; [done|]. exists (l ++ [n]).
        split; [by rewrite <-app_assoc|]. rewrite Hp. by apply seen_snoc.
      * destruct (wk_pc v) as [| |[|n todo] ret|]; try done. destruct Hsc as [Hp (l & -> & Hl)].
        destruct (err || _); [done|]. injection Hn as <- <-. split; [done|].
        by rewrite app_nil_r.
    + apply lookup_insert_Some in Hw as [[-> <-]|[_ Hw]]; [|by apply Hsc]. simpl.
      specialize (Hsc v Hy). destruct (wk_pc v); try done; by rewrite <-Hv.
    + apply lookup_delete_Some in Hw as [_ Hw]. by apply Hsc.
    + apply Hsc. congruence.
Qed.

Lemma scan_ok_run l : ∀ m m', scan_ok m → Forall quiet l → run l m = Some m' → scan_ok m'.
Proof.
  induction l as [|a l IH]; intros m m' Hok Hl Hr; simpl in Hr; [by simplify_eq|].
  apply Forall_cons in Hl as [Ha Hl].
  destruct (step a m) as [m1|] eqn:Hs; [|done].
  eapply (IH m1); [by eapply scan_ok_step|done|done].
Qed.
End scan.

(** The workers with plugin [p] that are inside. *)
Definition insiders (p : plugin) (m : machine) : gset Z :=
  dom (filter (λ yw, wk_plugin yw.2 = p ∧ outside (wk_pc yw.2) = false) (workers m)).

Lemma elem_of_insiders p m x : x ∈ insiders p m ↔ inside p m x.
Proof.
  unfold insiders, inside. rewrite elem_of_dom. split.
  - intros [w [Hw H]%map_lookup_filter_Some]. by exists w.
  - intros (w & Hw & H). exists w. by apply map_lookup_filter_Some.
Qed.

(** A complete listing has the file of every worker inside once. *)
Lemma pids_listing p m l :
  files_ok m → watches p → NoDup l → Forall (λ n, n ∈ files m) l →
  length l = size (files m) →
  NoDup (pids p l) ∧ ∀ x, x ∈ pids p l ↔ x ∈ insiders p m.
Proof.
  intros Hok Hp Hnd Hin Hlen. rewrite Forall_forall in Hin.
  assert (list_to_set l = files m) as Hall.
  { apply set_subseteq_size_eq; [|by rewrite size_list_to_set, Hlen].
    intros n Hn%elem_of_list_to_set. by apply Hin. }
  split.
  - clear Hlen Hall. induction Hnd as [|n l Hn _ IH]; simpl; [constructor|].
    assert (NoDup (pids p l)) as Hl by (apply IH; intros n' ?; apply Hin; by right).
    destruct (Sscanf_d _ n) as [x|] eqn:Hx; [|done]. constructor; [|done].
    intros (n' & Hn' & Hx')%list_elem_of_omap. apply Hn.
    destruct (parsed_inside m p n x) as [_ ->]; [done|done|by apply Hin; left|done|].
    destruct (parsed_inside m p n' x) as [_ <-]; [done|done|by apply Hin; right|done|done].
  - intros x. unfold pids. rewrite list_elem_of_omap, elem_of_insiders. split.
    + intros (n & Hn & Hx). by apply (parsed_inside m p n x); [| |apply Hin|].
    + intros Hx. destruct (fo_own _ Hok p x Hx) as [_ Hf]. exists (myfilename (phase p) x).
      destruct Hx as (w & Hw & _). pose proof (fo_pid _ Hok x w Hw).
      split; [by rewrite <-Hall, elem_of_list_to_set in Hf|].
      rewrite parse_mine by (done || lia). by rewrite decide_True.
Qed.

Lemma length_size (l : list Z) (X : gset Z) :
  NoDup l → (∀ x, x ∈ l ↔ x ∈ X) → length l = size X.
Proof.
  intros Hnd Hx. rewrite <-(size_list_to_set (C := gset Z) l) by done. f_equal.
  apply set_eq. intros x. rewrite elem_of_list_to_set. apply Hx.
Qed.

Lemma list_step m m' x w names :
  files_ok m → workers m !! x = Some w → step (T_np x (N_list names false)) m = Some m' →
  watches (wk_plugin w) ∧ wk_pc w = W_file ∧ NoDup names ∧ Forall (λ n, n ∈ files m) names ∧
  Z.of_nat (length names) = Z.min 1000000 (Z.of_nat (size (files m))) ∧
  m' = mkMachine (files m) (<[x := mkWorker (wk_plugin w) (W_scan names 0) (wk_count w)]> (workers m)).
Proof.
  intros Hok Hw Hs. simpl in Hs. rewrite Hw in Hs. simpl in Hs.
  destruct (np_of (wk_plugin w)) as [np|] eqn:Hnp; [|done]. simpl in Hs.
  destruct (np x _ _ _ _) as [r|] eqn:Hr; [|done]. simplify_eq/=.
  destruct (files_ok_np m x w np (N_list names false) r Hok Hw Hnp eq_refl Hr) as (d & pc & -> & _).
  apply np_of_Some in Hnp as [Hp ->]. simpl in Hr. destruct (wk_pc w); try done.
  case_bool_decide as Hn; [|done]. destruct (bool_decide _); [done|]. simpl in Hr.
  simplify_eq. by destruct Hn as (? & ? & ?).
Qed.

(** C35: what [nparallel] reports.  However the workers run, as long as none
    crashes, a worker that lists the directory (of at most a million files) and
    goes on to return counts only workers that were inside [nparallel] for the
    same phase at that moment, itself included, and all of them but those that
    exit before it returns: none that runs at the same time is missed, and
    nothing is left behind that could be counted later. *)
Theorem nparallel_counts (l1 l2 : list act) (m0 m1 m2 m3 : machine) (x ret : Z) (w w' : worker)
    (names : list string) :
  fresh_start m0 → Forall (λ a, orderly a = true) (l1 ++ l2) →
  run l1 m0 = Some m1 → Z.of_nat (size (files m1)) ≤ 1000000 → workers m1 !! x = Some w →
  step (T_np x (N_list names false)) m1 = Some m2 → run l2 m2 = Some m3 →
  (∀ err, T_np x (N_write err) ∉ l2) → workers m3 !! x = Some w' → wk_pc w' = W_done ret →
  x ∈ insiders (wk_plugin w) m1 ∧
  Z.of_nat (size (filter (λ q, T_exit q ∉ l2) (insiders (wk_plugin w) m1))) ≤ ret ≤
    Z.of_nat (size (insiders (wk_plugin w) m1)).
Proof.
  intros H0 [Hl1 Hl2]%Forall_app Hr1 Hsize Hw Hs Hr2 Hnw Hw' Hdone.
  pose proof (files_ok_run l1 m0 m1 (fresh_files_ok m0 H0) Hl1 Hr1) as Hok.
  set (Q := filter (λ q, T_exit q ∉ l2) (insiders (wk_plugin w) m1)).
  destruct (list_step m1 m2 x w names Hok Hw Hs) as (Hp & Hpc & Hnd & Hin & Hlen & Hm2).
  rewrite Z.min_r in Hlen by done. apply Nat2Z.inj in Hlen.
  destruct (pids_listing (wk_plugin w) m1 names Hok Hp Hnd Hin Hlen) as [Hnd' Hpids].
  assert (scan_ok (wk_plugin w) x names Q m2) as Hsc.
  { split; [by apply (files_ok_step (T_np x (N_list names false)) m1 m2)|..]; rewrite Hm2; simpl.
    - intros q [_ Hq]%elem_of_filter. apply elem_of_insiders in Hq as (v & Hq & _).
      apply lookup_insert_is_Some'. right. by exists v.
    - intros v. rewrite lookup_insert_eq. intros [= <-]. simpl. split; [done|].
      exists []. split; [done|]. unfold seen. simpl. lia. }
  apply (scan_ok_run _ _ _ _ l2 m2 m3) in Hsc as [_ _ Hsc]; [| |done].
  2:{ rewrite Forall_forall in Hl2 |- *. intros a Ha. split; [by apply Hl2|].
      split; [by intros q [Hq _]%elem_of_filter ->|]. intros err ->. by apply (Hnw err). }
  specialize (Hsc w' Hw'). rewrite Hdone in Hsc. destruct Hsc as [_ Hseen]. split.
  - apply elem_of_insiders. exists w. by rewrite Hpc.
  - rewrite <-(length_size _ _ Hnd' Hpids), <-(length_size (filter (λ q, q ∈ Q) (pids (wk_plugin w) names))
      Q); [done|by apply NoDup_filter|].
    intros q. rewrite list_elem_of_filter, Hpids. unfold Q. rewrite elem_of_filter. tauto.
Qed.

(** ** How often a task was run *)

Definition is_job (a : act) : bool := match a with T_job _ _ => true | _ => false end.
Definition started (l : list act) : list Z :=
  omap (λ a, match a with T_start x _ => Some x | _ => None end) l.

Lemma job_file_inj x c y d :
  0 ≤ c → 0 ≤ d → job_file x c = job_file y d → x = y ∧ c = d.
Proof.
  intros Hc Hd He. unfold job_file in He. rewrite <-!str_app_assoc in He.
  pose proof (Itoa_no_dash (Z.to_nat c)) as H1. pose proof (Itoa_no_dash (Z.to_nat d)) as H2.
  rewrite Z2Nat.id in H1, H2 by done. rewrite !(str_app_assoc _ "-") in He.
  pose proof (app_split dash_byte _ _ _ _ H1 H2 He) as Hx.
  apply String.app_inj, Itoa_inj in Hx as ->. split; [done|].
  apply String.app_inj in He. change ("-" +:+ Itoa c) with (String dash_byte (Itoa c)) in He.
  change ("-" +:+ Itoa d) with (String dash_byte (Itoa d)) in He. injection He as He. by apply Itoa_inj.
Qed.

Abbreviation jobcount_prefix := "mr-worker-jobcount".
Lemma job_prefix x c : HasPrefix (job_file x c) jobcount_prefix = true.
Proof. apply (HasPrefix_app ("-" +:+ Itoa x +:+ "-" +:+ Itoa c) jobcount_prefix). Qed.
Lemma mine_prefix p x : watches p → HasPrefix (myfilename (phase p) x) jobcount_prefix = false.
Proof. by destruct p. Qed.
Lemma other_prefix n : HasPrefix n "mr-worker-" = false → HasPrefix n jobcount_prefix = false.
Proof.
  intros Hn. apply not_true_iff_false. intros [r Hr]%bool_decide_eq_true.
  apply strip_Some in Hr as ->. change jobcount_prefix with ("mr-worker-" +:+ "jobcount") in Hn.
  by rewrite str_app_assoc, HasPrefix_app in Hn.
Qed.

(** The tasks that were run: [(x, c)] is the [c]th of worker [x]. *)
Record jobs_ok (l : list act) (jl : list (Z * Z)) (m : machine) : Prop := {
  jo_nodup : NoDup jl;
  jo_len : length jl = count_if is_job l;
  jo_files n : n ∈ files m ∧ HasPrefix n jobcount_prefix = true ↔ n ∈ (uncurry job_file <$> jl);
  jo_old x c : (x, c) ∈ jl → x ∈ started l ∧ 0 ≤ c ∧
    ∀ w, workers m !! x = Some w → c < wk_count w;
  jo_new x w : workers m !! x = Some w → x ∈ started l ∧ 0 ≤ wk_count w ≤ Z.of_nat (length l)
}.

(** A step that runs no task and starts no worker. *)
Lemma jobs_ok_same l jl m a d ws :
  jobs_ok l jl m → is_job a = false →
  (∀ n, n ∈ d ∧ HasPrefix n jobcount_prefix = true ↔ n ∈ files m ∧ HasPrefix n jobcount_prefix = true) →
  (∀ x w, ws !! x = Some w → ∃ w', workers m !! x = Some w' ∧ wk_count w' = wk_count w) →
  jobs_ok (l ++ [a]) jl (mkMachine d ws).
Proof.
  intros [H1 H2 H3 H4 H5] Ha Hd Hws.
  assert (∀ x, x ∈ started l → x ∈ started (l ++ [a])) as Hst
    by (intros x Hx; unfold started; rewrite omap_app, elem_of_app; by left).
  split; simpl.
  - done.
  - by rewrite count_if_snoc, Ha, Nat.add_0_r.
  - intros n. by rewrite Hd.
  - intros x c Hx. destruct (H4 x c Hx) as (? & ? & Hw). split_and!; [by apply Hst|done|].
    intros w (w' & Hw' & <-)%Hws. by apply Hw.
  - intros x w (w' & Hw' & <-)%Hws. destruct (H5 x w' Hw') as [? ?].
    rewrite length_app. simpl. split; [by apply Hst|lia].
Qed.

(** A worker runs a task. *)
Lemma jobs_ok_job l jl m x w :
  jobs_ok l jl m → Z.of_nat (length l) < 2 ^ 63 - 1 → workers m !! x = Some w →
  jobs_ok (l ++ [T_job x false]) (jl ++ [(x, wk_count w)])
    (mkMachine ({[job_file x (wk_count w)]} ∪ files m)
       (<[x := mkWorker P_jobcount (wk_pc w) (wrap_i64 (wk_count w + 1))]> (workers m))).
Proof.
  clear foreign.
  intros [H1 H2 H3 H4 H5] Hl Hx. destruct (H5 x w Hx) as [Hst Hc].
  rewrite wrap_i64_id by lia.
  assert ((x, wk_count w) ∉ jl) as Hnin.
  { intros Hin. destruct (H4 _ _ Hin) as (_ & _ & Hlt). specialize (Hlt w Hx). lia. }
  assert (∀ y, y ∈ started l → y ∈ started (l ++ [T_job x false])) as Hst'
    by (intros y Hy; unfold started; rewrite omap_app, elem_of_app; by left).
  split; simpl.
  - apply NoDup_app. split_and!; [done| |apply NoDup_singleton].
    intros yc Hy ->%list_elem_of_singleton. done.
  - rewrite length_app, count_if_snoc, H2. done.
  - intros n. rewrite fmap_app, elem_of_app, <-H3, elem_of_union, elem_of_singleton. simpl.
    rewrite list_elem_of_singleton. split; [tauto|].
    intros [[??]| ->]; [tauto|]. split; [by left|]. apply job_prefix.
  - intros y c [Hy|[= -> ->]%list_elem_of_singleton]%elem_of_app.
    + destruct (H4 y c Hy) as (? & ? & Hw). split_and!; [by apply Hst'|done|].
      intros v [[<- <-]|[_ Hv]]%lookup_insert_Some; [simpl|by apply Hw].
      specialize (Hw w Hx). lia.
    + split_and!; [by apply Hst'|lia|]. intros v. rewrite lookup_insert_eq.
      intros [= <-]. simpl. lia.
  - intros y v [[<- <-]|[_ Hv]]%lookup_insert_Some; rewrite length_app; simpl.
    + split; [by apply Hst'|lia].
    + destruct (H5 y v Hv). split; [by apply Hst'|lia].
Qed.

(** A worker starts that did not run before. *)
Lemma jobs_ok_start l jl m x p :
  jobs_ok l jl m → x ∉ started l →
  jobs_ok (l ++ [T_start x p]) jl (mkMachine (files m) (<[x := mkWorker p W_out 0]> (workers m))).
Proof.
  clear foreign.
  intros [H1 H2 H3 H4 H5] Hx.
  assert (∀ y, y ∈ started (l ++ [T_start x p]) ↔ y ∈ started l ∨ y = x) as Hst
    by (intros y; unfold started; rewrite omap_app, elem_of_app; simpl; by rewrite list_elem_of_singleton).
  split; simpl.
  - done.
  - rewrite count_if_snoc. simpl. lia.
  - done.
  - intros y c Hy. destruct (H4 y c Hy) as (Hs & ? & Hw). split_and!; [apply Hst; by left|done|].
    intros v [[<- _]|[_ Hv]]%lookup_insert_Some; [done|by apply Hw].
  - intros y v [[<- <-]|[_ Hv]]%lookup_insert_Some; rewrite Hst, length_app; simpl.
    + split; [by right|lia].
    + destruct (H5 y v Hv). split; [by left|lia].
Qed.

(** [nparallel] does not touch the files of tasks. *)
Lemma np_prefix p x alive a d pc d' pc' n :
  watches p → nparallel (phase p) x alive a d pc = Some (Ret (d', pc')) →
  n ∈ d' ∧ HasPrefix n jobcount_prefix = true ↔ n ∈ d ∧ HasPrefix n jobcount_prefix = true.
Proof.
  clear foreign.
  intros Hp Hn. pose proof (mine_prefix p x Hp) as Hf.
  unfold nparallel in Hn. destruct a as [[]|names []| |[]], pc as [| |[] ?|?]; simplify_eq/=; try done;
    repeat (case_bool_decide; simplify_eq/=); try done;
    rewrite ?elem_of_union, ?elem_of_difference, elem_of_singleton; intuition congruence.
Qed.

Lemma jobs_ok_gone l jl m a x :
  jobs_ok l jl m → is_job a = false → jobs_ok (l ++ [a]) jl (gone x m).
Proof.
  clear foreign.
  intros Hok Ha. eapply jobs_ok_same; [done|done|done|].
  intros y w [_ Hy]%lookup_delete_Some. by exists w.
Qed.

Lemma jobs_ok_step l jl m a m' :
  jobs_ok l jl m → Z.of_nat (length l) < 2 ^ 63 - 1 → (∀ x, a ≠ T_job x true) →
  NoDup (started (l ++ [a])) → step a m = Some m' → ∃ jl', jobs_ok (l ++ [a]) jl' m'.
Proof.
  intros Hok Hl Herr Hnd Hs. destruct a as [x p|x b|x err|x|x|n|n]; simpl in Hs.
  - case_bool_decide; [|done]. simplify_eq. exists jl. apply jobs_ok_start; [done|].
    unfold started in Hnd. rewrite omap_app in Hnd. simpl in Hnd.
    apply NoDup_app in Hnd as (_ & Hnd & _). intros Hx. apply (Hnd x Hx). by left.
  - exists jl. destruct (workers m !! x) as [w|] eqn:Hx; [|done]. simpl in Hs.
    destruct (np_of (wk_plugin w)) as [np|] eqn:Hnp; [|done]. simpl in Hs.
    apply np_of_Some in Hnp as [Hp ->].
    destruct (nparallel _ _ _ _ _ _) as [r|] eqn:Hr; [|done]. simplify_eq/=.
    destruct r as [[d pc]|?|?|]; [|by apply jobs_ok_gone..].
    eapply jobs_ok_same; [done|done|intros n; by eapply np_prefix|].
    intros y v [[<- <-]|[_ Hv]]%lookup_insert_Some; [by exists w|by exists v].
  - destruct (workers m !! x) as [w|] eqn:Hx; [|done]. simpl in Hs.
    destruct (wk_plugin w), err; try done; [by destruct (Herr x)|]. simplify_eq/=.
    eexists. by apply jobs_ok_job.
  - exists jl. destruct (workers m !! x) as [w|]; [|done]. simpl in Hs.
    destruct (outside _); [|done]. simplify_eq. by apply jobs_ok_gone.
  - exists jl. destruct (workers m !! x) as [w|]; [|done]. simplify_eq/=. by apply jobs_ok_gone.
  - exists jl. destruct (HasPrefix n "mr-worker-") eqn:Hn; [done|]. simplify_eq.
    apply other_prefix in Hn. eapply jobs_ok_same; [done|done| |by intros y w Hw; exists w].
    intros n'. rewrite elem_of_union, elem_of_singleton. intuition congruence.
  - exists jl. destruct (HasPrefix n "mr-worker-") eqn:Hn; [done|]. simplify_eq.
    apply other_prefix in Hn. eapply jobs_ok_same; [done|done| |by intros y w Hw; exists w].
    intros n'. rewrite elem_of_difference, elem_of_singleton. intuition congruence.
Qed.

Lemma mt_run_snoc l a m m' :
  run (l ++ [a]) m = Some m' ↔ ∃ m1, run l m = Some m1 ∧ step a m1 = Some m'.
Proof.
  revert m. induction l as [|b l IH]; intros m; simpl.
  - split; [destruct (step a m) eqn:?; simpl; naive_solver|]. by intros (m1 & [= <-] & ->).
  - destruct (step b m) as [m1|] eqn:Hs; simpl; [apply IH|naive_solver].
Qed.

Lemma jobs_ok_run l : ∀ m0 m,
  fresh_start m0 → Z.of_nat (length l) < 2 ^ 63 → (∀ x, T_job x true ∉ l) → NoDup (started l) →
  run l m0 = Some m → ∃ jl, jobs_ok l jl m.
Proof.
  induction l as [|a l IH] using rev_ind; intros m0 m H0 Hl Herr Hnd Hr.
  - simpl in Hr. simplify_eq. destruct H0 as [Hw Hf]. exists []. split; simpl; [constructor|done|..].
    + intros n. split; [|by intros ?%elem_of_nil]. intros [Hn Hp]. apply Hf in Hn.
      apply other_prefix in Hn. congruence.
    + by intros x c ?%elem_of_nil.
    + intros x w. by rewrite Hw, lookup_empty.
  - apply mt_run_snoc in Hr as (m1 & Hr & Hs). rewrite length_app in Hl. simpl in Hl.
    destruct (IH m0 m1 H0) as [jl Hjl]; [lia| | |done|].
    + intros x Hx. apply (Herr x), elem_of_app. by left.
    + unfold started in Hnd. rewrite omap_app in Hnd. by apply NoDup_app in Hnd as (? & _).
    + eapply jobs_ok_step; [done|lia| |done|done].
      intros x ->. apply (Herr x), elem_of_app. right. by left.
Qed.

Lemma count_job_filter l n :
  foldl count_job n l =
  n + Z.of_nat (length (filter (λ f, HasPrefix f jobcount_prefix = true) l)).
Proof.
  clear foreign.
  revert n. induction l as [|f l IH]; intros n; simpl; [lia|]. rewrite IH. unfold count_job.
  rewrite filter_cons. destruct (HasPrefix f jobcount_prefix); simpl; lia.
Qed.

(** What the job counter reports.  Whatever the workers do and wherever they
    crash, if no file of a task fails to be written and no process identifier is
    used twice, [Reduce] of [jobcount.go] prints the number of times that [Map]
    was run, by all workers together. *)
Lemma jobcount_counts (l : list act) (m0 m : machine) :
  fresh_start m0 → Z.of_nat (length l) < 2 ^ 63 → (∀ x, T_job x true ∉ l) → NoDup (started l) →
  run l m0 = Some m →
  jobcount_Reduce false (files m) = Ret (Itoa (Z.of_nat (count_if is_job l))).
Proof.
  intros H0 Hl Herr Hnd Hr.
  destruct (jobs_ok_run l m0 m H0 Hl Herr Hnd Hr) as [jl [H1 H2 H3 H4 _]].
  unfold jobcount_Reduce. rewrite count_job_filter, Z.add_0_l, <-H2. do 3 f_equal.
  rewrite <-(length_fmap (uncurry job_file) jl). apply Permutation_length, NoDup_Permutation.
  - apply NoDup_filter, NoDup_elements.
  - apply NoDup_fmap_2_strong; [|done]. intros [x c] [y d] Hx Hy He. simpl in He.
    apply job_file_inj in He as [-> ->]; [done|by apply (H4 x)|by apply (H4 y)].
  - intros n. rewrite list_elem_of_filter, elem_of_elements, <-H3. tauto.
Qed.
End machine.

(** ** Two workers at the same time, three tasks *)

Definition nobody (x : Z) : bool := false.
Definition run_or (l : list act) (m : machine) : machine := default m (run nobody l m).
Lemma run_or_run l m :
  bool_decide (is_Some (run nobody l m)) = true → run nobody l m = Some (run_or l m).
Proof. intros [m' Hm]%bool_decide_eq_true. unfold run_or. by rewrite Hm. Qed.

Definition tm0 : machine := mkMachine {["pg-sherlock.txt"]} ∅.
Lemma tm0_fresh : fresh_start tm0.
Proof. split; [reflexivity|]. simpl. by intros n ->%elem_of_singleton. Qed.

Definition t_overlap : list act :=
  [T_start 41 P_mtiming; T_start 42 P_mtiming; T_np 41 (N_write false); T_np 42 (N_write false)].
Definition t_names : list string := ["mr-worker-map-42"; "pg-sherlock.txt"; "mr-worker-map-41"].
Definition t_return : list act :=
  [T_np 42 N_probe; T_np 42 N_probe; T_np 42 N_probe; T_np 42 (N_remove false)].
Definition tm1 : machine := run_or t_overlap tm0.
Definition tm2 : machine := run_or [T_np 42 (N_list t_names false)] tm1.
Definition tm3 : machine := run_or t_return tm2.

Lemma nparallel_counts_witness :
  workers tm3 !! 42 = Some (mkWorker P_mtiming (W_done 2) 0) ∧
  Z.of_nat (size (filter (λ q, T_exit q ∉ t_return) (insiders P_mtiming tm1))) ≤ 2 ≤
    Z.of_nat (size (insiders P_mtiming tm1)).
Proof.
  split; [vm_compute; reflexivity|].
  apply (nparallel_counts nobody t_overlap t_return tm0 tm1 tm2 tm3 42 2
    (mkWorker P_mtiming W_file 0) (mkWorker P_mtiming (W_done 2) 0) t_names tm0_fresh).
  - repeat (constructor; [reflexivity|]). constructor.
  - apply run_or_run. vm_compute. reflexivity.
  - apply (bool_decide_unpack (_ ≤ _)). vm_compute. exact I.
  - vm_compute. reflexivity.
  - assert (run nobody [T_np 42 (N_list t_names false)] tm1 = Some tm2) as H
      by (apply run_or_run; vm_compute; reflexivity).
    cbn [run] in H. by destruct (step nobody _ tm1).
  - apply run_or_run. vm_compute. reflexivity.
  - intros err. unfold t_return. rewrite !elem_of_cons, elem_of_nil.
    intros [H|[H|[H|[H|[]]]]]; discriminate H.
  - vm_compute. reflexivity.
  - reflexivity.
Defined.

(** Worker 8 crashes after its task. *)
Definition t_jobs : list act :=
  [T_start 7 P_jobcount; T_start 8 P_jobcount; T_job 7 false; T_job 8 false; T_crash 8;
   T_job 7 false].

Lemma jobcount_counts_witness :
  jobcount_Reduce false (files (run_or t_jobs tm0)) = Ret "3".
Proof.
  refine (jobcount_counts nobody t_jobs tm0 (run_or t_jobs tm0) tm0_fresh _ _ _ _).
  - reflexivity.
  - intros x. unfold t_jobs. rewrite !elem_of_cons, elem_of_nil.
    intros [H|[H|[H|[H|[H|[H|[]]]]]]]; discriminate H.
  - apply (bool_decide_unpack _). vm_compute. exact I.
  - apply run_or_run. vm_compute. reflexivity.
Defined.
