(* ===== verification/Labgob.v ===== *)
(** * The checks around encoding/gob: [labgob/labgob.go]

    [checkType] walks the graph of the types reachable from a value and
    complains once about every lower-case field; [checkDefault] warns about
    decoding into a value that is not zero.  Encoding itself is the library's. *)

From stdpp Require Import fin_sets fin_maps fin_map_dom.
From S2P Require Export GoStd.

(** ** Types

    A [reflect.Type] is a node of a graph, which may be cyclic; [None] is the
    nil type, of the nil interface. *)

Abbreviation tid := nat.
Inductive tydesc :=
| K_struct (name : string) (fields : list (string * tid))
| K_elem (elem : tid)                 (* Slice, Array and Ptr *)
| K_map (key elem : tid)
| K_other.

Section labgob.
(** [unicode.IsUpper], and the types of the program. *)
Context (IsUpper : Z → bool) (types : gmap tid tydesc).

(** The package variables [checked] and [errorCount]. *)
Abbreviation state := (gset tid * Z)%type.

(** [utf8.DecodeRuneInString] of an empty name is the invalid rune. *)
Definition lowercase (name : string) : bool :=
  negb (IsUpper (if decide (name = "") then 65533%Z else (decode_rune name).1)).

Fixpoint checkType (fuel : nat) (t : tid) (st : state) : outcome state :=
  match fuel with
  | O => Diverge
  | S fuel =>
      match types !! t with
      | None => Panic "no such type"
      | Some k =>
          let '(checked, errorCount) := st in
          if decide (t ∈ checked) then Ret st
          else
            let st := ({[t]} ∪ checked, errorCount) in
            match k with
            | K_struct _ fields =>
                ofold (λ '(checked, errorCount) '(f, ft),
                  checkType fuel ft
                    (checked, if lowercase f then (errorCount + 1)%Z else errorCount)) st fields
            | K_elem e => checkType fuel e st
            | K_map key e => st ← checkType fuel e st; checkType fuel key st
            | K_other => Ret st
            end
      end
  end.

Definition checkValue (t : option tid) (st : state) : outcome state :=
  match t with
  | None => Panic "nil pointer dereference"
  | Some t => checkType (S (size types)) t st
  end.

(** ** Proofs about the walk *)

Definition comps (t : tid) : list tid :=
  match types !! t with
  | Some (K_struct _ fields) => fields.*2
  | Some (K_elem e) => [e]
  | Some (K_map key e) => [e; key]
  | _ => []
  end.

(** How many lower-case fields a type has. *)
Definition lowers (t : tid) : nat :=
  match types !! t with
  | Some (K_struct _ fields) => count_if (λ f, lowercase f.1) fields
  | _ => 0
  end.

Definition reaches (t u : tid) : Prop := rtc (λ a b, b ∈ comps a) t u.

(** No type mentions a type that does not exist. *)
Definition types_closed : Prop := ∀ t u, t ∈ dom types → u ∈ comps t → u ∈ dom types.

Definition complaints (s : gset tid) : Z := zsum (λ t, Z.of_nat (lowers t)) (elements s).

Lemma complaints_union s1 s2 : s1 ## s2 → complaints (s1 ∪ s2) = (complaints s1 + complaints s2)%Z.
Proof.
  intros H. unfold complaints. rewrite <-zsum_app.
  apply zsum_perm. by apply elements_disj_union.
Qed.
Lemma complaints_singleton t : complaints {[t]} = Z.of_nat (lowers t).
Proof. unfold complaints. rewrite elements_singleton. simpl. lia. Qed.

(** One call: what is new was reachable from one of the types [ts], what is new
    has its components checked, and the new complaints are those of the new
    types; [extra] are complaints about the fields of a struct in progress. *)
Record walked (ts : list tid) (extra : Z) (st st' : state) : Prop := {
  wk_mono : st.1 ⊆ st'.1;
  wk_roots : ∀ t, t ∈ ts → t ∈ st'.1;
  wk_comps : ∀ t u, t ∈ st'.1 → t ∉ st.1 → u ∈ comps t → u ∈ st'.1;
  wk_reach : ∀ u, u ∈ st'.1 → u ∉ st.1 → ∃ t, t ∈ ts ∧ reaches t u;
  wk_dom : st'.1 ⊆ dom types;
  wk_count : st'.2 = (st.2 + extra + complaints (st'.1 ∖ st.1))%Z
}.

Lemma walked_trans ts1 ts2 x1 x2 st1 st2 st3 :
  walked ts1 x1 st1 st2 → walked ts2 x2 st2 st3 → walked (ts1 ++ ts2) (x1 + x2) st1 st3.
Proof.
  intros [M1 R1 C1 E1 D1 N1] [M2 R2 C2 E2 D2 N2]. split.
  - set_solver.
  - intros t [Ht|Ht]%elem_of_app; [by apply M2, R1|by apply R2].
  - intros t u Ht Ht1 Hu. destruct (decide (t ∈ st2.1)) as [H2|H2].
    + by apply M2, (C1 t).
    + by apply (C2 t).
  - intros u Hu Hu1. destruct (decide (u ∈ st2.1)) as [H2|H2].
    + destruct (E1 u H2 Hu1) as (t & ? & ?). exists t. set_solver.
    + destruct (E2 u Hu H2) as (t & ? & ?). exists t. set_solver.
  - done.
  - assert (st3.1 ∖ st1.1 = (st2.1 ∖ st1.1) ∪ (st3.1 ∖ st2.1)) as ->.
    { apply set_eq. intros x. destruct (decide (x ∈ st2.1)); set_solver. }
    rewrite complaints_union by set_solver. rewrite N2, N1. lia.
Qed.

Lemma walked_refl st : st.1 ⊆ dom types → walked [] 0 st st.
Proof.
  intros Hd. split; try set_solver. assert (st.1 ∖ st.1 = ∅) as -> by set_solver.
  unfold complaints. rewrite elements_empty. simpl. lia.
Qed.

(** Enough fuel is one more than the number of types not yet checked. *)
Definition unchecked (ck : gset tid) : nat := size (dom types ∖ ck).

Lemma unchecked_mono ck ck' : ck ⊆ ck' → unchecked ck' ≤ unchecked ck.
Proof. intros H. unfold unchecked. apply subseteq_size. set_solver. Qed.
Lemma unchecked_add t ck : t ∈ dom types → t ∉ ck → unchecked ({[t]} ∪ ck) < unchecked ck.
Proof. intros Ht Hck. unfold unchecked. apply subset_size. set_solver. Qed.

Definition walk_ok (fuel : nat) : Prop := ∀ t st,
  t ∈ dom types → st.1 ⊆ dom types → unchecked st.1 < fuel →
  ∃ st', checkType fuel t st = Ret st' ∧ walked [t] 0 st st'.

(** The loop over the fields of a struct. *)
Lemma walk_fields fuel fields : ∀ st,
  walk_ok fuel → (∀ f, f ∈ fields → f.2 ∈ dom types) → st.1 ⊆ dom types →
  unchecked st.1 < fuel →
  ∃ st', ofold (λ '(checked, errorCount) '(f, ft),
      checkType fuel ft (checked, if lowercase f then (errorCount + 1)%Z else errorCount))
      st fields = Ret st' ∧
    walked fields.*2 (Z.of_nat (count_if (λ f, lowercase f.1) fields)) st st'.
Proof.
  induction fields as [|[f ft] fields IH]; intros st Hok Hdom Hst Hfuel.
  - exists st. split; [done|]. by apply walked_refl.
  - destruct st as [ck e]. simpl in *.
    set (st0 := (ck, if lowercase f then (e + 1)%Z else e) : state).
    destruct (Hok ft st0) as (st1 & Hrun & Hw);
      [apply (Hdom (f, ft)); left|done|done|]. rewrite Hrun. simpl.
    destruct (IH st1) as (st' & Hrun' & Hw');
      [done|intros; apply Hdom; by right|apply (wk_dom _ _ _ _ Hw)|
       pose proof (unchecked_mono _ _ (wk_mono _ _ _ _ Hw)); simpl in *; lia|].
    exists st'. split; [done|].
    assert (walked [ft] (if lowercase f then 1 else 0) (ck, e) st1) as Hw0.
    { destruct Hw as [M R C E D Nn]. split; [done..|]. rewrite Nn. simpl.
      destruct (lowercase f); lia. }
    pose proof (walked_trans _ _ _ _ _ _ _ Hw0 Hw') as H. simpl in H.
    by replace (Z.of_nat ((if lowercase f then 1 else 0) + count_if (λ f0, lowercase f0.1) fields))
      with ((if lowercase f then 1 else 0) +
            Z.of_nat (count_if (λ f0, lowercase f0.1) fields))%Z by (destruct (lowercase f); lia).
Qed.

(** A type not yet checked, once its components were walked. *)
Lemma walked_node t x st st' :
  t ∈ dom types → t ∉ st.1 → st.1 ⊆ dom types → x = Z.of_nat (lowers t) →
  walked (comps t) x ({[t]} ∪ st.1, st.2) st' → walked [t] 0 st st'.
Proof.
  intros Ht Hnt Hst -> [M R C E D Nn]. simpl in *. split.
  - set_solver.
  - intros u ->%list_elem_of_singleton. set_solver.
  - intros u v Hu Hu1 Hv. destruct (decide (u = t)) as [->|Hne]; [by apply R|].
    apply (C u); [done|set_solver|done].
  - intros u Hu Hu1. exists t. split; [by left|].
    destruct (decide (u = t)) as [->|Hne]; [apply rtc_refl|].
    destruct (E u Hu) as (c & Hc & Hr); [set_solver|]. by eapply rtc_l.
  - done.
  - rewrite Nn. assert (st'.1 ∖ st.1 = {[t]} ∪ (st'.1 ∖ ({[t]} ∪ st.1))) as ->.
    { apply set_eq. intros x. destruct (decide (x = t)) as [->|]; set_solver. }
    rewrite complaints_union, complaints_singleton by set_solver. lia.
Qed.

Lemma checkType_walk fuel : types_closed → walk_ok fuel.
Proof.
  intros Hcl. induction fuel as [|fuel IH]; intros t [ck e] Ht Hst Hfuel; [lia|]. simpl in *.
  pose proof Ht as Ht'. apply elem_of_dom in Ht' as [k Hk]. rewrite Hk.
  destruct (decide (t ∈ ck)) as [Hin|Hnin].
  { exists (ck, e). split; [done|]. destruct (walked_refl (ck, e) Hst) as [M R C E D Nn].
    split; try done. intros u ->%list_elem_of_singleton. done. }
  pose proof (unchecked_add t ck Ht Hnin) as Hlt.
  assert ({[t]} ∪ ck ⊆ dom types) as Hst' by set_solver.
  assert (∀ u, u ∈ comps t → u ∈ dom types) as Hc by (intros u; by apply Hcl).
  assert (∀ st', walked (comps t) (Z.of_nat (lowers t)) ({[t]} ∪ ck, e) st' →
    walked [t] 0 (ck, e) st') as Hnode by (intros st' H; by eapply walked_node).
  unfold comps, lowers in Hc, Hnode. rewrite Hk in Hc, Hnode.
  destruct k as [name fields|u|key u|].
  - destruct (walk_fields fuel fields ({[t]} ∪ ck, e)) as (st' & Hrun & Hw);
      [done| |done|simpl; lia|].
    + intros [f ft] Hf. apply Hc. apply list_elem_of_fmap. by exists (f, ft).
    + exists st'. split; [done|]. by apply Hnode.
  - destruct (IH u ({[t]} ∪ ck, e)) as (st' & Hrun & Hw); [apply Hc; left|done|simpl; lia|].
    exists st'. split; [done|]. by apply Hnode.
  - destruct (IH u ({[t]} ∪ ck, e)) as (st1 & Hrun1 & Hw1); [apply Hc; left|done|simpl; lia|].
    destruct (IH key st1) as (st' & Hrun & Hw);
      [apply Hc; right; left|apply (wk_dom _ _ _ _ Hw1)|
       pose proof (unchecked_mono _ _ (wk_mono _ _ _ _ Hw1)); simpl in *; lia|].
    exists st'. rewrite Hrun1. split; [done|]. apply Hnode.
    apply (walked_trans _ _ _ _ _ _ _ Hw1 Hw).
  - exists ({[t]} ∪ ck, e). split; [done|]. apply Hnode. by apply walked_refl.
Qed.

(** C38: [checkValue] terminates on every type graph, cyclic ones included.  From
    a state in which the components of checked types are checked, it checks
    exactly the types reachable from the value's type besides those checked
    before, and complains once about every lower-case field of each newly
    checked struct, never about a type checked before. *)
Theorem checkValue_correct (t : tid) (ck : gset tid) (e : Z) :
  types_closed → t ∈ dom types → ck ⊆ dom types →
  (∀ u v, u ∈ ck → v ∈ comps u → v ∈ ck) →
  ∃ ck', checkValue (Some t) (ck, e) = Ret (ck', (e + complaints (ck' ∖ ck))%Z) ∧
    ∀ u, u ∈ ck' ↔ u ∈ ck ∨ reaches t u.
Proof.
  intros Hcl Ht Hck Hclosed.
  destruct (checkType_walk (S (size types)) Hcl t (ck, e) Ht Hck) as ([ck' e'] & Hrun & Hw).
  { unfold unchecked. simpl. rewrite <-size_dom. apply le_n_S, subseteq_size. set_solver. }
  destruct Hw as [M R C E D Nn]. simpl in *. exists ck'. split.
  { rewrite Hrun, Nn. do 2 f_equal. lia. }
  assert (∀ u v, u ∈ ck' → v ∈ comps u → v ∈ ck') as Hcl'.
  { intros u v Hu Hv. destruct (decide (u ∈ ck)) as [Hu1|Hu1].
    - by apply M, (Hclosed u).
    - by apply (C u). }
  intros u. split.
  - intros Hu. destruct (decide (u ∈ ck)) as [|Hn]; [by left|right].
    by destruct (E u Hu Hn) as (t' & ->%list_elem_of_singleton & ?).
  - intros [Hu|Hr]; [by apply M|]. assert (t ∈ ck') as Ht' by (apply R; left).
    clear -Hcl' Hr Ht'. induction Hr as [|a b c Hab Hbc IH]; [done|].
    apply IH. by apply (Hcl' a).
Qed.
End labgob.

(** ** [checkDefault] *)

(** A value as the walk sees it: structs, pointers, values of basic kinds with
    the name of their type and whether they are zero, and the rest. *)
#[warnings="-register-all"]
Inductive value :=
| V_struct (fields : list (string * value))
| V_ptr (elem : option value)
| V_basic (tname : string) (zero : bool)
| V_other.

(** The state: [errorCount] and what was printed. *)
Abbreviation warn_state := (Z * list string)%type.

Fixpoint checkDefault1 (v : value) (depth : nat) (name : string) (st : warn_state)
    : warn_state :=
  if decide (3 < depth) then st
  else
    match v with
    | V_struct fields =>
        (fix go (fields : list (string * value)) (st : warn_state) : warn_state :=
           match fields with
           | [] => st
           | (f, vv) :: fields =>
               let name1 := if decide (name ≠ "") then name +:+ "." +:+ f else f in
               go fields (checkDefault1 vv (S depth) name1 st)
           end) fields st
    | V_ptr None => st
    | V_ptr (Some v) => checkDefault1 v (S depth) name st
    | V_basic tname zero =>
        if zero then st
        else
          let '(errorCount, out) := st in
          let what := if decide (name = "") then tname else name in
          ((errorCount + 1)%Z, if (errorCount <? 1)%Z then out ++ [what] else out)
    | V_other => st
    end.

(** [None] is the nil interface. *)
Definition checkDefault (v : option value) (st : warn_state) : warn_state :=
  match v with None => st | Some v => checkDefault1 v 1 "" st end.

(** ** The encoder and the decoder around the library's

    [TypeOf] is [reflect.TypeOf] and [gob] what the library then does with the
    value.  The state is the package's: [checked], [errorCount] and the
    warnings of [checkDefault]. *)
Section coder.
Context (IsUpper : Z → bool) (types : gmap tid tydesc) (TypeOf : option value → option tid).
Context {R : Type} (gob : option value → R).

Definition Encode (e : option value) (st : gset tid * Z * list string)
    : outcome (gset tid * Z * list string * R) :=
  let '(checked, errorCount, out) := st in
  '(checked, errorCount) ← checkValue IsUpper types (TypeOf e) (checked, errorCount);
  Ret (checked, errorCount, out, gob e).

Definition Decode (e : option value) (st : gset tid * Z * list string)
    : outcome (gset tid * Z * list string * R) :=
  let '(checked, errorCount, out) := st in
  '(checked, errorCount) ← checkValue IsUpper types (TypeOf e) (checked, errorCount);
  let '(errorCount, out) := checkDefault e (errorCount, out) in
  Ret (checked, errorCount, out, gob e).

(** The [reflect.Value] of [EncodeValue] is the value it holds. *)
Definition EncodeValue (value : option value) (st : gset tid * Z * list string)
    : outcome (gset tid * Z * list string * R) := Encode value st.

(** Here [gob] is what [gob.Register] does. *)
Definition Register (value : option value) (st : gset tid * Z * list string)
    : outcome (gset tid * Z * list string * R) :=
  let '(checked, errorCount, out) := st in
  '(checked, errorCount) ← checkValue IsUpper types (TypeOf value) (checked, errorCount);
  Ret (checked, errorCount, out, gob value).
End coder.

(** The library is also given the name. *)
Definition RegisterName {R} (IsUpper : Z → bool) (types : gmap tid tydesc)
    (TypeOf : option value → option tid) (gob : string → option value → R)
    (name : string) (value : option value) (st : gset tid * Z * list string)
    : outcome (gset tid * Z * list string * R) :=
  Register IsUpper types TypeOf (gob name) value st.

(** *** What [checkDefault] warns about *)

(** The names of the non-zero basic values within [depth] levels, in order. *)
Fixpoint nondefault (v : value) (depth : nat) (name : string) : list string :=
  match depth with
  | O => []
  | S depth =>
      match v with
      | V_struct fields =>
          concat ((λ '(f, vv),
            nondefault vv depth (if decide (name = "") then f else name +:+ "." +:+ f)) <$> fields)
      | V_ptr (Some v) => nondefault v depth name
      | V_basic tname false => [if decide (name = "") then tname else name]
      | _ => []
      end
  end.

(** Warnings already given, then those for [l]. *)
Definition warn (l : list string) (st : warn_state) : warn_state :=
  ((st.1 + Z.of_nat (length l))%Z, st.2 ++ (if (st.1 <? 1)%Z then take 1 l else [])).

Lemma warn_nil st : warn [] st = st.
Proof.
  destruct st as [e out]. unfold warn. simpl. rewrite Z.add_0_r.
  destruct (e <? 1)%Z; by rewrite app_nil_r.
Qed.
Lemma warn_app l1 l2 st : (0 ≤ st.1)%Z → warn (l1 ++ l2) st = warn l2 (warn l1 st).
Proof.
  intros He. destruct st as [e out]. unfold warn. simpl in *. rewrite length_app.
  f_equal; [lia|]. destruct l1 as [|x l1]; simpl.
  { change (Z.of_nat 0) with 0%Z. rewrite Z.add_0_r.
    destruct (e <? 1)%Z; rewrite ?app_nil_r; done. }
  destruct (Z.ltb_spec e 1), (Z.ltb_spec (e + Z.of_nat (S (length l1))) 1);
    try lia; rewrite ?app_nil_r; done.
Qed.
Lemma warn_nonneg l st : (0 ≤ st.1)%Z → (0 ≤ (warn l st).1)%Z.
Proof. unfold warn. simpl. lia. Qed.

Lemma checkDefault1_warn d : ∀ k v name st, k + d = 4 → (0 ≤ st.1)%Z →
  checkDefault1 v k name st = warn (nondefault v d name) st.
Proof.
  induction d as [|d IH]; intros k v name st Hd Hst.
  { assert (k = 4) as -> by lia. destruct v; simpl; by rewrite warn_nil. }
  destruct v as [fields|[v|]|tname zero|]; cbn [checkDefault1 nondefault];
    rewrite decide_False by lia.
  - revert st Hst. induction fields as [|[f vv] fields IHf]; intros st Hst; simpl.
    { by rewrite warn_nil. }
    rewrite warn_app by done. rewrite IH by (done || lia).
    rewrite IHf by by apply warn_nonneg. do 2 f_equal.
    by destruct (decide (name = "")), (decide (name ≠ "")).
  - apply IH; [lia|done].
  - by rewrite warn_nil.
  - destruct zero; [by rewrite warn_nil|]. destruct st as [e out]. unfold warn. simpl.
    by destruct (e <? 1)%Z; rewrite ?app_nil_r.
  - by rewrite warn_nil.
Qed.

(** Decoding into a value adds one to [errorCount] for every non-zero value
    of a basic kind at most two levels of structs and pointers below the value
    decoded into, and prints one warning, with the path of the first of them, if
    nothing was complained about before; [checkDefault] changes nothing else. *)
Lemma checkDefault_warns (v : value) (errorCount : Z) (out : list string) :
  (0 ≤ errorCount)%Z →
  let l := nondefault v 3 "" in
  checkDefault (Some v) (errorCount, out) =
    ((errorCount + Z.of_nat (length l))%Z,
     if (errorCount <? 1)%Z then out ++ take 1 l else out).
Proof.
  intros He l. unfold checkDefault. rewrite (checkDefault1_warn 3) by (done || lia).
  unfold warn. simpl. fold l. f_equal. destruct (errorCount <? 1)%Z; [done|]. apply app_nil_r.
Qed.

(** ** Witnesses *)

(** [type Node struct \{ Next *Node; val int \}]. *)
Definition node_types : gmap tid tydesc :=
  list_to_map [(0, K_struct "Node" [("Next", 1); ("val", 2)]); (1, K_elem 0); (2, K_other)].
Definition ascii_upper (r : Z) : bool := ((65 <=? r) && (r <=? 90))%Z.

Lemma node_types_closed : types_closed node_types.
Proof.
  intros t u Ht Hu. unfold comps, node_types in *.
  assert (t = 0 ∨ t = 1 ∨ t = 2) as [->|[->| ->]].
  { clear Hu. set_solver. }
  all: vm_compute in Hu; set_solver.
Qed.

Lemma checkValue_correct_witness :
  types_closed node_types ∧
  (∃ ck', checkValue ascii_upper node_types (Some 0) (∅, 0%Z) =
      Ret (ck', (0 + complaints ascii_upper node_types (ck' ∖ ∅))%Z) ∧
    ∀ u, u ∈ ck' ↔ u ∈ (∅ : gset tid) ∨ reaches node_types 0 u) ∧
  checkValue ascii_upper node_types (Some 0) (∅, 0%Z) = Ret ({[0; 1; 2]}, 1%Z).
Proof.
  split; [apply node_types_closed|]. split; [|by vm_compute].
  apply (checkValue_correct ascii_upper node_types 0 ∅ 0).
  - apply node_types_closed.
  - by vm_compute.
  - apply empty_subseteq.
  - intros u v Hu. by apply not_elem_of_empty in Hu.
Defined.

Lemma checkDefault_warns_witness :
  checkDefault (Some (V_ptr (Some (V_struct [("Err", V_basic "string" false);
    ("Num", V_basic "int" true); ("Args", V_struct [("Key", V_basic "string" false)])]))))
    (0%Z, []) = (1%Z, ["Err"]).
Proof. rewrite checkDefault_warns by lia. by vm_compute. Defined.
