(* ===== verification/Annotation.v ===== *)
(** * Annotations of the visualised history: [tester1/annotation.go]

    The tests describe what they do to the servers as annotations of the
    history that Porcupine draws: points, intervals, and continuous ones that
    last until the next with the same tag.  The package variables [annotation]
    and [finfo] are the state; the clock is a parameter, read once per call of
    [timestamp].  Every function holds the lock of what it reads and writes, so
    a function is one step; a map is visited in the order of [map_to_list]. *)

From S2P Require Export GoStd.
#[local] Set Default Proof Using "Type".

(** The fields of [porcupine.Annotation] that are set. *)
Record pannotation := mkPA {
  Tag : string; Start : Z; End_t : Z;
  Description : string; Details : string; BackgroundColor : string }.

Record Continuous := mkCont { start : Z; desp : string; details : string; bgcolor : string }.

Record Annotation := mkAn {
  annotations : list pannotation;
  continuous : gmap string Continuous;
  finalized : bool }.

(** [ckbegin] is inlined. *)
Record FrameworkInfo := mkFi {
  nservers : nat; connected : list bool; crashed : list bool;
  ck_ts : Z; ck_details : string }.

(** [ticks] counts the readings of the clock; [finfo] is nil at first. *)
Record world := mkWorld { an : Annotation; finfo : option FrameworkInfo; ticks : nat }.
Abbreviation A := (M world).

Definition COLOR_INFO : string := "#FAFAFA".
Definition COLOR_NEUTRAL : string := "#FFECB3".
Definition COLOR_SUCCESS : string := "#C8E6C9".
Definition COLOR_FAILURE : string := "#FFCDD2".
Definition COLOR_FAULT : string := "#B3E5FC".
Definition COLOR_USER : string := "#FFF176".
Definition TAG_CHECKER : string := "$ Checker".
Definition TAG_PARTITION : string := "$ Failure".
Definition TAG_INFO : string := "$ Test Info".

Definition mkAnnotation : Annotation := mkAn [] ∅ false.
Definition mkFrameworkInfo (n : nat) : FrameworkInfo :=
  mkFi n (replicate n true) (replicate n false) 0 "".

(** [fmt.Sprintf] of a slice of integers with [%v]. *)
Definition show_ints (l : list nat) : string :=
  "[" +:+ Join (Itoa <$> (Z.of_nat <$> l)) " " +:+ "]".

(** Go's [copy]. *)
Definition go_copy {B} (dst src : list B) : list B :=
  take (length dst) src ++ drop (length src) dst.

Section annotation.
(** The readings of [time.Since(time.Unix(0, 0))]. *)
Context (clock : nat → Z).

Definition timestamp : A Z :=
  λ w, Ret (clock (ticks w), mkWorld (an w) (finfo w) (S (ticks w))).

Definition set_an (f : Annotation → Annotation) : A unit :=
  modify (λ w, mkWorld (f (an w)) (finfo w) (ticks w)).
Definition set_finfo (fi : FrameworkInfo) : A unit :=
  modify (λ w, mkWorld (an w) (Some fi) (ticks w)).
(** Locking [finfo.mu] of a nil [finfo] panics. *)
Definition get_finfo : A FrameworkInfo :=
  o ← gets finfo;
  lift match o with Some fi => Ret fi | None => Panic "nil pointer dereference" end.

Definition push (a : pannotation) : A unit :=
  set_an (λ an, mkAn (annotations an ++ [a]) (continuous an) (finalized an)).
Definition set_continuous (f : gmap string Continuous → gmap string Continuous) : A unit :=
  set_an (λ an, mkAn (annotations an) (f (continuous an)) (finalized an)).

(** The annotation a continuous one becomes when it ends. *)
Definition concretize (tag : string) (cont : Continuous) (t : Z) : pannotation :=
  mkPA tag (start cont) t (desp cont) (details cont) (bgcolor cont).

(** ** The methods of [Annotation] *)

Definition annotatePointColor (tag desp details bgcolor : string) : A unit :=
  t ← timestamp;
  push (mkPA tag t 0 desp details bgcolor).

Definition annotateIntervalColor (tag : string) (start : Z) (desp details bgcolor : string)
    : A unit :=
  t ← timestamp;
  push (mkPA tag start t desp details bgcolor).

Definition annotateContinuousColor (tag desp details bgcolor : string) : A unit :=
  m ← gets (λ w, continuous (an w));
  match m !! tag with
  | None =>
      t ← timestamp;
      set_continuous (<[tag := mkCont t desp details bgcolor]>)
  | Some cont =>
      t ← timestamp;
      _ ← push (concretize tag cont t);
      set_continuous (<[tag := mkCont (wrap_i64 (t + 1000)) desp details bgcolor]>)
  end.

(** A missing entry reads as the zero [Continuous]. *)
Definition annotateContinuousEnd (tag : string) : A unit :=
  m ← gets (λ w, continuous (an w));
  let cont := default (mkCont 0 "" "" "") (m !! tag) in
  t ← timestamp;
  _ ← push (concretize tag cont t);
  set_continuous (delete tag).

Definition finalize : A (list pannotation) :=
  a ← gets an;
  t ← timestamp;
  let x := annotations a ++
    ((λ '(tag, cont), concretize tag cont t) <$> map_to_list (continuous a)) in
  _ ← set_an (λ an, mkAn (annotations an) (continuous an) true);
  mret x.

Definition clear : A unit := set_an (λ _, mkAn [] ∅ false).
Definition isFinalized : A bool := gets (λ w, finalized (an w)).

(** The last annotation of a visualisation. *)
Definition aend (t : Z) (end_ : string) : pannotation :=
  mkPA TAG_INFO t (wrap_i64 (t + 1000)) end_ end_ COLOR_INFO.

(** [enabled] is the environment variable VIS_ENABLE, [opens] whether the file
    can be created; the result is what is visualised, if anything. *)
Definition cleanup (enabled : string) (opens failed : bool) (end_ : string)
    : A (option (list pannotation)) :=
  fin ← isFinalized;
  if bool_decide (enabled = "never") || (negb failed && bool_decide (enabled ≠ "always"))
     || fin
  then _ ← clear; mret None
  else
    annotations ← finalize;
    if decide (annotations = []) then mret None
    else
      t ← timestamp;
      mret (if opens then Some (annotations ++ [aend t end_]) else None).

(** ** The public interface *)

Definition FinalizeAnnotations (end_ : string) : A (list pannotation) :=
  annotations ← finalize;
  t ← timestamp;
  mret (annotations ++ [aend t end_]).

Definition SetAnnotationFinalized : A unit :=
  set_an (λ an, mkAn (annotations an) (continuous an) true).

Definition AnnotatePointColor (tag desp details bgcolor : string) : A unit :=
  annotatePointColor tag desp details bgcolor.
Definition GetAnnotateTimestamp : A Z := timestamp.
Definition AnnotateIntervalColor (tag : string) (start : Z) (desp details bgcolor : string)
    : A unit := annotateIntervalColor tag start desp details bgcolor.
Definition AnnotateContinuousColor (tag desp details bgcolor : string) : A unit :=
  annotateContinuousColor tag desp details bgcolor.
Definition AnnotateContinuousEnd (tag : string) : A unit := annotateContinuousEnd tag.
Definition GetAnnotationFinalized : A bool := isFinalized.

Definition Annotate (tag desp details : string) : A unit :=
  annotatePointColor tag desp details COLOR_USER.
Definition AnnotateInterval (tag : string) (start : Z) (desp details : string) : A unit :=
  annotateIntervalColor tag start desp details COLOR_USER.
Definition AnnotateContinuous (tag desp details : string) : A unit :=
  annotateContinuousColor tag desp details COLOR_USER.
Definition AnnotateInfo (desp details : string) : A unit :=
  annotatePointColor TAG_INFO desp details COLOR_INFO.
Definition AnnotateInfoInterval (start : Z) (desp details : string) : A unit :=
  annotateIntervalColor TAG_INFO start desp details COLOR_INFO.

Definition AnnotateTest (desp : string) (n : nat) : A unit :=
  let details := desp +:+ " (" +:+ Itoa (Z.of_nat n) +:+ " servers)" in
  _ ← set_finfo (mkFrameworkInfo n);
  _ ← clear;
  AnnotateInfo details details.

Definition AnnotateCheckerBegin (details : string) : A unit :=
  fi ← get_finfo;
  t ← timestamp;
  set_finfo (mkFi (nservers fi) (connected fi) (crashed fi) t details).

(** The final [ckbegin.ts = 0] assigns to a copy of the struct. *)
Definition AnnotateCheckerEnd (desp details color : string) : A unit :=
  fi ← get_finfo;
  if decide (ck_ts fi = 0%Z) then annotatePointColor TAG_CHECKER desp details color
  else
    let d := ck_details fi +:+ ": " +:+ details in
    annotateIntervalColor TAG_CHECKER (ck_ts fi) desp d color.

Definition AnnotateCheckerSuccess (desp details : string) : A unit :=
  AnnotateCheckerEnd desp details COLOR_SUCCESS.
Definition AnnotateCheckerFailure (desp details : string) : A unit :=
  AnnotateCheckerEnd desp details COLOR_FAILURE.
Definition AnnotateCheckerNeutral (desp details : string) : A unit :=
  AnnotateCheckerEnd desp details COLOR_NEUTRAL.

Definition AnnotateCheckerFailureBeforeExit (enabled : string) (opens : bool)
    (desp details : string) : A (option (list pannotation)) :=
  _ ← AnnotateCheckerFailure desp details;
  cleanup enabled opens true "test failed".

(** The handler of an interrupt, before it exits the process. *)
Definition captureSignal (enabled : string) (opens : bool) : A (option (list pannotation)) :=
  cleanup enabled opens true "interrupted".

(** *** Faults *)

(** The loop over the servers: who is connected, who crashed, and the text. *)
Definition fault_step (crashed : list bool) '(conn, crashes, builder) '(id, connected)
    : outcome (list nat * list nat * string) :=
  c ← index crashed id;
  if (c : bool) then Ret (conn, crashes ++ [id], builder)
  else if (connected : bool) then Ret (conn ++ [id], crashes, builder)
  else Ret (conn, crashes, builder +:+ ("[" +:+ Itoa (Z.of_nat id) +:+ "] ")).

Definition fault_text (fi : FrameworkInfo) : outcome string :=
  '(conn, crashes, builder) ← ofold (fault_step (crashed fi)) ([], [], "partition = ")
     (imap pair (connected fi));
  let builder :=
    if decide (0 < length conn) then builder +:+ show_ints conn else builder in
  let builder :=
    if decide (0 < length crashes) then builder +:+ (" / crash = " +:+ show_ints crashes)
    else builder in
  Ret builder.

Definition annotateFault : A unit :=
  fi ← get_finfo;
  if decide (replicate (nservers fi) true = connected fi ∧
             replicate (nservers fi) false = crashed fi)
  then annotateContinuousEnd TAG_PARTITION
  else
    text ← lift (fault_text fi);
    annotateContinuousColor TAG_PARTITION text text COLOR_FAULT.

Definition AnnotateConnection (connection : list bool) : A unit :=
  fi ← get_finfo;
  if decide (connected fi = connection) then mret tt
  else
    _ ← set_finfo (mkFi (nservers fi) (go_copy (connected fi) connection) (crashed fi)
                        (ck_ts fi) (ck_details fi));
    annotateFault.

Definition AnnotateTwoPartitions (p1 p2 : list nat) : A unit :=
  let text := "partition = " +:+ show_ints p1 +:+ " " +:+ show_ints p2 in
  annotateContinuousColor TAG_PARTITION text text COLOR_FAULT.

Definition AnnotateClearFailure : A unit :=
  fi ← get_finfo;
  _ ← set_finfo (mkFi (nservers fi) (replicate (length (connected fi)) true)
                      (replicate (length (crashed fi)) false) (ck_ts fi) (ck_details fi));
  annotateContinuousEnd TAG_PARTITION.

(** [finfo.crashed[id] = b] for the servers, and whether that changed one. *)
Definition set_crashed (b : bool) (servers : list nat) (crashed : list bool)
    : outcome (list bool * bool) :=
  ofold (λ '(crashed, changed) id,
    c ← index crashed id;
    Ret (<[id := b]> crashed, if bool_decide (c ≠ b) then true else changed))
    (crashed, false) servers.

Definition AnnotateShutdown (servers : list nat) : A unit :=
  fi ← get_finfo;
  '(cr, changed) ← lift (set_crashed true servers (crashed fi));
  _ ← set_finfo (mkFi (nservers fi) (connected fi) cr (ck_ts fi) (ck_details fi));
  if (changed : bool) then annotateFault else mret tt.

Definition AnnotateShutdownAll : A unit :=
  fi ← get_finfo;
  AnnotateShutdown (seq 0 (nservers fi)).

Definition AnnotateRestart (servers : list nat) : A unit :=
  fi ← get_finfo;
  '(cr, changed) ← lift (set_crashed false servers (crashed fi));
  _ ← set_finfo (mkFi (nservers fi) (connected fi) cr (ck_ts fi) (ck_details fi));
  if (changed : bool) then annotateFault else mret tt.

Definition AnnotateRestartAll : A unit :=
  fi ← get_finfo;
  AnnotateRestart (seq 0 (nservers fi)).

(** ** Programs of the interface *)

Inductive api :=
| APoint (tag desp details bgcolor : string)
| AInterval (tag : string) (start : Z) (desp details bgcolor : string)
| AContinuous (tag desp details bgcolor : string)
| AContinuousEnd (tag : string)
| ACheckerBegin (details : string)
| ACheckerEnd (desp details color : string)
| AConnection (connection : list bool)
| ATwoPartitions (p1 p2 : list nat)
| AClearFailure
| AShutdown (servers : list nat)
| AShutdownAll
| ARestart (servers : list nat)
| ARestartAll
| ASetFinalized.

Definition do_api (op : api) : A unit :=
  match op with
  | APoint tag desp details bgcolor => annotatePointColor tag desp details bgcolor
  | AInterval tag start desp details bgcolor =>
      annotateIntervalColor tag start desp details bgcolor
  | AContinuous tag desp details bgcolor => annotateContinuousColor tag desp details bgcolor
  | AContinuousEnd tag => annotateContinuousEnd tag
  | ACheckerBegin details => AnnotateCheckerBegin details
  | ACheckerEnd desp details color => AnnotateCheckerEnd desp details color
  | AConnection connection => AnnotateConnection connection
  | ATwoPartitions p1 p2 => AnnotateTwoPartitions p1 p2
  | AClearFailure => AnnotateClearFailure
  | AShutdown servers => AnnotateShutdown servers
  | AShutdownAll => AnnotateShutdownAll
  | ARestart servers => AnnotateRestart servers
  | ARestartAll => AnnotateRestartAll
  | ASetFinalized => SetAnnotationFinalized
  end.

(** A test: its announcement, then what it does. *)
Definition annotated_test (desp : string) (n : nat) (ops : list api) : A unit :=
  _ ← AnnotateTest desp n; mfor ops do_api.

(** ** One step of the state *)

Definition tick (w : world) : world := mkWorld (an w) (finfo w) (S (ticks w)).
Definition pushed (a : pannotation) (w : world) : world :=
  mkWorld (mkAn (annotations (an w) ++ [a]) (continuous (an w)) (finalized (an w)))
          (finfo w) (ticks w).
Definition with_continuous (m : gmap string Continuous) (w : world) : world :=
  mkWorld (mkAn (annotations (an w)) m (finalized (an w))) (finfo w) (ticks w).
Definition now (w : world) : Z := clock (ticks w).

Lemma annotatePointColor_run tag d e c w :
  annotatePointColor tag d e c w = Ret (tt, pushed (mkPA tag (now w) 0 d e c) (tick w)).
Proof. done. Qed.

Lemma annotateIntervalColor_run tag s d e c w :
  annotateIntervalColor tag s d e c w = Ret (tt, pushed (mkPA tag s (now w) d e c) (tick w)).
Proof. done. Qed.

Lemma annotateContinuousColor_run tag d e c w :
  annotateContinuousColor tag d e c w =
    Ret (tt, match continuous (an w) !! tag with
             | None => with_continuous (<[tag := mkCont (now w) d e c]> (continuous (an w)))
                         (tick w)
             | Some cont =>
                 with_continuous
                   (<[tag := mkCont (wrap_i64 (now w + 1000)) d e c]> (continuous (an w)))
                   (pushed (concretize tag cont (now w)) (tick w))
             end).
Proof.
  unfold annotateContinuousColor, mbind, M_bind, gets.
  by destruct (continuous (an w) !! tag).
Qed.

Lemma annotateContinuousEnd_run tag w :
  annotateContinuousEnd tag w =
    Ret (tt, with_continuous (delete tag (continuous (an w)))
      (pushed (concretize tag (default (mkCont 0 "" "" "") (continuous (an w) !! tag)) (now w))
              (tick w))).
Proof. done. Qed.

Lemma finalize_run w :
  finalize w = Ret (annotations (an w) ++
      ((λ '(tag, cont), concretize tag cont (now w)) <$> map_to_list (continuous (an w))),
    mkWorld (mkAn (annotations (an w)) (continuous (an w)) true) (finfo w) (S (ticks w))).
Proof. done. Qed.

Lemma get_finfo_run fi w (Q : FrameworkInfo → world → Prop) :
  finfo w = Some fi → Q fi w → wp get_finfo Q w.
Proof. intros Hfi HQ. unfold wp, get_finfo, mbind, M_bind, gets, lift. by rewrite Hfi. Qed.

(** Ending an annotation that was never begun records one that began at the
    epoch and says nothing. *)
Lemma annotateContinuousEnd_spurious tag w :
  continuous (an w) !! tag = None →
  wp (annotateContinuousEnd tag)
    (λ _ w', annotations (an w') = annotations (an w) ++ [mkPA tag 0 (now w) "" "" ""]) w.
Proof. intros Hno. unfold wp. rewrite annotateContinuousEnd_run, Hno. done. Qed.

(** ** The faults shown *)

(** The specification: who is connected and who crashed, from the calls alone. *)
Definition fault_op (n : nat) (st : list bool * list bool) (op : api)
    : list bool * list bool :=
  match op with
  | AConnection connection => (connection, st.2)
  | AClearFailure => (replicate n true, replicate n false)
  | AShutdown servers => (st.1, foldl (λ cr id, <[id := true]> cr) st.2 servers)
  | ARestart servers => (st.1, foldl (λ cr id, <[id := false]> cr) st.2 servers)
  | AShutdownAll => (st.1, replicate n true)
  | ARestartAll => (st.1, replicate n false)
  | _ => st
  end.

Definition fault_ops (n : nat) (ops : list api) : list bool * list bool :=
  foldl (fault_op n) (replicate n true, replicate n false) ops.

Definition up (n : nat) (cr : list bool) : list nat :=
  filter (λ id, cr !! id = Some false) (seq 0 n).
Definition down (n : nat) (cr : list bool) : list nat :=
  filter (λ id, cr !! id = Some true) (seq 0 n).

(** Live servers alone in their part, the part of the connected, the crashed. *)
Definition partition_text (n : nat) (conn cr : list bool) : string :=
  let alone := filter (λ id, conn !! id = Some false) (up n cr) in
  let together := filter (λ id, conn !! id = Some true) (up n cr) in
  "partition = " +:+ str_concat ((λ id, "[" +:+ Itoa (Z.of_nat id) +:+ "] ") <$> alone) +:+
  (if decide (together = []) then "" else show_ints together) +:+
  (if decide (down n cr = []) then "" else " / crash = " +:+ show_ints (down n cr)).

(** What the visualisation shows as going on: nothing without a fault. *)
Definition shown (n : nat) (conn cr : list bool) : option string :=
  if decide (conn = replicate n true ∧ cr = replicate n false) then None
  else Some (partition_text n conn cr).

(** The calls covered: servers of the group, and [TAG_PARTITION] left to the
    framework, without [AnnotateTwoPartitions]. *)
Definition fault_safe (n : nat) (op : api) : Prop :=
  match op with
  | AContinuous tag _ _ _ | AContinuousEnd tag => tag ≠ TAG_PARTITION
  | ATwoPartitions _ _ => False
  | AConnection connection => length connection = n
  | AShutdown servers | ARestart servers => Forall (λ id, id < n) servers
  | _ => True
  end.

Record fault_inv (n : nat) (conn cr : list bool) (w : world) : Prop := {
  fi_conn : length conn = n;
  fi_crash : length cr = n;
  fi_finfo : ∃ ts d, finfo w = Some (mkFi n conn cr ts d);
  fi_shown : (λ c, (desp c, details c, bgcolor c)) <$> continuous (an w) !! TAG_PARTITION =
             (λ text, (text, text, COLOR_FAULT)) <$> shown n conn cr
}.

Lemma fault_loop (conn cr : list bool) (l : list (nat * bool)) : ∀ c k b,
  (∀ id x, (id, x) ∈ l → conn !! id = Some x ∧ is_Some (cr !! id)) →
  ofold (fault_step cr) (c, k, b) l =
    Ret (c ++ filter (λ id, conn !! id = Some true) (filter (λ id, cr !! id = Some false) l.*1),
         k ++ filter (λ id, cr !! id = Some true) l.*1,
         b +:+ str_concat ((λ id, "[" +:+ Itoa (Z.of_nat id) +:+ "] ") <$>
           filter (λ id, conn !! id = Some false) (filter (λ id, cr !! id = Some false) l.*1))).
Proof.
  induction l as [|[id x] l IH]; intros c k b Hl.
  { simpl. by rewrite !app_nil_r, str_app_nil. }
  destruct (Hl id x) as [Hc [y Hy]]; [left|].
  assert (∀ i z, (i, z) ∈ l → conn !! i = Some z ∧ is_Some (cr !! i)) as Hl'
    by (intros; apply Hl; by right).
  cbn [ofold fault_step]. unfold index at 1. rewrite Hy. rewrite !fmap_cons. cbn [fst].
  destruct y, x; cbn [mbind outcome_bind]; rewrite IH by done;
    repeat first [rewrite filter_cons_True by (done || congruence)
                 |rewrite filter_cons_False by (rewrite ?Hc, ?Hy; congruence)];
    rewrite ?fmap_cons; cbn [str_concat foldr]; rewrite <-?app_assoc, ?str_app_assoc; done.
Qed.

Lemma imap_pair_fst {B} (l : list B) : (imap pair l).*1 = seq 0 (length l).
Proof.
  apply list_eq. intros i. rewrite list_lookup_fmap, list_lookup_imap.
  destruct (l !! i) as [x|] eqn:Hi; simpl.
  - symmetry. apply lookup_seq. split; [done|]. apply lookup_lt_Some in Hi. lia.
  - symmetry. apply lookup_seq_ge. by apply lookup_ge_None in Hi.
Qed.

Lemma fault_text_spec n (conn cr : list bool) ts d :
  length conn = n → length cr = n →
  fault_text (mkFi n conn cr ts d) = Ret (partition_text n conn cr).
Proof.
  intros Hn Hm. unfold fault_text. cbn [crashed connected]. rewrite (fault_loop conn).
  2:{ intros id x (i & y & [= -> ->] & Hi)%elem_of_lookup_imap. split; [done|].
      apply lookup_lt_is_Some. apply lookup_lt_Some in Hi. lia. }
  rewrite imap_pair_fst, Hn. fold (up n cr) (down n cr).
  cbn [mbind outcome_bind app]. unfold partition_text.
  set (together := filter _ (up n cr)). set (alone := str_concat _).
  destruct together as [|x together], (down n cr) as [|y l]; simpl; f_equal;
    by rewrite ?str_app_nil, ?str_app_assoc.
Qed.

(** *** The loops over the servers of a call *)

Lemma set_crashed_spec (b : bool) (ids : list nat) : ∀ (cr : list bool) (ch : bool),
  Forall (λ id, id < length cr) ids →
  ∃ ch', ofold (λ '(crashed, changed) id,
      c ← index crashed id;
      Ret (<[id := b]> crashed, if bool_decide (c ≠ b) then true else changed)) (cr, ch) ids =
    Ret (foldl (λ cr id, <[id := b]> cr) cr ids, ch') ∧
    (ch' = false → ch = false ∧ foldl (λ cr id, <[id := b]> cr) cr ids = cr).
Proof.
  clear clock. induction ids as [|id ids IH]; intros cr ch Hids; [by exists ch|].
  inversion Hids as [|? ? Hid Hids']; subst.
  destruct (lookup_lt_is_Some_2 _ _ Hid) as [c Hc].
  cbn [ofold foldl]. rewrite (index_Some _ _ _ Hc). cbn [mbind outcome_bind].
  destruct (IH (<[id := b]> cr) (if bool_decide (c ≠ b) then true else ch))
    as (ch' & Hrun & Hch); [by rewrite length_insert|].
  exists ch'. split; [exact Hrun|]. intros H. destruct (Hch H) as [H1 H2].
  case_bool_decide as Hcb; [done|]. split; [done|]. rewrite H2.
  apply list_insert_id. rewrite Hc. f_equal. by destruct c, b; naive_solver.
Qed.

Lemma foldl_insert_lookup (b : bool) (ids : list nat) (i : nat) : ∀ cr : list bool,
  i < length cr → i ∈ ids → foldl (λ cr id, <[id := b]> cr) cr ids !! i = Some b.
Proof.
  clear clock. assert (∀ (ids : list nat) (cr : list bool), cr !! i = Some b →
    foldl (λ cr id, <[id := b]> cr) cr ids !! i = Some b) as Hkeep.
  { clear ids. induction ids as [|id ids IH]; intros cr Hi; [done|]. apply IH.
    destruct (decide (id = i)) as [->|Hne]; [|by rewrite list_lookup_insert_ne].
    rewrite list_lookup_insert_eq; [done|]. by eapply lookup_lt_Some. }
  induction ids as [|id ids IH]; intros cr Hlt Hi; [by apply elem_of_nil in Hi|].
  cbn [foldl]. destruct (decide (id = i)) as [->|Hne].
  - apply Hkeep. by rewrite list_lookup_insert_eq.
  - apply IH; [by rewrite length_insert|]. set_solver.
Qed.

Lemma foldl_insert_length (b : bool) (ids : list nat) : ∀ cr : list bool,
  length (foldl (λ cr id, <[id := b]> cr) cr ids) = length cr.
Proof. induction ids as [|id ids IH]; intros cr; [done|]. cbn. by rewrite IH, length_insert. Qed.

Lemma foldl_insert_all (b : bool) (cr : list bool) :
  foldl (λ cr id, <[id := b]> cr) cr (seq 0 (length cr)) = replicate (length cr) b.
Proof.
  apply list_eq_same_length with (length cr); [by rewrite length_replicate|
    by rewrite foldl_insert_length|].
  intros i x y Hi Hx Hy. apply lookup_replicate in Hy as [-> _].
  rewrite foldl_insert_lookup in Hx; [by simplify_eq|done|]. apply elem_of_seq. lia.
Qed.

(** *** Every call keeps what is shown up to date *)

Lemma shown_healthy n : shown n (replicate n true) (replicate n false) = None.
Proof. unfold shown. by rewrite decide_True. Qed.

Lemma annotateFault_inv n (conn cr : list bool) w :
  length conn = n → length cr = n → (∃ ts d, finfo w = Some (mkFi n conn cr ts d)) →
  wp annotateFault (λ _, fault_inv n conn cr) w.
Proof.
  intros Hn Hm (ts & d & Hfi). unfold annotateFault. apply wp_bind.
  eapply get_finfo_run; [done|]. cbn [nservers connected crashed].
  destruct (decide _) as [[H1 H2]|Hne].
  - unfold wp. rewrite annotateContinuousEnd_run.
    split; [done..|by exists ts, d|]. simpl. rewrite lookup_delete_eq.
    by rewrite <-H1, <-H2, shown_healthy.
  - apply wp_bind. eapply wp_lift; [by apply fault_text_spec|].
    unfold wp. rewrite annotateContinuousColor_run.
    assert (shown n conn cr = Some (partition_text n conn cr)) as Hs
      by (unfold shown; rewrite decide_False by naive_solver; done).
    split; [done..| |]; rewrite ?Hs; destruct (continuous (an w) !! TAG_PARTITION); simpl;
      rewrite ?lookup_insert_eq; try done; by exists ts, d.
Qed.

Lemma set_crashed_inv n conn cr w b servers :
  fault_inv n conn cr w → Forall (λ id, id < n) servers →
  wp (fi ← get_finfo;
      '(cr, changed) ← lift (set_crashed b servers (crashed fi));
      _ ← set_finfo (mkFi (nservers fi) (connected fi) cr (ck_ts fi) (ck_details fi));
      if (changed : bool) then annotateFault else mret tt)
    (λ _, fault_inv n conn (foldl (λ cr id, <[id := b]> cr) cr servers)) w.
Proof.
  intros [Hn Hm (ts & d & Hfi) Hs] Hids. apply wp_bind. eapply get_finfo_run; [done|].
  cbn [crashed connected nservers ck_ts ck_details].
  destruct (set_crashed_spec b servers cr false) as (ch & Hrun & Hch); [by rewrite Hm|].
  apply wp_bind. eapply wp_lift; [exact Hrun|]. cbn beta iota.
  apply wp_bind, wp_modify. destruct ch.
  - apply annotateFault_inv; [done|by rewrite foldl_insert_length|]. by exists ts, d.
  - destruct (Hch eq_refl) as [_ ->]. apply wp_mret. split; [done..| |exact Hs]. by exists ts, d.
Qed.

Lemma AnnotateConnection_inv n conn cr w connection :
  fault_inv n conn cr w → length connection = n →
  wp (AnnotateConnection connection) (λ _, fault_inv n connection cr) w.
Proof.
  intros [Hn Hm (ts & d & Hfi) Hs] Hl. unfold AnnotateConnection.
  apply wp_bind. eapply get_finfo_run; [done|]. cbn [connected crashed nservers ck_ts ck_details].
  destruct (decide (conn = connection)) as [->|Hne].
  - apply wp_mret. split; [done..| |done]. by exists ts, d.
  - apply wp_bind, wp_modify.
    assert (go_copy conn connection = connection) as ->.
    { unfold go_copy. rewrite take_ge, drop_ge by lia. apply app_nil_r. }
    apply annotateFault_inv; [done..|]. by exists ts, d.
Qed.

Lemma AnnotateClearFailure_inv n conn cr w :
  fault_inv n conn cr w →
  wp AnnotateClearFailure (λ _, fault_inv n (replicate n true) (replicate n false)) w.
Proof.
  intros [Hn Hm (ts & d & Hfi) Hs]. unfold AnnotateClearFailure.
  apply wp_bind. eapply get_finfo_run; [done|]. cbn [connected crashed nservers ck_ts ck_details].
  apply wp_bind, wp_modify. unfold wp. rewrite annotateContinuousEnd_run.
  split; [by rewrite length_replicate..| |].
  - exists ts, d. simpl. by rewrite Hn, Hm.
  - simpl. by rewrite lookup_delete_eq, shown_healthy.
Qed.

(** Calls that leave [TAG_PARTITION] and the faults alone. *)
Lemma fault_inv_frame n conn cr w w' :
  fault_inv n conn cr w →
  continuous (an w') !! TAG_PARTITION = continuous (an w) !! TAG_PARTITION →
  (∃ ts d, finfo w' = Some (mkFi n conn cr ts d)) →
  fault_inv n conn cr w'.
Proof. intros [] Hc Hf. split; [done..|]. by rewrite Hc. Qed.

Lemma do_api_fault n conn cr op w :
  fault_inv n conn cr w → fault_safe n op →
  wp (do_api op)
    (λ _, fault_inv n (fault_op n (conn, cr) op).1 (fault_op n (conn, cr) op).2) w.
Proof.
  intros Hinv Hsafe. pose proof Hinv as [Hn Hm (ts & d & Hfi) Hs].
  assert (∃ ts d, finfo w = Some (mkFi n conn cr ts d)) as Hex by by exists ts, d.
  destruct op; cbn [do_api fault_op fst snd fault_safe] in *.
  - unfold wp. rewrite annotatePointColor_run. by apply (fault_inv_frame _ _ _ w).
  - unfold wp. rewrite annotateIntervalColor_run. by apply (fault_inv_frame _ _ _ w).
  - unfold wp. rewrite annotateContinuousColor_run.
    apply (fault_inv_frame _ _ _ w); [done| |]; destruct (continuous (an w) !! tag); simpl;
      by rewrite ?lookup_insert_ne.
  - unfold wp. rewrite annotateContinuousEnd_run.
    apply (fault_inv_frame _ _ _ w); [done| |done]. simpl. by rewrite lookup_delete_ne.
  - unfold AnnotateCheckerBegin. apply wp_bind. eapply get_finfo_run; [done|].
    apply (fault_inv_frame _ _ _ w); [done..|]. simpl. by eexists _, _.
  - unfold AnnotateCheckerEnd. apply wp_bind. eapply get_finfo_run; [done|].
    case_decide; unfold wp.
    + rewrite annotatePointColor_run. by apply (fault_inv_frame _ _ _ w).
    + rewrite annotateIntervalColor_run. by apply (fault_inv_frame _ _ _ w).
  - by apply AnnotateConnection_inv with conn.
  - done.
  - by apply AnnotateClearFailure_inv with conn cr.
  - by apply set_crashed_inv.
  - unfold AnnotateShutdownAll. apply wp_bind. eapply get_finfo_run; [done|].
    cbn [nservers].
    assert (replicate n true = foldl (λ cr id, <[id := true]> cr) cr (seq 0 n)) as ->
      by (rewrite <-Hm; symmetry; apply foldl_insert_all).
    apply set_crashed_inv; [done|]. apply Forall_forall. intros i. rewrite elem_of_seq. lia.
  - by apply set_crashed_inv.
  - unfold AnnotateRestartAll. apply wp_bind. eapply get_finfo_run; [done|].
    cbn [nservers].
    assert (replicate n false = foldl (λ cr id, <[id := false]> cr) cr (seq 0 n)) as ->
      by (rewrite <-Hm; symmetry; apply foldl_insert_all).
    apply set_crashed_inv; [done|]. apply Forall_forall. intros i. rewrite elem_of_seq. lia.
  - by apply (fault_inv_frame _ _ _ w).
Qed.

(** C39: from the start of a test, whatever the framework is told of connections,
    shutdowns and restarts, and whatever users and checkers annotate meanwhile,
    [finfo] holds who is connected and who crashed, and the ongoing fault
    annotation is the text of exactly that state: the disconnected live servers
    each alone, the connected ones together, the crashed ones at the end, and
    no annotation if there is no fault. *)
Theorem faults_shown (name : string) (n : nat) (ops : list api) (w0 : world) :
  Forall (fault_safe n) ops →
  let '(conn, cr) := fault_ops n ops in
  wp (annotated_test name n ops) (λ _ w,
    (∃ ts d, finfo w = Some (mkFi n conn cr ts d)) ∧
    (λ c, (desp c, details c, bgcolor c)) <$> continuous (an w) !! TAG_PARTITION =
    (λ text, (text, text, COLOR_FAULT)) <$> shown n conn cr) w0.
Proof.
  intros Hops. destruct (fault_ops n ops) as [conn cr] eqn:Hst. unfold annotated_test.
  apply wp_bind. unfold AnnotateTest. do 2 apply wp_bind, wp_modify.
  unfold AnnotateInfo, wp at 1. rewrite annotatePointColor_run.
  eapply wp_mono; [apply (wp_mfor (λ pre,
    fault_inv n (fault_ops n pre).1 (fault_ops n pre).2))|].
  - split; [apply length_replicate..|by eexists _, _|].
    simpl. by rewrite shown_healthy.
  - intros pre op post w -> Hinv. unfold fault_ops. rewrite foldl_snoc.
    fold (fault_ops n pre). rewrite (surjective_pairing (fault_ops n pre)).
    apply do_api_fault; [done|]. rewrite Forall_app, Forall_cons in Hops. apply Hops.
  - intros [] w. rewrite Hst. intros [_ _ Hf Hs]. done.
Qed.

(** ** The timeline of a continuous annotation *)

Abbreviation text := (string * string * string)%type.
Definition text_of (a : pannotation) : text := (Description a, Details a, BackgroundColor a).
Definition cont_text (c : Continuous) : text := (desp c, details c, bgcolor c).
Definition of_tag (t : string) (l : list pannotation) : list pannotation :=
  filter (λ a, Tag a = t) l.

#[local] Instance of_tag_perm t : Proper ((≡ₚ) ==> (≡ₚ)) (of_tag t).
Proof. unfold of_tag. solve_proper. Qed.

(** What was asked to be shown under a tag, in order. *)
Fixpoint calls (t : string) (ops : list api) : list text :=
  match ops with
  | [] => []
  | AContinuous tag d e c :: ops => (if decide (tag = t) then [(d, e, c)] else []) ++ calls t ops
  | _ :: ops => calls t ops
  end.

(** Calls of users; under the tag only continuous annotations, and an end only
    while one is going on. *)
Fixpoint user_ok (t : string) (going : bool) (ops : list api) : Prop :=
  match ops with
  | [] => True
  | APoint tag _ _ _ :: ops | AInterval tag _ _ _ _ :: ops => tag ≠ t ∧ user_ok t going ops
  | AContinuous tag _ _ _ :: ops => user_ok t (if decide (tag = t) then true else going) ops
  | AContinuousEnd tag :: ops =>
      if decide (tag = t) then going = true ∧ user_ok t false ops else user_ok t going ops
  | ASetFinalized :: ops => user_ok t going ops
  | _ => False
  end.

(** Intervals in order, none ending more than the gap before it starts. *)
Definition in_order (l : list pannotation) : Prop :=
  StronglySorted (λ a b, (End_t a ≤ Start b)%Z) l ∧
  Forall (λ a, (Start a ≤ End_t a + 1000)%Z) l.

Record timeline (t : string) (called : list text) (going : bool) (w : world) : Prop := {
  tl_texts : (text_of <$> of_tag t (annotations (an w))) ++
    option_list (cont_text <$> continuous (an w) !! t) = called;
  tl_going : going = bool_decide (is_Some (continuous (an w) !! t));
  tl_order : in_order (of_tag t (annotations (an w)));
  tl_past : Forall (λ a, (End_t a ≤ now w)%Z) (of_tag t (annotations (an w)));
  tl_cur : ∀ c, continuous (an w) !! t = Some c → (start c ≤ now w + 1000)%Z ∧
    Forall (λ a, (End_t a ≤ start c)%Z) (of_tag t (annotations (an w)))
}.

(** A clock that does not go back, before the year 2262. *)
Definition good_clock : Prop :=
  ∀ i, (0 ≤ clock i ≤ clock (S i) ∧ clock i + 1000 < 2 ^ 63)%Z.

Lemma in_order_snoc l a :
  in_order l → Forall (λ b, (End_t b ≤ Start a)%Z) l → (Start a ≤ End_t a + 1000)%Z →
  in_order (l ++ [a]).
Proof.
  intros [Hs Hf] Hl Ha. split.
  - clear Hf. induction Hs as [|b l Hs IH Hb]; simpl; [by repeat constructor|].
    apply Forall_cons in Hl as [Hba Hl]. constructor; [by apply IH|].
    apply Forall_app. by split; [|constructor].
  - apply Forall_app. by split; [|constructor].
Qed.

Lemma of_tag_app t l1 l2 : of_tag t (l1 ++ l2) = of_tag t l1 ++ of_tag t l2.
Proof. apply filter_app. Qed.
Lemma of_tag_snoc t l a :
  of_tag t (l ++ [a]) = of_tag t l ++ (if decide (Tag a = t) then [a] else []).
Proof. apply of_tag_app. Qed.

(** The clock moved on and other tags were annotated. *)
Lemma timeline_frame t called going w w' :
  good_clock → timeline t called going w →
  of_tag t (annotations (an w')) = of_tag t (annotations (an w)) →
  continuous (an w') !! t = continuous (an w) !! t →
  ticks w' = ticks w ∨ ticks w' = S (ticks w) → timeline t called going w'.
Proof.
  intros Hck [Ht Hg Ho Hp Hc] Ha Hm Htk.
  assert (now w ≤ now w')%Z as Hnow.
  { unfold now. destruct Htk as [-> | ->]; [lia|]. apply Hck. }
  split; rewrite ?Ha, ?Hm; try done.
  - eapply Forall_impl; [exact Hp|]. simpl. lia.
  - intros c Hcc. destruct (Hc c Hcc). split; [lia|done].
Qed.

(** The ongoing annotation ends now. *)
Lemma timeline_end t called w c :
  good_clock → timeline t called true w → continuous (an w) !! t = Some c →
  let l := of_tag t (annotations (an w)) ++ [concretize t c (now w)] in
  in_order l ∧ text_of <$> l = called ∧ Forall (λ a, (End_t a ≤ now w)%Z) l.
Proof.
  intros Hck [Ht Hg Ho Hp Hc] Hcc l. destruct (Hc c Hcc) as [Hs Hf]. split; [|split].
  - by apply in_order_snoc.
  - unfold l. rewrite fmap_app. rewrite Hcc in Ht. exact Ht.
  - apply Forall_app. split; [done|]. by constructor.
Qed.

Lemma timeline_color t called going d e co w :
  good_clock → timeline t called going w →
  wp (annotateContinuousColor t d e co) (λ _, timeline t (called ++ [(d, e, co)]) true) w.
Proof.
  intros Hck Htl. unfold wp. rewrite annotateContinuousColor_run.
  pose proof (Hck (ticks w)) as Hw.
  destruct (continuous (an w) !! t) as [c|] eqn:Hcc.
  - assert (going = true) as -> by (rewrite (tl_going _ _ _ _ Htl), Hcc; done).
    destruct (timeline_end t called w c Hck Htl Hcc) as (Ho & Ht & Hp).
    assert (wrap_i64 (now w + 1000) = (now w + 1000)%Z) as Hwr
      by (apply wrap_i64_id; unfold now; lia).
    split; simpl; rewrite ?lookup_insert_eq, ?of_tag_snoc; simpl; rewrite ?decide_True by done.
    + by rewrite Ht.
    + done.
    + done.
    + eapply Forall_impl; [exact Hp|]. unfold now. simpl. lia.
    + intros c' [= <-]. simpl. rewrite Hwr. split; [unfold now; simpl; lia|].
      eapply Forall_impl; [exact Hp|]. simpl. lia.
  - destruct Htl as [Ht Hg Ho Hp Hc]. rewrite Hcc in Ht. simpl in Ht. rewrite app_nil_r in Ht.
    split; simpl; rewrite ?lookup_insert_eq; simpl; try done.
    + by rewrite Ht.
    + eapply Forall_impl; [exact Hp|]. unfold now. simpl. lia.
    + intros c' [= <-]. simpl. split; [unfold now; simpl; lia|done].
Qed.

Lemma timeline_stop t called w :
  good_clock → timeline t called true w →
  wp (annotateContinuousEnd t) (λ _, timeline t called false) w.
Proof.
  intros Hck Htl. unfold wp. rewrite annotateContinuousEnd_run.
  pose proof (Hck (ticks w)) as Hw. pose proof (tl_going _ _ _ _ Htl) as Hg.
  symmetry in Hg. apply bool_decide_eq_true in Hg as [c Hcc].
  destruct (timeline_end t called w c Hck Htl Hcc) as (Ho & Ht & Hp).
  split; simpl; rewrite ?lookup_delete_eq, ?of_tag_snoc; simpl; rewrite ?decide_True by done;
    rewrite ?Hcc; simpl; try done.
  - by rewrite Ht, app_nil_r.
  - eapply Forall_impl; [exact Hp|]. unfold now. simpl. lia.
Qed.

Lemma do_api_timeline t op ops called going w :
  good_clock → timeline t called going w → user_ok t going (op :: ops) →
  ∃ going', user_ok t going' ops ∧
    wp (do_api op) (λ _, timeline t (called ++ calls t [op]) going') w.
Proof.
  intros Hck Htl Hok. destruct op; simpl in Hok; try done; simpl; rewrite ?app_nil_r.
  - exists going. split; [apply Hok|]. apply (timeline_frame t called going w); [done..| |done|by right].
    simpl. rewrite of_tag_snoc, decide_False by apply Hok. apply app_nil_r.
  - exists going. split; [apply Hok|]. apply (timeline_frame t called going w); [done..| |done|by right].
    simpl. rewrite of_tag_snoc, decide_False by apply Hok. apply app_nil_r.
  - destruct (decide (tag = t)) as [->|Hne].
    { exists true. split; [done|]. by apply timeline_color with going. }
    exists going. split; [done|]. rewrite app_nil_r. unfold wp.
    rewrite annotateContinuousColor_run.
    destruct (continuous (an w) !! tag); apply (timeline_frame t called going w); try done;
      simpl; rewrite ?lookup_insert_ne by done; try done; try by right.
    rewrite of_tag_snoc. simpl. by rewrite decide_False, app_nil_r.
  - destruct (decide (tag = t)) as [->|Hne].
    { destruct Hok as [-> Hok]. exists false. split; [done|]. by apply timeline_stop. }
    exists going. split; [done|]. unfold wp. rewrite annotateContinuousEnd_run.
    apply (timeline_frame t called going w); try done; simpl; rewrite ?lookup_delete_ne by done;
      try done; try by right.
    rewrite of_tag_snoc. simpl. by rewrite decide_False, app_nil_r.
  - exists going. split; [done|]. apply (timeline_frame t called going w); try done. by left.
Qed.

Lemma calls_cons t op ops : calls t (op :: ops) = calls t [op] ++ calls t ops.
Proof. destruct op; simpl; rewrite ?app_nil_r; done. Qed.

Lemma run_timeline t ops : ∀ called going w,
  good_clock → timeline t called going w → user_ok t going ops →
  wp (mfor ops do_api) (λ _ w', ∃ going', timeline t (called ++ calls t ops) going' w') w.
Proof.
  induction ops as [|op ops IH]; intros called going w Hck Htl Hok.
  - apply wp_mret. exists going. by rewrite app_nil_r.
  - destruct (do_api_timeline t op ops called going w Hck Htl Hok) as (g & Hok' & Hwp).
    cbn [mfor]. apply wp_bind. eapply wp_mono; [exact Hwp|]. intros [] w1 H1.
    eapply wp_mono; [apply (IH (called ++ calls t [op]) g); done|]. intros [] w2 (g' & H2). exists g'.
    by rewrite calls_cons, app_assoc.
Qed.

(** The annotations that [finalize] makes of the ongoing ones. *)
Lemma of_tag_ongoing t u (m : gmap string Continuous) :
  of_tag t ((λ '(tag, cont), concretize tag cont u) <$> map_to_list m) =
  option_list ((λ c, concretize t c u) <$> m !! t).
Proof.
  assert (∀ l : list (string * Continuous), t ∉ l.*1 →
    of_tag t ((λ '(tag, cont), concretize tag cont u) <$> l) = []) as Hother.
  { induction l as [|[tag c] l IH]; intros Hl; [done|]. unfold of_tag. rewrite fmap_cons.
    rewrite filter_cons_False; [apply IH|]; simpl in *; set_solver. }
  destruct (m !! t) as [c|] eqn:Hc; simpl.
  - apply Permutation_singleton_r. rewrite <-(insert_delete_id m t c Hc).
    rewrite map_to_list_insert by apply lookup_delete_eq. unfold of_tag.
    rewrite fmap_cons, filter_cons_True by done. apply Permutation_skip.
    fold (of_tag t ((λ '(tag, cont), concretize tag cont u) <$> map_to_list (delete t m))).
    rewrite Hother; [done|]. rewrite list_elem_of_fmap. intros ([tag c'] & -> & Hin).
    apply elem_of_map_to_list in Hin. simpl in Hin. by rewrite lookup_delete_eq in Hin.
  - apply Hother. rewrite list_elem_of_fmap. intros ([tag c'] & -> & Hin).
    apply elem_of_map_to_list in Hin. simpl in *. congruence.
Qed.

(** What users asked to be shown under a tag by continuous annotations is in
    the finalized annotations exactly, each once and in order, as intervals that
    do not overlap; none ends more than the 1000ns gap before it starts. *)
Lemma continuous_timeline (t : string) (ops : list api) (w0 : world) :
  good_clock → an w0 = mkAnnotation → user_ok t false ops →
  wp (_ ← mfor ops do_api; finalize)
    (λ out _, text_of <$> of_tag t out = calls t ops ∧ in_order (of_tag t out)) w0.
Proof.
  intros Hck Han Hok. apply wp_bind. eapply wp_mono; [apply (run_timeline t ops [] false)|].
  - done.
  - split; rewrite ?Han; simpl; try done. by repeat constructor.
  - done.
  - intros [] w [going Htl]. unfold wp. rewrite finalize_run. cbn beta iota.
    rewrite of_tag_app, of_tag_ongoing. destruct (continuous (an w) !! t) as [c|] eqn:Hcc; simpl.
    + assert (going = true) as -> by (rewrite (tl_going _ _ _ _ Htl), Hcc; done).
      by destruct (timeline_end t (calls t ops) w c Hck Htl Hcc) as (? & ? & _).
    + destruct Htl as [Ht _ Ho _ _]. rewrite Hcc in Ht. simpl in Ht. rewrite app_nil_r in *.
      done.
Qed.

(** ** The checkers' annotations *)

(** A checker's end does not forget the begin, in spite of its last
    statement: when a second checker ends without a begin, its annotation is the
    interval since the first checker began, with the first one's text, instead
    of a point in time. *)
Lemma AnnotateCheckerEnd_stale (fi : FrameworkInfo) (b d1 e1 c1 d2 e2 c2 : string) (w : world) :
  finfo w = Some fi → now w ≠ 0%Z →
  wp (_ ← AnnotateCheckerBegin b; _ ← AnnotateCheckerEnd d1 e1 c1; AnnotateCheckerEnd d2 e2 c2)
    (λ _ w', annotations (an w') = annotations (an w) ++
       [mkPA TAG_CHECKER (now w) (clock (1 + ticks w)) d1 (b +:+ ": " +:+ e1) c1;
        mkPA TAG_CHECKER (now w) (clock (2 + ticks w)) d2 (b +:+ ": " +:+ e2) c2]) w.
Proof.
  intros Hfi Hnow. unfold AnnotateCheckerBegin, AnnotateCheckerEnd.
  do 2 apply wp_bind. eapply get_finfo_run; [done|].
  apply wp_bind. unfold wp at 1. cbn [timestamp]. apply wp_modify.
  do 2 apply wp_bind. eapply get_finfo_run; [done|]. cbn [ck_ts ck_details].
  rewrite decide_False by done. unfold wp at 1. rewrite annotateIntervalColor_run.
  apply wp_bind. eapply get_finfo_run; [done|]. cbn [ck_ts ck_details].
  rewrite decide_False by done. unfold wp. rewrite annotateIntervalColor_run.
  simpl. by rewrite <-app_assoc.
Qed.
End annotation.

(** ** Witnesses *)

Definition sample_clock (i : nat) : Z := Z.min (5000 * Z.of_nat i + 1) 1000000.
Definition sample_world : world := mkWorld mkAnnotation None 0.

Lemma sample_clock_good : good_clock sample_clock.
Proof. intros i. unfold sample_clock. lia. Qed.

Definition sample_faults : list api :=
  [AConnection [true; false; true]; ACheckerBegin "checking"; AShutdown [2];
   ACheckerEnd "ok" "OK" COLOR_SUCCESS; AContinuous "user" "a" "b" COLOR_USER].

Lemma faults_shown_witness :
  wp (annotated_test sample_clock "T" 3 sample_faults) (λ _ w,
    (λ c, (desp c, details c, bgcolor c)) <$> continuous (an w) !! TAG_PARTITION =
    Some ("partition = [1] [0] / crash = [2]", "partition = [1] [0] / crash = [2]", COLOR_FAULT))
    sample_world.
Proof.
  assert (Forall (fault_safe 3) sample_faults) as Hok
    by (repeat constructor; done).
  eapply wp_mono; [apply (faults_shown sample_clock "T" 3 sample_faults sample_world Hok)|].
  intros [] w [_ H]. rewrite H. by vm_compute.
Defined.

Definition sample_calls : list api :=
  [AContinuous "user" "a" "1" COLOR_USER; APoint "other" "x" "y" COLOR_USER;
   AContinuous "user" "b" "2" COLOR_USER; AContinuousEnd "user";
   AContinuous "user" "c" "3" COLOR_USER].

Lemma continuous_timeline_witness :
  wp (_ ← mfor sample_calls (do_api sample_clock); finalize sample_clock)
    (λ out _, text_of <$> of_tag "user" out =
      [("a", "1", COLOR_USER); ("b", "2", COLOR_USER); ("c", "3", COLOR_USER)] ∧
      in_order (of_tag "user" out)) sample_world.
Proof.
  apply (continuous_timeline sample_clock "user" sample_calls sample_world).
  - apply sample_clock_good.
  - done.
  - cbn. done.
Defined.

Lemma AnnotateCheckerEnd_stale_witness :
  wp (_ ← AnnotateCheckerBegin sample_clock "checking Get";
      _ ← AnnotateCheckerEnd sample_clock "ok" "OK" COLOR_SUCCESS;
      AnnotateCheckerEnd sample_clock "apply error" "e" COLOR_FAILURE)
    (λ _ w', annotations (an w') =
       [mkPA TAG_CHECKER 1 5001 "ok" "checking Get: OK" COLOR_SUCCESS;
        mkPA TAG_CHECKER 1 10001 "apply error" "checking Get: e" COLOR_FAILURE])
    (mkWorld mkAnnotation (Some (mkFrameworkInfo 3)) 0).
Proof.
  apply (AnnotateCheckerEnd_stale sample_clock (mkFrameworkInfo 3)); [done|].
  by vm_compute.
Defined.
