(* ===== verification/Rsm.v ===== *)
(** * The tester of the replicated state machine:
    [kvraft1/rsm/server.go], [kvraft1/rsm/test.go]

    A counter that the tests replicate, and the test that looks for the server
    that commits a request.  The replication itself, [RSM], is the students'
    code; its effect on the servers, and what happens during a sleep, are the
    class [Rsm]. *)

From S2P Require Export KvModel.
#[local] Set Default Proof Using "Type".
Local Open Scope nat_scope.

(** ** [server.go] *)

Inductive req := Inc | Null | Dec.
Inductive rep := IncRep (N : Z) | NullRep.

(** [rsm] is nil once the server was killed; the number names the instance. *)
Record rsmSrv := mkSrv { me : nat; rsm : option nat; counter : Z }.

(** The reply reads the counter after the lock was released; the one caller of
    [DoOp], which applies the log, is also the only writer. *)
Definition DoOp (r : req) (rs : rsmSrv) : outcome (rep * rsmSrv) :=
  match r with
  | Inc =>
      let n := wrap_i64 (counter rs + 1) in
      Ret (IncRep n, mkSrv (me rs) (rsm rs) n)
  | Null => Ret (NullRep, rs)
  | Dec => Fatal "DoOp should execute only Inc"
  end.

Definition Kill (rs : rsmSrv) : rsmSrv := mkSrv (me rs) None (counter rs).

Section snapshot.
(** [labgob] on an [int]. *)
Context (encode : Z → list Z) (decode : list Z → option Z).

Definition Snapshot (rs : rsmSrv) : list Z := encode (counter rs).

Definition Restore (data : list Z) (rs : rsmSrv) : outcome rsmSrv :=
  match decode data with
  | Some n => Ret (mkSrv (me rs) (rsm rs) n)
  | None => Fatal "couldn't decode counter"
  end.
End snapshot.

(** ** [test.go]

    [W] is the rest of the world: the replicas, the network, the clock. *)
Class Rsm (W : Type) := {
  rsm_MakeRSM : nat → Z → W → nat * W;
  (* [None]: the call waits for ever for the request to be committed *)
  rsm_Submit : nat → req → list rsmSrv * W →
    option ((Err * option rep) * (list rsmSrv * W));
  rsm_connected : W → list bool;               (* ServerGrp.connected *)
  rsm_clock : W → Z;                           (* nanoseconds *)
  rsm_sleep : Z → list rsmSrv * W → list rsmSrv * W
}.

Definition NSRV : nat := 3.
Definition NSEC : Z := 10.
Definition Millisecond : Z := 1000000.
Definition Second : Z := 1000 * Millisecond.

Record Test {W : Type} := mkTest {
  maxraftstate : Z; srvs : list rsmSrv; leader : nat; t_w : W }.
Arguments Test : clear implicits.
Arguments mkTest {W}.

(** A nil partition is every server. *)
Definition inPartition (s : nat) (p : option (list nat)) : bool :=
  match p with
  | None => true
  | Some p => existsb (λ i, bool_decide (s = i)) p
  end.

Section test.
Context {W : Type} `{R : !Rsm W}.
Abbreviation T := (M (Test W)).

Definition env (ts : Test W) : list rsmSrv * W := (srvs ts, t_w ts).
Definition set_env (x : list rsmSrv * W) (ts : Test W) : Test W :=
  mkTest (maxraftstate ts) x.1 (leader ts) x.2.
Definition set_leader (i : nat) (ts : Test W) : Test W :=
  mkTest (maxraftstate ts) (srvs ts) i (t_w ts).

Definition sleep (d : Z) : T unit := modify (λ ts, set_env (rsm_sleep d (env ts)) ts).
Definition submit (r : nat) (q : req) : T (Err * option rep) :=
  λ ts, match rsm_Submit r q (env ts) with
        | Some (res, x) => Ret (res, set_env x ts)
        | None => Diverge
        end.

(** The result is the service started beside the server: its raft instance. *)
Definition mksrv (srv : nat) : T nat :=
  ts ← gets id;
  let '(r, w) := rsm_MakeRSM srv (maxraftstate ts) (t_w ts) in
  _ ← lift (index (srvs ts) srv);
  _ ← modify (λ ts, mkTest (maxraftstate ts) (<[srv := mkSrv srv (Some r) 0]> (srvs ts))
                           (leader ts) w);
  mret r.

(** One turn of the inner loop of [onePartition]. *)
Definition try_server (p : option (list nat)) (q : req) (i : nat) : T (option (option rep)) :=
  ts ← gets id;
  c ← lift (index (rsm_connected (t_w ts)) i);
  if (c : bool) then
    s ← lift (index (srvs ts) i);
    match rsm s with
    | Some r =>
        if inPartition i p then
          '(err, rep) ← submit r q;
          if decide (err = OK) then _ ← modify (set_leader i); mret (Some rep)
          else mret None
        else mret None
    | None => mret None
    end
  else mret None.

Fixpoint try_servers (n : nat) (p : option (list nat)) (q : req) (i : nat)
    : T (option (option rep)) :=
  match n with
  | O => mret None
  | S n =>
      r ← try_server p q i;
      match r with
      | Some rep => mret (Some rep)
      | None => len ← gets (λ ts, length (srvs ts)); try_servers n p q ((i + 1) mod len)
      end
  end.

Fixpoint partition_loop (fuel : nat) (t0 : Z) (p : option (list nat)) (q : req)
    : T (option rep) :=
  match fuel with
  | O => lift Diverge
  | S fuel =>
      now ← gets (λ ts, rsm_clock (t_w ts));
      if (now - t0 <? NSEC * Second)%Z then
        i ← gets leader;
        len ← gets (λ ts, length (srvs ts));
        r ← try_servers len p q i;
        match r with
        | Some rep => mret rep
        | None => _ ← sleep (50 * Millisecond); partition_loop fuel t0 p q
        end
      else mret None
  end.

(** Every turn sleeps for 50ms, so that ten seconds are over after 200. *)
Definition partition_fuel : nat := 201.

Definition onePartition (p : option (list nat)) (q : req) : T (option rep) :=
  t0 ← gets (λ ts, rsm_clock (t_w ts));
  partition_loop partition_fuel t0 p q.

(** [rep.( *IncRep)] panics on another type. *)
Definition oneInc : T (option Z) :=
  r ← onePartition None Inc;
  match r with
  | None => mret None
  | Some (IncRep n) => mret (Some n)
  | Some NullRep => lift (Panic "interface conversion")
  end.

Definition oneNull : T (option unit) :=
  r ← onePartition None Null;
  match r with
  | None => mret None
  | Some NullRep => mret (Some tt)
  | Some (IncRep _) => lift (Panic "interface conversion")
  end.

Definition countValue (v : Z) (l : list rsmSrv) : nat :=
  count_if (λ s, bool_decide (counter s = v)) l.

Fixpoint checkCounter_loop (iters : nat) (to v : Z) (nsrv : nat) : T unit :=
  match iters with
  | O => lift (Fatal "checkCounter")
  | S iters =>
      n ← gets (λ ts, countValue v (srvs ts));
      if decide (nsrv ≤ n) then mret tt
      else
        _ ← sleep to;
        checkCounter_loop iters (if (to <? Second)%Z then to * 2 else to)%Z v nsrv
  end.

Definition checkCounter (v : Z) (nsrv : nat) : T unit :=
  checkCounter_loop 30 (10 * Millisecond) v nsrv.
End test.

(** The services of a group; [isLeader] is what [GetState] of a raft says. *)
Inductive service := S_raft (r : nat) | S_other.

Fixpoint Leader_from (isLeader : nat → bool) (i : nat) (groups : list (list service))
    : bool * nat :=
  match groups with
  | [] => (false, 0)
  | ss :: groups =>
      if existsb (λ s, match s with S_raft r => isLeader r | S_other => false end) ss
      then (true, i) else Leader_from isLeader (S i) groups
  end.

Definition Leader (isLeader : nat → bool) (groups : list (list service)) : bool * nat :=
  Leader_from isLeader 0 groups.

(** ** Finding the server that commits

    The triple of a computation that may also wait for ever, if [D] holds. *)
Definition wpd {S A} (D : Prop) (m : M S A) (Q : A → S → Prop) (s : S) : Prop :=
  match m s with Ret (a, s') => Q a s' | Diverge => D | _ => False end.

Lemma wp_wpd {S A} D (m : M S A) Q s : wp m Q s → wpd D m Q s.
Proof. unfold wp, wpd. by destruct (m s) as [[? ?]|?|?|]. Qed.
Lemma wpd_mono {S A} D (m : M S A) (P Q : A → S → Prop) s :
  wpd D m P s → (∀ a s', P a s' → Q a s') → wpd D m Q s.
Proof. unfold wpd. destruct (m s) as [[? ?]|?|?|]; auto. Qed.
Lemma wpd_bind {S A B} D (m : M S A) (f : A → M S B) Q s :
  wpd D m (λ a, wpd D (f a) Q) s → wpd D (m ≫= f) Q s.
Proof. unfold wpd, mbind, M_bind. by destruct (m s) as [[? ?]|?|?|]. Qed.
Lemma wpd_step {S A B} D (m : M S A) (f : A → M S B) Q s :
  wp m (λ a, wpd D (f a) Q) s → wpd D (m ≫= f) Q s.
Proof. intros H. by apply wpd_bind, wp_wpd. Qed.

Lemma wpd_impl {S A} (D E : Prop) (m : M S A) Q s : (D → E) → wpd D m Q s → wpd E m Q s.
Proof. unfold wpd. destruct (m s) as [[? ?]|?|?|]; auto. Qed.

Section partition.
Context {W : Type} `{R : !Rsm W}.

(** What the environment does while a request is tried: [I] holds of the servers
    and the world until the request is accepted, [N] servers stay [N], and the
    clock follows the sleeps. *)
Record env_ok (N : nat) (q : req) (I : list rsmSrv * W → Prop) : Prop := {
  eo_len : ∀ x, I x → length x.1 = N ∧ length (rsm_connected x.2) = N;
  eo_sleep : ∀ d x, (0 ≤ d)%Z → I x →
    I (rsm_sleep d x) ∧ (rsm_clock x.2 + d ≤ rsm_clock (rsm_sleep d x).2)%Z;
  eo_fail : ∀ r x err rep x', I x → rsm_Submit r q x = Some ((err, rep), x') → err ≠ OK →
    I x' ∧ (rsm_clock x.2 ≤ rsm_clock x'.2)%Z
}.

(** Server [i] is up, connected and in the partition. *)
Definition tried (p : option (list nat)) (i : nat) (x : list rsmSrv * W) (r : nat) : Prop :=
  rsm_connected x.2 !! i = Some true ∧ inPartition i p = true ∧
  ∃ s, x.1 !! i = Some s ∧ rsm s = Some r.

(** Server [i] accepts the request whenever it gets it. *)
Definition accepts (q : req) (I : list rsmSrv * W → Prop) (p : option (list nat)) (i : nat)
    : Prop :=
  ∀ x, I x → ∃ r rep x', tried p i x r ∧ rsm_Submit r q x = Some ((OK, rep), x').

(** The test waits for the answer of a server that has the request and never
    answers. *)
Definition waits (q : req) (I : list rsmSrv * W → Prop) (p : option (list nat)) : Prop :=
  ∃ x i r, I x ∧ tried p i x r ∧ rsm_Submit r q x = None.

(** The request was accepted by one server, whose answer is the result; nothing
    was accepted before and nothing happened since. *)
Definition committed (q : req) (I : list rsmSrv * W → Prop) (p : option (list nat))
    (rep : option rep) (ts' : Test W) : Prop :=
  ∃ x r, I x ∧ tried p (leader ts') x r ∧ rsm_Submit r q x = Some ((OK, rep), env ts').

Context (N : nat) (q : req) (I : list rsmSrv * W → Prop) (p : option (list nat)).
Hypothesis Henv : env_ok N q I.

(** After a server was tried in vain. *)
Definition still (ts ts' : Test W) : Prop :=
  I (env ts') ∧ (rsm_clock (t_w ts) ≤ rsm_clock (t_w ts'))%Z ∧ leader ts' = leader ts.

Lemma try_server_wp i ts :
  i < N → I (env ts) →
  wpd (waits q I p) (try_server p q i) (λ r ts',
    match r with
    | Some rep => committed q I p rep ts' ∧ leader ts' = i
    | None => still ts ts' ∧ ¬ accepts q I p i
    end) ts.
Proof using Henv.
  intros Hi HI. destruct (eo_len _ _ _ Henv _ HI) as [Hl1 Hl2]. cbn [env fst snd] in *.
  assert (∃ c, rsm_connected (t_w ts) !! i = Some c) as [c Hc]
    by (apply lookup_lt_is_Some; lia).
  assert (∃ s, srvs ts !! i = Some s) as [s Hs] by (apply lookup_lt_is_Some; lia).
  unfold try_server. apply wpd_step, wp_gets, wpd_step. eapply wp_index; [exact Hc|].
  assert (∀ P : Prop, (∀ r, tried p i (env ts) r → P) → (P → False) →
    still ts ts ∧ ¬ accepts q I p i) as Hskip.
  { intros P HP HnP. split; [done|]. intros Hacc. destruct (Hacc _ HI) as (r & _ & _ & Ht & _).
    by apply HnP, (HP r). }
  destruct c.
  2:{ apply wp_wpd, wp_mret, (Hskip False); [|done]. intros r [H _]. simpl in H. congruence. }
  apply wpd_step. eapply wp_index; [exact Hs|].
  destruct (rsm s) as [r|] eqn:Hr.
  2:{ apply wp_wpd, wp_mret, (Hskip False); [|done]. intros r (_ & _ & s' & H & Hr').
      simpl in H. congruence. }
  destruct (inPartition i p) eqn:Hp.
  2:{ apply wp_wpd, wp_mret, (Hskip False); [|done]. intros r' (_ & H & _). congruence. }
  assert (∀ r', tried p i (env ts) r' ↔ r' = r) as Htried.
  { intros r'. split; [|intros ->; by repeat (split || exists s)].
    intros (_ & _ & s' & H & Hr'). simpl in H. congruence. }
  apply wpd_bind. unfold wpd at 1, submit.
  destruct (rsm_Submit r q (env ts)) as [[[err rep] x']|] eqn:Hsub.
  2:{ exists (env ts), i, r. split; [done|]. split; [by apply Htried|done]. }
  destruct (decide (err = OK)) as [->|Herr].
  - apply wp_wpd, wp_bind, wp_modify, wp_mret. split; [|done].
    exists (env ts), r. split; [done|]. split; [by apply Htried|].
    rewrite Hsub. by destruct x'.
  - destruct (eo_fail _ _ _ Henv _ _ _ _ _ HI Hsub Herr) as [HI' Hclk].
    apply wp_wpd, wp_mret. split.
    + destruct x'. done.
    + intros Hacc. destruct (Hacc _ HI) as (r' & rep' & x2 & ->%Htried & Hok).
      rewrite Hsub in Hok. by injection Hok as ->.
Qed.

Lemma try_servers_wp n : ∀ i ts,
  i < N → I (env ts) →
  wpd (waits q I p) (try_servers n p q i) (λ r ts',
    match r with
    | Some rep => committed q I p rep ts' ∧ leader ts' < N
    | None => still ts ts' ∧ ∀ k, k < n → ¬ accepts q I p ((i + k) mod N)
    end) ts.
Proof using Henv.
  induction n as [|n IH]; intros i ts Hi HI; cbn [try_servers].
  { apply wp_wpd, wp_mret. split; [done|]. lia. }
  apply wpd_bind. eapply wpd_mono; [by apply try_server_wp|].
  intros [rep|] ts1.
  { intros [Hc <-]. by apply wp_wpd, wp_mret. }
  intros [(HI1 & Hclk1 & Hld1) Hno].
  apply wpd_step, wp_gets. destruct (eo_len _ _ _ Henv _ HI1) as [Hl _].
  cbn [env fst] in Hl. rewrite Hl.
  eapply wpd_mono; [apply (IH ((i + 1) mod N)); [apply Nat.mod_upper_bound; lia|done]|].
  intros [rep|] ts2; [done|]. intros [(HI2 & Hclk2 & Hld2) Hall]. split.
  - split; [done|]. split; [lia|congruence].
  - intros [|k] Hk.
    + by rewrite Nat.add_0_r, Nat.mod_small.
    + specialize (Hall k ltac:(lia)). rewrite Nat.Div0.add_mod_idemp_l in Hall.
      by replace (i + S k) with (i + 1 + k) by lia.
Qed.

(** Trying all servers from any of them tries each. *)
Lemma rotate_all i j : i < N → j < N → ∃ k, k < N ∧ (i + k) mod N = j.
Proof using Type.
  intros Hi Hj. destruct (decide (i ≤ j)) as [Hle|Hgt].
  - exists (j - i). split; [lia|]. rewrite Nat.mod_small; lia.
  - exists (N + j - i). split; [lia|]. replace (i + (N + j - i)) with (j + 1 * N) by lia.
    rewrite Nat.Div0.mod_add. by apply Nat.mod_small.
Qed.

Lemma partition_loop_wp t0 fuel : ∀ ts,
  I (env ts) → leader ts < N → 0 < fuel →
  (t0 + NSEC * Second ≤ rsm_clock (t_w ts) + Z.of_nat (fuel - 1) * (50 * Millisecond))%Z →
  wpd (waits q I p) (partition_loop fuel t0 p q) (λ r ts',
    (committed q I p r ts' ∧ leader ts' < N) ∨
    (r = None ∧ I (env ts') ∧ (t0 + NSEC * Second ≤ rsm_clock (t_w ts'))%Z ∧
     ((t0 + NSEC * Second ≤ rsm_clock (t_w ts))%Z ∨ ∀ i, i < N → ¬ accepts q I p i))) ts.
Proof using Henv.
  induction fuel as [|fuel IH]; intros ts HI Hld Hf Htime; [lia|]. cbn [partition_loop].
  apply wpd_step, wp_gets. destruct (Z.ltb_spec (rsm_clock (t_w ts) - t0) (NSEC * Second)) as [Hlt|Hge].
  2:{ apply wp_wpd, wp_mret. right. split; [done|]. split; [done|]. split; [lia|left; lia]. }
  do 2 apply wpd_step, wp_gets. apply wpd_bind.
  destruct (eo_len _ _ _ Henv _ HI) as [Hl _]. cbn [env fst] in Hl. rewrite Hl.
  eapply wpd_mono; [by apply try_servers_wp|]. intros [rep|] ts1.
  { intros Hc. apply wp_wpd, wp_mret. by left. }
  intros [(HI1 & Hclk1 & Hld1) Hno].
  destruct (eo_sleep _ _ _ Henv (50 * Millisecond)%Z _ ltac:(unfold Millisecond; lia) HI1)
    as [HI2 Hclk2]. cbn [env snd] in Hclk2.
  apply wpd_step, wp_modify. fold (env ts1) in *.
  assert (env (set_env (rsm_sleep (50 * Millisecond) (env ts1)) ts1) =
    rsm_sleep (50 * Millisecond) (env ts1)) as He by (by destruct (rsm_sleep _ _)).
  assert (0 < fuel) as Hf' by (destruct fuel; [simpl in Htime; lia|lia]).
  eapply wpd_mono; [apply IH|].
  - by rewrite He.
  - simpl. by rewrite Hld1.
  - done.
  - simpl. replace (S fuel - 1) with (S (fuel - 1)) in Htime by lia.
    unfold Millisecond in *. lia.
  - intros r ts2 [Hc|(-> & HI3 & Ht & _)]; [by left|]. right.
    split; [done|]. split; [done|]. split; [done|]. right. intros i Hi.
    destruct (rotate_all (leader ts) i Hld Hi) as (k & Hk & <-). by apply Hno.
Qed.
End partition.

(** C40: [onePartition] terminates, if the calls of [Submit] that it makes do.
    Either one server that is up, connected and in
    the partition accepted the request, once, its answer is the result and it
    is remembered as the leader; or ten seconds passed without any server having
    accepted the request, which cannot happen if one of the servers accepts
    requests throughout; or, before any server accepted it, the test waits for one
    that is up, connected and in the partition and whose [Submit] does not return,
    as that of a leader without a majority may do. *)
Theorem onePartition_correct `{Rsm W} (N : nat) (q : req) (I : list rsmSrv * W → Prop)
    (p : option (list nat)) (ts : Test W) :
  env_ok N q I → I (env ts) → leader ts < N →
  wpd (waits q I p) (onePartition p q) (λ r ts',
    (committed q I p r ts' ∧ leader ts' < N) ∨
    (r = None ∧ I (env ts') ∧
     (rsm_clock (t_w ts) + NSEC * Second ≤ rsm_clock (t_w ts'))%Z ∧
     ∀ i, i < N → ¬ accepts q I p i)) ts.
Proof.
  intros Henv HI Hld. unfold onePartition. apply wpd_step, wp_gets.
  eapply wpd_mono; [apply (partition_loop_wp N q I p Henv); [done..| |]|].
  - unfold partition_fuel. lia.
  - unfold partition_fuel, NSEC, Second, Millisecond. simpl. lia.
  - intros r ts' [Hc|(-> & HI' & Ht & [Hnow|Hno])]; [by left| |by right].
    unfold NSEC, Second, Millisecond in Hnow. lia.
Qed.

(** ** Waiting for the counters *)

Section counter.
Context {W : Type} `{R : !Rsm W}.

(** The servers and the world at the [k]-th poll that begins with a sleep of [to]. *)
Fixpoint polled (k : nat) (to : Z) (x : list rsmSrv * W) : list rsmSrv * W :=
  match k with
  | O => x
  | S k => polled k (if (to <? Second)%Z then to * 2 else to)%Z (rsm_sleep to x)
  end.

Lemma checkCounter_loop_iff (v : Z) (nsrv iters : nat) : ∀ to ts,
  (∃ ts', checkCounter_loop iters to v nsrv ts = Ret (tt, ts')) ↔
  ∃ k, k < iters ∧ nsrv ≤ countValue v (polled k to (env ts)).1.
Proof.
  induction iters as [|iters IH]; intros to ts; cbn [checkCounter_loop].
  { split; [by intros [ts' ?]|]. intros (k & ? & _). lia. }
  unfold mbind, M_bind, gets. change (srvs ts) with (env ts).1.
  destruct (decide (nsrv ≤ countValue v (env ts).1)) as [Hle|Hgt].
  - split; [|by exists ts]. intros _. exists 0. split; [lia|done].
  - unfold sleep, modify. rewrite IH.
    assert (env (set_env (rsm_sleep to (env ts)) ts) = rsm_sleep to (env ts)) as ->
      by (by destruct (rsm_sleep to (env ts))).
    split.
    + intros (k & Hk & Hc). exists (S k). split; [lia|done].
    + intros ([|k] & Hk & Hc); [done|]. exists k. split; [lia|done].
Qed.

(** [checkCounter] passes exactly if enough servers have the value at one of 30
    polls. *)
Lemma checkCounter_iff (v : Z) (nsrv : nat) (ts : Test W) :
  (∃ ts', checkCounter v nsrv ts = Ret (tt, ts')) ↔
  ∃ k, k < 30 ∧ nsrv ≤ countValue v (polled k (10 * Millisecond) (env ts)).1.
Proof. apply checkCounter_loop_iff. Qed.
End counter.

(** ** A replica restored from a snapshot *)

(** Applying a log; a request that is refused ends the process. *)
Fixpoint apply_log (l : list req) (rs : rsmSrv) : outcome (list rep * rsmSrv) :=
  match l with
  | [] => Ret ([], rs)
  | q :: l => '(r, rs) ← DoOp q rs; '(rs_, rs) ← apply_log l rs; Ret (r :: rs_, rs)
  end.

Lemma apply_log_counter (l : list req) : ∀ rs1 rs2,
  counter rs1 = counter rs2 →
  match apply_log l rs1, apply_log l rs2 with
  | Ret (out1, rs1'), Ret (out2, rs2') => out1 = out2 ∧ counter rs1' = counter rs2'
  | Fatal e1, Fatal e2 => e1 = e2
  | _, _ => False
  end.
Proof.
  induction l as [|q l IH]; intros rs1 rs2 Hc; [done|]. cbn [apply_log].
  destruct q; cbn; [rewrite Hc| |done].
  - specialize (IH (mkSrv (me rs1) (rsm rs1) (wrap_i64 (counter rs2 + 1)))
                   (mkSrv (me rs2) (rsm rs2) (wrap_i64 (counter rs2 + 1))) eq_refl).
    destruct (apply_log l _) as [[o1 s1]|?|?|], (apply_log l _) as [[o2 s2]|?|?|]; try done.
    destruct IH as [-> ?]. done.
  - specialize (IH rs1 rs2 Hc).
    destruct (apply_log l rs1) as [[o1 s1]|?|?|], (apply_log l rs2) as [[o2 s2]|?|?|]; try done.
    destruct IH as [-> ?]. done.
Qed.

(** A server restored from another's snapshot answers the rest of the log as the
    other does. *)
Lemma restored_agrees (encode : Z → list Z) (decode : list Z → option Z) rs rs' l :
  (∀ n, decode (encode n) = Some n) →
  ∃ rs2, Restore decode (Snapshot encode rs) rs' = Ret rs2 ∧
    match apply_log l rs, apply_log l rs2 with
    | Ret (out1, rs1'), Ret (out2, rs2') => out1 = out2 ∧ counter rs1' = counter rs2'
    | Fatal e1, Fatal e2 => e1 = e2
    | _, _ => False
    end.
Proof.
  intros Hcodec. unfold Restore, Snapshot. rewrite Hcodec. eexists. split; [done|].
  by apply apply_log_counter.
Qed.

(** ** A concrete group of three servers of which the second leads *)

Record demo_world := mkDemo { d_time : Z; d_connected : list bool }.

Definition demo_apply (q : req) (s : rsmSrv) : rsmSrv :=
  match DoOp q s with Ret (_, s) => s | _ => s end.

#[local] Instance demo_rsm : Rsm demo_world := {|
  rsm_MakeRSM i _ w := (i, w);
  rsm_Submit r q x :=
    Some (if decide (r = 1) then
      ((OK, match x.1 !! 1 with
            | Some s => match DoOp q s with Ret (rep, _) => Some rep | _ => None end
            | None => None end),
       (demo_apply q <$> x.1, mkDemo (d_time x.2 + 1000) (d_connected x.2)))
    else ((ErrWrongLeader, None), (x.1, mkDemo (d_time x.2 + 1000) (d_connected x.2))));
  rsm_connected := d_connected;
  rsm_clock := d_time;
  rsm_sleep d x := (x.1, mkDemo (d_time x.2 + d) (d_connected x.2))
|}.

Definition demo_srvs : list rsmSrv := (λ i, mkSrv i (Some i) 41) <$> seq 0 3.
Definition demo_inv (x : list rsmSrv * demo_world) : Prop :=
  x.1 = demo_srvs ∧ d_connected x.2 = [true; true; true].
Definition demo_test : Test demo_world :=
  mkTest (-1) demo_srvs 0 (mkDemo 5 [true; true; true]).

Lemma demo_env_ok : env_ok 3 Inc demo_inv.
Proof.
  split.
  - intros x [-> H]. simpl. by rewrite H.
  - intros d x Hd [H1 H2]. split; [done|]. simpl. lia.
  - intros r x err rep x' [H1 H2] Hsub Herr. simpl in Hsub.
    destruct (decide (r = 1)); [congruence|]. injection Hsub as <- <- <-.
    split; [done|]. simpl. lia.
Qed.

Lemma onePartition_correct_witness :
  wpd False (onePartition None Inc) (λ r ts',
    committed Inc demo_inv None r ts' ∧ leader ts' < 3) demo_test.
Proof.
  eapply (wpd_impl (waits Inc demo_inv None)); [by intros (x & i & r & _ & _ & ?)|].
  eapply wpd_mono; [apply (onePartition_correct 3 Inc demo_inv None demo_test)|].
  - apply demo_env_ok.
  - done.
  - simpl. lia.
  - intros r ts' [Hc|(_ & _ & _ & Hno)]; [done|]. exfalso. apply (Hno 1); [lia|].
    intros [l w] [Hl Hw]. simpl in Hl, Hw. subst l. exists 1. do 2 eexists. split; [|reflexivity].
    unfold tried. simpl. rewrite Hw. split; [done|]. split; [done|]. by exists (mkSrv 1 (Some 1) 41).
Defined.

Example demo_counts :
  match (_ ← onePartition None Inc; r ← oneInc; _ ← checkCounter 43 3; mret r) demo_test with
  | Ret (r, ts) => r = Some 43%Z ∧ leader ts = 1
  | _ => False
  end.
Proof. by vm_compute. Qed.
