(* ===== verification/Clients.v ===== *)
(** * The clients of the key/value tests as programs that interleave:
    [kvtest1/kvtest.go], [kvtest1/porcupine.go]

    KvTest.v runs a client from its first call to its last.  Here the same
    clients are trees of the calls they make, of the tests of the [done] channel
    and of random draws, so that Concurrent.v can interleave them; run alone,
    they are the clients of KvTest.v. *)

From S2P Require Export KvTest.
#[local] Set Default Proof Using "Type".
Local Open Scope Z_scope.

(** ** Programs

    A call of a clerk through [Get] or [Put] of the tester, with the client
    identifier that is logged. *)
Inductive request :=
| R_get (key : string)
| R_put (key value : string) (ver : Tversion).

Definition inp_of (r : request) : KvInput :=
  match r with
  | R_get key => mkIn 0 key "" 0
  | R_put key value ver => mkIn 1 key value ver
  end.
Definition req_key (r : request) : string :=
  match r with R_get key => key | R_put key _ _ => key end.

(** [P_diverge] is where the fuel of a loop ends. *)
Inductive prog (A : Type) : Type :=
| P_ret (a : A)
| P_call (r : request) (cli : Z) (k : KvOutput → prog A)
| P_poll (k : bool → prog A)
| P_rand (k : Z → prog A)
| P_fail (why : string)
| P_panic (why : string)
| P_diverge.
Arguments P_ret {A} a.
Arguments P_call {A} r cli k.
Arguments P_poll {A} k.
Arguments P_rand {A} k.
Arguments P_fail {A} why.
Arguments P_panic {A} why.
Arguments P_diverge {A}.

Fixpoint pbind {A B} (f : A → prog B) (p : prog A) : prog B :=
  match p with
  | P_ret a => f a
  | P_call r cli k => P_call r cli (λ o, pbind f (k o))
  | P_poll k => P_poll (λ b, pbind f (k b))
  | P_rand k => P_rand (λ z, pbind f (k z))
  | P_fail why => P_fail why
  | P_panic why => P_panic why
  | P_diverge => P_diverge
  end.
#[export] Instance prog_ret : MRet prog := @P_ret.
#[export] Instance prog_bind : MBind prog := @pbind.

Definition plift {A} (o : outcome A) : prog A :=
  match o with
  | Ret a => P_ret a
  | Fatal why => P_fail why
  | Panic why => P_panic why
  | Diverge => P_diverge
  end.

(** ** The clients *)

Definition pGet (key : string) (cli : Z) : prog (string * Tversion * Err) :=
  P_call (R_get key) cli (λ o, P_ret (out_Value o, out_Version o, out_Err o)).
Definition pPut (key value : string) (ver : Tversion) (cli : Z) : prog Err :=
  P_call (R_put key value ver) cli (λ o, P_ret (out_Err o)).

Definition pGetJson {E} `{Json E} (key : string) (me : Z) (v : E) : prog (Tversion * E) :=
  '(val, ver, err) ← pGet key me;
  if decide (err = OK) then
    match Unmarshal val v with
    | Some v => P_ret (ver, v)
    | None => P_fail "Unmarshal"
    end
  else P_fail "Get".

Definition pPutJson {E} `{Json E} (key : string) (v : E) (ver : Tversion) (me : Z) : prog Err :=
  match Marshal v with
  | Some b => pPut key b ver me
  | None => P_fail "marshal"
  end.

Fixpoint pOnePut `{Json EntryV} (fuel : nat) (me : Z) (key : string) (ver : Tversion)
    : prog (Tversion * bool) :=
  match fuel with
  | O => P_diverge
  | S fuel =>
      err ← pPutJson key (mkEntryV me ver) ver me;
      if decide (¬ (err = OK ∨ err = ErrVersion ∨ err = ErrMaybe)) then P_fail "Wrong error"
      else
        '(ver0, e) ← pGetJson key me (mkEntryV 0 0);
        _ ← (if decide (err = OK ∧ ver0 = ver_incr ver) then
               if decide (ev_Id e ≠ me ∧ ev_V e ≠ ver) then P_fail "Wrong value"
               else P_ret tt
             else P_ret tt);
        if decide (err = OK ∨ err = ErrMaybe) then P_ret (ver0, bool_decide (err = OK))
        else pOnePut fuel me key ver0
  end.

(** [k := ka[0]; if ts.randomkeys { k = ka[rand.Int()%len(ka)] }] *)
Definition pPick (randomkeys : bool) (ka : list string) : prog string :=
  if randomkeys then
    P_rand (λ d, plift match ka with
      | [] => Panic "integer divide by zero"
      | _ => index ka (Z.to_nat (Z.rem d (Z.of_nat (length ka))))
      end)
  else plift (index ka 0).

(** [n] bounds the iterations, [fuel] the tries of each. *)
Fixpoint pOneClientPut `{Json EntryV} (n fuel : nat) (randomkeys : bool) (cli : Z)
    (ka : list string) (verm : gmap string Tversion) (res : ClntRes) : prog ClntRes :=
  match n with
  | O => P_diverge
  | S n =>
      P_poll (λ done,
        if (done : bool) then P_ret res
        else
          k ← pPick randomkeys ka;
          '(v, ok) ← pOnePut fuel cli k (default 0 (verm !! k));
          pOneClientPut n fuel randomkeys cli ka (<[k := v]> verm)
            (if (ok : bool) then mkRes (Nok res + 1) (Nmaybe res)
             else mkRes (Nok res) (Nmaybe res + 1)))
  end.

Fixpoint pappend_entry `{Json (list entry)} (fuel : nat) (me i : Z) : prog bool :=
  match fuel with
  | O => P_diverge
  | S fuel =>
      '(ver, es) ← pGetJson "k" me [];
      err ← pPutJson "k" (es ++ [mkEntry me i]) ver me;
      if decide (err = OK) then P_ret true
      else if decide (err = ErrMaybe) then P_ret false
      else pappend_entry fuel me i
  end.

Fixpoint pOneClientAppend `{Json (list entry)} (n fuel : nat) (me i nok nmay : Z)
    : prog ClntRes :=
  match n with
  | O => P_diverge
  | S n =>
      P_poll (λ done,
        if (done : bool) then P_ret (mkRes nok nmay)
        else
          b ← pappend_entry fuel me i;
          if (b : bool) then pOneClientAppend n fuel me (i + 1) (nok + 1) nmay
          else pOneClientAppend n fuel me (i + 1) nok (nmay + 1))
  end.

(** The check of the clients' counts, by a clerk of the test. *)
Definition pCheckPutConcurrent `{Json EntryV} (key : string) (rs : list ClntRes)
    (res : ClntRes) (reliable : bool) : prog ClntRes :=
  '(ver0, _) ← pGetJson key (-1) (mkEntryV 0 0);
  let res := foldl (λ res r, mkRes (Nok res + Nok r) (Nmaybe res + Nmaybe r)) res rs in
  if reliable then
    if decide (ver0 ≠ wrap_u64 (Nok res)) then P_fail "Reliable: Wrong number of puts"
    else P_ret res
  else if decide (wrap_u64 (Nok res + Nmaybe res) < ver0) then
    P_fail "Unreliable: Wrong number of puts"
  else P_ret res.

(** ** A program run alone

    [polls] are the answers of the tests of [done], [rands] the random draws. *)
Section alone.
Context {W : Type} `{CK : IKVClerk W} (clock : nat → Z).
Abbreviation K := (M (@Test W)).

Definition do_request (r : request) (cli : Z) : K KvOutput :=
  match r with
  | R_get key => '(val, ver, err) ← Get clock key cli; mret (mkOut val ver err)
  | R_put key value ver => err ← Put clock key value ver cli; mret (mkOut "" 0 err)
  end.

Fixpoint alone {A} (p : prog A) (polls : list bool) (rands : list Z) : K (A * (list bool * list Z)) :=
  match p with
  | P_ret a => mret (a, (polls, rands))
  | P_call r cli k => o ← do_request r cli; alone (k o) polls rands
  | P_poll k => match polls with [] => lift Diverge | b :: polls => alone (k b) polls rands end
  | P_rand k => match rands with [] => lift Diverge | z :: rands => alone (k z) polls rands end
  | P_fail why => lift (Fatal why)
  | P_panic why => lift (Panic why)
  | P_diverge => lift Diverge
  end.

(** Two computations that agree on every state; [M] has no extensionality. *)
Definition same {A} (m1 m2 : K A) : Prop := ∀ s, m1 s = m2 s.

#[local] Instance same_equiv {A} : Equivalence (@same A).
Proof.
  split; [by intros ??|by intros ????|]. intros m1 m2 m3 H1 H2 s. by rewrite H1, H2.
Qed.

Lemma same_bind {A B} (m1 m2 : K A) (f1 f2 : A → K B) :
  same m1 m2 → (∀ a, same (f1 a) (f2 a)) → same (m1 ≫= f1) (m2 ≫= f2).
Proof.
  intros Hm Hf s. unfold mbind, M_bind. rewrite Hm. destruct (m2 s) as [[a s']|?|?|]; [|done..].
  apply Hf.
Qed.

Lemma same_bind_l {A B} (m1 m2 : K A) (f : A → K B) :
  same m1 m2 → same (m1 ≫= f) (m2 ≫= f).
Proof. intros Hm. by apply same_bind. Qed.

Lemma bind_assoc {A B C} (m : K A) (f : A → K B) (g : B → K C) :
  same ((m ≫= f) ≫= g) (m ≫= λ a, f a ≫= g).
Proof. intros s. unfold mbind, M_bind. by destruct (m s) as [[??]|?|?|]. Qed.

Lemma alone_bind {A B} (f : A → prog B) (p : prog A) : ∀ polls rands,
  same (alone (p ≫= f) polls rands)
       ('(a, (polls, rands)) ← alone p polls rands; alone (f a) polls rands).
Proof.
  induction p as [a|r cli k IH|k IH|k IH|why|why|]; intros polls rands.
  - done.
  - etrans; [|symmetry; apply bind_assoc]. apply same_bind; [done|]. intros o. apply IH.
  - destruct polls as [|b polls]; [done|]. apply IH.
  - destruct rands as [|z rands]; [done|]. apply IH.
  - done.
  - done.
  - done.
Qed.

(** [p] makes no test of [done] and no draw: alone it is [m]. *)
Definition is_alone {A} (p : prog A) (m : K A) : Prop :=
  ∀ polls rands, same (alone p polls rands) (a ← m; mret (a, (polls, rands))).

Lemma is_alone_ret {A} (a : A) : is_alone (P_ret a) (mret a).
Proof. by intros polls rands s. Qed.
Lemma is_alone_fail {A} why : is_alone (A:=A) (P_fail why) (lift (Fatal why)).
Proof. by intros polls rands s. Qed.
Lemma is_alone_diverge {A} : is_alone (A:=A) P_diverge (lift Diverge).
Proof. by intros polls rands s. Qed.
Lemma is_alone_bind {A B} (p : prog A) (m : K A) (f : A → prog B) (g : A → K B) :
  is_alone p m → (∀ a, is_alone (f a) (g a)) → is_alone (p ≫= f) (m ≫= g).
Proof.
  intros Hp Hf polls rands. etrans; [apply alone_bind|].
  etrans; [apply same_bind_l, Hp|].
  etrans; [apply bind_assoc|]. etrans; [|symmetry; apply bind_assoc].
  apply same_bind; [done|]. intros a. apply Hf.
Qed.

Lemma is_alone_get key cli : is_alone (pGet key cli) (Get clock key cli).
Proof.
  intros polls rands s. unfold pGet. cbn [alone do_request]. unfold mbind, M_bind.
  by destruct (Get clock key cli s) as [[[[??]?]?]|?|?|].
Qed.
Lemma is_alone_put key value ver cli :
  is_alone (pPut key value ver cli) (Put clock key value ver cli).
Proof.
  intros polls rands s. unfold pPut. cbn [alone do_request]. unfold mbind, M_bind.
  by destruct (Put clock key value ver cli s) as [[??]|?|?|].
Qed.

Lemma is_alone_get_json {E} `{Json E} key me (v : E) :
  is_alone (pGetJson key me v) (GetJson clock key me v).
Proof.
  apply is_alone_bind; [apply is_alone_get|]. intros [[val ver] err].
  destruct (decide _); [|apply is_alone_fail].
  destruct (Unmarshal val v); [apply is_alone_ret|apply is_alone_fail].
Qed.
Lemma is_alone_put_json {E} `{Json E} key (v : E) ver me :
  is_alone (pPutJson key v ver me) (PutJson clock key v ver me).
Proof.
  unfold pPutJson, PutJson. destruct (Marshal v); [apply is_alone_put|apply is_alone_fail].
Qed.

Lemma is_alone_append_entry `{Json (list entry)} fuel me i :
  is_alone (pappend_entry fuel me i) (append_entry clock fuel me i).
Proof.
  induction fuel as [|fuel IH]; [apply is_alone_diverge|]. cbn [pappend_entry append_entry].
  apply is_alone_bind; [apply is_alone_get_json|]. intros [ver es].
  apply is_alone_bind; [apply is_alone_put_json|]. intros err.
  destruct (decide (err = OK)); [apply is_alone_ret|].
  destruct (decide (err = ErrMaybe)); [apply is_alone_ret|done].
Qed.

Lemma is_alone_one_put `{Json EntryV} fuel me key : ∀ ver,
  is_alone (pOnePut fuel me key ver) (OnePut clock fuel me key ver).
Proof.
  induction fuel as [|fuel IH]; intros ver; [apply is_alone_diverge|]. cbn [pOnePut OnePut].
  apply is_alone_bind; [apply is_alone_put_json|]. intros err.
  destruct (decide (¬ _)); [apply is_alone_fail|].
  apply is_alone_bind; [apply is_alone_get_json|]. intros [ver0 e].
  apply is_alone_bind.
  { destruct (decide _); [|apply is_alone_ret].
    destruct (decide _); [apply is_alone_fail|apply is_alone_ret]. }
  intros _. destruct (decide (err = OK ∨ err = ErrMaybe)); [apply is_alone_ret|apply IH].
Qed.

Lemma is_alone_check `{Json EntryV} key rs res reliable :
  is_alone (pCheckPutConcurrent key rs res reliable)
    (CheckPutConcurrent clock key rs res reliable).
Proof.
  apply is_alone_bind; [apply is_alone_get_json|]. intros [ver0 e].
  cbv zeta. destruct reliable;
    match goal with |- context [decide ?P] => destruct (decide P) end;
    (apply is_alone_fail || apply is_alone_ret).
Qed.

(** [done] is received after [iters] iterations. *)
Definition polls_of (iters : nat) : list bool := replicate iters false ++ [true].

Lemma pOneClientAppend_S `{Json (list entry)} n fuel me i nok nmay :
  pOneClientAppend (S n) fuel me i nok nmay =
  P_poll (λ done,
    if (done : bool) then P_ret (mkRes nok nmay)
    else
      b ← pappend_entry fuel me i;
      if (b : bool) then pOneClientAppend n fuel me (i + 1) (nok + 1) nmay
      else pOneClientAppend n fuel me (i + 1) nok (nmay + 1)).
Proof. done. Qed.

Lemma alone_OneClientAppend `{Json (list entry)} fuel me iters : ∀ i nok nmay,
  same (alone (pOneClientAppend (S iters) fuel me i nok nmay) (polls_of iters) [])
       (r ← OneClientAppend clock fuel me i iters nok nmay; mret (r, ([], []))).
Proof.
  induction iters as [|iters IH]; intros i nok nmay; [done|].
  rewrite (pOneClientAppend_S (S iters)).
  cbn [alone polls_of replicate app OneClientAppend]. fold (polls_of iters).
  etrans; [apply alone_bind|]. etrans; [|symmetry; apply bind_assoc].
  etrans; [apply same_bind_l, is_alone_append_entry|].
  etrans; [apply bind_assoc|]. apply same_bind; [done|]. intros [|]; apply IH.
Qed.

(** A client that appends, run alone with [done] received after [iters]
    iterations, is [OneClientAppend] of the sequential model: the same calls in
    the same order, the same log, the same result, failure or divergence. *)
Lemma OneClientAppend_alone `{Json (list entry)} (fuel iters : nat) (me : Z) (s : @Test W) :
  alone (pOneClientAppend (S iters) fuel me 0 0 0) (polls_of iters) [] s =
  (r ← OneClientAppend clock fuel me 0 iters 0 0; mret (r, ([], []))) s.
Proof. apply alone_OneClientAppend. Qed.
End alone.
