(* ===== verification/Concurrent.v ===== *)
(** * Clients that run at the same time: [kvtest1/kvtest.go], lines 142-169

    [SpawnClientsAndWait] starts a goroutine per client, tells each to stop and
    collects their results.  This is the specification that the clients over the
    simulated network (Networked.v) are proved to refine: a channel that may lose
    requests and replies, the service that the comments of [kvsrv1/server.go]
    document and a clerk, as [kvsrv1/client.go] documents it, that repeats a request
    until a reply arrives.  Between any two steps of a client others may run. *)

From S2P Require Export Clients.
#[local] Set Default Proof Using "Type".

Section system.
Context {A : Type}.

(** ** State *)

(** Where a client is: in its own code; in a call, of which attempts may have
    been lost ([resent]); or with the answer of the clerk at hand. *)
Inductive cstate :=
| CS_run (p : prog A)
| CS_call (r : request) (cli : Z) (k : KvOutput → prog A) (start : Z) (resent : bool)
| CS_reply (r : request) (cli : Z) (k : KvOutput → prog A) (start : Z) (out : KvOutput).

(** [s_sends]: how many times [done] is still sent, once the sleep is over. *)
Record sys := mkSys {
  s_store : kvstore;
  s_clients : list cstate;
  s_log : list Operation;
  s_now : Z;
  s_sends : option nat
}.

Definition set_client (c : nat) (st : cstate) (s : sys) : sys :=
  mkSys (s_store s) (<[c := st]> (s_clients s)) (s_log s) (s_now s) (s_sends s).
Definition set_store (m : kvstore) (s : sys) : sys :=
  mkSys m (s_clients s) (s_log s) (s_now s) (s_sends s).
Definition set_sends (o : option nat) (s : sys) : sys :=
  mkSys (s_store s) (s_clients s) (s_log s) (s_now s) o.
Definition add_log (op : Operation) (s : sys) : sys :=
  mkSys (s_store s) (s_clients s) (Append op (s_log s)) (s_now s) (s_sends s).

(** The server executes a request. *)
Definition serve (r : request) (m : kvstore) : KvOutput * kvstore := srv_op m (inp_of r).

(** What the clerk returns on a reply: [ErrVersion] for a repeated put is
    [ErrMaybe]. *)
Definition answer (r : request) (resent : bool) (out : KvOutput) : KvOutput :=
  match r with
  | R_put _ _ _ =>
      if decide (out_Err out = ErrVersion ∧ resent = true) then mkOut "" 0 ErrMaybe else out
  | R_get _ => out
  end.

(** ** Steps *)

Inductive event :=
| E_tick (d : Z)                     (* time passes *)
| E_begin (c : nat)                  (* a client begins a call *)
| E_lose (c : nat) (executed : bool) (* its request, or only its reply, is lost *)
| E_exec (c : nat)                   (* its request is executed, and the reply arrives *)
| E_return (c : nat)                 (* the call is logged and returns *)
| E_stop                             (* the sleep of [SpawnClientsAndWait] is over *)
| E_poll (c : nat) (b : bool)        (* a client receives [done], or does not wait for it *)
| E_rand (c : nat) (z : Z).          (* [rand.Int()] *)

Definition step (e : event) (s : sys) : option sys :=
  match e with
  | E_tick d =>
      if decide (0 ≤ d)%Z then
        Some (mkSys (s_store s) (s_clients s) (s_log s) (s_now s + d)%Z (s_sends s))
      else None
  | E_begin c =>
      match s_clients s !! c with
      | Some (CS_run (P_call r cli k)) => Some (set_client c (CS_call r cli k (s_now s) false) s)
      | _ => None
      end
  | E_lose c executed =>
      match s_clients s !! c with
      | Some (CS_call r cli k start _) =>
          let s := if (executed : bool) then set_store (serve r (s_store s)).2 s else s in
          Some (set_client c (CS_call r cli k start true) s)
      | _ => None
      end
  | E_exec c =>
      match s_clients s !! c with
      | Some (CS_call r cli k start resent) =>
          let '(out, m) := serve r (s_store s) in
          Some (set_client c (CS_reply r cli k start (answer r resent out)) (set_store m s))
      | _ => None
      end
  | E_return c =>
      match s_clients s !! c with
      | Some (CS_reply r cli k start out) =>
          Some (set_client c (CS_run (k out))
                  (add_log (mkOp cli (inp_of r) start out (s_now s)) s))
      | _ => None
      end
  | E_stop =>
      match s_sends s with
      | None => Some (set_sends (Some (length (s_clients s))) s)
      | Some _ => None
      end
  | E_poll c b =>
      match s_clients s !! c with
      | Some (CS_run (P_poll k)) =>
          if (b : bool) then
            match s_sends s with
            | Some (S n) => Some (set_sends (Some n) (set_client c (CS_run (k true)) s))
            | _ => None
            end
          else Some (set_client c (CS_run (k false)) s)
      | _ => None
      end
  | E_rand c z =>
      match s_clients s !! c with
      | Some (CS_run (P_rand k)) =>
          if decide (0 ≤ z)%Z then Some (set_client c (CS_run (k z)) s) else None
      | _ => None
      end
  end.

Fixpoint run (tr : list event) (s : sys) : option sys :=
  match tr with
  | [] => Some s
  | e :: tr => s ← step e s; run tr s
  end.

(** ** [SpawnClientsAndWait] *)

Definition spawn (n : nat) (fn : nat → prog A) (m : kvstore) (now : Z) : sys :=
  mkSys m ((λ c, CS_run (fn c)) <$> seq 0 n) [] now None.

(** The results received from the channels [ca], when all are there. *)
Definition result_of (st : cstate) : option A :=
  match st with CS_run (P_ret a) => Some a | _ => None end.
Definition collect_results (s : sys) : option (list A) :=
  match s_sends s with
  | Some O => mapM result_of (s_clients s)
  | _ => None
  end.

Definition SpawnClientsAndWait (n : nat) (fn : nat → prog A) (m : kvstore) (now : Z)
    (tr : list event) : option (list A * sys) :=
  s ← run tr (spawn n fn m now);
  rs ← collect_results s;
  Some (rs, s).

(** ** Invariants of runs *)

(** Rule induction, with the number of steps made, for schedules of the events
    that [ok] allows. *)
Lemma run_invariant (ok : event → Prop) (I : nat → sys → Prop) (N : nat) :
  (∀ n e s s', n < N → ok e → I n s → step e s = Some s' → I (S n) s') →
  ∀ tr n s s', Forall ok tr → I n s → n + length tr ≤ N → run tr s = Some s' →
  I (n + length tr) s'.
Proof.
  intros Hstep. induction tr as [|e tr IH]; intros n s s' Hok HI HN Hrun.
  - injection Hrun as <-. by rewrite Nat.add_0_r.
  - cbn [run length] in *. apply bind_Some in Hrun as (s1 & Hs1 & Hrun).
    apply Forall_cons in Hok as [He Hok].
    replace (n + S (length tr)) with (S n + length tr) by lia. apply (IH (S n) s1); [done| |lia|done].
    apply (Hstep n e s); [lia|done..].
Qed.

(** *** Versions count puts *)

(** After [n] steps no version exceeds the first ones by more than [n]. *)
Definition versions_le (B : Z) (m : kvstore) : Prop :=
  ∀ key v ver, m !! key = Some (v, ver) → (0 ≤ ver ≤ B)%Z.

Lemma srv_op_put m key value ver :
  srv_op m (inp_of (R_put key value ver)) =
  let '(e, m') := srv_Put m key value ver in (mkOut "" 0 e, m').
Proof. done. Qed.

(** The four outcomes of a put. *)
Lemma srv_Put_cases m key value ver :
  (srv_Put m key value ver = (OK, <[key := (value, ver_incr ver)]> m) ∧
     ((∃ v, m !! key = Some (v, ver)) ∨ (m !! key = None ∧ ver = 0%Z))) ∨
  (srv_Put m key value ver = (ErrVersion, m) ∧ ∃ v cur, m !! key = Some (v, cur) ∧ cur ≠ ver) ∨
  (srv_Put m key value ver = (ErrNoKey, m) ∧ m !! key = None ∧ ver ≠ 0%Z).
Proof.
  unfold srv_Put. destruct (m !! key) as [[v cur]|].
  - destruct (decide (cur = ver)) as [->|Hne]; [left|right; left]; eauto 10.
  - destruct (decide (ver = 0%Z)) as [->|Hne]; [left|right; right]; eauto 10.
Qed.

Lemma versions_le_put B m key value ver e m' :
  versions_le B m → srv_Put m key value ver = (e, m') → (0 ≤ B)%Z → (B + 1 < 2 ^ 64)%Z →
  versions_le (B + 1) m'.
Proof.
  intros Hm Hput HB1 HB. assert (versions_le (B + 1) m) as Hm1.
  { intros k v v' Hk. specialize (Hm k v v' Hk). lia. }
  destruct (srv_Put_cases m key value ver) as [[H Hc]|[[H _]|[H _]]];
    rewrite H in Hput; injection Hput as <- <-; try done.
  intros k v v' Hk. apply lookup_insert_Some in Hk as [[<- [= <- <-]]|[_ Hk]]; [|by eapply Hm1].
  unfold ver_incr. destruct Hc as [[w Hw]|[_ ->]].
  - specialize (Hm _ _ _ Hw). rewrite wrap_u64_id; lia.
  - rewrite wrap_u64_id; lia.
Qed.

Lemma serve_versions B m r out m' :
  versions_le B m → serve r m = (out, m') → (0 ≤ B)%Z → (B + 1 < 2 ^ 64)%Z →
  versions_le (B + 1) m'.
Proof.
  intros Hm Hs HB1 HB. destruct r as [key|key value ver]; unfold serve in Hs.
  - assert (m' = m) as ->.
    { unfold srv_op in Hs. simpl in Hs. destruct (srv_Get m key) as [[??]?]. by simplify_eq. }
    intros k v v' Hk. specialize (Hm k v v' Hk). lia.
  - rewrite srv_op_put in Hs. destruct (srv_Put m key value ver) as [e m1] eqn:Hp.
    simplify_eq. by eapply versions_le_put.
Qed.
End system.
Arguments cstate : clear implicits.
Arguments sys : clear implicits.
