(* ===== verification/Linear.v ===== *)
(** * The histories that the clients log are linearizable:
    [kvtest1/porcupine.go], [models1/kv.go]

    Every call takes effect at one moment between its beginning and its end, in
    the sense of the model that the checker is given; so [checkPorcupine] never
    fails a test of the documented service, however calls interleave and
    whatever replies are lost. *)

From S2P Require Export Concurrent.
#[local] Set Default Proof Using "Type".

(** ** Linearizability

    A history is linearizable if its operations can be put in an order in which
    none comes before one that had returned when it was called, and which the
    model explains, key by key. *)
Definition io (o : Operation) : KvInput * KvOutput := (Input o, Output o).

Definition real_time (h : list Operation) : Prop :=
  ∀ i j a b, i < j → h !! i = Some a → h !! j = Some b → (OpCall a ≤ OpReturn b)%Z.

Definition linearizable (h : list Operation) : Prop :=
  ∃ h', h' ≡ₚ h ∧ real_time h' ∧
    ∀ k, explains Init (io <$> filter (λ o, op_key o = k) h') = true.

(** [explains] with the state it ends in. *)
Fixpoint explain_to (st : KvState) (ops : list (KvInput * KvOutput)) : option KvState :=
  match ops with
  | [] => Some st
  | (i, o) :: ops =>
      match Step st i o with (true, Some st') => explain_to st' ops | _ => None end
  end.

Lemma explain_to_explains ops : ∀ st st', explain_to st ops = Some st' → explains st ops = true.
Proof.
  induction ops as [|[i o] ops IH]; intros st st' H; [done|]. simpl in *.
  destruct (Step st i o) as [[] [st1|]]; [by eapply IH|done..].
Qed.

Lemma explain_to_snoc ops i o : ∀ st st1 st2,
  explain_to st ops = Some st1 → Step st1 i o = (true, Some st2) →
  explain_to st (ops ++ [(i, o)]) = Some st2.
Proof.
  induction ops as [|[i' o'] ops IH]; intros st st1 st2 H Hs; simpl in *.
  - injection H as ->. by rewrite Hs.
  - destruct (Step st i' o') as [[] [st3|]]; [by eapply IH|done..].
Qed.

(** ** The moments at which calls take effect *)

(** [sl_who] is the client whose call has not returned yet. *)
Record slot := mkSlot { sl_op : Operation; sl_time : Z; sl_who : option nat }.

Definition done (lin : list slot) : list slot := filter (λ s, sl_who s = None) lin.
Definition pend (c : nat) (lin : list slot) : list slot := filter (λ s, sl_who s = Some c) lin.

Definition slot_of (c : nat) (r : request) (cli start : Z) (out : KvOutput) (t : Z) : slot :=
  mkSlot (mkOp cli (inp_of r) start out t) t (Some c).

(** The call of [c] returns at time [t]. *)
Definition ret_slot (t : Z) (s : slot) : slot :=
  let o := sl_op s in
  mkSlot (mkOp (ClientId o) (Input o) (OpCall o) (Output o) t) (sl_time s) None.
Definition finish (c : nat) (t : Z) (lin : list slot) : list slot :=
  (λ s, if decide (sl_who s = Some c) then ret_slot t s else s) <$> lin.

Section linear.
Context {A : Type}.
Implicit Types (s : sys A) (m : kvstore) (lin : list slot).

(** The key has moved past the version of a put. *)
Definition newer (m : kvstore) (key : string) (ver : Tversion) : Prop :=
  ∃ v cur, m !! key = Some (v, cur) ∧ (ver < cur)%Z.

(** What a client in this state has contributed: the operation of the reply it
    holds, or a put that was executed although its reply was lost. *)
Definition pending (m : kvstore) (c : nat) (st : option (cstate A)) (l : list slot) : Prop :=
  match st with
  | Some (CS_call r cli k start resent) =>
      l = [] ∨
      ∃ key value ver t, r = R_put key value ver ∧ resent = true ∧ newer m key ver ∧
        l = [slot_of c r cli start (mkOut "" 0 ErrMaybe) t]
  | Some (CS_reply r cli k start out) => ∃ t, l = [slot_of c r cli start out t]
  | _ => l = []
  end.

Definition calls_before (now : Z) (st : cstate A) : Prop :=
  match st with
  | CS_call _ _ _ start _ | CS_reply _ _ _ start _ => (start ≤ now)%Z
  | CS_run _ => True
  end.

(** The entries of a linearization for a key. *)
Definition key_io (k : string) (lin : list slot) : list (KvInput * KvOutput) :=
  io <$> filter (λ o, op_key o = k) (sl_op <$> lin).

Record lin_ok (lin : list slot) (s : sys A) : Prop := {
  lo_sorted : StronglySorted (λ a b, (sl_time a ≤ sl_time b)%Z) lin;
  lo_times : Forall (λ a, (OpCall (sl_op a) ≤ sl_time a ≤ s_now s)%Z) lin;
  lo_done : sl_op <$> done lin ≡ₚ s_log s;
  lo_return : Forall (λ a, sl_who a = None → (sl_time a ≤ OpReturn (sl_op a))%Z) lin;
  lo_pend : ∀ c, pending (s_store s) c (s_clients s !! c) (pend c lin);
  lo_starts : ∀ c st, s_clients s !! c = Some st → calls_before (s_now s) st;
  lo_model : ∀ k, explain_to Init (key_io k lin) = Some (model_of (s_store s) k)
}.

(** No put was answered [ErrNoKey]: the model of the checker refuses that
    answer, and only a put that makes up a version for a missing key gets it. *)
Definition clean_op (i : KvInput) (o : KvOutput) : Prop :=
  in_Op i = 1%Z → out_Err o ≠ ErrNoKey.
Definition clean (s : sys A) : Prop :=
  (∀ o, o ∈ s_log s → clean_op (Input o) (Output o)) ∧
  (∀ c r cli k start out, s_clients s !! c = Some (CS_reply r cli k start out) →
     clean_op (inp_of r) out).

(** ** How the list of moments grows *)

Lemma pend_app c lin1 lin2 : pend c (lin1 ++ lin2) = pend c lin1 ++ pend c lin2.
Proof. apply filter_app. Qed.
Lemma done_app lin1 lin2 : done (lin1 ++ lin2) = done lin1 ++ done lin2.
Proof. apply filter_app. Qed.
Lemma key_io_app k lin1 lin2 : key_io k (lin1 ++ lin2) = key_io k lin1 ++ key_io k lin2.
Proof. unfold key_io. by rewrite fmap_app, filter_app, fmap_app. Qed.

Lemma pend_finish_ne c c' t lin : c ≠ c' → pend c' (finish c t lin) = pend c' lin.
Proof.
  intros Hne. induction lin as [|a lin IH]; [done|]. unfold pend, finish in *.
  rewrite fmap_cons. destruct (decide (sl_who a = Some c)) as [Ha|Ha].
  - rewrite filter_cons_False by done. rewrite filter_cons_False by congruence. apply IH.
  - rewrite !filter_cons. destruct (decide _); [f_equal|]; apply IH.
Qed.

Lemma pend_finish c t lin : pend c (finish c t lin) = [].
Proof.
  induction lin as [|a lin IH]; [done|]. unfold pend, finish in *. rewrite fmap_cons.
  destruct (decide (sl_who a = Some c)) as [Ha|Ha]; by rewrite filter_cons_False.
Qed.

Lemma done_finish c t lin :
  sl_op <$> done (finish c t lin) ≡ₚ
  (sl_op <$> done lin) ++ (sl_op <$> (ret_slot t <$> pend c lin)).
Proof.
  induction lin as [|a lin IH]; [done|]. unfold done, pend, finish in *. rewrite fmap_cons.
  destruct (decide (sl_who a = Some c)) as [Ha|Ha].
  - rewrite filter_cons_True by done. rewrite (filter_cons_False _ a) by congruence.
    rewrite (filter_cons_True _ a) by done. rewrite !fmap_cons, IH. apply Permutation_middle.
  - rewrite (filter_cons_False (λ x, sl_who x = Some c)) by done. rewrite !filter_cons.
    destruct (decide (sl_who a = None)); [|done]. rewrite !fmap_cons, IH. done.
Qed.

Lemma finish_forall (P Q : slot → Prop) c t lin :
  (∀ a, P a → sl_who a = Some c → Q (ret_slot t a)) → (∀ a, P a → Q a) →
  Forall P lin → Forall Q (finish c t lin).
Proof.
  intros H1 H2 HP. apply Forall_fmap. eapply Forall_impl; [exact HP|]. intros a Ha. simpl.
  destruct (decide _); auto.
Qed.

Lemma key_io_cons k a lin :
  key_io k (a :: lin) = (if decide (op_key (sl_op a) = k) then [io (sl_op a)] else []) ++ key_io k lin.
Proof.
  unfold key_io. rewrite fmap_cons, filter_cons.
  destruct (decide (op_key (sl_op a) = k)); [|done]. by rewrite fmap_cons.
Qed.

Lemma key_io_finish k c t lin : key_io k (finish c t lin) = key_io k lin.
Proof.
  induction lin as [|a lin IH]; [done|]. unfold finish in *.
  rewrite fmap_cons, !key_io_cons, IH. by destruct (decide (sl_who a = Some c)).
Qed.

Lemma finish_sorted c t lin :
  StronglySorted (λ a b, (sl_time a ≤ sl_time b)%Z) lin →
  StronglySorted (λ a b, (sl_time a ≤ sl_time b)%Z) (finish c t lin).
Proof.
  induction 1 as [|a lin Hs IH Ha]; [constructor|]. unfold finish in *. rewrite fmap_cons.
  constructor; [done|]. apply Forall_fmap. eapply Forall_impl; [exact Ha|]. intros b Hb. simpl.
  by repeat destruct (decide _).
Qed.

(** ** The model follows the server *)

Lemma model_of_insert m key value ver k :
  model_of (<[key := (value, ver)]> m) k =
  if decide (k = key) then mkKv value ver else model_of m k.
Proof.
  unfold model_of. destruct (decide (k = key)) as [->|Hne]; [by rewrite lookup_insert_eq|].
  by rewrite lookup_insert_ne.
Qed.

(** A put that the server does, whatever the client is told. *)
Lemma Step_done m key value ver m' err :
  srv_Put m key value ver = (OK, m') → err = OK ∨ err = ErrMaybe →
  Step (model_of m key) (inp_of (R_put key value ver)) (mkOut "" 0 err) =
    (true, Some (model_of m' key)).
Proof.
  intros Hput Herr. unfold Step. simpl.
  destruct (srv_Put_cases m key value ver) as [[H Hc]|[[H _]|[H _]]]; rewrite H in Hput;
    try done. injection Hput as <-. rewrite model_of_insert, decide_True by done.
  assert (st_Version (model_of m key) = ver) as ->.
  { unfold model_of. destruct Hc as [[v ->]|[-> ->]]; done. }
  rewrite Z.eqb_refl. by destruct Herr as [->| ->].
Qed.

(** A put that the server refuses because of the version. *)
Lemma Step_refused m key value ver m' err :
  srv_Put m key value ver = (ErrVersion, m') → err = ErrVersion ∨ err = ErrMaybe →
  Step (model_of m key) (inp_of (R_put key value ver)) (mkOut "" 0 err) =
    (true, Some (model_of m' key)).
Proof.
  intros Hput Herr. unfold Step. simpl.
  destruct (srv_Put_cases m key value ver) as [[H _]|[[H Hc]|[H _]]]; rewrite H in Hput;
    try done. injection Hput as <-. destruct Hc as (v & cur & Hk & Hne). unfold model_of.
  rewrite Hk. simpl. rewrite (proj2 (Z.eqb_neq cur ver)) by done. by destruct Herr as [->| ->].
Qed.

(** The answer of the clerk to the reply of the server is one step of the model. *)
Lemma Step_serve m r resent out m' :
  serve r m = (out, m') → clean_op (inp_of r) (answer r resent out) →
  Step (model_of m (req_key r)) (inp_of r) (answer r resent out) =
    (true, Some (model_of m' (req_key r))).
Proof.
  intros Hs Hcl. destruct r as [key|key value ver]; unfold serve in Hs.
  - unfold srv_op, srv_Get in Hs. simpl in *. unfold Step, model_of. simpl.
    destruct (m !! key) as [[v cur]|] eqn:Hk; injection Hs as <- <-; rewrite Hk; simpl;
      try by rewrite bool_decide_eq_true_2.
    done.
  - rewrite srv_op_put in Hs. destruct (srv_Put m key value ver) as [e m1] eqn:Hp.
    injection Hs as <- <-. cbn [answer out_Err req_key] in *.
    destruct (srv_Put_cases m key value ver) as [[H _]|[[H _]|[H _]]]; rewrite H in Hp;
      injection Hp as <- <-.
    + rewrite decide_False by (intros [? _]; done). eapply Step_done; [done|by left].
    + destruct (decide _) as [|_]; eapply Step_refused; eauto.
    + rewrite decide_False in Hcl by (intros [? _]; done). by destruct (Hcl eq_refl).
Qed.

Lemma serve_other m r out m' k :
  serve r m = (out, m') → k ≠ req_key r → model_of m' k = model_of m k.
Proof.
  intros Hs Hk. destruct r as [key|key value ver]; unfold serve in Hs.
  - unfold srv_op in Hs. simpl in Hs. destruct (srv_Get m key) as [[??]?]. by simplify_eq.
  - rewrite srv_op_put in Hs. destruct (srv_Put m key value ver) as [e m1] eqn:Hp.
    injection Hs as _ <-.
    destruct (srv_Put_cases m key value ver) as [[H _]|[[H _]|[H _]]]; rewrite H in Hp;
      injection Hp as _ <-; try done. by rewrite model_of_insert, decide_False.
Qed.

Lemma serve_newer B m r out m' key ver :
  serve r m = (out, m') → versions_le B m → (B + 1 < 2 ^ 64)%Z →
  newer m key ver → newer m' key ver.
Proof.
  intros Hs HB Hb (v & cur & Hk & Hlt). destruct r as [key'|key' value' ver']; unfold serve in Hs.
  - unfold srv_op in Hs. simpl in Hs. destruct (srv_Get m key') as [[??]?]. simplify_eq.
    by exists v, cur.
  - rewrite srv_op_put in Hs. destruct (srv_Put m key' value' ver') as [e m1] eqn:Hp.
    injection Hs as _ <-.
    destruct (srv_Put_cases m key' value' ver') as [[H Hc]|[[H _]|[H _]]]; rewrite H in Hp;
      injection Hp as _ <-; try (by exists v, cur).
    destruct (decide (key' = key)) as [->|Hne];
      [|exists v, cur; by rewrite lookup_insert_ne].
    destruct Hc as [[w Hw]|[Hn _]]; [|congruence]. rewrite Hk in Hw. injection Hw as -> ->.
    exists value', (ver_incr ver'). split; [apply lookup_insert_eq|].
    specialize (HB _ _ _ Hk). unfold ver_incr. rewrite wrap_u64_id; lia.
Qed.

Lemma put_newer B m key value ver m' :
  srv_Put m key value ver = (OK, m') → versions_le B m → (0 ≤ B)%Z → (B + 1 < 2 ^ 64)%Z →
  newer m' key ver.
Proof.
  intros Hp HB H0 Hb.
  destruct (srv_Put_cases m key value ver) as [[H Hc]|[[H _]|[H _]]]; rewrite H in Hp; try done.
  injection Hp as <-. exists value, (ver_incr ver). split; [apply lookup_insert_eq|].
  unfold ver_incr. destruct Hc as [[w Hw]|[_ ->]]; [|rewrite wrap_u64_id; lia].
  specialize (HB _ _ _ Hw). rewrite wrap_u64_id; lia.
Qed.

Lemma pending_newer m m' c st l :
  (∀ key ver, newer m key ver → newer m' key ver) → pending m c st l → pending m' c st l.
Proof.
  intros H Hp. destruct st as [[p|r cli k start resent|r cli k start out]|]; try done.
  simpl in *. destruct Hp as [Hp|(key & value & ver & t & ? & ? & ? & ?)]; [by left|].
  right. exists key, value, ver, t. auto.
Qed.

(** ** One step *)

Definition slot_new (c : nat) (t : Z) (a : slot) : Prop :=
  (OpCall (sl_op a) ≤ t)%Z ∧ sl_time a = t ∧ sl_who a = Some c.

(** Client [c] moves, at most one call takes effect. *)
Lemma lin_ok_step lin s s' c st' new :
  lin_ok lin s → s_log s' = s_log s → s_now s' = s_now s →
  s_clients s' = <[c := st']> (s_clients s) → c < length (s_clients s) →
  Forall (slot_new c (s_now s)) new →
  pending (s_store s') c (Some st') (pend c lin ++ new) → calls_before (s_now s) st' →
  (∀ c' st l, pending (s_store s) c' st l → pending (s_store s') c' st l) →
  (∀ k, explain_to Init (key_io k (lin ++ new)) = Some (model_of (s_store s') k)) →
  StronglySorted (λ a b, (sl_time a ≤ sl_time b)%Z) (lin ++ new) →
  lin_ok (lin ++ new) s'.
Proof.
  intros [Hs Ht Hd Hr Hp Hst Hm] Hlog Hnow Hcl Hc Hnew Hpc Hcb Hoth Hmod Hsort.
  assert (∀ c', c' ≠ c → pend c' new = []) as Hpn.
  { intros c' Hne. clear -Hne Hnew. induction Hnew as [|a new (_ & _ & Ha) Hnew IH]; [done|].
    unfold pend. rewrite filter_cons_False by congruence. apply IH. }
  assert (pend c new = new) as Hpc'.
  { clear -Hnew. induction Hnew as [|a new (_ & _ & Ha) Hnew IH]; [done|].
    unfold pend. rewrite filter_cons_True by done. f_equal. apply IH. }
  assert (done new = []) as Hdn.
  { clear -Hnew. induction Hnew as [|a new (_ & _ & Ha) Hnew IH]; [done|].
    unfold done. rewrite filter_cons_False by congruence. apply IH. }
  split; [done| | | | | |done]; rewrite ?Hlog, ?Hnow, ?Hcl.
  - apply Forall_app. split; [done|]. eapply Forall_impl; [exact Hnew|].
    intros a (? & -> & _). lia.
  - by rewrite done_app, Hdn, app_nil_r.
  - apply Forall_app. split; [done|]. eapply Forall_impl; [exact Hnew|].
    intros a (_ & _ & ->). done.
  - intros c'. rewrite pend_app. destruct (decide (c' = c)) as [->|Hne].
    + rewrite list_lookup_insert_eq by done. by rewrite Hpc'.
    + rewrite list_lookup_insert_ne by done. rewrite Hpn, app_nil_r by done. apply Hoth, Hp.
  - intros c' st Hc'. apply list_lookup_insert_Some in Hc' as [(<- & <- & _)|[_ Hc']];
      [done|by eapply Hst].
Qed.

Lemma sorted_new lin s c new :
  lin_ok lin s → Forall (slot_new c (s_now s)) new → length new ≤ 1 →
  StronglySorted (λ a b, (sl_time a ≤ sl_time b)%Z) (lin ++ new).
Proof.
  intros [Hs Ht _ _ _ _ _] Hnew Hlen. destruct new as [|a [|b new]]; [by rewrite app_nil_r| |simpl in Hlen; lia].
  apply Forall_singleton in Hnew as (_ & Ha & _). apply StronglySorted_snoc; [done|].
  eapply Forall_impl; [exact Ht|]. simpl. lia.
Qed.

(** A call takes effect with the output [out]. *)
Lemma key_io_new lin m m' c r cli start out t k :
  explain_to Init (key_io (req_key r) lin) = Some (model_of m (req_key r)) →
  explain_to Init (key_io k lin) = Some (model_of m k) →
  Step (model_of m (req_key r)) (inp_of r) out = (true, Some (model_of m' (req_key r))) →
  (k ≠ req_key r → model_of m' k = model_of m k) →
  explain_to Init (key_io k (lin ++ [slot_of c r cli start out t])) = Some (model_of m' k).
Proof.
  intros Hr Hk Hstep Hother. rewrite key_io_app, key_io_cons.
  assert (op_key (sl_op (slot_of c r cli start out t)) = req_key r) as Hkey by by destruct r.
  rewrite Hkey. change (key_io k []) with ([] : list (KvInput * KvOutput)). rewrite app_nil_r.
  destruct (decide (req_key r = k)) as [<-|Hne].
  - by eapply explain_to_snoc.
  - rewrite app_nil_r, Hother by done. done.
Qed.

(** *** The steps of a client *)

Lemma clean_step e s s' : step e s = Some s' → clean s' → clean s.
Proof.
  intros Hs [Hlog Hrep].
  assert (∀ c st0, s_clients s !! c = Some st0 →
    (∀ r cli k start out, st0 ≠ CS_reply r cli k start out) →
    (∃ st, s_clients s' = <[c := st]> (s_clients s)) → s_log s' = s_log s → clean s) as Hother.
  { intros c st0 Hc Hne [st Hcl] Hl. split; [by rewrite <-Hl|].
    intros c' r cli k start out Hc'. apply (Hrep c' r cli k start).
    rewrite Hcl, list_lookup_insert_ne; [done|]. intros ->. rewrite Hc' in Hc. injection Hc as <-.
    by eapply Hne. }
  destruct e as [d|c|c ex|c|c| |c b|c z]; simpl in Hs.
  - destruct (decide _); [|done]. injection Hs as <-. done.
  - destruct (s_clients s !! c) as [[[]| |]|] eqn:Hc; try done. injection Hs as <-.
    eapply Hother; [exact Hc|done|by eexists|done].
  - destruct (s_clients s !! c) as [[|r cli k start resent|]|] eqn:Hc; try done. injection Hs as <-.
    eapply Hother; [exact Hc|done| |by destruct ex].
    exists (CS_call r cli k start true). by destruct ex.
  - destruct (s_clients s !! c) as [[|r cli k start resent|]|] eqn:Hc; try done.
    destruct (serve _ _) as [out m]. injection Hs as <-.
    eapply Hother; [exact Hc|done|by eexists|done].
  - destruct (s_clients s !! c) as [[| |r cli k start out]|] eqn:Hc; try done. injection Hs as <-.
    simpl in *. split.
    + intros o Ho. apply Hlog. unfold Append. set_solver.
    + intros c' r' cli' k' start' out' Hc'. destruct (decide (c' = c)) as [->|Hne].
      * rewrite Hc in Hc'. injection Hc' as <- <- <- <- <-.
        apply (Hlog (mkOp cli (inp_of r) start out (s_now s))). unfold Append. set_solver.
      * apply (Hrep c' r' cli' k' start'). by rewrite list_lookup_insert_ne.
  - destruct (s_sends s); [done|]. injection Hs as <-. done.
  - destruct (s_clients s !! c) as [[[]| |]|] eqn:Hc; try done.
    destruct b; [destruct (s_sends s) as [[|n]|]; try done|]; injection Hs as <-;
      (eapply Hother; [exact Hc|done|by eexists|done]).
  - destruct (s_clients s !! c) as [[[]| |]|] eqn:Hc; try done.
    destruct (decide _); [|done]. injection Hs as <-.
    eapply Hother; [exact Hc|done|by eexists|done].
Qed.

(** A client moves without a call taking effect. *)
Lemma lin_ok_quiet lin s s' c st st' :
  lin_ok lin s → s_clients s !! c = Some st →
  s_log s' = s_log s → s_now s' = s_now s → s_store s' = s_store s →
  s_clients s' = <[c := st']> (s_clients s) → calls_before (s_now s) st' →
  pending (s_store s) c (Some st') (pend c lin) → lin_ok lin s'.
Proof.
  intros Hlin Hc Hlog Hnow Hm Hcl Hcb Hp. rewrite <-(app_nil_r lin).
  eapply (lin_ok_step lin s s' c st' []); try done.
  - by eapply lookup_lt_Some.
  - by rewrite app_nil_r, Hm.
  - intros c' st0 l H0. by rewrite Hm.
  - intros k. rewrite app_nil_r, Hm. apply (lo_model _ _ Hlin).
  - rewrite app_nil_r. apply (lo_sorted _ _ Hlin).
Qed.

(** The call of client [c] takes effect. *)
Lemma lin_ok_effect lin s s' c r cli k start resent st' out :
  lin_ok lin s → s_clients s !! c = Some (CS_call r cli k start resent) → pend c lin = [] →
  s_log s' = s_log s → s_now s' = s_now s → s_clients s' = <[c := st']> (s_clients s) →
  calls_before (s_now s) st' →
  pending (s_store s') c (Some st') [slot_of c r cli start out (s_now s)] →
  (∀ key ver, newer (s_store s) key ver → newer (s_store s') key ver) →
  Step (model_of (s_store s) (req_key r)) (inp_of r) out =
    (true, Some (model_of (s_store s') (req_key r))) →
  (∀ k, k ≠ req_key r → model_of (s_store s') k = model_of (s_store s) k) →
  ∃ lin', lin_ok lin' s'.
Proof.
  intros Hlin Hc Hp0 Hlog Hnow Hcl Hcb Hp Hnew Hstep Hother.
  exists (lin ++ [slot_of c r cli start out (s_now s)]).
  pose proof (lo_starts _ _ Hlin _ _ Hc) as Hstart. simpl in Hstart.
  assert (Forall (slot_new c (s_now s)) [slot_of c r cli start out (s_now s)]) as Hsn
    by (apply Forall_singleton; done).
  eapply lin_ok_step; try done.
  - by eapply lookup_lt_Some.
  - by rewrite Hp0.
  - intros c' st l. by apply pending_newer.
  - intros k'. apply (key_io_new lin (s_store s)); try done.
    + apply (lo_model _ _ Hlin).
    + apply (lo_model _ _ Hlin).
    + apply Hother.
  - by eapply sorted_new.
Qed.

(** A put that is already past is refused, and nothing happens. *)
Lemma newer_refused m key value ver :
  newer m key ver → srv_Put m key value ver = (ErrVersion, m).
Proof.
  intros (v & cur & Hk & Hlt). unfold srv_Put. rewrite Hk, decide_False by lia. done.
Qed.

Lemma serve_get m key : (serve (R_get key) m).2 = m.
Proof. unfold serve, srv_op. simpl. by destruct (srv_Get m key) as [[??]?]. Qed.

Lemma step_lose B lin s s' c ex :
  lin_ok lin s → versions_le B (s_store s) → (0 ≤ B)%Z → (B + 1 < 2 ^ 64)%Z →
  step (E_lose c ex) s = Some s' → ∃ lin', lin_ok lin' s'.
Proof.
  intros Hlin HB H0 Hb Hs. simpl in Hs.
  destruct (s_clients s !! c) as [[|r cli k start resent|]|] eqn:Hc; try done. injection Hs as <-.
  pose proof (lo_pend _ _ Hlin c) as Hp. rewrite Hc in Hp.
  pose proof (lo_starts _ _ Hlin _ _ Hc) as Hstart. simpl in Hp, Hstart.
  (* nothing happened on the server *)
  assert (∀ m, m = s_store s → ∃ lin', lin_ok lin'
    (set_client c (CS_call r cli k start true) (set_store m s))) as Hquiet.
  { intros m ->. exists lin. eapply lin_ok_quiet; try done. simpl.
    destruct Hp as [Hp|(key & value & ver & t & ? & _ & ? & ?)]; [by left|]. right; eauto 10. }
  destruct ex; [|destruct s; by apply Hquiet].
  destruct r as [key|key value ver]; [apply Hquiet, serve_get|].
  assert ((serve (R_put key value ver) (s_store s)).2 = (srv_Put (s_store s) key value ver).2)
    as -> by (unfold serve; rewrite srv_op_put; by destruct (srv_Put _ _ _ _)).
  destruct Hp as [Hp|(key' & value' & ver' & t & [= <- <- <-] & _ & Hnew & _)];
    [|apply Hquiet; by rewrite newer_refused].
  destruct (srv_Put_cases (s_store s) key value ver) as [[Hput _]|[[Hput _]|[Hput _]]];
    rewrite Hput; try by apply Hquiet.
  set (m' := <[key := (value, ver_incr ver)]> (s_store s)) in *.
  assert (serve (R_put key value ver) (s_store s) = (mkOut "" 0 OK, m')) as Hserve
    by (unfold serve; by rewrite srv_op_put, Hput).
  eapply (lin_ok_effect lin s _ c _ cli k start resent _ (mkOut "" 0 ErrMaybe)); try done; simpl.
  - right. exists key, value, ver, (s_now s). split_and!; try done. by eapply put_newer.
  - intros key0 ver0. by eapply serve_newer.
  - eapply Step_done; [exact Hput|by right].
  - intros k' Hk'. by eapply serve_other.
Qed.

Lemma step_exec B lin s s' c :
  lin_ok lin s → clean s' → versions_le B (s_store s) → (B + 1 < 2 ^ 64)%Z →
  step (E_exec c) s = Some s' → ∃ lin', lin_ok lin' s'.
Proof.
  intros Hlin [_ Hclean] HB Hb Hs. simpl in Hs.
  destruct (s_clients s !! c) as [[|r cli k start resent|]|] eqn:Hc; try done.
  destruct (serve r (s_store s)) as [out m'] eqn:Hserve. injection Hs as <-.
  pose proof (lo_pend _ _ Hlin c) as Hp. rewrite Hc in Hp.
  pose proof (lo_starts _ _ Hlin _ _ Hc) as Hstart. simpl in Hp, Hstart.
  assert (clean_op (inp_of r) (answer r resent out)) as Hcl.
  { eapply (Hclean c). simpl. apply list_lookup_insert_eq. by eapply lookup_lt_Some. }
  destruct Hp as [Hp|(key & value & ver & t & -> & -> & Hnew & Hp)].
  - eapply (lin_ok_effect lin s _ c r cli k start resent _ (answer r resent out)); try done; simpl.
    + by exists (s_now s).
    + intros key0 ver0. by eapply serve_newer.
    + by eapply Step_serve.
    + intros k' Hk'. by eapply serve_other.
  - unfold serve in Hserve. rewrite srv_op_put, newer_refused in Hserve by done.
    injection Hserve as <- <-. exists lin. eapply lin_ok_quiet; try done. simpl.
    by exists t.
Qed.

Lemma step_return lin s s' c :
  lin_ok lin s → step (E_return c) s = Some s' → ∃ lin', lin_ok lin' s'.
Proof.
  intros [Hs Ht Hd Hr Hp Hst Hm] Hstep. simpl in Hstep.
  destruct (s_clients s !! c) as [[| |r cli k start out]|] eqn:Hc; try done. injection Hstep as <-.
  pose proof (Hp c) as Hpc. rewrite Hc in Hpc. destruct Hpc as [t Hpc].
  assert (c < length (s_clients s)) as Hlt by by eapply lookup_lt_Some.
  exists (finish c (s_now s) lin). split; simpl.
  - by apply finish_sorted.
  - eapply finish_forall; [| |exact Ht]; simpl; [|done]. intros a Ha _. exact Ha.
  - rewrite done_finish, Hpc, Hd. unfold Append. done.
  - apply (finish_forall (λ a, (OpCall (sl_op a) ≤ sl_time a ≤ s_now s)%Z ∧
      (sl_who a = None → (sl_time a ≤ OpReturn (sl_op a))%Z))); simpl; [lia|tauto|].
    by apply Forall_and.
  - intros c'. destruct (decide (c = c')) as [<-|Hne].
    + rewrite list_lookup_insert_eq, pend_finish by done. done.
    + rewrite list_lookup_insert_ne, pend_finish_ne by done. apply Hp.
  - intros c' st Hc'. apply list_lookup_insert_Some in Hc' as [(<- & <- & _)|[_ Hc']];
      [done|by eapply Hst].
  - intros k'. by rewrite key_io_finish.
Qed.

Lemma step_tick lin s s' d :
  lin_ok lin s → step (E_tick d) s = Some s' → lin_ok lin s'.
Proof.
  intros [Hs Ht Hd Hr Hp Hst Hm] Hstep. simpl in Hstep.
  destruct (decide (0 ≤ d)%Z); [|done]. injection Hstep as <-. split; simpl; try done.
  - eapply Forall_impl; [exact Ht|]. simpl. lia.
  - intros c st Hc. specialize (Hst c st Hc). destruct st; simpl in *; lia || done.
Qed.

(** A linearization exists as long as no put is answered [ErrNoKey]. *)
Definition linear_inv (n : nat) (s : sys A) : Prop :=
  versions_le (Z.of_nat n) (s_store s) ∧ (clean s → ∃ lin, lin_ok lin s).

Lemma step_versions n e s s' :
  versions_le (Z.of_nat n) (s_store s) → (Z.of_nat n + 1 < 2 ^ 64)%Z →
  step e s = Some s' → versions_le (Z.of_nat (S n)) (s_store s').
Proof.
  intros HB Hb Hs. rewrite Nat2Z.inj_succ, <-Z.add_1_r.
  assert (versions_le (Z.of_nat n + 1) (s_store s)) as HB1.
  { intros k v ver Hk. specialize (HB k v ver Hk). lia. }
  destruct e as [d|c|c ex|c|c| |c b|c z]; simpl in Hs.
  - destruct (decide _); [|done]. by injection Hs as <-.
  - destruct (s_clients s !! c) as [[[]| |]|]; try done. by injection Hs as <-.
  - destruct (s_clients s !! c) as [[|r cli k start resent|]|]; try done. injection Hs as <-.
    destruct ex; [|done]. simpl. destruct (serve r (s_store s)) as [out m'] eqn:Hserve.
    eapply serve_versions; [done|exact Hserve|lia..].
  - destruct (s_clients s !! c) as [[|r cli k start resent|]|]; try done.
    destruct (serve r (s_store s)) as [out m'] eqn:Hserve. injection Hs as <-.
    eapply serve_versions; [done|exact Hserve|lia..].
  - destruct (s_clients s !! c) as [[| |r cli k start out]|]; try done. by injection Hs as <-.
  - destruct (s_sends s); [done|]. by injection Hs as <-.
  - destruct (s_clients s !! c) as [[[]| |]|]; try done.
    destruct b; [destruct (s_sends s) as [[|?]|]; try done|]; by injection Hs as <-.
  - destruct (s_clients s !! c) as [[[]| |]|]; try done.
    destruct (decide _); [|done]. by injection Hs as <-.
Qed.

Lemma linear_inv_step n e s s' :
  (Z.of_nat n + 1 < 2 ^ 64)%Z → linear_inv n s → step e s = Some s' → linear_inv (S n) s'.
Proof.
  intros Hb [HB Hlin] Hs. split; [by eapply step_versions|]. intros Hclean.
  destruct (Hlin (clean_step _ _ _ Hs Hclean)) as [lin Hok].
  destruct e as [d|c|c ex|c|c| |c b|c z].
  - exists lin. by eapply step_tick.
  - simpl in Hs. destruct (s_clients s !! c) as [[[]| |]|] eqn:Hc; try done. injection Hs as <-.
    exists lin. pose proof (lo_pend _ _ Hok c) as Hp. rewrite Hc in Hp.
    eapply lin_ok_quiet; try done; [simpl; lia|by left].
  - eapply step_lose; try done; lia.
  - eapply step_exec; done.
  - by eapply step_return.
  - simpl in Hs. destruct (s_sends s); [done|]. injection Hs as <-. exists lin.
    destruct Hok. by split.
  - simpl in Hs. destruct (s_clients s !! c) as [[[]| |]|] eqn:Hc; try done.
    pose proof (lo_pend _ _ Hok c) as Hp. rewrite Hc in Hp. exists lin.
    destruct b; [destruct (s_sends s) as [[|?]|]; try done|]; injection Hs as <-;
      (eapply lin_ok_quiet; done).
  - simpl in Hs. destruct (s_clients s !! c) as [[[]| |]|] eqn:Hc; try done.
    destruct (decide _); [|done]. injection Hs as <-. exists lin.
    pose proof (lo_pend _ _ Hok c) as Hp. rewrite Hc in Hp. eapply lin_ok_quiet; done.
Qed.

(** ** When no call is in progress *)

Definition quiet (s : sys A) : Prop := ∀ c st, s_clients s !! c = Some st → ∃ p, st = CS_run p.

Lemma quiet_done lin s : lin_ok lin s → quiet s → done lin = lin.
Proof.
  intros Hok Hq. apply filter_id. intros a Ha.
  destruct (sl_who a) as [c|] eqn:Hc; [|done]. exfalso.
  assert (a ∈ pend c lin) as Hin by by apply list_elem_of_filter.
  assert (pend c lin = []) as Hnil.
  { pose proof (lo_pend _ _ Hok c) as Hp. destruct (s_clients s !! c) as [st|] eqn:Hst; [|done].
    by destruct (Hq c st Hst) as [p ->]. }
  rewrite Hnil in Hin. by apply elem_of_nil in Hin.
Qed.

Lemma lin_ok_linearizable lin s : lin_ok lin s → quiet s → linearizable (s_log s).
Proof.
  intros Hok Hq. pose proof (quiet_done lin s Hok Hq) as Hdone.
  destruct Hok as [Hs Ht Hd Hr Hp Hst Hm]. exists (sl_op <$> lin). split_and!.
  - by rewrite Hdone in Hd.
  - intros i j a b Hij Hi Hj.
    apply list_lookup_fmap_Some in Hi as (x & -> & Hi).
    apply list_lookup_fmap_Some in Hj as (y & -> & Hj).
    rewrite Forall_forall in Ht, Hr.
    pose proof (Ht x (list_elem_of_lookup_2 _ _ _ Hi)) as [Hx _].
    pose proof (list_elem_of_lookup_2 _ _ _ Hj) as Hyin.
    assert (sl_time x ≤ sl_time y)%Z.
    { eapply (StronglySorted_lookup_lt _ _ _ _ _ _ Hs Hij Hi Hj). }
    enough (sl_time y ≤ OpReturn (sl_op y))%Z by lia. apply Hr; [done|].
    rewrite <-Hdone in Hyin. by apply list_elem_of_filter in Hyin as [? _].
  - intros k. eapply explain_to_explains, Hm.
Qed.

(** ** A test: phases of clients, one after the other

    A phase with one client is what the test itself calls before, between and
    after [SpawnClientsAndWait]. *)
Definition next_phase (n : nat) (fn : nat → prog A) (s : sys A) : sys A :=
  mkSys (s_store s) ((λ c, CS_run (fn c)) <$> seq 0 n) (s_log s) (s_now s) None.

Definition returned (s : sys A) : option (list A) := mapM result_of (s_clients s).

Fixpoint run_phases (phases : list (nat * (nat → prog A) * list event)) (s : sys A)
    : option (sys A) :=
  match phases with
  | [] => Some s
  | (n, fn, tr) :: phases =>
      s ← run tr (next_phase n fn s);
      _ ← returned s;
      run_phases phases s
  end.

Definition steps_of (phases : list (nat * (nat → prog A) * list event)) : nat :=
  sum_list_with (λ '(_, _, tr), length tr) phases.

Definition start (now : Z) : sys A := mkSys ∅ [] [] now None.

Lemma returned_quiet s rs : returned s = Some rs → quiet s.
Proof.
  intros Hr c st Hc. unfold returned in Hr. apply mapM_Some in Hr.
  destruct (Forall2_lookup_l _ _ _ _ _ Hr Hc) as (a & _ & Ha). simpl in Ha.
  destruct st as [p| |]; [by eexists|done..].
Qed.

(** A quiet system takes over its linearization. *)
Lemma lin_ok_next_phase lin s n fn : lin_ok lin s → quiet s → lin_ok lin (next_phase n fn s).
Proof.
  intros Hok Hq. pose proof (quiet_done _ _ Hok Hq) as Hdone. destruct Hok.
  split; try done; simpl.
  - intros c. assert (pend c lin = []) as ->.
    { rewrite <-Hdone. unfold pend, done. rewrite list_filter_filter. apply filter_nil_all.
      intros a _ []. congruence. }
    destruct (((λ c0 : nat, CS_run (fn c0)) <$> seq 0 n) !! c) as [st|] eqn:Hc; [|done].
    by apply list_lookup_fmap_Some in Hc as (x & -> & _).
  - intros c st Hc. by apply list_lookup_fmap_Some in Hc as (x & -> & _).
Qed.

Lemma quiet_clean s :
  quiet s → (∀ o, o ∈ s_log s → clean_op (Input o) (Output o)) → clean s.
Proof.
  intros Hq Hlog. split; [done|]. intros c r cli k st out Hc.
  destruct (Hq c _ Hc) as [p [=]].
Qed.

Lemma run_log tr : ∀ s s', run tr s = Some s' → ∀ o, o ∈ s_log s → o ∈ s_log s'.
Proof.
  induction tr as [|e tr IH]; intros s s' Hrun o Ho; [by injection Hrun as <-|].
  cbn [run] in Hrun. apply bind_Some in Hrun as (s1 & Hs & Hrun). apply (IH s1); [done|].
  destruct e as [d|c|c ex|c|c| |c b|c z]; simpl in Hs;
    repeat case_match; simplify_eq; try done. simpl. unfold Append. set_solver.
Qed.

Lemma run_phases_log phases : ∀ s s',
  run_phases phases s = Some s' → ∀ o, o ∈ s_log s → o ∈ s_log s'.
Proof.
  induction phases as [|[[n fn] tr] phases IH]; intros s s' Hrun o Ho; [by injection Hrun as <-|].
  cbn [run_phases] in Hrun. apply bind_Some in Hrun as (s1 & Hr & Hrun).
  apply bind_Some in Hrun as (rs & _ & Hrun). apply (IH s1); [done|].
  by apply (run_log _ _ _ Hr).
Qed.

Lemma phases_linear phases : ∀ n s s',
  (Z.of_nat (n + steps_of phases) < 2 ^ 64)%Z →
  versions_le (Z.of_nat n) (s_store s) → quiet s → (∃ lin, lin_ok lin s) →
  run_phases phases s = Some s' →
  (∀ o, o ∈ s_log s' → clean_op (Input o) (Output o)) →
  quiet s' ∧ ∃ lin, lin_ok lin s'.
Proof.
  induction phases as [|[[k fn] tr] phases IH]; intros n s s' Hb Hver Hq [lin Hok] Hrun Hclean.
  { by injection Hrun as <-; eauto. }
  cbn [run_phases] in Hrun. apply bind_Some in Hrun as (s1 & Hr & Hrun).
  apply bind_Some in Hrun as (rs & Hrs & Hrun).
  assert (steps_of ((k, fn, tr) :: phases) = length tr + steps_of phases) as Hsteps by done.
  rewrite Hsteps in Hb.
  assert (linear_inv (n + length tr) s1) as [Hver1 Hlin1].
  { eapply (run_invariant (λ _, True) linear_inv (n + length tr));
      [|by apply Forall_true|split; [|]|done|exact Hr].
    - intros m e t t' Hm _. apply linear_inv_step. lia.
    - done.
    - intros _. exists lin. by apply lin_ok_next_phase. }
  pose proof (returned_quiet _ _ Hrs) as Hq1.
  eapply (IH (n + length tr)); try done; [lia|].
  apply Hlin1, quiet_clean; [done|]. intros o Ho. by eapply Hclean, run_phases_log.
Qed.

(** The history of a test is linearizable. *)
Lemma phases_linearizable phases now s :
  (Z.of_nat (steps_of phases) < 2 ^ 64)%Z → run_phases phases (start now) = Some s →
  (∀ o, o ∈ s_log s → clean_op (Input o) (Output o)) → linearizable (s_log s).
Proof.
  intros Hb Hrun Hclean.
  destruct (phases_linear phases 0 (start now) s) as (Hq & lin & Hok); try done.
  - exists []. split; try done; by constructor.
  - by eapply lin_ok_linearizable.
Qed.
End linear.
