(* ===== verification/Porcupine.v ===== *)
(** * The linearizability check of a test: [kvtest1/porcupine.go], lines 84-140

    The checker is the porcupine library; what is used of it is its
    documentation: a history it calls illegal is not linearizable. *)

From S2P Require Export Annotation.
From S2P Require Export Linear.
#[local] Set Default Proof Using "Type".

(** [porcupine.CheckResult]. *)
Inductive CheckResult := Ok | Unknown | Illegal.

(** In nanoseconds. *)
Definition linearizabilityCheckTimeout : Z := 1000000000.

Section porcupine.
(** [porcupine.CheckOperationsVerbose] of the model, on a history with a time
    limit. *)
Context (CheckOperations : list Operation → Z → CheckResult).
Context (clock : nat → Z).

(** The files drawn are the result: [enabled] is VIS_ENABLE, [opens] whether the
    file can be created. *)
Definition checkPorcupine (enabled : string) (opens : bool) (opLog : OpLog) (nsec : Z)
    : M Annotation.world (option (list pannotation)) :=
  match CheckOperations (Read opLog) nsec with
  | Illegal =>
      _ ← (if negb opens then mret tt
           else if bool_decide (enabled ≠ "never") then
             _ ← FinalizeAnnotations clock "test failed"; mret tt
           else mret tt);
      lift (Fatal "history is not linearizable")
  | _ =>
      fin ← GetAnnotationFinalized;
      if bool_decide (enabled = "always") && fin then
        if negb opens then mret None
        else annotations ← FinalizeAnnotations clock "test passed"; mret (Some annotations)
      else mret None
  end.

Definition CheckPorcupineT (enabled : string) (opens : bool) (opLog : OpLog) (nsec : Z)
    : M Annotation.world (option (list pannotation)) :=
  checkPorcupine enabled opens opLog nsec.
Definition CheckPorcupine (enabled : string) (opens : bool) (opLog : OpLog)
    : M Annotation.world (option (list pannotation)) :=
  CheckPorcupineT enabled opens opLog linearizabilityCheckTimeout.

(** The documentation of the checker. *)
Definition checker_sound : Prop := ∀ h nsec, linearizable h → CheckOperations h nsec ≠ Illegal.

(** A test that is not refused draws its history only if the annotations were
    finalized before. *)
Lemma checkPorcupine_not_refused enabled opens h nsec w :
  CheckOperations h nsec ≠ Illegal →
  wp (checkPorcupine enabled opens h nsec)
    (λ drawn _, is_Some drawn → finalized (an w) = true) w.
Proof.
  intros Hok. unfold checkPorcupine, Read.
  assert (wp (fin ← GetAnnotationFinalized;
      if bool_decide (enabled = "always") && fin then
        if negb opens then mret None
        else annotations ← FinalizeAnnotations clock "test passed"; mret (Some annotations)
      else mret None) (λ drawn _, is_Some drawn → finalized (an w) = true) w) as Hrest.
  { apply wp_bind, wp_gets. destruct (finalized (an w)) eqn:Hfin.
    - case_bool_decide; simpl; [|by apply wp_mret]. by destruct opens.
    - rewrite andb_false_r. apply wp_mret. by intros [? [=]]. }
  destruct (CheckOperations h nsec); done.
Qed.

(** Over the abstract channel the check fails no test of the service.  Whatever the
    clients of a test do, in phases of any number of concurrent clients, however
    their calls interleave and whatever requests and replies are lost, the
    history that the test logged is linearizable for the model of the checker,
    and [checkPorcupine] returns; the only exception are puts that made up a
    version for a missing key, whose answer [ErrNoKey] the model refuses. *)
Lemma checkPorcupine_passes {A : Type} (phases : list (nat * (nat → prog A) * list event))
    (now : Z) (s : sys A) (enabled : string) (opens : bool) (nsec : Z) (w : Annotation.world) :
  checker_sound →
  (Z.of_nat (steps_of phases) < 2 ^ 64)%Z → run_phases phases (Linear.start now) = Some s →
  (∀ o, o ∈ s_log s → in_Op (Input o) = 1%Z → out_Err (Output o) ≠ ErrNoKey) →
  linearizable (s_log s) ∧
  wp (checkPorcupine enabled opens (s_log s) nsec) (λ _ _, True) w.
Proof.
  intros Hsound Hb Hrun Hclean.
  pose proof (phases_linearizable phases now s Hb Hrun Hclean) as Hlin. split; [done|].
  eapply wp_mono; [by apply checkPorcupine_not_refused, Hsound|]. done.
Qed.
End porcupine.

(** ** A checker

    Trying every order of a history; small histories only. *)

Fixpoint real_timeb (h : list Operation) : bool :=
  match h with
  | [] => true
  | a :: h => forallb (λ b, (OpCall a <=? OpReturn b)%Z) h && real_timeb h
  end.

Definition valid_order (h : list Operation) : bool :=
  real_timeb h &&
  forallb (λ k, explains Init (io <$> filter (λ o, op_key o = k) h)) (op_key <$> h).

Definition brute_force (h : list Operation) (nsec : Z) : CheckResult :=
  if existsb valid_order (permutations h) then Ok else Illegal.

Lemma real_timeb_true h : real_time h → real_timeb h = true.
Proof.
  induction h as [|a h IH]; intros H; [done|]. simpl. apply andb_true_iff. split.
  - apply forallb_forall. intros b Hb%list_elem_of_In. apply list_elem_of_lookup in Hb as [j Hj].
    apply Z.leb_le. by apply (H 0 (S j) a b); [lia|..].
  - apply IH. intros i j x y Hij Hi Hj. by apply (H (S i) (S j)); [lia|..].
Qed.

Lemma brute_force_sound : checker_sound brute_force.
Proof.
  intros h nsec (h' & Hperm & Hrt & Hexp). unfold brute_force.
  assert (existsb valid_order (permutations h) = true) as ->; [|done].
  apply existsb_exists. exists h'. split.
  - apply list_elem_of_In, permutations_Permutation. done.
  - unfold valid_order. rewrite real_timeb_true by done. simpl. apply forallb_forall. intros k _.
    apply Hexp.
Qed.

(** Two puts and a get race after a first put; the reply to one of the puts gets
    lost, so that its client learns [ErrMaybe] although the put was done. *)
Definition race_fn (c : nat) : prog unit :=
  match c with
  | O => _ ← pPut "k" "b" 1 0; P_ret tt
  | 1 => _ ← pPut "k" "c" 1 1; P_ret tt
  | _ => _ ← pGet "k" 2; P_ret tt
  end.
Definition race : list (nat * (nat → prog unit) * list event) :=
  [(1, (λ _, _ ← pPut "k" "a" 0 (-1); P_ret tt),
    [E_begin 0; E_tick 5; E_exec 0; E_tick 5; E_return 0; E_tick 5]);
   (3, race_fn,
    [E_begin 0; E_begin 1; E_tick 1; E_lose 0 true; E_begin 2; E_exec 2; E_tick 1; E_return 2;
     E_exec 1; E_return 1; E_tick 1; E_exec 0; E_return 0])].

Definition race_log : list Operation :=
  [mkOp (-1) (mkIn 1 "k" "a" 0) 7 (mkOut "" 0 OK) 17;
   mkOp 2 (mkIn 0 "k" "" 0) 23 (mkOut "b" 2 OK) 24;
   mkOp 1 (mkIn 1 "k" "c" 1) 22 (mkOut "" 0 ErrVersion) 24;
   mkOp 0 (mkIn 1 "k" "b" 1) 22 (mkOut "" 0 ErrMaybe) 25].

Lemma checkPorcupine_passes_witness :
  brute_force race_log 1000 = Ok ∧
  linearizable race_log ∧
  wp (checkPorcupine brute_force sample_clock "" true race_log 1000) (λ _ _, True) sample_world.
Proof.
  split; [by vm_compute|].
  assert (s_log <$> run_phases race (Linear.start 7) = Some race_log) as Hlog
    by (vm_compute; reflexivity).
  destruct (run_phases race (Linear.start 7)) as [s|] eqn:Hrun; [|discriminate Hlog].
  cbn in Hlog. injection Hlog as Hlog. rewrite <-Hlog.
  apply (checkPorcupine_passes brute_force sample_clock race 7 s "" true 1000 sample_world).
  - apply brute_force_sound.
  - vm_compute. reflexivity.
  - exact Hrun.
  - rewrite Hlog. assert (Forall (λ o, out_Err (Output o) ≠ ErrNoKey) race_log) as H
      by (repeat constructor; discriminate).
    intros o Ho _. rewrite Forall_forall in H. by apply H.
Defined.

(** The checker is not blind: a get of a value nobody put is refused. *)
Example brute_force_refuses :
  brute_force [mkOp 0 (mkIn 0 "k" "" 0) 1 (mkOut "x" 1 OK) 2] 1000 = Illegal.
Proof. by vm_compute. Qed.
