(* ===== verification/Networked.v ===== *)
(** * The key/value tests over the simulated network: [labrpc/labrpc.go] under
    [kvsrv1/client.go], [kvsrv1/server.go] and [kvsrv1/rpc/rpc.go]

    In Concurrent.v a request or a reply may be lost at any time.  Here the same
    clients call the service through the network of Labrpc.v, in which every
    request has goroutines of its own that are delayed, reordered and dropped; the
    system refines that of Concurrent.v, so that what is proved of histories and of
    races there holds over the network. *)

From S2P Require Export Porcupine.
#[local] Set Default Proof Using "Type".

(** ** The messages of [rpc.go] and the service *)

Record PutArgs := mkPutArgs { pa_Key : string; pa_Value : string; pa_Version : Tversion }.
Record PutReply := mkPutReply { pr_Err : Err }.
Record GetArgs := mkGetArgs { ga_Key : string }.
Record GetReply := mkGetReply { gr_Value : string; gr_Version : Tversion; gr_Err : Err }.

(** The Go values that reflection sees, and their types; the receiver is one. *)
Inductive kv_val :=
| V_PutArgs (a : PutArgs) | V_PutReply (r : PutReply)
| V_GetArgs (a : GetArgs) | V_GetReply (r : GetReply) | V_KVServer.
Inductive kv_ty := T_PutArgs | T_PutReply | T_GetArgs | T_GetReply | T_KVServer.

#[export] Instance kv_ty_eq_dec : EqDecision kv_ty.
Proof. solve_decision. Defined.

Definition kv_type_of (v : kv_val) : kv_ty :=
  match v with
  | V_PutArgs _ => T_PutArgs | V_PutReply _ => T_PutReply
  | V_GetArgs _ => T_GetArgs | V_GetReply _ => T_GetReply | V_KVServer => T_KVServer
  end.
Definition kv_zero_of (T : kv_ty) : kv_val :=
  match T with
  | T_PutArgs => V_PutArgs (mkPutArgs "" "" 0) | T_PutReply => V_PutReply (mkPutReply "")
  | T_GetArgs => V_GetArgs (mkGetArgs "") | T_GetReply => V_GetReply (mkGetReply "" 0 "")
  | T_KVServer => V_KVServer
  end.

(** ** What students write

    [kvsrv1/server.go] and [kvsrv1/client.go] declare the server and the clerk and
    document them; the bodies are not in the repository.  They are parameters: a
    state of the server of any type, from which the keys with their values and
    versions can be read, two handlers, and what a clerk does after an RPC. *)

Class KVServer (W : Type) := {
  kv_Get : W → GetArgs → GetReply → W * GetReply;
  kv_Put : W → PutArgs → PutReply → W * PutReply;
  kv_map : W → kvstore
}.

(** The comments of [kvsrv1/server.go]: "Get returns the value and version for
    args.Key, if args.Key exists. Otherwise, Get returns ErrNoKey"; "Update the value
    for a key if args.Version matches the version of the key on the server. If
    versions don't match, return ErrVersion. If the key doesn't exist, Put installs
    the value if the args.Version is 0, and returns ErrNoKey otherwise".  An update
    increments the version, as [models1/kv.go] has it; where there is no value, the
    reply keeps its zero values. *)
Class KVServerDoc (W : Type) `{KVServer W} := {
  Get_keeps w a r : kv_map (kv_Get w a r).1 = kv_map w;
  Get_found w key v ver : kv_map w !! key = Some (v, ver) →
    (kv_Get w (mkGetArgs key) (mkGetReply "" 0 "")).2 = mkGetReply v ver OK;
  Get_missing w key : kv_map w !! key = None →
    (kv_Get w (mkGetArgs key) (mkGetReply "" 0 "")).2 = mkGetReply "" 0 ErrNoKey;
  Put_matches w key value ver v : kv_map w !! key = Some (v, ver) →
    let '(w', r) := kv_Put w (mkPutArgs key value ver) (mkPutReply "") in
    kv_map w' = <[key := (value, ver_incr ver)]> (kv_map w) ∧ r = mkPutReply OK;
  Put_differs w key value ver v cur : kv_map w !! key = Some (v, cur) → cur ≠ ver →
    let '(w', r) := kv_Put w (mkPutArgs key value ver) (mkPutReply "") in
    kv_map w' = kv_map w ∧ r = mkPutReply ErrVersion;
  Put_installs w key value : kv_map w !! key = None →
    let '(w', r) := kv_Put w (mkPutArgs key value 0) (mkPutReply "") in
    kv_map w' = <[key := (value, 1%Z)]> (kv_map w) ∧ r = mkPutReply OK;
  Put_missing w key value ver : kv_map w !! key = None → ver ≠ 0%Z →
    let '(w', r) := kv_Put w (mkPutArgs key value ver) (mkPutReply "") in
    kv_map w' = kv_map w ∧ r = mkPutReply ErrNoKey
}.

(** [ck_next r n rep]: a clerk has sent the request [r] and [n] RPCs before were
    lost; the last one returned [rep], or was lost ([None]).  The result is what the
    call of the clerk returns, or [None] if it sends the request again. *)
Class KVClerk := ck_next : request → nat → option KvOutput → option KvOutput.

(** The comments of [kvsrv1/client.go]: "It keeps trying forever in the face of all
    other errors"; "If Put receives an ErrVersion on its first RPC, Put should return
    ErrVersion"; "If the server returns ErrVersion on a resend RPC, then Put must
    return ErrMaybe to the application". *)
Class KVClerkDoc `{KVClerk} := {
  clerk_lost r n : ck_next r n None = None;
  clerk_Get key n v ver e : e = OK ∨ e = ErrNoKey →
    ck_next (R_get key) n (Some (mkOut v ver e)) = Some (mkOut v ver e);
  clerk_Put key value ver n e : e = OK ∨ e = ErrNoKey →
    ck_next (R_put key value ver) n (Some (mkOut "" 0 e)) = Some (mkOut "" 0 e);
  clerk_Put_first key value ver :
    ck_next (R_put key value ver) 0 (Some (mkOut "" 0 ErrVersion)) = Some (mkOut "" 0 ErrVersion);
  clerk_Put_resent key value ver n :
    ck_next (R_put key value ver) (S n) (Some (mkOut "" 0 ErrVersion)) = Some (mkOut "" 0 ErrMaybe)
}.

(** The handlers by reflection: they take pointers. *)
Section methods.
Context {W : Type} `{KS : KVServer W}.

Definition handler_Get (w : W) (args reply : kv_val) : outcome (W * kv_val) :=
  match args, reply with
  | V_GetArgs a, V_GetReply r => let '(w, r) := kv_Get w a r in Ret (w, V_GetReply r)
  | _, _ => Panic "reflect: Call using wrong type"
  end.
Definition handler_Put (w : W) (args reply : kv_val) : outcome (W * kv_val) :=
  match args, reply with
  | V_PutArgs a, V_PutReply r => let '(w, r) := kv_Put w a r in Ret (w, V_PutReply r)
  | _, _ => Panic "reflect: Call using wrong type"
  end.

Definition kv_methods : list (@Method kv_val kv_ty W) :=
  [mkMethod "Get" "" [(true, T_KVServer); (true, T_GetArgs); (true, T_GetReply)] 0 handler_Get;
   mkMethod "Kill" "" [(true, T_KVServer)] 0 (λ w _ r, Ret (w, r));
   mkMethod "Put" "" [(true, T_KVServer); (true, T_PutArgs); (true, T_PutReply)] 0 handler_Put].
(** [labrpc.MakeService(kv)] *)
Definition kv_service : @Service kv_val kv_ty W := MakeService "KVServer" kv_methods.

(** The handlers serve requests as the abstract service of Concurrent.v does. *)
Context `{KD : !KVServerDoc W}.

Lemma kv_Get_serve w key :
  let '(w', r) := kv_Get w (mkGetArgs key) (mkGetReply "" 0 "") in
  kv_map w' = kv_map w ∧ mkOut (gr_Value r) (gr_Version r) (gr_Err r) = (serve (R_get key) (kv_map w)).1.
Proof using KD.
  pose proof (Get_keeps w (mkGetArgs key) (mkGetReply "" 0 "")) as Hk.
  pose proof (Get_found w key) as Hf. pose proof (Get_missing w key) as Hn.
  destruct (kv_Get _ _ _) as [w' r]. simpl in *. split; [done|]. unfold serve, srv_op, srv_Get. simpl.
  destruct (kv_map w !! key) as [[v ver]|]; [by rewrite (Hf v ver)|by rewrite Hn].
Qed.

Lemma kv_Put_serve w key value ver :
  let '(w', r) := kv_Put w (mkPutArgs key value ver) (mkPutReply "") in
  kv_map w' = (serve (R_put key value ver) (kv_map w)).2 ∧
  mkOut "" 0 (pr_Err r) = (serve (R_put key value ver) (kv_map w)).1.
Proof using KD.
  unfold serve. rewrite srv_op_put. unfold srv_Put.
  destruct (kv_map w !! key) as [[v cur]|] eqn:Hk.
  - destruct (decide (cur = ver)) as [->|Hne].
    + pose proof (Put_matches w key value ver v Hk) as H. destruct (kv_Put _ _ _).
      by destruct H as [-> ->].
    + pose proof (Put_differs w key value ver v cur Hk Hne) as H. destruct (kv_Put _ _ _).
      by destruct H as [-> ->].
  - destruct (decide (ver = 0%Z)) as [->|Hne].
    + pose proof (Put_installs w key value Hk) as H. destruct (kv_Put _ _ _).
      by destruct H as [-> ->].
    + pose proof (Put_missing w key value ver Hk Hne) as H. destruct (kv_Put _ _ _).
      by destruct H as [-> ->].
Qed.
End methods.

(** A clerk answers as the abstract one. *)
Lemma clerk_answers `{CK : KVClerk} `{CD : !KVClerkDoc} r n m :
  ck_next r n (Some (serve r m).1) = Some (answer r (0 <? n) (serve r m).1).
Proof.
  destruct r as [key|key value ver]; simpl.
  - unfold serve, srv_op, srv_Get. simpl. destruct (m !! key) as [[v cur]|]; apply clerk_Get; auto.
  - unfold serve. rewrite srv_op_put. destruct (srv_Put m key value ver) as [e m'] eqn:Hp. simpl.
    destruct (srv_Put_cases m key value ver) as [[H _]|[[H _]|[H _]]];
      rewrite Hp in H; injection H as -> _.
    + rewrite clerk_Put by auto. by case_decide as Hd; [destruct Hd|].
    + destruct n as [|n]; [rewrite clerk_Put_first|rewrite clerk_Put_resent]; case_decide as Hd; try done.
      * by destruct Hd.
      * by destruct Hd.
    + rewrite clerk_Put by auto. by case_decide as Hd; [destruct Hd|].
Qed.

(** ** The RPCs of a clerk *)

(** The arguments of [ck.clnt.Call] for a request. *)
Definition rpc_name (r : request) : string :=
  match r with R_get _ => "Get" | R_put _ _ _ => "Put" end.
Definition rpc_meth (r : request) : string := "KVServer" +:+ String dot_byte (rpc_name r).
Definition rpc_args (r : request) : kv_val :=
  match r with
  | R_get key => V_GetArgs (mkGetArgs key)
  | R_put key value ver => V_PutArgs (mkPutArgs key value ver)
  end.
Definition rpc_zero (r : request) : kv_val :=
  match r with R_get _ => kv_zero_of T_GetReply | R_put _ _ _ => kv_zero_of T_PutReply end.
(** What is logged of a reply. *)
Definition rpc_out (v : kv_val) : KvOutput :=
  match v with
  | V_GetReply r => mkOut (gr_Value r) (gr_Version r) (gr_Err r)
  | V_PutReply r => mkOut "" 0 (pr_Err r)
  | _ => mkOut "" 0 ""
  end.

Section network.
Context {W : Type} `{KS : KVServer W} `{KD : !KVServerDoc W} `{CK : KVClerk} `{CD : !KVClerkDoc}.
(** [encoding/gob] on these values. *)
Context (enc : kv_val → list Z * bool) (dec : kv_val → list Z → kv_val * bool).

Definition kv_values : GoValues kv_val kv_ty :=
  {| type_of := kv_type_of; zero_of := kv_zero_of; gob_encode := enc; gob_decode := dec |}.
#[local] Existing Instance kv_values.
Abbreviation net := (@Labrpc.sys kv_val kv_ty W).
Abbreviation kreq := (@greq kv_val kv_ty W).

(** The end that the clerk of a client has to the server. *)
Context (end_of : nat → iface).

Section system.
Context {A : Type}.

(** ** State

    [NC_call]: the clerk is about to send, and [lost] RPCs of the call were lost;
    [NC_wait]: it waits in [Call] for the answer to the network's request [id]. *)
Inductive nclient :=
| NC_run (p : prog A)
| NC_call (r : request) (cli : Z) (k : KvOutput → prog A) (start : Z) (lost : nat)
| NC_wait (r : request) (cli : Z) (k : KvOutput → prog A) (start : Z) (lost : nat) (id : nat)
| NC_reply (r : request) (cli : Z) (k : KvOutput → prog A) (start : Z) (out : KvOutput).

Record nsys := mkNsys {
  n_net : net;
  n_clients : list nclient;
  n_log : list Operation;
  n_now : Z;
  n_sends : option nat
}.

Definition nset_client (c : nat) (st : nclient) (s : nsys) : nsys :=
  mkNsys (n_net s) (<[c := st]> (n_clients s)) (n_log s) (n_now s) (n_sends s).
Definition nset_net (m : net) (s : nsys) : nsys :=
  mkNsys m (n_clients s) (n_log s) (n_now s) (n_sends s).
Definition nset_sends (o : option nat) (s : nsys) : nsys :=
  mkNsys (n_net s) (n_clients s) (n_log s) (n_now s) o.
Definition nadd_log (op : Operation) (s : nsys) : nsys :=
  mkNsys (n_net s) (n_clients s) (Append op (n_log s)) (n_now s) (n_sends s).

(** ** Steps *)

Inductive nevent :=
| NE_tick (d : Z)
| NE_begin (c : nat)
| NE_send (c id : nat)               (* [Call] hands its request to the network *)
| NE_net (a : action (Ty := kv_ty))  (* a goroutine of the network, or the tester *)
| NE_answer (c : nat)                (* [Call] returns *)
| NE_return (c : nat)
| NE_stop
| NE_poll (c : nat) (b : bool)
| NE_rand (c : nat) (z : Z).

Definition client_request (c : nat) (r : request) : outcome (reqMsg (Ty := kv_ty)) :=
  Call_request (mkClientEnd (end_of c)) (rpc_meth r) (true, rpc_args r).

Definition nstep (e : nevent) (s : nsys) : option nsys :=
  match e with
  | NE_tick d =>
      if decide (0 ≤ d)%Z then
        Some (mkNsys (n_net s) (n_clients s) (n_log s) (n_now s + d)%Z (n_sends s))
      else None
  | NE_begin c =>
      match n_clients s !! c with
      | Some (NC_run (P_call r cli k)) => Some (nset_client c (NC_call r cli k (n_now s) 0) s)
      | _ => None
      end
  | NE_send c id =>
      match n_clients s !! c with
      | Some (NC_call r cli k start lost) =>
          match client_request c r with
          | Ret req =>
              match Labrpc.step (A_accept id req) (n_net s) with
              | Some (Ret m) => Some (nset_client c (NC_wait r cli k start lost id) (nset_net m s))
              | _ => None
              end
          | _ => None
          end
      | _ => None
      end
  | NE_net (A_accept _ _) | NE_net (A_refuse _ _) => None
  | NE_net a =>
      match Labrpc.step a (n_net s) with
      | Some (Ret m) => Some (nset_net m s)
      | _ => None
      end
  | NE_answer c =>
      match n_clients s !! c with
      | Some (NC_wait r cli k start lost id) =>
          g ← s_reqs (n_net s) !! id;
          match g_pc g with
          | P_done rep =>
              match Call_result rep (rpc_zero r) with
              | Ret (good, v) =>
                  match ck_next r lost (if (good : bool) then Some (rpc_out v) else None) with
                  | Some out => Some (nset_client c (NC_reply r cli k start out) s)
                  | None => Some (nset_client c (NC_call r cli k start (S lost)) s)
                  end
              | _ => None
              end
          | _ => None
          end
      | _ => None
      end
  | NE_return c =>
      match n_clients s !! c with
      | Some (NC_reply r cli k start out) =>
          Some (nset_client c (NC_run (k out))
                  (nadd_log (mkOp cli (inp_of r) start out (n_now s)) s))
      | _ => None
      end
  | NE_stop =>
      match n_sends s with
      | None => Some (nset_sends (Some (length (n_clients s))) s)
      | Some _ => None
      end
  | NE_poll c b =>
      match n_clients s !! c with
      | Some (NC_run (P_poll k)) =>
          if (b : bool) then
            match n_sends s with
            | Some (S n) => Some (nset_sends (Some n) (nset_client c (NC_run (k true)) s))
            | _ => None
            end
          else Some (nset_client c (NC_run (k false)) s)
      | _ => None
      end
  | NE_rand c z =>
      match n_clients s !! c with
      | Some (NC_run (P_rand k)) =>
          if decide (0 ≤ z)%Z then Some (nset_client c (NC_run (k z)) s) else None
      | _ => None
      end
  end.

Fixpoint nrun (tr : list nevent) (s : nsys) : option nsys :=
  match tr with
  | [] => Some s
  | e :: tr => s ← nstep e s; nrun tr s
  end.

(** ** A test: phases of clients over one network *)

Definition nresult_of (st : nclient) : option A :=
  match st with NC_run (P_ret a) => Some a | _ => None end.
Definition nreturned (s : nsys) : option (list A) := mapM nresult_of (n_clients s).

Definition nnext_phase (n : nat) (fn : nat → prog A) (s : nsys) : nsys :=
  mkNsys (n_net s) ((λ c, NC_run (fn c)) <$> seq 0 n) (n_log s) (n_now s) None.

Fixpoint nrun_phases (phases : list (nat * (nat → prog A) * list nevent)) (s : nsys)
    : option nsys :=
  match phases with
  | [] => Some s
  | (n, fn, tr) :: phases =>
      s ← nrun tr (nnext_phase n fn s);
      _ ← nreturned s;
      nrun_phases phases s
  end.

Definition nstart (m : net) (now : Z) : nsys := mkNsys m [] [] now None.

(** [SpawnClientsAndWait] on its own. *)
Definition ncollect_results (s : nsys) : option (list A) :=
  match n_sends s with Some O => nreturned s | _ => None end.
Definition nSpawnClientsAndWait (n : nat) (fn : nat → prog A) (m : net) (now : Z)
    (tr : list nevent) : option (list A * nsys) :=
  s ← nrun tr (nnext_phase n fn (nstart m now));
  rs ← ncollect_results s;
  Some (rs, s).
End system.

(** ** The server stays reachable

    The network is as the tester set it up: the ends are enabled and connected to
    the server [p], registered under the name [n].  The tester may change anything
    else: make the network lose, delay or reorder messages, use other ends and
    servers. *)
Context (n : name) (p : sptr).

Definition wired (m : net) : Prop :=
  (∀ c, is_enabled (s_net m) (end_of c) = true ∧ connection (s_net m) (end_of c) = Some n) ∧
  server_at (s_net m) (Some n) = Some p ∧
  ∃ rs, s_heap m !! p = Some rs ∧ services rs !! "KVServer" = Some kv_service.

Definition calm (a : action (Ty := kv_ty)) : Prop :=
  match a with
  | A_net (O_makeEnd e) | A_net (O_deleteEnd e) | A_net (O_connect e _) | A_net (O_enable e _) =>
      ∀ c, end_of c ≠ e
  | A_net (O_addServer m _) | A_net (O_deleteServer m) => Some n ≠ m
  | _ => True
  end.
Definition ncalm (e : nevent) : Prop := match e with NE_net a => calm a | _ => True end.

(** Dispatching a request only counts it. *)
Lemma step_services a (m m' : net) rs :
  Labrpc.step a m = Some (Ret m') → s_heap m !! p = Some rs →
  ∃ rs', s_heap m' !! p = Some rs' ∧ services rs' = services rs.
Proof.
  intros Hs Hh. destruct a; cbn [Labrpc.step] in Hs; unfold mbind, option_bind, outcome_bind in Hs;
    repeat case_match; simplify_eq/=; eauto.
  match goal with H : dispatch_lookup _ _ = _ |- _ => rename H into Hd end.
  match goal with |- context [<[?q := _]> _ !! _] => destruct (decide (q = p)) as [->|Hne] end.
  - rewrite lookup_insert_eq. simplify_eq. eexists. split; [done|].
    unfold dispatch_lookup in Hd. by repeat case_match; simplify_eq/=.
  - rewrite lookup_insert_ne by done. eauto.
Qed.

Lemma wired_netop o m rn :
  wired m → calm (A_net o) → apply_netop o (s_net m) = Ret rn → wired (set_net (λ _, rn) m).
Proof.
  intros (He & Hs & Hh) Hc Ho. split; [|split; [|exact Hh]]; simpl.
  - intros c. specialize (He c). destruct He as [He1 He2].
    destruct o; simpl in Ho, Hc; unfold MakeEnd, DeleteEnd, Cleanup in Ho;
      repeat case_match; simplify_eq/=; try done;
      unfold is_enabled, connection in *; simpl;
      rewrite ?lookup_insert_ne, ?lookup_delete_ne by (intros Heq; by apply (Hc c)); done.
  - destruct o; simpl in Ho, Hc; unfold MakeEnd, DeleteEnd, Cleanup in Ho;
      repeat case_match; simplify_eq/=; try done;
      unfold server_at in *; simpl; rewrite ?lookup_insert_ne by done; done.
Qed.

(** What a goroutine of the network does to it. *)
Lemma step_wired a m m' :
  wired m → calm a → Labrpc.step a m = Some (Ret m') → wired m'.
Proof.
  intros Hw Hc Hs.
  assert ((∃ o, a = A_net o) ∨ ∀ o, a ≠ A_net o) as [[o ->]|Hno] by (destruct a; eauto).
  { cbn [Labrpc.step] in Hs.
    destruct (apply_netop o (s_net m)) as [rn|w|w|] eqn:Ho; simplify_eq/=.
    by eapply wired_netop. }
  destruct Hw as (He & Hsv & rs & Hh & Hsvc).
  destruct (step_net a m m' Hs Hno) as (c & b & Hnet).
  split; [|split].
  - intros i. rewrite Hnet. apply (He i).
  - rewrite Hnet. exact Hsv.
  - destruct (step_services a m m' rs Hs Hh) as (rs' & ? & Hrs). exists rs'. by rewrite Hrs.
Qed.

(** ** The life of a request *)

Context (Hgob : GobLaws kv_val kv_ty).
Context (Henc : ∀ v, v ≠ V_KVServer → (enc v).2 = true).

Definition client_msg (c : nat) (r : request) : reqMsg (Ty := kv_ty) :=
  mkReq (end_of c) (rpc_meth r) (true, kv_type_of (rpc_args r)) (enc (rpc_args r)).1.

Lemma client_request_Ret c r : client_request c r = Ret (client_msg c r).
Proof using Henc.
  clear Hgob. unfold client_request, client_msg, Call_request. cbn [gob_encode kv_values type_of fst snd].
  assert ((enc (rpc_args r)).2 = true) as H by (apply Henc; by destruct r).
  destruct (enc (rpc_args r)) as [b g]. simpl in H. by subst.
Qed.

(** The reply that carries an answer of the service. *)
Definition reply_val (r : request) (out : KvOutput) : kv_val :=
  match r with
  | R_get _ => V_GetReply (mkGetReply (out_Value out) (out_Version out) (out_Err out))
  | R_put _ _ _ => V_PutReply (mkPutReply (out_Err out))
  end.
Definition good_reply (r : request) (out : KvOutput) : replyMsg :=
  mkReply true (enc (reply_val r out)).1.
Definition is_reply (r : request) (rep : replyMsg) : Prop :=
  ∃ w, rep = good_reply r (serve r w).1.

Lemma rpc_out_serve r w : rpc_out (reply_val r (serve r w).1) = (serve r w).1.
Proof.
  destruct r as [key|key v ver]; unfold serve, srv_op; simpl;
    [destruct (srv_Get w key) as [[??]?]|destruct (srv_Put w key v ver) as [??]]; done.
Qed.

Lemma kv_service_method r :
  ∃ m, svc_methods kv_service !! rpc_name r = Some m ∧
    m_in m = [(true, T_KVServer); (true, kv_type_of (rpc_args r));
              (true, kv_type_of (rpc_zero r))] ∧
    ∀ w, ∃ w', m_func m w (rpc_args r) (rpc_zero r) =
      Ret (w', reply_val r (serve r (kv_map w)).1) ∧ kv_map w' = (serve r (kv_map w)).2.
Proof using KD.
  destruct r as [key|key v ver]; eexists; (split; [reflexivity|]); (split; [reflexivity|]); intros w.
  - pose proof (kv_Get_serve w key) as Hs. cbn [m_func handler_Get rpc_args rpc_zero kv_zero_of].
    destruct (kv_Get _ _ _) as [w' r]. destruct Hs as [Hm <-]. exists w'. simpl.
    split; [by destruct r|]. by rewrite serve_get.
  - pose proof (kv_Put_serve w key v ver) as Hs. cbn [m_func handler_Put rpc_args rpc_zero kv_zero_of].
    destruct (kv_Put _ _ _) as [w' r]. destruct Hs as [Hm <-]. exists w'. simpl.
    split; [by destruct r|done].
Qed.

(** The handler of a request serves it. *)
Lemma dispatch_serves c r w :
  ∃ w', Service_dispatch kv_service (rpc_name r) (client_msg c r) w =
    Ret (w', good_reply r (serve r (kv_map w)).1) ∧ kv_map w' = (serve r (kv_map w)).2.
Proof using KD CD Hgob Henc.
  destruct (kv_service_method r) as (m & Hm & Hin & Hf). destruct (Hf w) as (w' & Hw & Hw').
  exists w'. split; [|done].
  refine (Service_dispatch_method kv_service (rpc_name r) m (end_of c) (rpc_meth r) (rpc_args r)
    (reply_val r (serve r (kv_map w)).1) w w' true true (true, T_KVServer) _ _ _ _).
  - done.
  - rewrite Hin. by destruct r.
  - apply Henc. by destruct r.
  - rewrite <-Hw. f_equal. by destruct r.
Qed.

(** What [Call] makes of a reply. *)
Lemma Call_result_good r w :
  Call_result (good_reply r (serve r w).1) (rpc_zero r) =
  Ret (true, reply_val r (serve r w).1).
Proof using KD CD Hgob Henc.
  unfold Call_result. cbn [ok good_reply reply].
  pose proof (Hgob (reply_val r (serve r w).1)) as H. cbn [gob_encode gob_decode zero_of type_of
    kv_values] in *.
  assert (kv_zero_of (kv_type_of (reply_val r (serve r w).1)) = rpc_zero r) as Hz by by destruct r.
  rewrite Hz in H. rewrite H; [done|]. apply Henc. by destruct r.
Qed.

(** Where the request of a client may be while the server is reachable. *)
Definition info_ok (i : epinfo) : Prop :=
  i_enabled i = true ∧ i_servername i = Some n ∧ i_server i = Some p.
Definition phase_ok (r : request) (g : kreq) : Prop :=
  match g_pc g, g_h g with
  | P_start, H_none => True
  | P_info i, H_none => info_ok i
  | P_wait i, H_spawned q => info_ok i ∧ q = p
  | P_wait i, H_called svc m => info_ok i ∧ svc = kv_service ∧ m = rpc_name r
  | P_wait i, H_ret rep | P_check i (Some rep), H_end => info_ok i ∧ is_reply r rep
  | P_send rep, H_end | P_done rep, H_end => rep = no_reply ∨ is_reply r rep
  | P_send rep, H_none | P_done rep, H_none => rep = no_reply
  | _, _ => False
  end.

(** The reply that a request holds once its handler has run. *)
Definition carried (g : kreq) : replyMsg :=
  match g_pc g with
  | P_check _ (Some rep) | P_send rep | P_done rep => rep
  | _ => match g_h g with H_ret rep => rep | _ => no_reply end
  end.

(** No server that a request of a client was sent to is dead. *)
Lemma not_dead m c r i (g : kreq) :
  wired m → g_req g = client_msg c r → info_ok i → dead_now g i m = false.
Proof using Type.
  intros (He & Hs & _) Hg (_ & Hi1 & Hi2). unfold dead_now, isServerDead. rewrite Hg, Hi1, Hi2.
  cbn [req_endname client_msg]. destruct (He c) as [-> _]. rewrite Hs.
  by rewrite bool_decide_eq_true_2.
Qed.

(** The reply that was decided on. *)
Definition sent (g : kreq) : option replyMsg :=
  match g_pc g with P_send rep | P_done rep => Some rep | _ => None end.

(** A step of the goroutines of a request: the handler serves it, and every other
    step leaves the store as it is and can only lose the reply. *)
Definition served (a : action (Ty := kv_ty)) : bool :=
  match a with A_handler _ => true | _ => false end.
Record request_step (a : action (Ty := kv_ty)) (r : request) (m m' : net)
    (g g' : kreq) : Prop := {
  rs_req : g_req g' = g_req g;
  rs_phase : phase_ok r g';
  rs_exec : executed g' = executed g || served a;
  rs_sent rep : sent g = Some rep → sent g' = Some rep;
  rs_serve : served a = true → executed g = false ∧
    kv_map (s_world m') = (serve r (kv_map (s_world m))).2 ∧
    carried g' = good_reply r (serve r (kv_map (s_world m))).1;
  rs_keep : served a = false →
    s_world m' = s_world m ∧
    (executed g = true → carried g' = carried g ∨ sent g' = Some no_reply)
}.

Lemma info_ok_read m c r (g : kreq) :
  wired m → g_req g = client_msg c r →
  info_ok (readEndnameInfo (req_endname (g_req g)) (s_net m)).
Proof using Type.
  intros (He & Hs & _) ->. destruct (He c) as [Hen Hc]. unfold info_ok, readEndnameInfo.
  cbn [req_endname client_msg i_enabled i_servername i_server]. by rewrite Hen, Hc, Hs.
Qed.

(** The service has the method that a request names. *)
Lemma lookup_request m rs c r :
  wired m → s_heap m !! p = Some rs →
  dispatch_lookup (svcMeth (client_msg c r)) rs =
  (mkServer (services rs) (wrap_i64 (srv_count rs + 1)), Ret (kv_service, rpc_name r)).
Proof using Type.
  intros (_ & _ & rs' & Hrs' & Hsvc) Hrs. simplify_eq. cbn [svcMeth client_msg]. unfold rpc_meth.
  rewrite dispatch_lookup_split by by destruct r. by rewrite Hsvc.
Qed.

Lemma process_branch_ok i d req :
  info_ok i → let g : kreq := mkGreq req (P_info i) H_none in
  process_branch i d g = mkGreq req (P_send no_reply) H_none ∨
  process_branch i d g = mkGreq req (P_wait i) (H_spawned p).
Proof using Type.
  intros (_ & _ & Hp) g. destruct (process_branch_cases i d g)
    as [->|(q & -> & _ & _ & Hq)]; [by left|right]. by simplify_eq.
Qed.

Ltac request_step_tac :=
  eexists; split; [apply lookup_insert_eq|]; split; simpl; try done; eauto.

Lemma step_request a (m m' : net) id c r g :
  wired m → s_reqs m !! id = Some g → g_req g = client_msg c r → phase_ok r g →
  act_id a = Some id → Labrpc.step a m = Some (Ret m') →
  ∃ g', s_reqs m' !! id = Some g' ∧ request_step a r m m' g g'.
Proof using KD CD Hgob Henc.
  intros Hw Hg Hreq Hph Hid Hs. pose proof Hw as (_ & _ & rs & Hrs & _).
  destruct a as [i q|i q| |i|i d|i|i|i|i|i|i d|i|o]; simpl in Hid; try done; injection Hid as ->;
    cbn [Labrpc.step] in Hs; rewrite Hg in Hs; try done; cbn [mbind option_bind] in Hs;
    destruct g as [req pc h]; cbn [g_req g_pc g_h] in *; subst req;
    destruct pc as [|inf|inf|inf [rep|]|rep|rep]; try done;
    destruct h as [|q|svc meth|rep'|]; try done; unfold phase_ok in Hph; cbn [g_pc g_h] in Hph;
    cbn [g_req] in Hs.
  - injection Hs as <-. request_step_tac. by apply (info_ok_read m c r (mkGreq (client_msg c r) P_start H_none)).
  - injection Hs as <-.
    destruct (process_branch_ok inf d (client_msg c r) Hph) as [->| ->]; by request_step_tac.
  - destruct Hph as [Hi ->]. rewrite Hrs, (lookup_request m rs c r Hw Hrs) in Hs.
    injection Hs as <-. by request_step_tac.
  - destruct Hph as (Hi & -> & ->). destruct (dispatch_serves c r (s_world m)) as (w' & Hd & Hw').
    rewrite Hd in Hs. injection Hs as <-.
    request_step_tac. split; [done|]. by eexists.
  - injection Hs as <-. request_step_tac.
  - rewrite (not_dead m c r) in Hs by (done || apply Hph). injection Hs as <-.
    exists (mkGreq (client_msg c r) (P_wait inf) (H_spawned q)). split; [done|]. by split; auto.
  - rewrite (not_dead m c r) in Hs by (done || apply Hph). injection Hs as <-.
    exists (mkGreq (client_msg c r) (P_wait inf) (H_called svc meth)). split; [done|]. by split; auto.
  - rewrite (not_dead m c r) in Hs by (done || apply Hph). injection Hs as <-.
    exists (mkGreq (client_msg c r) (P_wait inf) (H_ret rep')). split; [done|]. by split; auto.
  - rewrite (not_dead m c r) in Hs by (done || apply Hph). injection Hs as <-.
    destruct (_ && _); request_step_tac; [by left|].
    right. by destruct Hph.
  - injection Hs as <-. by request_step_tac.
  - injection Hs as <-. by request_step_tac.
Qed.

(** On a reliable network no request and no reply is dropped. *)
Definition lossless_req (g : kreq) : Prop :=
  match g_pc g with
  | P_start => True
  | P_info i | P_wait i | P_check i _ => i_reliable i = true
  | P_send rep | P_done rep => ok rep = true
  end.

Lemma step_lossless a (m m' : net) id c r g g' :
  wired m → s_reqs m !! id = Some g → g_req g = client_msg c r → phase_ok r g →
  act_id a = Some id → Labrpc.step a m = Some (Ret m') → s_reqs m' !! id = Some g' →
  reliable (s_net m) = true → lossless_req g → lossless_req g'.
Proof using KD CD Hgob Henc.
  intros Hw Hg Hreq Hph Hid Hs Hg' Hrel Hl. pose proof Hw as (_ & _ & rs & Hrs & _).
  destruct a as [i q|i q| |i|i d|i|i|i|i|i|i d|i|o]; simpl in Hid; try done; injection Hid as ->;
    cbn [Labrpc.step] in Hs; rewrite Hg in Hs; try done; cbn [mbind option_bind] in Hs;
    destruct g as [req pc h]; cbn [g_req g_pc g_h] in *; subst req;
    destruct pc as [|inf|inf|inf [rep|]|rep|rep]; try done;
    destruct h as [|q|svc meth|rep'|]; try done; unfold phase_ok in Hph; cbn [g_pc g_h] in Hph;
    unfold lossless_req in Hl; cbn [g_pc] in Hl; cbn [g_req] in Hs.
  all: try (injection Hs as <-; simpl in Hg'; rewrite lookup_insert_eq in Hg'; by injection Hg' as <-).
  - injection Hs as <-. simpl in Hg'. rewrite lookup_insert_eq in Hg'. injection Hg' as <-.
    destruct Hph as (He & Hn & Hp). unfold process_branch. by rewrite He, Hn, Hp, Hl.
  - destruct Hph as [Hi ->]. rewrite Hrs, (lookup_request m rs c r Hw Hrs) in Hs.
    injection Hs as <-. simpl in Hg'. rewrite lookup_insert_eq in Hg'. by injection Hg' as <-.
  - destruct Hph as (Hi & -> & ->). destruct (dispatch_serves c r (s_world m)) as (w' & Hd & _).
    rewrite Hd in Hs. injection Hs as <-.
    simpl in Hg'. rewrite lookup_insert_eq in Hg'. by injection Hg' as <-.
  - rewrite (not_dead m c r) in Hs by (done || apply Hph). injection Hs as <-. by simplify_eq.
  - rewrite (not_dead m c r) in Hs by (done || apply Hph). injection Hs as <-. by simplify_eq.
  - rewrite (not_dead m c r) in Hs by (done || apply Hph). injection Hs as <-. by simplify_eq.
  - rewrite (not_dead m c r) in Hs by (done || apply Hph). injection Hs as <-.
    simpl in Hg'. rewrite lookup_insert_eq in Hg'. injection Hg' as <-.
    rewrite Hl. simpl. destruct Hph as [_ [w ->]]. done.
Qed.

(** ** The invariant

    A client that waits has a request of its own in the network; every other
    request is over. *)
Section refinement.
Context {A : Type}.
Abbreviation nclient := (@nclient A).
Abbreviation nsys := (@nsys A).

Definition waits (st : nclient) : option nat :=
  match st with NC_wait _ _ _ _ _ id => Some id | _ => None end.
Definition finished (g : kreq) : Prop :=
  answered g = true ∧ (g_h g = H_none ∨ g_h g = H_end).

Record ninv (m : net) (cs : list nclient) : Prop := {
  iv_wired : wired m;
  iv_wait c r cli k start lost id : cs !! c = Some (NC_wait r cli k start lost id) →
    ∃ g, s_reqs m !! id = Some g ∧ g_req g = client_msg c r ∧ phase_ok r g;
  iv_rest id g : s_reqs m !! id = Some g →
    (∃ c st, cs !! c = Some st ∧ waits st = Some id) ∨ finished g;
  iv_uniq c c' st st' id : cs !! c = Some st → cs !! c' = Some st' →
    waits st = Some id → waits st' = Some id → c = c'
}.

(** A client goes on; if it waited, its request is over. *)
Lemma ninv_set m cs c st st' :
  ninv m cs → cs !! c = Some st → waits st' = None →
  (∀ id g, waits st = Some id → s_reqs m !! id = Some g → finished g) →
  ninv m (<[c := st']> cs).
Proof using Type.
  intros Hi Hc Hst' Hfin. assert (∀ c' st1 id, <[c := st']> cs !! c' = Some st1 →
    waits st1 = Some id → c' ≠ c ∧ cs !! c' = Some st1) as Hold.
  { intros c' st1 id H Hw. apply list_lookup_insert_Some in H as [(<- & <- & _)|[? ?]]; [congruence|].
    done. }
  split; [apply Hi|..].
  - intros c' r cli k start lost id H. eapply (iv_wait _ _ Hi). by eapply Hold.
  - intros id g Hg. destruct (iv_rest _ _ Hi id g Hg) as [(c' & st1 & Hc' & Hw)|?]; [|by right].
    destruct (decide (c' = c)) as [->|Hne]; [right; simplify_eq; by eapply Hfin|].
    left. exists c', st1. by rewrite list_lookup_insert_ne.
  - intros c1 c2 st1 st2 id H1 H2 Hw1 Hw2.
    eapply (iv_uniq _ _ Hi); [by eapply Hold|by eapply Hold|done..].
Qed.

(** A goroutine that is not the last of its request has a client that waits. *)
Lemma finished_stuck a m m' id g :
  finished g → s_reqs m !! id = Some g → act_id a = Some id → 
  Labrpc.step a m = Some (Ret m') → False.
Proof using Type.
  intros [Ha Hh] Hg Hid Hs. unfold answered in Ha.
  destruct a as [i q|i q| |i|i d|i|i|i|i|i|i d|i|o]; simpl in Hid; try done; injection Hid as ->;
    cbn [Labrpc.step] in Hs; rewrite Hg in Hs; try done; cbn [mbind option_bind] in Hs;
    destruct (g_pc g); try done; by destruct Hh as [Hh|Hh]; rewrite Hh in Hs.
Qed.

Lemma step_no_reqs a (m m' : net) :
  act_id a = None → Labrpc.step a m = Some (Ret m') →
  s_reqs m' = s_reqs m ∧ s_world m' = s_world m.
Proof using Type.
  intros Hid Hs. destruct a; simpl in Hid; try done; cbn [Labrpc.step] in Hs.
  - by destruct (_ && _); simplify_eq/=.
  - destruct (apply_netop o (s_net m)); by simplify_eq/=.
Qed.

(** A step of the network belongs to a client that waits, or to no request. *)
Lemma net_step_cases a m m' cs :
  ninv m cs → (∀ id req, a ≠ A_accept id req ∧ a ≠ A_refuse id req) →
  Labrpc.step a m = Some (Ret m') →
  (act_id a = None ∧ s_reqs m' = s_reqs m ∧ s_world m' = s_world m) ∨
  ∃ id c r cli k start lost g g', act_id a = Some id ∧
    cs !! c = Some (NC_wait r cli k start lost id) ∧ s_reqs m !! id = Some g ∧
    s_reqs m' !! id = Some g' ∧ request_step a r m m' g g'.
Proof using KD CD Hgob Henc.
  intros Hi Hna Hs. destruct (act_id a) as [id|] eqn:Hid; [right|left; split; [done|]].
  2: by eapply step_no_reqs.
  destruct (s_reqs m !! id) as [g|] eqn:Hg.
  2:{ destruct a; simpl in Hid; try done; injection Hid as ->; cbn [Labrpc.step] in Hs;
      rewrite ?Hg in Hs; try done; by destruct (Hna id req). }
  destruct (iv_rest _ _ Hi id g Hg) as [(c & st & Hc & Hw)|Hf].
  2: by destruct (finished_stuck a m m' id g).
  destruct st as [|?|r cli k start lost id'|]; simpl in Hw; try done. injection Hw as ->.
  destruct (iv_wait _ _ Hi _ _ _ _ _ _ _ Hc) as (g1 & Hg1 & Hreq & Hph). simplify_eq.
  destruct (step_request a m m' id c r g (iv_wired _ _ Hi) Hg Hreq Hph Hid Hs) as (g' & Hg' & Hst).
  by exists id, c, r, cli, k, start, lost, g, g'.
Qed.

Lemma ninv_net a m m' cs :
  ninv m cs → calm a → (∀ id req, a ≠ A_accept id req ∧ a ≠ A_refuse id req) →
  Labrpc.step a m = Some (Ret m') → ninv m' cs.
Proof using KD CD Hgob Henc.
  intros Hi Hc Hna Hs. pose proof (step_wired a m m' (iv_wired _ _ Hi) Hc Hs) as Hw.
  destruct (net_step_cases a m m' cs Hi Hna Hs) as
    [(_ & Hr & _)|(id & c & r & cli & k & start & lost & g & g' & Hid & Hcl & Hg & Hg' & Hst)].
  { split; [done|..]; rewrite ?Hr; apply Hi. }
  assert (∀ id', id' ≠ id → s_reqs m' !! id' = s_reqs m !! id') as Hoth
    by (intros id' Hne; apply (step_other a m m' id' Hs); congruence).
  split; [done|..|apply Hi].
  - intros c' r' cli' k' start' lost' id' Hc'.
    destruct (iv_wait _ _ Hi _ _ _ _ _ _ _ Hc') as (g1 & Hg1 & Hreq & Hph).
    destruct (decide (id' = id)) as [->|Hne]; [|by rewrite Hoth by done; eauto].
    assert (c' = c) as -> by by eapply (iv_uniq _ _ Hi).
    simplify_eq. exists g'. split; [done|]. split; [|apply Hst]. by rewrite (rs_req _ _ _ _ _ _ Hst).
  - intros id' g1 Hg1. destruct (decide (id' = id)) as [->|Hne]; [by left; eauto|].
    rewrite Hoth in Hg1 by done. by apply (iv_rest _ _ Hi).
Qed.

Lemma ninv_send c id m m' cs r cli k start lost :
  ninv m cs → cs !! c = Some (NC_call r cli k start lost) →
  Labrpc.step (A_accept id (client_msg c r)) m = Some (Ret m') →
  s_reqs m !! id = None ∧ s_world m' = s_world m ∧
  s_reqs m' = <[id := mkGreq (client_msg c r) P_start H_none]> (s_reqs m) ∧
  ninv m' (<[c := NC_wait r cli k start lost id]> cs).
Proof using Type.
  intros Hi Hc Hs. pose proof (step_wired (A_accept id (client_msg c r)) m m' (iv_wired _ _ Hi) I Hs) as Hw.
  cbn [Labrpc.step] in Hs. destruct (s_reqs m !! id) eqn:Hid; [done|].
  destruct (s_loop m); [|done]. injection Hs as <-. split_and!; [done..|].
  assert (∀ c' st, cs !! c' = Some st → waits st = Some id → False) as Hnew.
  { intros c' st Hc' Hst. destruct st as [| |r' cli' k' start' lost' id'|]; try done.
    injection Hst as ->. destruct (iv_wait _ _ Hi _ _ _ _ _ _ _ Hc') as (? & ? & _). congruence. }
  split; [done|..].
  - intros c' r' cli' k' start' lost' id' H.
    apply list_lookup_insert_Some in H as [(<- & [= -> -> -> -> -> ->] & _)|[Hne H]].
    { exists (mkGreq (client_msg c r') P_start H_none). simpl. by rewrite lookup_insert_eq. }
    simpl. rewrite lookup_insert_ne by (intros ->; by eapply Hnew).
    by eapply (iv_wait _ _ Hi).
  - intros id' g Hg. simpl in Hg. apply lookup_insert_Some in Hg as [[<- <-]|[Hne Hg]].
    { left. exists c, (NC_wait r cli k start lost id).
      by rewrite list_lookup_insert_eq by by eapply lookup_lt_Some. }
    destruct (iv_rest _ _ Hi id' g Hg) as [(c' & st & Hc' & Hst)|?]; [left|by right].
    exists c', st. rewrite list_lookup_insert_ne; [done|]. intros <-. simplify_eq.
  - intros c1 c2 st1 st2 id' H1 H2 Hw1 Hw2.
    apply list_lookup_insert_Some in H1 as [(<- & <- & _)|[Hn1 H1]];
      apply list_lookup_insert_Some in H2 as [(<- & <- & _)|[Hn2 H2]]; try done.
    + injection Hw1 as <-. by destruct (Hnew c2 st2).
    + injection Hw2 as <-. by destruct (Hnew c1 st1).
    + by eapply (iv_uniq _ _ Hi).
Qed.

Abbreviation ninv_of s := (ninv (n_net s) (n_clients s)).

(** The cases of a step [Hs : nstep e s = Some s']. *)
Ltac nstep_cases Hs :=
  repeat (match type of Hs with
    | context [match ?x with _ => _ end] =>
        lazymatch x with context [match _ with _ => _ end] => fail | _ => destruct x eqn:? end
    end; try done).

Lemma nstep_net a (s s' : nsys) :
  nstep (NE_net a) s = Some s' →
  (∀ id req, a ≠ A_accept id req ∧ a ≠ A_refuse id req) ∧
  ∃ m, Labrpc.step a (n_net s) = Some (Ret m) ∧ s' = nset_net m s.
Proof using Type.
  intros Hs. split; [intros id req; split; by intros ->|].
  destruct a; cbn [nstep] in Hs; try done;
    (destruct (Labrpc.step _ (n_net s)) as [[m|?|?|]|]; try done; simplify_eq; by exists m).
Qed.

(** An answer is received when the request is over. *)
Lemma nstep_answer c (s s' : nsys) :
  ninv_of s → nstep (NE_answer c) s = Some s' →
  ∃ r cli k start lost id g rep v b,
    n_clients s !! c = Some (NC_wait r cli k start lost id) ∧
    s_reqs (n_net s) !! id = Some g ∧ phase_ok r g ∧ g_pc g = P_done rep ∧ finished g ∧
    Call_result rep (rpc_zero r) = Ret (b, v) ∧
    s' = nset_client c (if b : bool then NC_reply r cli k start (answer r (0 <? lost) (rpc_out v))
                        else NC_call r cli k start (S lost)) s.
Proof using KD CD Hgob Henc.
  intros Hi Hs. cbn [nstep] in Hs.
  destruct (n_clients s !! c) as [[| |r cli k start lost id|]|] eqn:Hc; try done.
  destruct (iv_wait _ _ Hi _ _ _ _ _ _ _ Hc) as (g & Hg & _ & Hph). rewrite Hg in Hs.
  cbn [mbind option_bind] in Hs. destruct (g_pc g) as [| | | | |rep] eqn:Hpc; try done.
  destruct (Call_result rep (rpc_zero r)) as [[b v]|?|?|] eqn:Hr; try done.
  exists r, cli, k, start, lost, id, g, rep, v, b. split_and!; try done.
  - unfold finished, answered. unfold phase_ok in Hph. rewrite Hpc in *. split; [done|].
    destruct (g_h g); try done; auto.
  - assert (rep = no_reply ∨ is_reply r rep) as [->|[w ->]].
    { unfold phase_ok in Hph. rewrite Hpc in Hph. destruct (g_h g); try done. by left. }
    + injection Hr as <- <-. rewrite clerk_lost in Hs. by injection Hs as <-.
    + rewrite Call_result_good in Hr. injection Hr as <- <-. rewrite rpc_out_serve in *.
      rewrite clerk_answers in Hs. by injection Hs as <-.
Qed.

Lemma nstep_inv e (s s' : nsys) :
  ninv_of s → ncalm e → nstep e s = Some s' → ninv_of s'.
Proof using KD CD Hgob Henc.
  intros Hi He Hs. destruct e as [d|c|c id|a|c|c| |c b|c z].
  4:{ apply nstep_net in Hs as (Hna & m & Hs & ->). by apply (ninv_net a (n_net s)). }
  4:{ destruct (nstep_answer c s s' Hi Hs) as
        (r & cli & k & start & lost & id & g & rep & v & b & Hc & Hg & _ & _ & Hf & _ & ->).
      eapply ninv_set; [done|done|by destruct b|]. intros id' g' [= <-] Hg'. simpl in Hg'. by simplify_eq. }
  3:{ cbn [nstep] in Hs. destruct (n_clients s !! c) as [[| r cli k start lost | |]|] eqn:Hc;
        try done. rewrite client_request_Ret in Hs.
      destruct (Labrpc.step _ _) as [[m|?|?|]|] eqn:Hm; try done. injection Hs as <-.
      by eapply ninv_send. }
  all: cbn [nstep] in Hs; nstep_cases Hs; injection Hs as <-; try done;
    by (eapply ninv_set; [done|done|done|]).
Qed.

(** A network that is reliable, and has dropped nothing. *)
Definition lossless (m : net) : Prop :=
  reliable (s_net m) = true ∧ ∀ id g, s_reqs m !! id = Some g → lossless_req g.
(** The tester leaves it reliable. *)
Definition steady (e : nevent) : Prop := e ≠ NE_net (A_net (O_reliable false)).

Lemma step_reliable a (m m' : net) :
  a ≠ A_net (O_reliable false) → Labrpc.step a m = Some (Ret m') →
  reliable (s_net m) = true → reliable (s_net m') = true.
Proof using Type.
  intros Ha Hs Hr.
  assert ((∃ o, a = A_net o) ∨ ∀ o, a ≠ A_net o) as [[o ->]|Hno] by (destruct a; eauto).
  2:{ destruct (step_net a m m' Hs Hno) as (x & y & ->). exact Hr. }
  cbn [Labrpc.step] in Hs. destruct (apply_netop o (s_net m)) as [rn|?|?|] eqn:Ho; simplify_eq/=.
  destruct o as [[]| | | | | | | | |]; simpl in Ho; unfold MakeEnd, DeleteEnd, Cleanup in Ho;
    repeat case_match; simplify_eq/=; done.
Qed.

Lemma nstep_lossless e (s s' : nsys) :
  ninv_of s → nstep e s = Some s' → steady e → lossless (n_net s) → lossless (n_net s').
Proof using KD CD Hgob Henc.
  intros Hi Hs Hst [Hrel Hl]. destruct e as [d|c|c id|a|c|c| |c b|c z].
  4:{ apply nstep_net in Hs as (Hna & m & Hs & ->). simpl. split.
      { eapply step_reliable; [|done..]. congruence. }
      intros id g' Hg'. destruct (net_step_cases a _ m _ Hi Hna Hs) as [(_ & Hr & _)|
        (id1 & c & r & cli & k & start & lost & g1 & g1' & Hid & Hc & Hg1 & Hg1' & Hrs)].
      { rewrite Hr in Hg'. by eapply Hl. }
      destruct (decide (id1 = id)) as [->|Hne].
      - destruct (iv_wait _ _ Hi _ _ _ _ _ _ _ Hc) as (g2 & Hg2 & Hreq & Hph). simplify_eq.
        eapply (step_lossless a (n_net s) m id c r g1); try done; [apply Hi|by eapply Hl].
      - rewrite (step_other a _ m id Hs) in Hg' by congruence. by eapply Hl. }
  4:{ by destruct (nstep_answer c s s' Hi Hs) as (? & ? & ? & ? & ? & ? & ? & ? & ? & ? & _ & _ & _
        & _ & _ & _ & ->). }
  3:{ cbn [nstep] in Hs. destruct (n_clients s !! c) as [[| r cli k start lost | |]|] eqn:Hc;
        try done. rewrite client_request_Ret in Hs.
      destruct (Labrpc.step _ _) as [[m|?|?|]|] eqn:Hm; try done. injection Hs as <-.
      split; [eapply step_reliable; [|exact Hm|exact Hrel]; done|]. simpl. intros id' g Hg.
      destruct (ninv_send _ _ _ _ _ _ _ _ _ _ Hi Hc Hm) as (_ & _ & Hr & _). rewrite Hr in Hg.
      apply lookup_insert_Some in Hg as [[_ <-]|[_ Hg]]; [done|by eapply Hl]. }
  all: cbn [nstep] in Hs; nstep_cases Hs; injection Hs as <-; by split.
Qed.

(** ** The refinement

    When a handler has run, whether the reply will arrive is decided only later,
    by the network: [fate] foretells it.  With it each state of the network is a
    state of the abstract system, in which a request takes effect when its handler
    runs. *)
Context (fate : nat → bool).

Definition got (r : request) (rep : replyMsg) : KvOutput :=
  rpc_out (dec (rpc_zero r) (reply rep)).1.

Definition abs_client (m : net) (st : nclient) : cstate A :=
  match st with
  | NC_run q => CS_run q
  | NC_call r cli k start lost => CS_call r cli k start (0 <? lost)
  | NC_wait r cli k start lost id =>
      match s_reqs m !! id with
      | Some g =>
          if executed g then
            if fate id then CS_reply r cli k start (answer r (0 <? lost) (got r (carried g)))
            else CS_call r cli k start true
          else CS_call r cli k start (0 <? lost)
      | None => CS_call r cli k start (0 <? lost)
      end
  | NC_reply r cli k start out => CS_reply r cli k start out
  end.

Definition abs (s : nsys) : Concurrent.sys A :=
  mkSys (kv_map (s_world (n_net s))) (abs_client (n_net s) <$> n_clients s) (n_log s) (n_now s) (n_sends s).

(** The decisions of the network so far are those foretold. *)
Definition agrees (m : net) : Prop :=
  ∀ id g rep, s_reqs m !! id = Some g → executed g = true → sent g = Some rep → fate id = ok rep.

Lemma got_good r w : got r (good_reply r (serve r w).1) = (serve r w).1.
Proof using KD CD Hgob Henc.
  pose proof (Call_result_good r w) as H. unfold Call_result in H. cbn [ok good_reply] in H.
  unfold got. change (gob_decode (rpc_zero r)) with (dec (rpc_zero r)) in H.
  destruct (dec (rpc_zero r) _) as [v []]; [|done]. injection H as ->. apply rpc_out_serve.
Qed.

Lemma abs_set c st (s : nsys) :
  abs (nset_client c st s) = set_client c (abs_client (n_net s) st) (abs s).
Proof using Type. unfold abs, set_client. simpl. by rewrite list_fmap_insert. Qed.

Lemma abs_lookup c st (s : nsys) :
  n_clients s !! c = Some st → s_clients (abs s) !! c = Some (abs_client (n_net s) st).
Proof using Type. intros H. simpl. by rewrite list_lookup_fmap, H. Qed.

(** A step on the request [id] is seen only by the client that waits for it. *)
Lemma abs_clients_one m m' (cs : list nclient) c st id :
  ninv m cs → cs !! c = Some st → waits st = Some id →
  (∀ id', id' ≠ id → s_reqs m' !! id' = s_reqs m !! id') →
  abs_client m' <$> cs = <[c := abs_client m' st]> (abs_client m <$> cs).
Proof using Type.
  intros Hi Hc Hw Hoth. apply list_eq. intros c'. rewrite list_lookup_fmap.
  destruct (decide (c' = c)) as [->|Hne].
  - rewrite Hc, list_lookup_insert_eq; [done|]. rewrite length_fmap. by eapply lookup_lt_Some.
  - rewrite list_lookup_insert_ne, list_lookup_fmap by done.
    destruct (cs !! c') as [st'|] eqn:Hc'; [|done]. simpl. f_equal.
    destruct st' as [| |r cli k start lost id'|]; try done. simpl. rewrite Hoth; [done|].
    intros ->. by destruct Hne; eapply (iv_uniq _ _ Hi).
Qed.

Lemma abs_net_same (m m' : net) (s : nsys) :
  n_net s = m → s_reqs m' = s_reqs m → s_world m' = s_world m → abs (nset_net m' s) = abs s.
Proof using Type.
  intros <- Hr Hw. unfold abs. simpl. rewrite Hw. f_equal. apply list_fmap_ext.
  intros i st _. destruct st; try done. simpl. by rewrite Hr.
Qed.

(** Nothing is lost. *)
Definition nolose (e : event) : Prop := ∀ c b, e ≠ E_lose c b.
Definition faithful (m : net) (tr : list event) : Prop :=
  (∀ id, fate id = true) → lossless m → Forall nolose tr.

Lemma run_one e (s s' : Concurrent.sys A) : step e s = Some s' → run [e] s = Some s'.
Proof. intros H. simpl. by rewrite H. Qed.

(** The handler runs: the abstract request is executed, and its reply arrives or
    is lost as foretold. *)
Lemma sim_handler m' (s : nsys) id c r cli k start lost g g' a :
  ninv_of s → act_id a = Some id → served a = true →
  Labrpc.step a (n_net s) = Some (Ret m') →
  n_clients s !! c = Some (NC_wait r cli k start lost id) →
  s_reqs (n_net s) !! id = Some g → s_reqs m' !! id = Some g' →
  request_step a r (n_net s) m' g g' →
  run [if fate id then E_exec c else E_lose c true] (abs s) = Some (abs (nset_net m' s)).
Proof using KD CD Hgob Henc.
  intros Hi Hid Hsv Hs Hc Hg Hg' Hst. apply run_one.
  destruct (rs_serve _ _ _ _ _ _ Hst Hsv) as (Hex & Hw & Hcar).
  pose proof (rs_exec _ _ _ _ _ _ Hst) as Hex'. rewrite Hsv, orb_true_r in Hex'.
  pose proof (abs_lookup c _ s Hc) as Ha. simpl in Ha. rewrite Hg, Hex in Ha.
  assert (abs (nset_net m' s) = set_client c (abs_client m' (NC_wait r cli k start lost id))
    (set_store (kv_map (s_world m')) (abs s))) as ->.
  { unfold abs, set_client, set_store. simpl. f_equal.
    eapply (abs_clients_one (n_net s) m' _ c (NC_wait r cli k start lost id)); [done..|].
    intros id' Hne. apply (step_other a (n_net s) m' id' Hs). congruence. }
  cbn [abs_client]. rewrite Hg', Hex', Hw. destruct (fate id); cbn [step]; simpl; rewrite Ha.
  - rewrite Hcar, got_good. by destruct (serve r (kv_map (s_world (n_net s)))).
  - done.
Qed.

(** Nor is a request seen before its handler runs. *)
Lemma sim_send c id m' (s : nsys) r cli k start lost :
  ninv_of s → n_clients s !! c = Some (NC_call r cli k start lost) →
  Labrpc.step (A_accept id (client_msg c r)) (n_net s) = Some (Ret m') →
  abs (nset_client c (NC_wait r cli k start lost id) (nset_net m' s)) = abs s.
Proof using Type.
  intros Hi Hc Hs. destruct (ninv_send _ _ _ _ _ _ _ _ _ _ Hi Hc Hs) as (Hn & Hw & Hr & Hi').
  unfold abs. simpl. rewrite Hw. f_equal. apply list_eq. intros c'. rewrite !list_lookup_fmap.
  destruct (decide (c' = c)) as [->|Hne].
  - rewrite list_lookup_insert_eq by by eapply lookup_lt_Some. rewrite Hc. simpl.
    by rewrite Hr, lookup_insert_eq.
  - rewrite list_lookup_insert_ne by done. destruct (n_clients s !! c') as [st|] eqn:Hc'; [|done].
    simpl. f_equal. destruct st as [| |r' cli' k' start' lost' id'|]; try done. simpl.
    rewrite Hr, lookup_insert_ne; [done|]. intros ->.
    destruct (iv_wait _ _ Hi _ _ _ _ _ _ _ Hc') as (g & Hg & _). congruence.
Qed.

(** Any other step of the network is not seen. *)
Lemma sim_silent m' (s : nsys) id c r cli k start lost g g' a :
  ninv_of s → act_id a = Some id → served a = false →
  Labrpc.step a (n_net s) = Some (Ret m') → agrees m' →
  n_clients s !! c = Some (NC_wait r cli k start lost id) →
  s_reqs (n_net s) !! id = Some g → s_reqs m' !! id = Some g' →
  request_step a r (n_net s) m' g g' →
  abs (nset_net m' s) = abs s.
Proof using Type.
  intros Hi Hid Hsv Hs Hag Hc Hg Hg' Hst.
  destruct (rs_keep _ _ _ _ _ _ Hst Hsv) as [Hw Hcar].
  pose proof (rs_exec _ _ _ _ _ _ Hst) as Hex'. rewrite Hsv, orb_false_r in Hex'.
  unfold abs. simpl. rewrite Hw. f_equal.
  rewrite (abs_clients_one (n_net s) m' _ c _ id Hi Hc eq_refl)
    by (intros id' Hne; apply (step_other a (n_net s) m' id' Hs); congruence).
  apply list_insert_id. rewrite list_lookup_fmap, Hc. simpl. rewrite Hg, Hg', Hex'.
  destruct (executed g) eqn:Hex; [|done]. destruct (fate id) eqn:Hf; [|done].
  destruct (Hcar eq_refl) as [->|Hsent]; [done|].
  rewrite (Hag id g' no_reply Hg' Hex' Hsent) in Hf. done.
Qed.

(** [Call] returns what was foretold; a request whose handler never ran is lost. *)
Lemma sim_answer c (s s' : nsys) :
  ninv_of s → agrees (n_net s) → nstep (NE_answer c) s = Some s' →
  ∃ tr, length tr ≤ 1 ∧ run tr (abs s) = Some (abs s') ∧ faithful (n_net s) tr.
Proof using KD CD Hgob Henc.
  intros Hi Hag Hs. destruct (nstep_answer c s s' Hi Hs) as
    (r & cli & k & start & lost & id & g & rep & v & b & Hc & Hg & Hph & Hpc & _ & Hcall & ->).
  rewrite abs_set. pose proof (abs_lookup c _ s Hc) as Ha. simpl in Ha. rewrite Hg in Ha.
  assert (sent g = Some rep) as Hsent by (unfold sent; by rewrite Hpc).
  assert (carried g = rep) as Hcar by (unfold carried; by rewrite Hpc).
  destruct (executed g) eqn:Hex.
  - pose proof (Hag id g rep Hg Hex Hsent) as Hf. rewrite Hf, Hcar in Ha.
    exists []. split; [simpl; lia|]. split; [|by constructor]. simpl. f_equal. unfold set_client.
    assert (abs_client (n_net s) (if b then NC_reply r cli k start (answer r (0 <? lost) (rpc_out v))
      else NC_call r cli k start (S lost)) = (if ok rep then CS_reply r cli k start
        (answer r (0 <? lost) (got r rep)) else CS_call r cli k start true)) as ->.
    { unfold Call_result in Hcall. unfold got. change (gob_decode (rpc_zero r)) with
        (dec (rpc_zero r)) in Hcall. destruct (ok rep); [|by simplify_eq].
      destruct (dec _ _) as [v' []]; by simplify_eq. }
    rewrite list_insert_id by done. by destruct (abs s).
  - assert (rep = no_reply) as ->.
    { unfold phase_ok, executed in *. rewrite Hpc in Hph. by destruct (g_h g). }
    injection Hcall as <- <-. exists [E_lose c false]. split; [simpl; lia|]. split.
    + apply run_one. cbn [step]. simpl. by rewrite Ha.
    + intros _ [_ Hl]. specialize (Hl id g Hg). unfold lossless_req in Hl. by rewrite Hpc in Hl.
Qed.

(** The other steps of a client are steps of the abstract one. *)
Lemma sim_client e ae (s s' : nsys) :
  nstep e s = Some s' →
  match e, ae with
  | NE_tick d, E_tick d' => d = d'
  | NE_begin c, E_begin c' | NE_return c, E_return c' => c = c'
  | NE_stop, E_stop => True
  | NE_poll c b, E_poll c' b' => c = c' ∧ b = b'
  | NE_rand c z, E_rand c' z' => c = c' ∧ z = z'
  | _, _ => False
  end →
  step ae (abs s) = Some (abs s').
Proof using Type.
  intros Hs He. destruct e, ae; try done; destruct_and?; subst; cbn [nstep] in Hs; nstep_cases Hs;
    injection Hs as <-; cbn [step];
    repeat match goal with
    | H : n_clients s !! _ = Some _ |- _ => rewrite (abs_lookup _ _ s H); clear H
    | H : n_sends s = _ |- _ => change (s_sends (abs s)) with (n_sends s); rewrite H
    | H : decide _ = _ |- _ => rewrite H
    end; cbn [abs_client]; f_equal; unfold abs; simpl;
    by rewrite ?list_fmap_insert, ?length_fmap.
Qed.

(** Requests and decisions are never undone. *)
Lemma agrees_back e (s s' : nsys) :
  ninv_of s → nstep e s = Some s' → agrees (n_net s') → agrees (n_net s).
Proof using KD CD Hgob Henc.
  intros Hi Hs Hag id g rep Hg Hex Hsent.
  destruct e as [d|c|c i|a|c|c| |c b|c z].
  4:{ apply nstep_net in Hs as (Hna & m & Hs & ->).
      destruct (net_step_cases a _ m _ Hi Hna Hs) as [(_ & Hr & _)|
        (id1 & c & r & cli & k & start & lost & g1 & g1' & Hid & _ & Hg1 & Hg1' & Hst)].
      { apply (Hag id g rep); [|done..]. simpl. by rewrite Hr. }
      destruct (decide (id1 = id)) as [->|Hne].
      - simplify_eq. apply (Hag id g1' rep Hg1'); [|by apply (rs_sent _ _ _ _ _ _ Hst)].
        by rewrite (rs_exec _ _ _ _ _ _ Hst), Hex.
      - apply (Hag id g rep); [|done..]. simpl. rewrite (step_other a _ m id Hs); [done|congruence]. }
  4:{ destruct (nstep_answer c s s' Hi Hs) as (? & ? & ? & ? & ? & ? & ? & ? & ? & ? & _ & _ & _ & _
        & _ & _ & ->). by apply (Hag id g rep). }
  3:{ cbn [nstep] in Hs. destruct (n_clients s !! c) as [[| r cli k start lost | |]|] eqn:Hc;
        try done. rewrite client_request_Ret in Hs.
      destruct (Labrpc.step _ _) as [[m|?|?|]|] eqn:Hm; try done. injection Hs as <-.
      destruct (ninv_send _ _ _ _ _ _ _ _ _ _ Hi Hc Hm) as (Hnone & _ & Hr & _).
      apply (Hag id g rep); [|done..]. simpl. rewrite Hr, lookup_insert_ne; [done|congruence]. }
  all: cbn [nstep] in Hs; nstep_cases Hs; injection Hs as <-; by apply (Hag id g rep).
Qed.

Lemma nstep_sim e (s s' : nsys) :
  ninv_of s → ncalm e → nstep e s = Some s' → agrees (n_net s') →
  ∃ tr, length tr ≤ 1 ∧ run tr (abs s) = Some (abs s') ∧ faithful (n_net s) tr.
Proof using KD CD Hgob Henc.
  intros Hi He Hs Hag. pose proof (agrees_back e s s' Hi Hs Hag) as Hag0.
  destruct e as [d|c|c id|a|c|c| |c b|c z].
  4:{ apply nstep_net in Hs as (Hna & m & Hs & ->).
      destruct (net_step_cases a _ m _ Hi Hna Hs) as [(_ & Hr & Hw)|
        (id & c & r & cli & k & start & lost & g & g' & Hid & Hc & Hg & Hg' & Hst)].
      { exists []. split; [simpl; lia|]. split; [|by constructor]. simpl. f_equal. symmetry.
        by eapply abs_net_same. }
      destruct (served a) eqn:Hsv.
      - eexists. split; [|split; [by eapply sim_handler|]]; [done|].
        intros Hf _. rewrite Hf. apply Forall_singleton. by intros ??.
      - exists []. split; [simpl; lia|]. split; [|by constructor]. simpl. f_equal. symmetry.
        by eapply sim_silent. }
  4:{ by apply (sim_answer c). }
  3:{ cbn [nstep] in Hs. destruct (n_clients s !! c) as [[| r cli k start lost | |]|] eqn:Hc;
        try done. rewrite client_request_Ret in Hs.
      destruct (Labrpc.step _ _) as [[m|?|?|]|] eqn:Hm; try done. injection Hs as <-.
      exists []. split; [simpl; lia|]. split; [|by constructor]. simpl. f_equal. symmetry.
      by eapply sim_send. }
  - exists [E_tick d]. split; [done|]. split; [by eapply run_one, sim_client|]. intros _ _.
    apply Forall_singleton. by intros ??.
  - exists [E_begin c]. split; [done|]. split; [by eapply run_one, sim_client|]. intros _ _.
    apply Forall_singleton. by intros ??.
  - exists [E_return c]. split; [done|]. split; [by eapply run_one, sim_client|]. intros _ _.
    apply Forall_singleton. by intros ??.
  - exists [E_stop]. split; [done|]. split; [by eapply run_one, sim_client|]. intros _ _.
    apply Forall_singleton. by intros ??.
  - exists [E_poll c b]. split; [done|]. split; [by eapply run_one, sim_client|]. intros _ _.
    apply Forall_singleton. by intros ??.
  - exists [E_rand c z]. split; [done|]. split; [by eapply run_one, sim_client|]. intros _ _.
    apply Forall_singleton. by intros ??.
Qed.

Lemma nrun_inv tr : ∀ s s' : nsys,
  ninv_of s → Forall ncalm tr → nrun tr s = Some s' → ninv_of s'.
Proof using KD CD Hgob Henc.
  induction tr as [|e tr IH]; intros s s' Hi Hc Hr; [by injection Hr as <-|].
  cbn [nrun] in Hr. apply bind_Some in Hr as (s1 & Hs & Hr). apply Forall_cons in Hc as [He Hc].
  apply (IH s1); [|done..]. by eapply nstep_inv.
Qed.

Lemma nrun_agrees tr : ∀ s s' : nsys,
  ninv_of s → Forall ncalm tr → nrun tr s = Some s' → agrees (n_net s') → agrees (n_net s).
Proof using KD CD Hgob Henc.
  induction tr as [|e tr IH]; intros s s' Hi Hc Hr Hag; [by injection Hr as <-|].
  cbn [nrun] in Hr. apply bind_Some in Hr as (s1 & Hs & Hr). apply Forall_cons in Hc as [He Hc].
  eapply agrees_back; [done..|]. apply (IH s1 s'); [|done..]. by eapply nstep_inv.
Qed.

Lemma srun_app tr1 tr2 (s s1 : Concurrent.sys A) :
  run tr1 s = Some s1 → run (tr1 ++ tr2) s = run tr2 s1.
Proof.
  revert s. induction tr1 as [|e tr1 IH]; intros s H; simpl in *; [by injection H as ->|].
  destruct (step e s) as [s2|]; [|done]. simpl in *. by apply IH.
Qed.

Lemma nrun_app tr1 tr2 (s s1 : nsys) :
  nrun tr1 s = Some s1 → nrun (tr1 ++ tr2) s = nrun tr2 s1.
Proof using Type.
  revert s. induction tr1 as [|e tr1 IH]; intros s H; simpl in *; [by injection H as ->|].
  destruct (nstep e s) as [s2|]; [|done]. simpl in *. by apply IH.
Qed.

Lemma nrun_sim tr : ∀ s s' : nsys,
  ninv_of s → Forall ncalm tr → nrun tr s = Some s' → agrees (n_net s') →
  ∃ tr', length tr' ≤ length tr ∧ run tr' (abs s) = Some (abs s') ∧
    (Forall steady tr → faithful (n_net s) tr').
Proof using KD CD Hgob Henc.
  induction tr as [|e tr IH]; intros s s' Hi Hc Hr Hag.
  { injection Hr as <-. exists []. split_and!; [done|done|by intros ???; constructor]. }
  cbn [nrun] in Hr. apply bind_Some in Hr as (s1 & Hs & Hr). apply Forall_cons in Hc as [He Hc].
  assert (ninv_of s1) as Hi1 by by eapply nstep_inv.
  destruct (nstep_sim e s s1 Hi He Hs) as (tr1 & Hl1 & Hr1 & Hf1); [by eapply nrun_agrees|].
  destruct (IH s1 s' Hi1 Hc Hr Hag) as (tr2 & Hl2 & Hr2 & Hf2).
  exists (tr1 ++ tr2). rewrite length_app. simpl. split; [lia|]. rewrite (srun_app _ _ _ _ Hr1).
  split; [done|]. intros [Hst1 Hst]%Forall_cons Hf Hll. apply Forall_app. split; [by apply Hf1|].
  apply Hf2; [done..|]. by apply (nstep_lossless e s s1).
Qed.

Lemma nrun_lossless tr : ∀ s s' : nsys,
  ninv_of s → Forall ncalm tr → nrun tr s = Some s' → Forall steady tr → lossless (n_net s) →
  lossless (n_net s').
Proof using KD CD Hgob Henc.
  induction tr as [|e tr IH]; intros s s' Hi Hc Hr Hst Hl; [by injection Hr as <-|].
  cbn [nrun] in Hr. apply bind_Some in Hr as (s1 & Hs & Hr). apply Forall_cons in Hc as [He Hc].
  apply Forall_cons in Hst as [Hst1 Hst].
  apply (IH s1 s'); [by eapply nstep_inv|done..|]. by apply (nstep_lossless e s s1).
Qed.

(** *** Phases *)

Lemma nreturned_abs (s : nsys) rs : nreturned s = Some rs → returned (abs s) = Some rs.
Proof using Type.
  unfold nreturned, returned. intros H. apply mapM_Some in H. apply mapM_Some. simpl.
  apply Forall2_fmap_l. eapply Forall2_impl; [exact H|]. intros st a Ha. by destruct st.
Qed.

Lemma abs_next_phase k fn (s : nsys) : abs (nnext_phase k fn s) = next_phase k fn (abs s).
Proof using Type. unfold abs, nnext_phase, next_phase. simpl. by rewrite <-list_fmap_compose. Qed.

(** Between phases no request is under way. *)
Definition idle (m : net) : Prop :=
  wired m ∧ ∀ id g, s_reqs m !! id = Some g → finished g.

Lemma ninv_next_phase k fn (s : nsys) : idle (n_net s) → ninv_of (nnext_phase k fn s).
Proof using Type.
  intros [Hw Hf]. assert (∀ c st, n_clients (nnext_phase k fn s) !! c = Some st →
    ∃ q, st = NC_run q) as Hrun.
  { intros c st (i & -> & _)%list_lookup_fmap_Some. by eexists. }
  split; [done|..].
  - intros c r cli k' start lost id H. by destruct (Hrun _ _ H).
  - intros id g Hg. right. by eapply Hf.
  - intros c c' st st' id H _ Hst _. by destruct (Hrun _ _ H) as [q ->].
Qed.

Lemma nreturned_idle (s : nsys) rs : ninv_of s → nreturned s = Some rs → idle (n_net s).
Proof using Type.
  intros Hi Hr. split; [apply Hi|]. intros id g Hg.
  destruct (iv_rest _ _ Hi id g Hg) as [(c & st & Hc & Hw)|?]; [|done].
  unfold nreturned in Hr. apply mapM_Some in Hr.
  destruct (Forall2_lookup_l _ _ _ _ _ Hr Hc) as (a & _ & Ha). by destruct st.
Qed.

Abbreviation nphase := (nat * (nat → prog A) * list nevent)%type.
Definition calm_phase (ph : nphase) : Prop := Forall ncalm ph.2.
Definition nsteps_of (phases : list nphase) : nat := sum_list_with (λ '(_, _, tr), length tr) phases.

Lemma nphases_idle phases : ∀ s s' : nsys,
  idle (n_net s) → Forall calm_phase phases → nrun_phases phases s = Some s' →
  idle (n_net s') ∧ (agrees (n_net s') → agrees (n_net s)).
Proof using KD CD Hgob Henc.
  induction phases as [|[[k fn] tr] phases IH]; intros s s' Hid Hc Hr; [by injection Hr as <-|].
  cbn [nrun_phases] in Hr. apply bind_Some in Hr as (s1 & Hs & Hr).
  apply bind_Some in Hr as (rs & Hrs & Hr). apply Forall_cons in Hc as [He Hc].
  pose proof (ninv_next_phase k fn s Hid) as Hi.
  pose proof (nrun_inv _ _ _ Hi He Hs) as Hi1.
  destruct (IH s1 s' (nreturned_idle _ _ Hi1 Hrs) Hc Hr) as [Hid' Hag]. split; [done|].
  intros H. apply (nrun_agrees tr (nnext_phase k fn s) s1 Hi He Hs). by apply Hag.
Qed.

Lemma nphases_sim phases : ∀ s s' : nsys,
  idle (n_net s) → Forall calm_phase phases → nrun_phases phases s = Some s' →
  agrees (n_net s') →
  ∃ phases', phases'.*1 = phases.*1 ∧ steps_of phases' ≤ nsteps_of phases ∧
    run_phases phases' (abs s) = Some (abs s').
Proof using KD CD Hgob Henc.
  induction phases as [|[[k fn] tr] phases IH]; intros s s' Hid Hc Hr Hag.
  { injection Hr as <-. by exists []. }
  cbn [nrun_phases] in Hr. apply bind_Some in Hr as (s1 & Hs & Hr).
  apply bind_Some in Hr as (rs & Hrs & Hr). apply Forall_cons in Hc as [He Hc].
  pose proof (ninv_next_phase k fn s Hid) as Hi.
  pose proof (nrun_inv _ _ _ Hi He Hs) as Hi1.
  pose proof (nreturned_idle _ _ Hi1 Hrs) as Hid1.
  assert (agrees (n_net s1)) as Hag1 by by apply (nphases_idle phases s1 s' Hid1 Hc Hr).
  destruct (nrun_sim tr _ s1 Hi He Hs Hag1) as (tr' & Hl & Hr' & _).
  destruct (IH s1 s' Hid1 Hc Hr Hag) as (phases' & Hfst & Hl' & Hph).
  exists ((k, fn, tr') :: phases'). split; [by rewrite !fmap_cons, Hfst|]. split.
  { unfold steps_of, nsteps_of in *. simpl. simpl in Hl. lia. }
  cbn [run_phases]. rewrite <-abs_next_phase, Hr'. simpl. by rewrite (nreturned_abs _ _ Hrs).
Qed.
End refinement.

(** ** The properties *)

(** *** Progress *)

(** The next step of a request; its draws keep the network from losing it. *)
Definition next_action (id : nat) (g : kreq) : action (Ty := kv_ty) :=
  match g_pc g, g_h g with
  | P_start, _ => A_read id
  | P_info _, _ => A_branch id 100
  | P_wait _, H_spawned _ => A_lookup id
  | P_wait _, H_called _ _ => A_handler id
  | P_wait _, _ => A_recv id
  | P_check _ _, _ => A_finish id 100
  | _, _ => A_send id
  end.
Definition unlucky (g : kreq) : Prop := sent g = Some no_reply.

Ltac next_action_tac :=
  do 2 eexists; split; [reflexivity|]; split; [done|]; split; [apply lookup_insert_eq|];
  split; [unfold work_left; simpl; lia|try done].

Lemma next_action_steps (m : net) id c r g :
  wired m → s_reqs m !! id = Some g → g_req g = client_msg c r → phase_ok r g →
  answered g = false →
  ∃ m' g', Labrpc.step (next_action id g) m = Some (Ret m') ∧ s_loop m' = s_loop m ∧
    s_reqs m' !! id = Some g' ∧ work_left g' < work_left g ∧ (unlucky g' → unlucky g).
Proof using KD CD Hgob Henc.
  intros Hw Hg Hreq Hph Hopen. pose proof Hw as (_ & _ & rs & Hrs & _).
  destruct g as [req pc h]. unfold phase_ok, answered, unlucky, sent in *.
  cbn [g_req g_pc g_h] in *. subst req.
  destruct pc as [|inf|inf|inf [rep|]|rep|rep]; try done;
    destruct h as [|q|svc meth|rep'|]; try done;
    cbn [next_action g_pc g_h Labrpc.step]; rewrite Hg; cbn [mbind option_bind g_pc g_h g_req].
  all: try by next_action_tac.
  - destruct Hph as (He & Hn & Hp). unfold process_branch. rewrite He, Hn, Hp, andb_false_r.
    next_action_tac.
  - destruct Hph as [Hi ->]. rewrite Hrs, (lookup_request m rs c r Hw Hrs). next_action_tac.
  - destruct Hph as (Hi & -> & ->). destruct (dispatch_serves c r (s_world m)) as (w' & -> & _). next_action_tac.
  - destruct Hph as [Hi [w ->]]. rewrite (not_dead m c r) by done. unfold process_finish.
    rewrite andb_false_r. next_action_tac.
Qed.

Lemma next_action_own id g :
  act_id (next_action id g) = Some id ∧ calm (next_action id g) ∧
  ∀ id' req, next_action id g ≠ A_accept id' req ∧ next_action id g ≠ A_refuse id' req.
Proof using Type. unfold next_action. destruct (g_pc g), (g_h g); by split_and!. Qed.

Section progress.
Context {A : Type}.
Implicit Types s : @nsys A.

Lemma nstep_action a s m :
  (∀ id req, a ≠ A_accept id req ∧ a ≠ A_refuse id req) →
  Labrpc.step a (n_net s) = Some (Ret m) → nstep (NE_net a) s = Some (nset_net m s).
Proof using Type.
  intros Hna Hs. cbn [nstep]. rewrite Hs.
  destruct a as [id req|id req| | | | | | | | | | |]; try done; by destruct (Hna id req).
Qed.

(** A request under way is answered, if its goroutines run. *)
Lemma request_completes N : ∀ s c r cli k start lost id g,
  ninv (n_net s) (n_clients s) → n_clients s !! c = Some (NC_wait r cli k start lost id) →
  s_reqs (n_net s) !! id = Some g → phase_ok r g → g_req g = client_msg c r → work_left g ≤ N →
  ∃ tr s' g', length tr ≤ N ∧ Forall ncalm tr ∧ nrun tr s = Some s' ∧
    s_loop (n_net s') = s_loop (n_net s) ∧ n_clients s' = n_clients s ∧
    s_reqs (n_net s') !! id = Some g' ∧ answered g' = true ∧ (unlucky g' → unlucky g).
Proof using KD CD Hgob Henc.
  induction N as [|N IH]; intros s c r cli k start lost id g Hi Hc Hg Hph Hreq HN;
    (destruct (answered g) eqn:Hopen; [exists [], s, g; split_and!; simpl; (done || lia)|]).
  { unfold answered, work_left in *. destruct (g_pc g), (g_h g); (done || lia). }
  destruct (next_action_steps (n_net s) id c r g (iv_wired _ _ Hi) Hg Hreq Hph Hopen)
    as (m & g1 & Hs & Hl & Hg1 & Hw & Hu).
  destruct (next_action_own id g) as (Hid & Hcalm & Hna).
  pose proof (ninv_net _ _ m _ Hi Hcalm Hna Hs) as Hi1.
  destruct (iv_wait _ _ Hi1 _ _ _ _ _ _ _ Hc) as (g1' & Hg1' & Hreq1 & Hph1). simplify_eq.
  destruct (IH (nset_net m s) c r cli k start lost id g1) as
    (tr & s' & g' & Hlen & Htr & Hr & Hl' & Hcl & Hg' & Ha & Hu'); try done; [lia|].
  exists (NE_net (next_action id g) :: tr), s', g'. split_and!; try done.
  - simpl. lia.
  - by constructor.
  - cbn [nrun]. by rewrite (nstep_action _ s m Hna Hs).
  - by rewrite Hl'.
  - auto.
Qed.

(** Then [Call] returns. *)
Lemma answer_returns s c r cli k start lost id g :
  n_clients s !! c = Some (NC_wait r cli k start lost id) →
  s_reqs (n_net s) !! id = Some g → phase_ok r g → answered g = true →
  ∃ s', nstep (NE_answer c) s = Some s' ∧ n_net s' = n_net s ∧
    ((∃ out, n_clients s' !! c = Some (NC_reply r cli k start out)) ∨
     unlucky g ∧ n_clients s' !! c = Some (NC_call r cli k start (S lost))).
Proof using KD CD Hgob Henc.
  intros Hc Hg Hph Ha. cbn [nstep]. rewrite Hc, Hg. cbn [mbind option_bind].
  unfold answered in Ha. destruct (g_pc g) as [| | | | |rep] eqn:Hpc; try done.
  assert (c < length (n_clients s)) as Hlt by by eapply lookup_lt_Some.
  assert (rep = no_reply ∨ is_reply r rep) as [->|[w ->]].
  { unfold phase_ok in Hph. rewrite Hpc in Hph. destruct (g_h g); try done. by left. }
  - unfold Call_result. cbn [ok no_reply]. rewrite clerk_lost.
    eexists. split; [reflexivity|]. split; [done|]. right. simpl.
    rewrite list_lookup_insert_eq by done. split; [|done]. unfold unlucky, sent. by rewrite Hpc.
  - rewrite Call_result_good, rpc_out_serve, clerk_answers. eexists. split; [reflexivity|]. split; [done|]. left. simpl.
    rewrite list_lookup_insert_eq by done. eauto.
Qed.

Lemma wait_completes s c r cli k start lost id g :
  ninv (n_net s) (n_clients s) → n_clients s !! c = Some (NC_wait r cli k start lost id) →
  s_reqs (n_net s) !! id = Some g → phase_ok r g → g_req g = client_msg c r → work_left g ≤ 8 →
  ∃ tr s', length tr ≤ 9 ∧ Forall ncalm tr ∧ nrun tr s = Some s' ∧
    s_loop (n_net s') = s_loop (n_net s) ∧
    ((∃ out, n_clients s' !! c = Some (NC_reply r cli k start out)) ∨
     unlucky g ∧ n_clients s' !! c = Some (NC_call r cli k start (S lost))).
Proof using KD CD Hgob Henc.
  intros Hi Hc Hg Hph Hreq HN.
  destruct (request_completes 8 s c r cli k start lost id g Hi Hc Hg Hph Hreq HN)
    as (tr & s1 & g1 & Hlen & Htr & Hr & Hl & Hcl & Hg1 & Ha & Hu).
  pose proof (nrun_inv tr s s1 Hi Htr Hr) as Hi1. rewrite <-Hcl in Hc.
  destruct (iv_wait _ _ Hi1 _ _ _ _ _ _ _ Hc) as (g1' & Hg1' & _ & Hph1). simplify_eq.
  destruct (answer_returns s1 c r cli k start lost id g1 Hc Hg1 Hph1 Ha) as (s' & Hs & Hn & Hout).
  exists (tr ++ [NE_answer c]), s'. split_and!.
  - rewrite length_app. simpl. lia.
  - apply Forall_app. split; [done|]. by apply Forall_singleton.
  - rewrite (nrun_app _ _ _ _ Hr). cbn [nrun]. by rewrite Hs.
  - by rewrite Hn.
  - naive_solver.
Qed.

(** A call that is about to be sent can be answered. *)
Lemma send_completes s c r cli k start lost :
  ninv (n_net s) (n_clients s) → s_loop (n_net s) = true →
  n_clients s !! c = Some (NC_call r cli k start lost) →
  ∃ tr s' out, length tr ≤ 10 ∧ Forall ncalm tr ∧ nrun tr s = Some s' ∧
    n_clients s' !! c = Some (NC_reply r cli k start out).
Proof using KD CD Hgob Henc.
  intros Hi Hl Hc. set (id := fresh (dom (s_reqs (n_net s)))).
  assert (s_reqs (n_net s) !! id = None) as Hid by apply not_elem_of_dom, is_fresh.
  assert (∃ s1, nstep (NE_send c id) s = Some s1 ∧ s_loop (n_net s1) = true ∧
    n_clients s1 !! c = Some (NC_wait r cli k start lost id) ∧
    s_reqs (n_net s1) !! id = Some (mkGreq (client_msg c r) P_start H_none))
    as (s1 & Hs & Hl1 & Hc1 & Hg1).
  { cbn [nstep]. rewrite Hc, client_request_Ret. cbn [Labrpc.step]. rewrite Hid, Hl.
    eexists. split; [reflexivity|]. split; [done|]. simpl. rewrite lookup_insert_eq.
    by rewrite list_lookup_insert_eq by by eapply lookup_lt_Some. }
  pose proof (nstep_inv (NE_send c id) s s1 Hi I Hs) as Hi1.
  destruct (wait_completes s1 c r cli k start lost id _ Hi1 Hc1 Hg1) as
    (tr & s' & Hlen & Htr & Hr & _ & [[out Hout]|[Hu _]]); try done.
  exists (NE_send c id :: tr), s', out. split_and!; [simpl; lia|by constructor| |done].
  cbn [nrun]. by rewrite Hs.
Qed.
End progress.

(** What the network decided of each request. *)
Definition fate_of (m : net) (id : nat) : bool :=
  match s_reqs m !! id ≫= sent with Some rep => ok rep | None => true end.

Lemma fate_of_agrees m : agrees (fate_of m) m.
Proof using Type. intros id g rep Hg _ Hs. unfold fate_of. rewrite Hg. simpl. by rewrite Hs. Qed.

Lemma fate_of_lossless m id : lossless m → fate_of m id = true.
Proof using Type.
  intros [_ Hl]. unfold fate_of. destruct (s_reqs m !! id) as [g|] eqn:Hg; [|done].
  specialize (Hl id g Hg). unfold lossless_req, sent in *. simpl. by destruct (g_pc g).
Qed.

(** What [SpawnClientsAndWait] returns over the network it returns over the abstract
    channel; nothing is lost there if the network is reliable. *)
Lemma network_spawn {A} (k : nat) (fn : nat → prog A) (m : net) (now : Z) (tr : list nevent)
    (rs : list A) (s : nsys) :
  idle m → Forall ncalm tr →
  nSpawnClientsAndWait k fn m now tr = Some (rs, s) →
  ∃ tr' s', length tr' ≤ length tr ∧
    SpawnClientsAndWait k fn (kv_map (s_world m)) now tr' = Some (rs, s') ∧
    s_store s' = kv_map (s_world (n_net s)) ∧ s_log s' = n_log s ∧
    (Forall steady tr → lossless m → Forall nolose tr').
Proof using KD CD Hgob Henc.
  intros Hid Hc Hrun. unfold nSpawnClientsAndWait in Hrun.
  apply bind_Some in Hrun as (s1 & Hrun & Hres). apply bind_Some in Hres as (rs1 & Hres & [= <- <-]).
  pose proof (ninv_next_phase k fn (nstart m now) Hid) as Hi.
  destruct (nrun_sim (fate_of (n_net s1)) tr _ s1 Hi Hc Hrun) as (tr' & Hlen & Hr & Hf);
    [apply fate_of_agrees|].
  exists tr', (abs (fate_of (n_net s1)) s1). split_and!; [done| |done|done|].
  - unfold SpawnClientsAndWait. rewrite abs_next_phase in Hr.
    unfold ncollect_results in Hres. destruct (n_sends s1) as [[|x]|] eqn:Hsd; try done.
    apply nreturned_abs with (fate := fate_of (n_net s1)) in Hres. unfold returned in Hres.
    change (spawn k fn (kv_map (s_world m)) now) with (next_phase k fn (abs (fate_of (n_net s1)) (nstart m now))).
    rewrite Hr. cbn [mbind option_bind]. unfold collect_results. cbn [s_sends abs]. rewrite Hsd.
    by rewrite Hres.
  - intros Hst Hl. apply (Hf Hst); [|done]. intros id. apply fate_of_lossless.
    by eapply nrun_lossless.
Qed.

(** Two phases, the second of which may depend on the results of the first. *)
Lemma network_two_phases {A} (k1 k2 : nat) (fn1 fn2 : nat → prog A) (tr1 tr2 : list nevent)
    (rs : list A) (s0 s1 s2 : nsys) :
  idle (n_net s0) → Forall ncalm tr1 → Forall ncalm tr2 →
  nrun tr1 (nnext_phase k1 fn1 s0) = Some s1 → nreturned s1 = Some rs →
  nrun tr2 (nnext_phase k2 fn2 s1) = Some s2 →
  let fate := fate_of (n_net s2) in
  ∃ tr1' tr2', length tr1' ≤ length tr1 ∧ length tr2' ≤ length tr2 ∧
    run tr1' (next_phase k1 fn1 (abs fate s0)) = Some (abs fate s1) ∧
    run tr2' (next_phase k2 fn2 (abs fate s1)) = Some (abs fate s2) ∧
    (Forall steady (tr1 ++ tr2) → lossless (n_net s0) → Forall nolose tr1').
Proof using KD CD Hgob Henc.
  intros Hid Hc1 Hc2 Hr1 Hres Hr2 fate.
  pose proof (ninv_next_phase k1 fn1 s0 Hid) as Hi1.
  pose proof (nrun_inv _ _ _ Hi1 Hc1 Hr1) as Hi1'.
  pose proof (ninv_next_phase k2 fn2 s1 (nreturned_idle _ _ Hi1' Hres)) as Hi2.
  assert (agrees fate (n_net s2)) as Hag2 by apply fate_of_agrees.
  assert (agrees fate (n_net s1)) as Hag1
    by exact (nrun_agrees fate tr2 (nnext_phase k2 fn2 s1) s2 Hi2 Hc2 Hr2 Hag2).
  destruct (nrun_sim fate tr1 _ s1 Hi1 Hc1 Hr1 Hag1) as (tr1' & Hl1 & Hs1 & Hf).
  destruct (nrun_sim fate tr2 _ s2 Hi2 Hc2 Hr2 Hag2) as (tr2' & Hl2 & Hs2 & _).
  rewrite abs_next_phase in Hs1, Hs2. exists tr1', tr2'. split_and!; try done.
  intros [Hst1 Hst2]%Forall_app Hl. apply Hf; [done| |done].
  intros id. apply fate_of_lossless.
  apply (nrun_lossless tr2 (nnext_phase k2 fn2 s1) s2 Hi2 Hc2 Hr2 Hst2).
  by apply (nrun_lossless tr1 (nnext_phase k1 fn1 s0) s1).
Qed.

Section properties.
Context {A : Type} (phases : list (nat * (nat → prog A) * list nevent)) (m : net) (now : Z).
Context (s : @nsys A).

Lemma idle_start : wired m → s_reqs m = ∅ → idle (n_net (@nstart A m now)).
Proof using Type. intros Hw Hr. split; [done|]. simpl. intros id g. by rewrite Hr, lookup_empty. Qed.

Lemma network_simulated :
  wired m → s_reqs m = ∅ → kv_map (s_world m) = ∅ → Forall calm_phase phases →
  nrun_phases phases (nstart m now) = Some s →
  ∃ phases', phases'.*1 = phases.*1 ∧ steps_of phases' ≤ nsteps_of phases ∧
    run_phases phases' (Linear.start now) = Some (abs (fate_of (n_net s)) s).
Proof using KD CD Hgob Henc.
  intros Hw Hr Hs Hc Hrun.
  destruct (nphases_sim (fate_of (n_net s)) phases (nstart m now) s) as (phases' & H1 & H2 & H3);
    [by apply idle_start|done|done|apply fate_of_agrees|].
  exists phases'. split_and!; [done..|]. rewrite <-H3. f_equal. unfold abs, nstart, Linear.start.
  simpl. by rewrite Hs.
Qed.

(** C3: the simulated network refines the lossy channel of the abstract tests.
    Whatever the phases of clients do, however the goroutines of the network
    interleave with them and with the tester, and whatever the network loses or
    reorders, as long as the tester leaves the server reachable, some run of the
    abstract system, in which each attempt of a call is executed at once or lost,
    has the same clients, logs the same history, leaves the same store on the
    server and gives the same results, in no more steps. *)
Theorem network_refines :
  wired m → s_reqs m = ∅ → kv_map (s_world m) = ∅ → Forall calm_phase phases →
  nrun_phases phases (nstart m now) = Some s →
  ∃ phases' s', phases'.*1 = phases.*1 ∧ steps_of phases' ≤ nsteps_of phases ∧
    run_phases phases' (Linear.start now) = Some s' ∧
    s_log s' = n_log s ∧ s_store s' = kv_map (s_world (n_net s)) ∧ s_now s' = n_now s ∧
    ∀ rs, nreturned s = Some rs → returned s' = Some rs.
Proof using KD CD Hgob Henc.
  intros Hw Hr Hs Hc Hrun. destruct network_simulated as (phases' & H1 & H2 & H3); try done.
  exists phases', (abs (fate_of (n_net s)) s). split_and!; try done. apply nreturned_abs.
Qed.

(** So the history of a test over the network is linearizable. *)
Lemma network_linearizable :
  wired m → s_reqs m = ∅ → kv_map (s_world m) = ∅ → Forall calm_phase phases →
  nrun_phases phases (nstart m now) = Some s → (Z.of_nat (nsteps_of phases) < 2 ^ 64)%Z →
  (∀ o, o ∈ n_log s → clean_op (Input o) (Output o)) → linearizable (n_log s).
Proof using KD CD Hgob Henc.
  intros Hw Hr Hs Hc Hrun Hb Hclean.
  destruct network_simulated as (phases' & H1 & H2 & H3); try done.
  apply (phases_linearizable phases' now (abs (fate_of (n_net s)) s)); [lia|done|done].
Qed.

(** C10: no clerk waits for ever.  In every state that a test can reach with the
    network running, a client in the middle of a call has its answer after at most
    19 steps, if it and the goroutines of its request run and the network does not
    lose it: a request is never stuck, and one that was lost is sent again. *)
Theorem clerk_answered (k0 : nat) (fn : nat → prog A) (tr0 : list nevent) (s1 : @nsys A)
    (c : nat) (r : request) (cli start : Z) (k : KvOutput → prog A) (st : nclient) :
  wired m → s_reqs m = ∅ → Forall calm_phase phases →
  nrun_phases phases (nstart m now) = Some s → Forall ncalm tr0 →
  nrun tr0 (nnext_phase k0 fn s) = Some s1 → s_loop (n_net s1) = true →
  n_clients s1 !! c = Some st →
  (∃ lost, st = NC_call r cli k start lost ∨ ∃ id, st = NC_wait r cli k start lost id) →
  ∃ tr s' out, length tr ≤ 19 ∧ Forall ncalm tr ∧ nrun tr s1 = Some s' ∧
    n_clients s' !! c = Some (NC_reply r cli k start out).
Proof using KD CD Hgob Henc.
  intros Hw Hr Hc Hrun Htr0 Hrun0 Hl Hst Hcall.
  pose proof (nphases_idle (λ _, true) phases _ s (idle_start Hw Hr) Hc Hrun) as [Hid _].
  pose proof (nrun_inv _ _ _ (ninv_next_phase k0 fn s Hid) Htr0 Hrun0) as Hi.
  destruct Hcall as (lost & [->|[id ->]]).
  { destruct (send_completes s1 c r cli k start lost Hi Hl Hst) as (tr & s' & out & ? & ? & ? & ?).
    exists tr, s', out. split_and!; (done || lia). }
  destruct (iv_wait _ _ Hi _ _ _ _ _ _ _ Hst) as (g & Hg & Hreq & Hph).
  destruct (wait_completes s1 c r cli k start lost id g Hi Hst Hg Hph Hreq)
    as (tr & s2 & Hlen & Htr & Hr2 & Hl2 & [[out Hout]|[_ Hc2]]).
  { unfold phase_ok, work_left in *. destruct (g_pc g), (g_h g); (done || lia). }
  { exists tr, s2, out. split_and!; (done || lia). }
  destruct (send_completes s2 c r cli k start (S lost)) as (tr' & s' & out & ? & ? & Hr' & ?);
    [by eapply nrun_inv|congruence|done|].
  exists (tr ++ tr'), s', out. rewrite length_app. split_and!; [lia|by apply Forall_app| |done].
  by rewrite (nrun_app _ _ _ _ Hr2).
Qed.
End properties.
End network.

(** ** A race over a lossy network *)

(** An encoding of the values; one number stands for all bytes. *)
Definition kv_code (v : kv_val) : nat * string * string * Z :=
  match v with
  | V_PutArgs a => (0, pa_Key a, pa_Value a, pa_Version a)
  | V_PutReply r => (1, pr_Err r, "", 0%Z)
  | V_GetArgs a => (2, ga_Key a, "", 0%Z)
  | V_GetReply r => (3, gr_Value r, gr_Err r, gr_Version r)
  | V_KVServer => (4, "", "", 0%Z)
  end.
Definition kv_uncode (x : nat * string * string * Z) : kv_val :=
  match x with
  | (0, a, b, z) => V_PutArgs (mkPutArgs a b z)
  | (1, a, _, _) => V_PutReply (mkPutReply a)
  | (2, a, _, _) => V_GetArgs (mkGetArgs a)
  | (3, a, b, z) => V_GetReply (mkGetReply a z b)
  | _ => V_KVServer
  end.
Definition demo_enc (v : kv_val) : list Z * bool := ([Z.pos (encode (kv_code v))], true).
Definition demo_dec (v : kv_val) (bytes : list Z) : kv_val * bool :=
  match bytes with
  | [z] => match decode (Z.to_pos z) with Some x => (kv_uncode x, true) | None => (v, false) end
  | _ => (v, false)
  end.

Lemma demo_gob : GobLaws kv_val kv_ty (H := kv_values demo_enc demo_dec).
Proof.
  intros v _. simpl. unfold demo_dec. cbn [Z.to_pos]. rewrite decode_encode.
  by destruct v as [[]|[]|[]|[]|].
Qed.

(** A server that also counts its requests, and a clerk, both as documented. *)
Definition demo_state : Type := kvstore * nat.
#[local] Instance demo_server : KVServer demo_state := {
  kv_Get w a r :=
    let '(v, ver, e) := srv_Get w.1 (ga_Key a) in ((w.1, S w.2), mkGetReply v ver e);
  kv_Put w a r :=
    let '(e, m) := srv_Put w.1 (pa_Key a) (pa_Value a) (pa_Version a) in
    ((m, S w.2), mkPutReply e);
  kv_map := fst
}.
#[local] Instance demo_server_doc : KVServerDoc demo_state.
Proof.
  split; simpl; unfold srv_Get, srv_Put.
  - intros w a r. by destruct (w.1 !! ga_Key a) as [[??]|].
  - intros w key v ver Hk. by rewrite Hk.
  - intros w key Hk. by rewrite Hk.
  - intros w key value ver v Hk. rewrite Hk. by rewrite decide_True.
  - intros w key value ver v cur Hk Hne. rewrite Hk. by rewrite decide_False.
  - intros w key value Hk. rewrite Hk. by rewrite decide_True.
  - intros w key value ver Hk Hne. rewrite Hk. by rewrite decide_False.
Qed.
#[local] Instance demo_clerk : KVClerk := λ r n rep, answer r (0 <? n) <$> rep.
#[local] Instance demo_clerk_doc : KVClerkDoc.
Proof.
  split; unfold ck_next, demo_clerk; simpl; try done.
  intros key value ver n e [->| ->]; (case_decide as Hd; [by destruct Hd|done]).
Qed.

(** Three ends, which the clients share, to one server. *)
Definition demo_end (c : nat) : iface := Some (NInt (Z.of_nat (c mod 3))).
Definition demo_ends : list iface := demo_end <$> seq 0 3.
Definition demo_net : @Labrpc.sys kv_val kv_ty demo_state :=
  Labrpc.mkSys (mkNetwork false true true
      (list_to_map ((λ e, (e, mkClientEnd e)) <$> demo_ends))
      (list_to_map ((λ e, (e, true)) <$> demo_ends))
      {[Some (NStr "server") := Some 0]}
      (list_to_map ((λ e, (e, Some (NStr "server"))) <$> demo_ends)) 0 0 false)
    {[0 := mkServer {["KVServer" := kv_service]} 0]} (∅, 0) ∅ true.

Lemma demo_net_wired : wired demo_end (NStr "server") 0 demo_net.
Proof.
  split; [|split].
  - intros c. unfold demo_end. pose proof (Nat.mod_upper_bound c 3 ltac:(lia)) as Hc.
    destruct (c mod 3) as [|[|[|x]]]; [split; reflexivity..|lia].
  - reflexivity.
  - eexists. split; reflexivity.
Qed.

(** The goroutines of a request, with the draws of the network. *)
Definition deliver (id : nat) (d1 : Z) : list (@nevent) :=
  NE_net <$> [A_read id; A_branch id d1; A_lookup id; A_handler id].
Definition finish (id : nat) (d2 : Z) : list (@nevent) :=
  NE_net <$> [A_recv id; A_finish id d2; A_send id].

(** A first put; then the reply to the put of client 0 is lost, a request of
    client 1 is lost, and the get of client 2 is answered late. *)
Definition net_race : list (nat * (nat → prog unit) * list nevent) :=
  [(1, (λ _, _ ← pPut "k" "a" 0 (-1); P_ret tt),
    [NE_begin 0; NE_tick 5; NE_send 0 0] ++ deliver 0 500 ++ finish 0 500 ++
    [NE_answer 0; NE_return 0; NE_tick 5]);
   (3, race_fn,
    [NE_begin 0; NE_begin 1; NE_begin 2; NE_send 2 3; NE_send 0 1; NE_tick 1] ++ deliver 1 500 ++
    [NE_net (A_poll 1)] ++ deliver 3 200 ++ finish 1 0 ++
    [NE_answer 0; NE_send 1 2; NE_send 0 4; NE_net (A_read 2); NE_net (A_branch 2 99);
     NE_net (A_net (O_longReordering false))] ++ deliver 4 300 ++ finish 4 300 ++
    [NE_answer 0; NE_tick 1; NE_return 0; NE_net (A_send 2); NE_answer 1; NE_send 1 7] ++
    deliver 7 999 ++ finish 3 100 ++ [NE_answer 2; NE_return 2] ++ finish 7 100 ++
    [NE_answer 1; NE_tick 1; NE_return 1])].

Definition net_run : option nsys :=
  nrun_phases demo_enc demo_dec demo_end net_race (nstart demo_net 7).
Definition net_log : list Operation :=
  [mkOp (-1) (mkIn 1 "k" "a" 0) 7 (mkOut "" 0 OK) 12;
   mkOp 0 (mkIn 1 "k" "b" 1) 17 (mkOut "" 0 ErrMaybe) 19;
   mkOp 2 (mkIn 0 "k" "" 0) 17 (mkOut "b" 2 OK) 19;
   mkOp 1 (mkIn 1 "k" "c" 1) 17 (mkOut "" 0 ErrMaybe) 20].

Lemma net_race_calm : Forall (calm_phase demo_end (NStr "server")) net_race.
Proof. repeat constructor. Qed.

Lemma net_run_log : n_log <$> net_run = Some net_log.
Proof. by vm_compute. Qed.

Lemma demo_enc_ok v : v ≠ V_KVServer → (demo_enc v).2 = true.
Proof. done. Qed.

(** An abstract run logs the same history. *)
Lemma network_refines_witness :
  ∃ phases' s', phases'.*1 = net_race.*1 ∧ run_phases phases' (Linear.start 7) = Some s' ∧
    s_log s' = net_log.
Proof.
  pose proof net_run_log as Hlog. unfold net_run in Hlog.
  destruct (nrun_phases demo_enc demo_dec demo_end net_race (nstart demo_net 7)) as [s|] eqn:Hrun;
    [|discriminate Hlog].
  injection Hlog as Hlog.
  destruct (network_refines demo_enc demo_dec demo_end (NStr "server") 0 demo_gob demo_enc_ok
    net_race demo_net 7 s demo_net_wired eq_refl eq_refl net_race_calm Hrun)
    as (phases' & s' & H1 & _ & H2 & H3 & _).
  exists phases', s'. split; [exact H1|]. split; [exact H2|]. by rewrite H3.
Defined.

(** The clients race, and the reply to the put of client 0 has just been lost. *)
Definition lost_reply : list (@nevent) :=
  [NE_begin 0; NE_send 0 1] ++ deliver 1 500 ++ finish 1 0.

Lemma clerk_answered_witness :
  match nrun demo_enc demo_dec demo_end lost_reply (nnext_phase 3 race_fn (nstart demo_net 7)) with
  | Some s1 => ∃ tr s' r cli k start out, length tr ≤ 19 ∧
      nrun demo_enc demo_dec demo_end tr s1 = Some s' ∧
      n_clients s' !! 0 = Some (NC_reply r cli k start out)
  | None => False
  end.
Proof.
  assert ((s1 ← nrun demo_enc demo_dec demo_end lost_reply
      (nnext_phase 3 race_fn (nstart demo_net 7));
    st ← n_clients s1 !! 0; Some (s_loop (n_net s1), waits st)) = Some (true, Some 1)) as Hc
    by by vm_compute.
  destruct (nrun _ _ _ lost_reply _) as [s1|] eqn:Hrun; [|discriminate Hc].
  cbn [mbind option_bind] in Hc. destruct (n_clients s1 !! 0) as [st|] eqn:Hst; [|discriminate Hc].
  cbn [mbind option_bind] in Hc. injection Hc as Hl Hw.
  destruct st as [|?|r cli k start lost id|]; try discriminate Hw.
  destruct (clerk_answered demo_enc demo_dec demo_end (NStr "server") 0 demo_gob demo_enc_ok
    [] demo_net 7 (nstart demo_net 7) 3 race_fn lost_reply s1 0 r cli start k _
    demo_net_wired eq_refl (Forall_nil_2 _) eq_refl ltac:(repeat constructor) Hrun Hl Hst
    ltac:(exists lost; right; by exists id)) as (tr & s' & out & H1 & _ & H2 & H3).
  exists tr, s', r, cli, k, start, out. split; [exact H1|]. by split.
Defined.
