(* ===== verification/Guarantee.v ===== *)
(** * What concurrent clients guarantee to each other

    A client of the tests changes one key, by puts whose version it got from the
    server.  [safe] is the weakest precondition of a client program with respect
    to what the others may do: put to the same key.  It is local to a client: a
    ghost value for what the client has done so far, and what it knows of the
    key.  The theorem at the end combines the clients of a system. *)

From S2P Require Export Linear.
#[local] Set Default Proof Using "Type".

(** ** Knowledge of a key

    That it exists, and a value and version it had at some time; a version is
    never the version of two values. *)
Record know := mkKnow { kn_exists : bool; kn_snap : option (string * Tversion) }.

Definition nothing : know := mkKnow false None.

Definition snap_le (snap : option (string * Tversion)) (v : string) (ver : Tversion) : Prop :=
  match snap with
  | Some (v0, ver0) => (ver0 ≤ ver)%Z ∧ (ver0 = ver → v = v0)
  | None => True
  end.

Section know.
Context (key : string).

Record know_ok (kn : know) (m : kvstore) : Prop := {
  ko_exists : kn_exists kn = true → is_Some (m !! key);
  ko_snap : kn_snap kn ≠ None → ∃ v ver, m !! key = Some (v, ver) ∧ snap_le (kn_snap kn) v ver
}.

Lemma nothing_ok m : know_ok nothing m.
Proof. split; [done|]. by intros []. Qed.

(** Knowledge stays true, whatever is served. *)
Lemma know_ok_serve B kn m r out m' :
  know_ok kn m → serve r m = (out, m') → versions_le B m → (B + 1 < 2 ^ 64)%Z → know_ok kn m'.
Proof.
  intros [He Hs] Hserve HB Hb. destruct r as [k|k value ver].
  { assert (m' = m) as -> by (rewrite <-(serve_get m k), Hserve; done). by split. }
  unfold serve in Hserve. rewrite srv_op_put in Hserve.
  destruct (srv_Put m k value ver) as [e m1] eqn:Hp. injection Hserve as _ <-.
  destruct (srv_Put_cases m k value ver) as [[H Hc]|[[H _]|[H _]]]; rewrite H in Hp;
    injection Hp as _ <-; try by split.
  destruct (decide (k = key)) as [->|Hne]; [|by split; rewrite lookup_insert_ne].
  split; rewrite lookup_insert_eq; [by eexists|]. intros Hn.
  destruct (Hs Hn) as (v & cur & Hk & Hle). eexists _, _. split; [done|].
  destruct (kn_snap kn) as [[v0 ver0]|]; [|done]. destruct Hle as [Hle _].
  destruct Hc as [[w Hw]|[Hw _]]; [|congruence]. rewrite Hk in Hw. injection Hw as -> ->.
  specialize (HB _ _ _ Hk). unfold ver_incr. rewrite wrap_u64_id by lia. simpl. lia.
Qed.

(** What a client knows after its own calls. *)
Definition know_get (v : string) (ver : Tversion) : know := mkKnow true (Some (v, ver)).
Definition know_exists (kn : know) : know := mkKnow true (kn_snap kn).
End know.

Section safe.
(** The key; whether messages get lost; per client [G] the ghost values [γ], tied
    to the store by [J]; [fact]: what a value on the server says to a client; [pre]:
    the puts it may make; [upd]: its ghost value after such a put is done. *)
Context {G : Type} (key : string) (lossy : bool).
Context (J : kvstore → list G → Prop)
        (fact : nat → G → string → Tversion → Prop)
        (pre : nat → G → know → string → Tversion → Prop)
        (upd : nat → string → Tversion → G → G).

Fixpoint safe {B} (c : nat) (Q : B → G → know → Prop) (p : prog B) (g : G) (kn : know) : Prop :=
  match p with
  | P_ret b => Q b g kn
  | P_call (R_get k') cli k =>
      k' = key ∧
      (∀ v ver, fact c g v ver → snap_le (kn_snap kn) v ver →
         safe c Q (k (mkOut v ver OK)) g (know_get v ver)) ∧
      (kn_exists kn = false → safe c Q (k (mkOut "" 0 ErrNoKey)) g kn)
  | P_call (R_put k' value ver) cli k =>
      k' = key ∧ pre c g kn value ver ∧ (ver = 0%Z ∨ kn_exists kn = true) ∧
      safe c Q (k (mkOut "" 0 OK)) (upd c value ver g) (know_get value (ver_incr ver)) ∧
      safe c Q (k (mkOut "" 0 ErrVersion)) g (know_exists kn) ∧
      (lossy = true →
        safe c Q (k (mkOut "" 0 ErrMaybe)) (upd c value ver g) (know_exists kn) ∧
        safe c Q (k (mkOut "" 0 ErrMaybe)) g (know_exists kn))
  | P_poll k => ∀ b, safe c Q (k b) g kn
  | P_rand k => ∀ z, (0 ≤ z)%Z → safe c Q (k z) g kn
  | P_fail _ | P_panic _ => False
  | P_diverge => True
  end.

Lemma safe_mono {B} c (Q1 Q2 : B → G → know → Prop) p : ∀ g kn,
  (∀ b g kn, Q1 b g kn → Q2 b g kn) → safe c Q1 p g kn → safe c Q2 p g kn.
Proof.
  induction p as [b|[k'|k' value ver] cli k IH|k IH|k IH|why|why|]; intros g kn HQ; simpl; auto.
  - intros (? & H1 & H2). split; [done|]. split; intros; apply IH; auto.
  - intros (? & ? & ? & H1 & H2 & H3). split_and!; try done; try (apply IH; auto).
    intros Hl. destruct (H3 Hl). split; apply IH; auto.
Qed.

Lemma safe_bind {B C} c (Q : C → G → know → Prop) (f : B → prog C) p : ∀ g kn,
  safe c (λ b g kn, safe c Q (f b) g kn) p g kn → safe c Q (p ≫= f) g kn.
Proof.
  induction p as [b|[k'|k' value ver] cli k IH|k IH|k IH|why|why|]; intros g kn; simpl; auto.
  - intros (? & H1 & H2). split; [done|]. split; intros; apply IH; auto.
  - intros (? & ? & ? & H1 & H2 & H3). split_and!; try done; try (apply IH; auto).
    intros Hl. destruct (H3 Hl). split; apply IH; auto.
Qed.

(** ** Clients in a system *)

Record guarantees : Prop := {
  gu_fact m γ c g v ver :
    J m γ → γ !! c = Some g → m !! key = Some (v, ver) → fact c g v ver;
  gu_put m γ c g kn value ver m' :
    J m γ → γ !! c = Some g → know_ok key kn m → pre c g kn value ver →
    (0 ≤ ver < 2 ^ 64 - 1)%Z → srv_Put m key value ver = (OK, m') →
    J m' (<[c := upd c value ver g]> γ)
}.
Context (Hgu : guarantees).

Context {A : Type} (Q : nat → A → G → know → Prop).

Definition client_ok (m : kvstore) (c : nat) (st : cstate A) (g : G) : Prop :=
  ∃ kn, know_ok key kn m ∧
  match st with
  | CS_run p => safe c (Q c) p g kn
  | CS_call r cli k start resent =>
      (resent = true → lossy = true) ∧
      (safe c (Q c) (P_call r cli k) g kn ∨
       ∃ k' value ver, r = R_put k' value ver ∧ resent = true ∧ newer m k' ver ∧
         safe c (Q c) (k (mkOut "" 0 ErrMaybe)) g kn)
  | CS_reply r cli k start out => clean_op (inp_of r) out ∧ safe c (Q c) (k out) g kn
  end.

Record system_ok (n : nat) (s : sys A) (γ : list G) : Prop := {
  so_versions : versions_le (Z.of_nat n) (s_store s);
  so_J : J (s_store s) γ;
  so_length : length γ = length (s_clients s);
  so_clients : ∀ c st g, s_clients s !! c = Some st → γ !! c = Some g →
    client_ok (s_store s) c st g;
  so_log : ∀ o, o ∈ s_log s → clean_op (Input o) (Output o)
}.

(** Another client's request leaves a client as it was. *)
Lemma client_ok_serve B m c st g r out m' :
  client_ok m c st g → serve r m = (out, m') → versions_le B m → (B + 1 < 2 ^ 64)%Z →
  client_ok m' c st g.
Proof.
  intros (kn & Hkn & Hst) Hs HB Hb. exists kn. split; [by eapply know_ok_serve|].
  destruct st; try done. destruct Hst as [Hl [Hst|(k' & value & ver & ? & ? & Hnew & ?)]];
    (split; [done|]); [by left|]. right. exists k', value, ver. split_and!; try done.
  by eapply serve_newer.
Qed.

(** A client moves, with a request served or none. *)
Lemma system_ok_step n s γ c st st' g g' r m' s' :
  system_ok n s γ → (Z.of_nat n + 1 < 2 ^ 64)%Z →
  s_clients s !! c = Some st → γ !! c = Some g →
  (s_store s' = s_store s ∨ ∃ out, serve r (s_store s) = (out, s_store s')) →
  m' = s_store s' → s_clients s' = <[c := st']> (s_clients s) → s_log s' = s_log s →
  J m' (<[c := g']> γ) → client_ok m' c st' g' →
  system_ok (S n) s' (<[c := g']> γ).
Proof.
  intros [Hv HJ Hlen Hcl Hlog] Hb Hc Hg Hm -> Hcl' Hlog' HJ' Hc'. split; [|done| | |by rewrite Hlog'].
  - rewrite Nat2Z.inj_succ, <-Z.add_1_r. destruct Hm as [->|[out Hm]].
    + intros k v ver Hk. specialize (Hv k v ver Hk). lia.
    + eapply serve_versions; [done|exact Hm|lia..].
  - by rewrite Hcl', !length_insert.
  - intros c0 st0 g0 Hc0 Hg0. rewrite Hcl' in Hc0. destruct (decide (c = c0)) as [<-|Hne].
    + apply list_lookup_insert_Some in Hc0 as [(_ & <- & _)|[? _]]; [|done].
      apply list_lookup_insert_Some in Hg0 as [(_ & <- & _)|[? _]]; [|done]. done.
    + apply list_lookup_insert_Some in Hc0 as [[? _]|[_ Hc0]]; [done|].
      apply list_lookup_insert_Some in Hg0 as [[? _]|[_ Hg0]]; [done|].
      specialize (Hcl _ _ _ Hc0 Hg0). destruct Hm as [->|[out Hm]]; [done|].
      by eapply client_ok_serve.
Qed.

(** A client moves by itself. *)
Lemma system_ok_quiet n s γ c st st' g s' :
  system_ok n s γ → (Z.of_nat n + 1 < 2 ^ 64)%Z →
  s_clients s !! c = Some st → γ !! c = Some g → s_store s' = s_store s →
  s_clients s' = <[c := st']> (s_clients s) → s_log s' = s_log s → client_ok (s_store s) c st' g →
  ∃ γ', system_ok (S n) s' γ'.
Proof.
  intros Hok Hb Hc Hg Hm Hcl Hlog Hc'. exists (<[c := g]> γ).
  eapply (system_ok_step n s γ c st st' g g (R_get key)); try done; [by left|].
  rewrite list_insert_id by done. apply Hok.
Qed.

(** A call is logged. *)
Lemma system_ok_logged n s γ op :
  system_ok n s γ → clean_op (Input op) (Output op) → system_ok n (add_log op s) γ.
Proof.
  intros [H1 H2 H3 H4 H5] Hop. split; try done. intros o Ho. simpl in Ho. unfold Append in Ho.
  apply elem_of_app in Ho as [Ho|Ho%list_elem_of_singleton]; [by apply H5|by subst].
Qed.

(** The request of a client that was not executed yet. *)
Lemma exec_put n s γ c g kn k' value ver cli k m' e :
  system_ok n s γ → (Z.of_nat n + 1 < 2 ^ 64)%Z → γ !! c = Some g →
  know_ok key kn (s_store s) → safe c (Q c) (P_call (R_put k' value ver) cli k) g kn →
  srv_Put (s_store s) k' value ver = (e, m') →
  (e = OK ∧ J m' (<[c := upd c value ver g]> γ) ∧ newer m' k' ver ∧
     know_ok key (know_get value (ver_incr ver)) m' ∧ know_ok key (know_exists kn) m') ∨
  (e = ErrVersion ∧ m' = s_store s ∧ know_ok key (know_exists kn) m').
Proof using Hgu.
  intros [Hv HJ _ _ _] Hb Hg Hkn (-> & Hpre & Hex & _) Hp.
  assert (serve (R_put key value ver) (s_store s) = (mkOut "" 0 e, m')) as Hs
    by (unfold serve; by rewrite srv_op_put, Hp).
  assert (know_ok key kn m') as Hkn' by (eapply know_ok_serve; [exact Hkn|exact Hs|exact Hv|lia]).
  destruct (srv_Put_cases (s_store s) key value ver) as [[H Hc]|[[H Hc]|[H [Hn Hz]]]];
    pose proof H as Hput; rewrite Hp in H; injection H as -> ->.
  - assert (0 ≤ ver < 2 ^ 64 - 1)%Z as Hver.
    { destruct Hc as [[v Hk]|[_ ->]]; [specialize (Hv _ _ _ Hk)|]; lia. }
    left. split_and!; [done|by eapply gu_put|eapply put_newer; [exact Hput|done|lia..]| |].
    + split; rewrite lookup_insert_eq; [by eexists|]. intros _. eexists _, _. by split.
    + split; [|apply Hkn']. intros _. rewrite lookup_insert_eq. by eexists.
  - right. split_and!; try done. destruct Hc as (v & cur & Hk & _).
    split; [by rewrite Hk|apply Hkn].
  - exfalso. destruct Hex as [?|Hex]; [done|]. destruct (ko_exists _ _ _ Hkn Hex) as [? Hk].
    congruence.
Qed.

Lemma step_lose_ok n s s' γ c ex :
  system_ok n s γ → (Z.of_nat n + 1 < 2 ^ 64)%Z → lossy = true →
  step (E_lose c ex) s = Some s' → ∃ γ', system_ok (S n) s' γ'.
Proof using Hgu.
  intros Hok Hb Hl Hs. simpl in Hs.
  destruct (s_clients s !! c) as [[|r cli k start resent|]|] eqn:Hc; try done. injection Hs as <-.
  destruct (lookup_lt_is_Some_2 γ c) as [g Hg].
  { rewrite (so_length _ _ _ Hok). by eapply lookup_lt_Some. }
  destruct (so_clients _ _ _ Hok c _ g Hc Hg) as (kn & Hkn & Hres & Hst).
  (* nothing happened on the server *)
  assert (∀ m, m = s_store s → ∃ γ', system_ok (S n)
    (set_client c (CS_call r cli k start true) (set_store m s)) γ') as Hquiet.
  { intros m ->. eapply system_ok_quiet; try done. exists kn. split; [done|]. split; [done|].
    destruct Hst as [Hst|(k' & value & ver & ? & _ & ? & ?)]; [by left|].
    right. by exists k', value, ver. }
  destruct ex; [|destruct s; by apply Hquiet].
  destruct r as [k'|k' value ver]; [apply Hquiet, serve_get|].
  destruct (serve (R_put k' value ver) (s_store s)) as [out m'] eqn:Hserve.
  pose proof Hserve as Hs. unfold serve in Hs. rewrite srv_op_put in Hs.
  destruct (srv_Put (s_store s) k' value ver) as [e m1] eqn:Hp. injection Hs as <- <-.
  destruct Hst as [Hst|(? & ? & ? & [= <- <- <-] & _ & Hnew & _)].
  2:{ apply Hquiet. rewrite newer_refused in Hp by done. by injection Hp. }
  destruct (exec_put n s γ c g kn k' value ver cli k m1 e) as [(-> & HJ & Hnew & _ & Hkn')|(-> & -> & _)];
    try done; [|by apply Hquiet].
  exists (<[c := upd c value ver g]> γ).
  eapply (system_ok_step n s γ c _ (CS_call (R_put k' value ver) cli k start true) g _
    (R_put k' value ver)); try done.
  - right. by eexists.
  - exists (know_exists kn). split; [done|]. split; [done|]. right.
    exists k', value, ver. split_and!; try done.
    destruct Hst as (_ & _ & _ & _ & _ & Hmay). by apply Hmay.
Qed.

Lemma step_exec_ok n s s' γ c :
  system_ok n s γ → (Z.of_nat n + 1 < 2 ^ 64)%Z →
  step (E_exec c) s = Some s' → ∃ γ', system_ok (S n) s' γ'.
Proof using Hgu.
  intros Hok Hb Hs. simpl in Hs.
  destruct (s_clients s !! c) as [[|r cli k start resent|]|] eqn:Hc; try done.
  destruct (lookup_lt_is_Some_2 γ c) as [g Hg].
  { rewrite (so_length _ _ _ Hok). by eapply lookup_lt_Some. }
  destruct (so_clients _ _ _ Hok c _ g Hc Hg) as (kn & Hkn & Hres & Hst).
  destruct (serve r (s_store s)) as [out m'] eqn:Hserve. injection Hs as <-.
  destruct r as [k'|k' value ver].
  - assert (m' = s_store s) as -> by (rewrite <-(serve_get (s_store s) k'), Hserve; done).
    destruct Hst as [(-> & Hfound & Hnone)|(? & ? & ? & ? & _)]; [|done].
    eapply system_ok_quiet; try done. unfold serve, srv_op, srv_Get in Hserve. simpl in Hserve.
    destruct (s_store s !! key) as [[v cur]|] eqn:Hk; injection Hserve as <-.
    + assert (snap_le (kn_snap kn) v cur) as Hle.
      { destruct (decide (kn_snap kn = None)) as [->|Hn]; [done|].
        destruct (ko_snap _ _ _ Hkn Hn) as (? & ? & Hk' & ?). rewrite Hk in Hk'. by simplify_eq. }
      exists (know_get v cur). split.
      * split; rewrite Hk; [by eexists|]. intros _. eexists _, _. by split.
      * split; [done|]. apply Hfound; [|done]. by eapply gu_fact; [exact Hgu|apply Hok|..].
    + exists kn. split; [done|]. split; [done|]. apply Hnone. destruct (kn_exists kn) eqn:He; [|done].
      destruct (ko_exists _ _ _ Hkn He) as [? ?]. congruence.
  - pose proof Hserve as Hs. unfold serve in Hs. rewrite srv_op_put in Hs.
    destruct (srv_Put (s_store s) k' value ver) as [e m1] eqn:Hp. injection Hs as <- <-.
    destruct Hst as [Hst|(? & ? & ? & [= <- <- <-] & -> & Hnew & Hst)].
    2:{ rewrite newer_refused in Hp by done. injection Hp as <- <-.
        eapply system_ok_quiet; try done. exists kn. split; [done|]. by split. }
    pose proof Hst as (_ & _ & _ & Hdone & Href & Hmay).
    destruct (exec_put n s γ c g kn k' value ver cli k m1 e)
      as [(-> & HJ & _ & Hkn' & _)|(-> & -> & Hkn')]; try done.
    + exists (<[c := upd c value ver g]> γ).
      eapply (system_ok_step n s γ c _
        (CS_reply (R_put k' value ver) cli k start (mkOut "" 0 OK)) g _
        (R_put k' value ver)); try done; [right; by eexists|].
      exists (know_get value (ver_incr ver)). split; [done|]. by split.
    + eapply system_ok_quiet; try done. exists (know_exists kn). split; [done|].
      destruct resent; simpl; (split; [done|]); [|done]. by apply Hmay, Hres.
Qed.

Definition allowed (e : event) : Prop := lossy = true ∨ ∀ c b, e ≠ E_lose c b.

Lemma system_step n e s s' γ :
  (Z.of_nat n + 1 < 2 ^ 64)%Z → allowed e → system_ok n s γ →
  step e s = Some s' → ∃ γ', system_ok (S n) s' γ'.
Proof using Hgu.
  intros Hb Hal Hok Hs.
  assert (∀ s1, s_store s1 = s_store s → s_clients s1 = s_clients s → s_log s1 = s_log s →
    ∃ γ', system_ok (S n) s1 γ') as Hsame.
  { intros s1 Hm Hcl Hlog. exists γ. destruct Hok. split; rewrite ?Hm, ?Hcl, ?Hlog; try done.
    intros k v ver Hk. specialize (so_versions0 k v ver Hk). lia. }
  assert (∀ c st, s_clients s !! c = Some st → ∃ g, γ !! c = Some g) as Hγ.
  { intros c st Hc. apply lookup_lt_is_Some_2. rewrite (so_length _ _ _ Hok).
    by eapply lookup_lt_Some. }
  destruct e as [d|c|c ex|c|c| |c b|c z].
  - simpl in Hs. destruct (decide _); [|done]. injection Hs as <-. by apply Hsame.
  - simpl in Hs. destruct (s_clients s !! c) as [[[]| |]|] eqn:Hc; try done. injection Hs as <-.
    destruct (Hγ _ _ Hc) as [g Hg]. destruct (so_clients _ _ _ Hok c _ g Hc Hg) as (kn & ? & Hst).
    eapply system_ok_quiet; try done. exists kn. split; [done|]. split; [done|by left].
  - destruct Hal as [Hl|Hne]; [|by destruct (Hne c ex)]. by eapply step_lose_ok.
  - by eapply step_exec_ok.
  - simpl in Hs. destruct (s_clients s !! c) as [[| |r cli k start out]|] eqn:Hc; try done.
    injection Hs as <-.
    destruct (Hγ _ _ Hc) as [g Hg]. destruct (so_clients _ _ _ Hok c _ g Hc Hg) as (kn & ? & Hcl & Hst).
    eapply (system_ok_quiet n _ γ c (CS_reply r cli k start out));
      [exact (system_ok_logged n s γ (mkOp cli (inp_of r) start out (s_now s)) Hok Hcl)|done..|]. by exists kn.
  - simpl in Hs. destruct (s_sends s); [done|]. injection Hs as <-. by apply Hsame.
  - simpl in Hs. destruct (s_clients s !! c) as [[[]| |]|] eqn:Hc; try done.
    destruct (Hγ _ _ Hc) as [g Hg]. destruct (so_clients _ _ _ Hok c _ g Hc Hg) as (kn & ? & Hst).
    destruct b; [destruct (s_sends s) as [[|?]|]; try done|]; injection Hs as <-;
      (eapply system_ok_quiet; try done; exists kn; split; [done|apply Hst]).
  - simpl in Hs. destruct (s_clients s !! c) as [[[]| |]|] eqn:Hc; try done.
    destruct (decide _); [|done]. injection Hs as <-.
    destruct (Hγ _ _ Hc) as [g Hg]. destruct (so_clients _ _ _ Hok c _ g Hc Hg) as (kn & ? & Hst).
    eapply system_ok_quiet; try done. exists kn. split; [done|by apply Hst].
Qed.

(** Clients that are safe from the start are safe in every state of every
    schedule: none fails, no put of theirs is answered [ErrNoKey], and the results of
    all fit the ghost values of the final state. *)
Lemma safe_clients n0 n (fn : nat → prog A) s0 γ tr s' :
  (Z.of_nat (n0 + length tr) < 2 ^ 64)%Z → Forall allowed tr →
  versions_le (Z.of_nat n0) (s_store s0) → J (s_store s0) γ → length γ = n →
  (∀ o, o ∈ s_log s0 → clean_op (Input o) (Output o)) →
  (∀ c g, γ !! c = Some g → ∃ kn, know_ok key kn (s_store s0) ∧ safe c (Q c) (fn c) g kn) →
  run tr (next_phase n fn s0) = Some s' →
  ∃ γ', system_ok (n0 + length tr) s' γ'.
Proof using Hgu.
  intros Hb Hal Hv HJ Hlen Hlog Hsafe Hrun.
  eapply (run_invariant allowed (λ n s, ∃ γ, system_ok n s γ) (n0 + length tr));
    [|done| |done|exact Hrun].
  - intros k e s s1 Hk He [γ1 H1] Hs. eapply system_step; [lia|done..].
  - exists γ. split; try done.
    + simpl. by rewrite length_fmap, length_seq.
    + intros c st g Hc Hg. apply list_lookup_fmap_Some in Hc as (x & -> & Hx).
      apply lookup_seq in Hx as [-> _]. destruct (Hsafe c g Hg) as (kn & ? & ?). by exists kn.
Qed.

(** No client has failed. *)
Lemma system_no_failure n s γ c st :
  system_ok n s γ → s_clients s !! c = Some st →
  ∀ why, st ≠ CS_run (P_fail why) ∧ st ≠ CS_run (P_panic why).
Proof.
  intros Hok Hc why. destruct (lookup_lt_is_Some_2 γ c) as [g Hg].
  { rewrite (so_length _ _ _ Hok). by eapply lookup_lt_Some. }
  destruct (so_clients _ _ _ Hok c _ g Hc Hg) as (kn & _ & Hst). split; intros ->; done.
Qed.

(** The results. *)
Lemma system_results n s γ rs :
  system_ok n s γ → returned s = Some rs →
  J (s_store s) γ ∧ length γ = length rs ∧
  ∀ c r g, rs !! c = Some r → γ !! c = Some g → ∃ kn, know_ok key kn (s_store s) ∧ Q c r g kn.
Proof.
  intros Hok Hr. unfold returned in Hr. apply mapM_Some in Hr. split_and!; [apply Hok| |].
  - rewrite (so_length _ _ _ Hok). by eapply Forall2_length.
  - intros c r g Hc Hg. destruct (Forall2_lookup_r _ _ _ _ _ Hr Hc) as (st & Hst & Hres).
    destruct (so_clients _ _ _ Hok c st g Hst Hg) as (kn & Hkn & Hs).
    destruct st as [[]| |]; try done. injection Hres as ->. by exists kn.
Qed.
End safe.
