(* ===== verification/Races.v ===== *)
(** * The tests with many clients pass: [kvtest1/kvtest.go]

    Clients that run [OneClientAppend] or [OneClientPut] at the same time against
    the documented service: whatever the schedule and the losses, none fails, and
    the checks that the tests make at the end, [CheckAppends] and
    [CheckPutConcurrent], pass. *)

From Stdlib Require Ascii.
From S2P Require Export Guarantee.
#[local] Set Default Proof Using "Type".
Local Open Scope Z_scope.

(** What is used of [encoding/json]: a value that was encoded is decoded, into a
    fresh variable [zero]. *)
Class JsonLaws (E : Type) `{Json E} (zero : E) := {
  json_roundtrip (e : E) : ∃ v, Marshal e = Some v ∧ Unmarshal v zero = Some e
}.

Lemma Marshal_Unmarshal {E} `{JsonLaws E zero} (e : E) v :
  Marshal e = Some v → Unmarshal v zero = Some e.
Proof. intros Hv. destruct (json_roundtrip e) as (v' & Hv' & Hu). by simplify_eq. Qed.

(** ** [OneClientAppend] *)

Section appends.
Context `{JE : Json (list entry)} `{JL : !JsonLaws (list entry) [] }.

(** The counters of a client among the entries. *)
Definition own (c : Z) (es : list entry) : list Z := en_N <$> filter (λ e, en_Id e = c) es.

Lemma own_snoc c es e : own c (es ++ [e]) = own c es ++ (if decide (en_Id e = c) then [en_N e] else []).
Proof.
  unfold own. rewrite filter_app, fmap_app, filter_cons. by destruct (decide (en_Id e = c)).
Qed.

(** The server holds a list of entries of the [n] clients, one per version; the
    ghost value of a client is its own counters in it. *)
Definition append_J (n : nat) (m : kvstore) (γ : list (list Z)) : Prop :=
  ∃ es v, Marshal es = Some v ∧ m !! "k" = Some (v, Z.of_nat (length es) + 1) ∧
    Forall (λ e, 0 ≤ en_Id e < Z.of_nat n) es ∧
    length γ = n ∧ ∀ c ns, γ !! c = Some ns → own (Z.of_nat c) es = ns.

Definition append_fact (_ : nat) (_ : list Z) (v : string) (ver : Tversion) : Prop :=
  ∃ es : list entry, Marshal es = Some v ∧ ver = Z.of_nat (length es) + 1.

(** A put appends one entry of the client to the list it got. *)
Definition append_pre (c : nat) (_ : list Z) (kn : know) (value : string) (ver : Tversion) : Prop :=
  ∃ (es : list entry) (i : Z) v,
    Marshal es = Some v ∧ Marshal (es ++ [mkEntry (Z.of_nat c) i]) = Some value ∧
    ver = Z.of_nat (length es) + 1 ∧ kn_snap kn = Some (v, ver).

Definition append_upd (c : nat) (value : string) (ver : Tversion) (g : list Z) : list Z :=
  match Unmarshal value [] with
  | Some es => match last es with Some e => g ++ [en_N e] | None => g end
  | None => g
  end.

Lemma append_upd_eq c es i value ver g :
  Marshal (es ++ [mkEntry (Z.of_nat c) i]) = Some value → append_upd c value ver g = g ++ [i].
Proof using JL.
  intros Hm. unfold append_upd. rewrite (Marshal_Unmarshal _ _ Hm). by rewrite last_snoc.
Qed.

Lemma append_guarantees n : guarantees "k" (append_J n) append_fact append_pre append_upd.
Proof using JL.
  split.
  - intros m γ c g v ver (es & v' & Hm & Hk & _) _ Hv. rewrite Hk in Hv. simplify_eq.
    by exists es.
  - intros m γ c g kn value ver m' (es & v & Hm & Hk & Hids & Hlen & Hown) Hg Hkn Hpre Hver Hput.
    destruct Hpre as (es1 & i & v1 & Hm1 & Hv & -> & Hsnap).
    destruct (ko_snap _ _ _ Hkn) as (v2 & cur & Hk2 & Hle); [by rewrite Hsnap|].
    rewrite Hk in Hk2. injection Hk2 as <- <-. rewrite Hsnap in Hle. destruct Hle as [Hle1 Hle2].
    unfold srv_Put in Hput. rewrite Hk in Hput.
    destruct (decide (Z.of_nat (length es) + 1 = Z.of_nat (length es1) + 1)) as [Heq|]; [|done].
    injection Hput as <-. pose proof (Hle2 (eq_sym Heq)) as ->.
    assert (es1 = es) as ->.
    { apply Marshal_Unmarshal in Hm, Hm1. by simplify_eq. }
    assert (c < n)%nat as Hc by (rewrite <-Hlen; by eapply lookup_lt_Some).
    exists (es ++ [mkEntry (Z.of_nat c) i]), value. split_and!; [done| | |by rewrite length_insert|].
    + rewrite lookup_insert_eq, length_app. simpl. unfold ver_incr. rewrite wrap_u64_id by lia.
      do 2 f_equal. lia.
    + apply Forall_app. split; [done|]. apply Forall_singleton. simpl. lia.
    + intros c' ns Hns. rewrite own_snoc. simpl.
      apply list_lookup_insert_Some in Hns as [(<- & <- & _)|[Hne Hns]].
      * rewrite decide_True by done. by rewrite (append_upd_eq _ _ _ _ _ _ Hv), (Hown c g).
      * rewrite decide_False by lia. rewrite app_nil_r. by apply Hown.
Qed.

(** *** A client is safe *)

Abbreviation safe := (safe "k" true append_fact append_pre append_upd).

Lemma safe_append_entry c fuel i : ∀ g kn,
  kn_exists kn = true →
  safe c (λ (b : bool) g' kn', kn_exists kn' = true ∧
    (g' = g ++ [i] ∨ (b = false ∧ g' = g))) (pappend_entry fuel (Z.of_nat c) i) g kn.
Proof using JL.
  induction fuel as [|fuel IH]; intros g kn Hkn; [done|]. cbn [pappend_entry].
  apply safe_bind, safe_bind. simpl. split; [done|]. split; [|by rewrite Hkn].
  intros v ver (es & Hes & ->) _. rewrite (Marshal_Unmarshal _ _ Hes). cbn [safe].
  apply safe_bind. unfold pPutJson.
  destruct (json_roundtrip (es ++ [mkEntry (Z.of_nat c) i])) as (value & Hv & _). rewrite Hv.
  assert (append_upd c value (Z.of_nat (length es) + 1) g = g ++ [i]) as Hupd
    by by apply (append_upd_eq c es).
  simpl. rewrite Hupd. split_and!; [done| |by right|done|by left| |].
  - by exists es, i, v.
  - by apply IH.
  - intros _. split; split; auto.
Qed.

(** What has to hold of a client's counters and result: see [CheckAppends_spec]. *)
Definition append_Q (iters : nat) (_ : nat) (r : ClntRes) (g : list Z) (_ : know) : Prop :=
  increasing_from 0 g ∧ next_after 0 g - Z.of_nat (length g) ≤ Nmaybe r ∧
  next_after 0 g ≤ Nok r + Nmaybe r ≤ Z.of_nat iters ∧ 0 ≤ Nok r + Nmaybe r.

Lemma increasing_snoc x ns i :
  increasing_from x ns → next_after x ns ≤ i → increasing_from x (ns ++ [i]).
Proof.
  revert x. induction ns as [|n ns IH]; intros x Hns Hi; simpl.
  - unfold next_after in Hi. simpl in Hi. by split.
  - destruct Hns as [Hx Hns]. split; [done|]. apply IH; [done|]. by rewrite <-(next_after_cons x).
Qed.
Lemma next_after_snoc x ns i : next_after x (ns ++ [i]) = i + 1.
Proof. unfold next_after. by rewrite last_snoc. Qed.

Lemma safe_OneClientAppend iters c n fuel : ∀ i nok nmay g kn,
  kn_exists kn = true → 0 ≤ i → i = nok + nmay → i + Z.of_nat n ≤ Z.of_nat iters → increasing_from 0 g → next_after 0 g ≤ i →
  nok ≤ Z.of_nat (length g) →
  safe c (append_Q iters c) (pOneClientAppend n fuel (Z.of_nat c) i nok nmay) g kn.
Proof using JL.
  induction n as [|n IH]; intros i nok nmay g kn Hkn Hi0 Hi Hit Hinc Hnext Hlen; [done|].
  cbn [pOneClientAppend Guarantee.safe]. intros [].
  { unfold append_Q. simpl. split; [done|]. lia. }
  apply safe_bind. eapply safe_mono; [|by apply safe_append_entry].
  intros b g' kn' (Hkn' & Hg').
  assert (increasing_from 0 (g ++ [i]) ∧ next_after 0 (g ++ [i]) ≤ i + 1 ∧
    nok + 1 ≤ Z.of_nat (length (g ++ [i]))) as (H1 & H2 & H3).
  { rewrite next_after_snoc, length_app. simpl. split; [by apply increasing_snoc|lia]. }
  destruct b, Hg' as [->|[? ->]]; try done; apply IH; try done; lia.
Qed.

(** *** The test *)

Definition entriesN (es : list entry) : list EntryN := (λ e, mkEntryN (en_Id e) (en_N e)) <$> es.

Lemma counters_own c es : counters c (entriesN es) = own c es.
Proof.
  unfold counters, own, entriesN. induction es as [|e es IH]; [done|].
  rewrite fmap_cons, !filter_cons. simpl. destruct (decide (en_Id e = c)); simpl; by f_equal.
Qed.

Lemma spawn_results {A} n (fn : nat → prog A) m now tr rs s :
  SpawnClientsAndWait n fn m now tr = Some (rs, s) →
  run tr (next_phase n fn (mkSys m [] [] now None)) = Some s ∧ returned s = Some rs.
Proof.
  intros Hrun. unfold SpawnClientsAndWait in Hrun.
  apply bind_Some in Hrun as (s1 & Hrun & Hres). apply bind_Some in Hres as (rs1 & Hres & [= <- <-]).
  split; [done|]. unfold collect_results in Hres. by destruct (s_sends s1) as [[|?]|].
Qed.

(** A counter lies below the next one. *)
Lemma increasing_below x ns n : increasing_from x ns → n ∈ ns → n < next_after x ns.
Proof.
  revert x. induction ns as [|m ns IH]; intros x; [by intros _ ?%elem_of_nil|].
  intros [_ Hns] [->|Hn]%elem_of_cons; rewrite next_after_cons; [|by apply IH].
  clear IH. revert m Hns. induction ns as [|k ns IH]; intros m; [unfold next_after; simpl; lia|].
  intros [Hk Hns]. rewrite next_after_cons. specialize (IH k Hns). lia.
Qed.

Lemma own_fits iters nclnt es (rs : list ClntRes) :
  Z.of_nat iters < 2 ^ 63 - 1 → Forall (λ e, 0 ≤ en_Id e < Z.of_nat nclnt) es →
  length rs = nclnt →
  (∀ c r, rs !! c = Some r → append_Q iters c r (own (Z.of_nat c) es) (mkKnow true None)) →
  Forall fits (entriesN es).
Proof.
  intros Hit Hids Hlen HQ. apply Forall_fmap, Forall_forall. intros e He.
  rewrite Forall_forall in Hids. specialize (Hids e He). unfold fits. simpl.
  destruct (lookup_lt_is_Some_2 rs (Z.to_nat (en_Id e))) as [r Hr]; [lia|].
  destruct (HQ _ _ Hr) as (Hinc & _ & Hle & _).
  assert (en_N e < next_after 0 (own (Z.of_nat (Z.to_nat (en_Id e))) es)); [|lia].
  apply increasing_below; [done|]. unfold own. apply list_elem_of_fmap_2, list_elem_of_filter.
  split; [lia|done].
Qed.

(** The test with clients that append at the same time passes.  From a list
    that is empty at version 1, whatever the schedule of the clients, of the
    losses and of the signal to stop, when all results are collected the server
    holds a list under a version that [CheckAppends] accepts for these results. *)
Lemma appends_pass (nclnt iters fuel n0 : nat) (m : kvstore) (v0 : string) (now : Z)
    (tr : list event) (rs : list ClntRes) (s : sys ClntRes) :
  Marshal (E:=list entry) [] = Some v0 → m !! "k" = Some (v0, 1) → versions_le (Z.of_nat n0) m →
  Z.of_nat (n0 + length tr) < 2 ^ 63 → Z.of_nat iters < 2 ^ 63 - 1 →
  SpawnClientsAndWait nclnt (λ c, pOneClientAppend iters fuel (Z.of_nat c) 0 0 0) m now tr =
    Some (rs, s) →
  ∃ v ver es, s_store s !! "k" = Some (v, ver) ∧ Unmarshal v [] = Some es ∧
    CheckAppends (entriesN es) nclnt rs ver = Ret tt.
Proof using JL.
  intros Hv0 Hm Hvers Hb Hit Hrun. apply spawn_results in Hrun as [Hrun Hres].
  destruct (safe_clients "k" true (append_J nclnt) append_fact append_pre append_upd
    (append_guarantees nclnt) (append_Q iters) n0 nclnt (λ c, pOneClientAppend iters fuel (Z.of_nat c) 0 0 0)
    (mkSys m [] [] now None) (replicate nclnt []) tr s) as [γ Hok];
    [lia| |done| |by rewrite length_replicate|by intros o ?%elem_of_nil| |done|].
  { apply Forall_true. intros e. by left. }
  { exists [], v0. split_and!; [done|done|done|by rewrite length_replicate|].
    intros c ns Hns. by apply lookup_replicate in Hns as [-> _]. }
  { intros c g Hg. apply lookup_replicate in Hg as [-> Hc]. exists (mkKnow true None).
    split; [by split; [simpl; by rewrite Hm|]|]. apply safe_OneClientAppend; try done. }
  assert (versions_le (Z.of_nat (n0 + length tr)) (s_store s)) as Hvers' by apply Hok.
  eapply system_results in Hok as (HJ & Hlen & HQ); [|exact Hres].
  destruct HJ as (es & v & Hes & Hk & Hids & Hlen' & Hown).
  exists v, (Z.of_nat (length es) + 1), es. split; [done|].
  split; [by apply Marshal_Unmarshal|].
  assert (∀ c r, rs !! c = Some r → append_Q iters c r (own (Z.of_nat c) es) (mkKnow true None)) as HQes.
  { intros c r Hc. destruct (lookup_lt_is_Some_2 γ c) as [g Hg].
    { rewrite Hlen. by eapply lookup_lt_Some. }
    destruct (HQ c r g Hc Hg) as (kn & _ & HQc). by rewrite (Hown c g Hg). }
  apply CheckAppends_spec; [lia| |apply (own_fits iters nclnt es rs); (done || lia)| |].
  - intros e He. apply list_elem_of_fmap in He as (x & -> & Hx).
    rewrite Forall_forall in Hids. by apply Hids.
  - apply Forall_lookup. intros c r Hc. destruct (HQes c r Hc) as (_ & _ & H1 & H2). lia.
  - unfold entriesN at 1. rewrite length_fmap. specialize (Hvers' _ _ _ Hk). split.
    { rewrite wrap_i64_id by lia. done. }
    intros c r Hc. rewrite counters_own. destruct (HQes c r Hc) as (H1 & H2 & H3 & _).
    split_and!; [done|done|lia].
Qed.
End appends.

(** ** [OneClientPut] *)

Lemma zsum_insert (γ : list Z) c g d :
  γ !! c = Some g → zsum id (<[c := g + d]> γ) = zsum id γ + d.
Proof.
  revert c. induction γ as [|x γ IH]; intros [|c] Hc; simpl in *; simplify_eq; [unfold id; lia|].
  rewrite (IH c) by done. lia.
Qed.

Section puts.
Context `{JE : Json EntryV} `{JL : !JsonLaws EntryV (mkEntryV 0 0) }.
Context (key : string) (lossy : bool).

(** The version of the key counts the puts done, of which a client's ghost value
    counts its own. *)
Definition puts_J (m : kvstore) (γ : list Z) : Prop :=
  match m !! key with
  | None => zsum id γ = 0
  | Some (v, ver) => zsum id γ = ver ∧ ∃ e : EntryV, Marshal e = Some v
  end.
Definition puts_fact (_ : nat) (_ : Z) (v : string) (_ : Tversion) : Prop :=
  ∃ e : EntryV, Marshal e = Some v.
Definition puts_pre (_ : nat) (_ : Z) (_ : know) (value : string) (_ : Tversion) : Prop :=
  ∃ e : EntryV, Marshal e = Some value.
Definition puts_upd (_ : nat) (_ : string) (_ : Tversion) (g : Z) : Z := g + 1.

Lemma puts_guarantees : guarantees key puts_J puts_fact puts_pre puts_upd.
Proof.
  split; unfold puts_J.
  - intros m γ c g v ver HJ _ Hk. rewrite Hk in HJ. apply HJ.
  - intros m γ c g kn value ver m' HJ Hg _ Hpre Hver Hput. unfold puts_upd.
    destruct (srv_Put_cases m key value ver) as [[H Hc]|[[H _]|[H _]]];
      rewrite Hput in H; simplify_eq.
    rewrite lookup_insert_eq, (zsum_insert _ _ _ _ Hg). split; [|exact Hpre].
    unfold ver_incr. rewrite wrap_u64_id by lia.
    destruct Hc as [[v Hk]|[Hk ->]]; rewrite Hk in HJ; [destruct HJ|]; lia.
Qed.

Abbreviation safe := (safe key lossy puts_fact puts_pre puts_upd).

(** A client puts at version 0, or at a version that it got. *)
Definition may_put (ver : Tversion) (kn : know) : Prop := ver = 0 ∨ kn_exists kn = true.

Lemma safe_put c value ver cli g kn (Q : Err → Z → know → Prop) :
  puts_pre c g kn value ver → may_put ver kn →
  Q OK (g + 1) (know_get value (ver_incr ver)) → Q ErrVersion g (know_exists kn) →
  (lossy = true → Q ErrMaybe (g + 1) (know_exists kn) ∧ Q ErrMaybe g (know_exists kn)) →
  safe c Q (pPut key value ver cli) g kn.
Proof. intros H1 H2 H3 H4 H5. exact (conj eq_refl (conj H1 (conj H2 (conj H3 (conj H4 H5))))). Qed.

(** What the read after a put has to confirm. *)
Lemma safe_check c me ver ok g kn (Q : Tversion * EntryV → Z → know → Prop) :
  kn_exists kn = true →
  (ok = true → ∃ value, Marshal (mkEntryV me ver) = Some value ∧
     kn_snap kn = Some (value, ver_incr ver)) →
  (∀ ver0 e kn', kn_exists kn' = true →
     (ok = true → ver0 = ver_incr ver → e = mkEntryV me ver) → Q (ver0, e) g kn') →
  safe c Q (pGetJson key me (mkEntryV 0 0)) g kn.
Proof using JL.
  intros Hkn Hok HQ. apply safe_bind. simpl. split; [done|]. split; [|by rewrite Hkn].
  intros v ver0 [e He] Hsnap. rewrite (Marshal_Unmarshal _ _ He). apply HQ; [done|].
  intros Htrue ->. destruct (Hok Htrue) as (value & Hv & Hs). rewrite Hs in Hsnap.
  destruct Hsnap as [_ Heq]. rewrite (Heq eq_refl) in He.
  apply Marshal_Unmarshal in He, Hv. by simplify_eq.
Qed.

Lemma safe_OnePut c me fuel : ∀ ver g kn,
  may_put ver kn →
  safe c (λ '(_, ok) g' kn', kn_exists kn' = true ∧
    (ok = true ∧ g' = g + 1 ∨ ok = false ∧ lossy = true ∧ (g' = g + 1 ∨ g' = g))) (pOnePut fuel me key ver) g kn.
Proof using JL.
  induction fuel as [|fuel IH]; intros ver g kn Hkn; [done|]. cbn [pOnePut].
  apply safe_bind. unfold pPutJson.
  destruct (json_roundtrip (mkEntryV me ver)) as (value & Hv & _). rewrite Hv.
  assert (∀ err g' kn', kn_exists kn' = true →
    err = OK ∨ err = ErrVersion ∨ err = ErrMaybe →
    (err = OK → kn_snap kn' = Some (value, ver_incr ver) ∧ g' = g + 1) →
    (err = ErrVersion → g' = g) → (err = ErrMaybe → lossy = true ∧ (g' = g + 1 ∨ g' = g)) →
    safe c (λ '(_, ok) g' kn', kn_exists kn' = true ∧
      (ok = true ∧ g' = g + 1 ∨ ok = false ∧ lossy = true ∧ (g' = g + 1 ∨ g' = g)))
      ('(ver0, e) ← pGetJson key me (mkEntryV 0 0);
       _ ← (if decide (err = OK ∧ ver0 = ver_incr ver) then
              if decide (ev_Id e ≠ me ∧ ev_V e ≠ ver) then P_fail "Wrong value" else P_ret tt
            else P_ret tt);
       if decide (err = OK ∨ err = ErrMaybe) then P_ret (ver0, bool_decide (err = OK))
       else pOnePut fuel me key ver0) g' kn') as Hafter.
  { intros err g' kn' Hex Herr Hok Hver Hmay. apply safe_bind.
    apply (safe_check c me ver (bool_decide (err = OK))); [done| |].
    { intros Ht%bool_decide_eq_true. exists value. split; [done|by apply Hok]. }
    intros ver0 e kn1 Hex1 He. apply safe_bind.
    destruct (decide (err = OK ∧ ver0 = ver_incr ver)) as [[-> ->]|_].
    - rewrite He by done.
      destruct (decide (ev_Id (mkEntryV me ver) ≠ me ∧ _)) as [[H _]|_]; [by destruct H|].
      simpl. split; [done|]. left. split; [done|]. by apply Hok.
    - simpl. destruct Herr as [->|[->| ->]]; simpl.
      + split; [done|]. left. split; [done|]. by apply Hok.
      + rewrite (Hver eq_refl). apply IH. by right.
      + split; [done|]. right. destruct (Hmay eq_refl) as [? ?]. done. }
  assert (∀ err, err = OK ∨ err = ErrVersion ∨ err = ErrMaybe →
    ¬ ¬ (err = OK ∨ err = ErrVersion ∨ err = ErrMaybe)) as Hdn by tauto.
  apply safe_put; [by eexists|done| | |intros Hl; split].
  all: rewrite decide_False by (apply Hdn; auto); apply Hafter; auto; done.
Qed.

Definition puts_Q (_ : nat) (r : ClntRes) (g : Z) (kn : know) : Prop :=
  0 ≤ Nok r ≤ g ∧ g ≤ Nok r + Nmaybe r ∧ (lossy = false → Nmaybe r = 0) ∧
  (0 < Nok r + Nmaybe r → kn_exists kn = true).

Lemma safe_OneClientPut c cli n fuel : ∀ verm res g kn,
  may_put (default 0 (verm !! key)) kn → puts_Q c res g kn →
  safe c (puts_Q c) (pOneClientPut n fuel false cli [key] verm res) g kn.
Proof using JL.
  induction n as [|n IH]; intros verm res g kn Hput HQ; [done|].
  cbn [pOneClientPut Guarantee.safe]. intros []; [done|].
  unfold pPick. simpl. apply safe_bind. eapply safe_mono; [|by apply safe_OnePut].
  intros [v ok] g' kn' (Hex & Hg). apply IH.
  { right. done. }
  destruct HQ as (H1 & H2 & H3 & _).
  destruct Hg as [[-> ->]|(-> & Hl & [->| ->])]; split_and!; simpl; try done; try lia.
  all: intros Hf; by rewrite Hf in Hl.
Qed.
End puts.

(** *** The test *)

Lemma zsum_Forall2 {A B} (f : A → Z) (g : B → Z) l k :
  Forall2 (λ x y, f x ≤ g y) l k → zsum f l ≤ zsum g k.
Proof. induction 1; simpl; lia. Qed.

Lemma totals_zsum rs : ∀ r0,
  foldl (λ res r, mkRes (Nok res + Nok r) (Nmaybe res + Nmaybe r)) r0 rs =
  mkRes (Nok r0 + zsum Nok rs) (Nmaybe r0 + zsum Nmaybe rs).
Proof.
  induction rs as [|r rs IH]; intros [a b]; simpl; [by rewrite !Z.add_0_r|].
  rewrite IH. simpl. f_equal; lia.
Qed.

Section puts_test.
Context `{JE : Json EntryV} `{JL : !JsonLaws EntryV (mkEntryV 0 0) }.

(** The puts on the server against what the clients counted. *)
Lemma puts_bounds (γ : list Z) (rs : list ClntRes) (lossy : bool) kn0 :
  length γ = length rs →
  (∀ c r g, rs !! c = Some r → γ !! c = Some g → ∃ kn : know, kn0 kn ∧ puts_Q lossy c r g kn) →
  zsum Nok rs ≤ zsum id γ ≤ zsum Nok rs + zsum Nmaybe rs ∧
  0 ≤ zsum Nok rs ∧ (lossy = false → zsum Nmaybe rs = 0).
Proof.
  intros Hlen HQ. split_and!.
  - apply zsum_Forall2, Forall2_same_length_lookup_2; [done|]. intros c r g Hr Hg.
    destruct (HQ c r g Hr Hg) as (kn & _ & H1 & _). unfold id. lia.
  - assert (zsum id γ ≤ zsum (λ r, Nok r + Nmaybe r) rs) as Hle.
    { apply zsum_Forall2, Forall2_same_length_lookup_2; [done|]. intros c g r Hg Hr.
      destruct (HQ c r g Hr Hg) as (kn & _ & _ & H2 & _). unfold id. lia. }
    trans (zsum (λ r, Nok r + Nmaybe r) rs); [done|]. clear.
    induction rs as [|r rs IH]; simpl; lia.
  - apply zsum_nonneg. intros r [c Hr]%list_elem_of_lookup.
    destruct (lookup_lt_is_Some_2 γ c) as [g Hg].
    { rewrite Hlen. by eapply lookup_lt_Some. }
    destruct (HQ c r g Hr Hg) as (kn & _ & H1 & _). lia.
  - intros Hl. rewrite (zsum_ext _ (λ _, 0)); [clear; induction rs; simpl; lia|].
    intros r [c Hr]%list_elem_of_lookup. destruct (lookup_lt_is_Some_2 γ c) as [g Hg].
    { rewrite Hlen. by eapply lookup_lt_Some. }
    destruct (HQ c r g Hr Hg) as (kn & _ & _ & _ & H3 & _). by apply H3.
Qed.

(** *** The clients put *)

(** After the clients have put, whatever the schedule: no put was answered
    [ErrNoKey], and the version of the key, which did not exist before, lies between
    the puts that the clients counted as done and those counted as done or maybe
    done; when no message is lost it is exactly the number of puts. *)
Definition put_enough (key : string) (reliable : bool) (rs : list ClntRes) (m : kvstore) : Prop :=
  ∃ v ver (e : EntryV), m !! key = Some (v, ver) ∧ Marshal e = Some v ∧
    0 ≤ zsum Nok rs ≤ ver ∧ ver ≤ zsum Nok rs + zsum Nmaybe rs ∧
    (reliable = true → ver = zsum Nok rs).
Definition log_clean (s : sys ClntRes) : Prop :=
  ∀ o, o ∈ s_log s → clean_op (Input o) (Output o).

Lemma puts_phase (reliable : bool) (key : string) (nclnt iters fuel n0 : nat)
    (s0 s1 : sys ClntRes) (tr : list event) (rs : list ClntRes) :
  s_store s0 !! key = None → versions_le (Z.of_nat n0) (s_store s0) → log_clean s0 →
  Z.of_nat (n0 + length tr) < 2 ^ 64 → Forall (allowed (negb reliable)) tr →
  run tr (next_phase nclnt
    (λ c, pOneClientPut iters fuel false (Z.of_nat c) [key] ∅ (mkRes 0 0)) s0) = Some s1 →
  returned s1 = Some rs → Exists (λ r, 0 < Nok r + Nmaybe r) rs →
  put_enough key reliable rs (s_store s1) ∧ log_clean s1 ∧
  versions_le (Z.of_nat (n0 + length tr)) (s_store s1).
Proof using JL.
  intros Hm Hvers Hlog Hb Hal Hrun Hres Hput.
  destruct (safe_clients key (negb reliable) (puts_J key) puts_fact puts_pre puts_upd
    (puts_guarantees key) (puts_Q (negb reliable)) n0 nclnt
    (λ c, pOneClientPut iters fuel false (Z.of_nat c) [key] ∅ (mkRes 0 0))
    s0 (replicate nclnt 0) tr s1) as [γ Hok];
    [done|done|done| |by rewrite length_replicate|done| |done|].
  { unfold puts_J. rewrite Hm. clear. induction nclnt; simpl; [done|]. unfold id in *. lia. }
  { intros c g Hg. apply lookup_replicate in Hg as [-> Hc]. exists nothing.
    split; [apply nothing_ok|]. apply safe_OneClientPut; [by left|]. unfold puts_Q. simpl. lia. }
  split; [|split; [exact (so_log _ _ _ _ _ _ _ _ _ _ Hok)|exact (so_versions _ _ _ _ _ _ _ _ _ _ Hok)]].
  eapply system_results in Hok as (HJ & Hlen & HQ); [|exact Hres].
  destruct (puts_bounds γ rs (negb reliable) (λ kn, know_ok key kn (s_store s1)) Hlen HQ)
    as (Hle & Hpos & Hrel).
  assert (is_Some (s_store s1 !! key)) as [[v ver] Hk].
  { apply Exists_exists in Hput as (r & [c Hr]%list_elem_of_lookup & Hr0).
    destruct (lookup_lt_is_Some_2 γ c) as [g Hg]; [rewrite Hlen; by eapply lookup_lt_Some|].
    destruct (HQ c r g Hr Hg) as (kn & Hkn & _ & _ & _ & Hex). by eapply ko_exists, Hex. }
  unfold puts_J in HJ. rewrite Hk in HJ. destruct HJ as [<- [e He]].
  exists v, (zsum id γ), e. split_and!; try done; try lia.
  intros ->. specialize (Hrel eq_refl). lia.
Qed.

(** *** The tester checks *)

(** Nobody puts while the tester checks. *)
Definition still (key v : string) (ver : Tversion) (m : kvstore) (_ : list unit) : Prop :=
  m !! key = Some (v, ver).

Lemma still_guarantees key v ver :
  guarantees key (still key v ver) (λ _ _ v' ver', v' = v ∧ ver' = ver)
    (λ _ _ _ _ _, False) (λ _ _ _ g, g).
Proof.
  split; [|done]. intros m γ c g v' ver' HJ _ Hk. unfold still in HJ. rewrite Hk in HJ.
  by simplify_eq.
Qed.

Definition totals (rs : list ClntRes) : ClntRes := mkRes (zsum Nok rs) (zsum Nmaybe rs).

Lemma safe_CheckPut c key v ver (e : EntryV) rs reliable g :
  Marshal e = Some v → zsum Nok rs ≤ ver ≤ zsum Nok rs + zsum Nmaybe rs →
  (reliable = true → ver = zsum Nok rs) →
  0 ≤ zsum Nok rs → zsum Nok rs + zsum Nmaybe rs < 2 ^ 63 →
  Guarantee.safe key true (λ _ _ v' ver', v' = v ∧ ver' = ver) (λ _ _ _ _ _, False) (λ _ _ _ g, g) c
    (λ r (_ : unit) _, r = totals rs)
    (pCheckPutConcurrent key rs (mkRes 0 0) reliable) g (mkKnow true None).
Proof using JL.
  intros He Hle Hexact Hpos Hfit. apply safe_bind, safe_bind. simpl. split; [done|].
  split; [|done]. intros v' ver' [-> ->] _. rewrite (Marshal_Unmarshal _ _ He).
  cbn [Guarantee.safe]. rewrite totals_zsum. simpl. rewrite !Z.add_0_l.
  destruct reliable; rewrite wrap_u64_id by lia.
  - rewrite decide_False by (rewrite Hexact; auto). done.
  - rewrite decide_False by lia. done.
Qed.

Lemma check_phase (key : string) (reliable : bool) (rs : list ClntRes) (n : nat)
    (s1 s2 : sys ClntRes) (tr : list event) :
  put_enough key reliable rs (s_store s1) → log_clean s1 →
  versions_le (Z.of_nat n) (s_store s1) → Z.of_nat (n + length tr) < 2 ^ 64 →
  zsum Nok rs + zsum Nmaybe rs < 2 ^ 63 →
  run tr (next_phase 1 (λ _, pCheckPutConcurrent key rs (mkRes 0 0) reliable) s1) = Some s2 →
  log_clean s2 ∧
  (∀ st why, s_clients s2 !! 0%nat = Some st → st ≠ CS_run (P_fail why) ∧ st ≠ CS_run (P_panic why)) ∧
  (∀ r, returned s2 = Some [r] → r = totals rs).
Proof using JL.
  intros (v & ver & e & Hk & He & [Hpos Hle1] & Hle2 & Hexact) Hlog Hvers Hb Hfit Hrun.
  destruct (safe_clients key true _ _ _ _ (still_guarantees key v ver)
    (λ _ r _ _, r = totals rs) n 1 (λ _, pCheckPutConcurrent key rs (mkRes 0 0) reliable)
    s1 [tt] tr s2) as [γ Hok]; try done.
  { apply Forall_true. intros ev. by left. }
  { intros c g Hg. exists (mkKnow true None). split; [by split; [by rewrite Hk|]|].
    by eapply safe_CheckPut. }
  split; [exact (so_log _ _ _ _ _ _ _ _ _ _ Hok)|]. split.
  - intros st why Hst. by eapply system_no_failure.
  - intros r Hres. eapply system_results in Hok as (_ & Hlen & HQ); [|exact Hres].
    destruct γ as [|g γ]; [done|]. by destruct (HQ 0%nat r g eq_refl eq_refl) as (_ & _ & Hr).
Qed.
End puts_test.

(** ** Examples of runs *)

(** A stand-in for [encoding/json]: binary digits of a number that encodes the value. *)
Fixpoint digits (p : positive) : string :=
  match p with xH => "" | xO p => String (Ascii.ascii_of_nat 48) (digits p) | xI p => String (Ascii.ascii_of_nat 49) (digits p) end.
Fixpoint of_digits (s : string) : positive :=
  match s with
  | EmptyString => xH
  | String a s => if Ascii.eqb a (Ascii.ascii_of_nat 49) then xI (of_digits s) else xO (of_digits s)
  end.
Lemma of_digits_digits p : of_digits (digits p) = p.
Proof. induction p as [p IH|p IH|]; simpl; by rewrite ?IH. Qed.

Definition digits_json {E A} `{Countable A} (into : E → A) (back : A → E) : Json E :=
  {| Marshal e := Some (digits (encode (into e))); Unmarshal v _ := back <$> decode (of_digits v) |}.
Lemma digits_json_laws {E A} `{Countable A} (into : E → A) (back : A → E) zero :
  (∀ e, back (into e) = e) → @JsonLaws E (digits_json into back) zero.
Proof.
  intros Hb. split. intros e. exists (digits (encode (into e))). split; [done|].
  cbn. by rewrite of_digits_digits, decode_encode; cbn; rewrite Hb.
Qed.

#[local] Instance entries_json : Json (list entry) :=
  digits_json (fmap (λ e, (en_Id e, en_N e))) (fmap (λ p, mkEntry p.1 p.2)).
#[local] Instance entries_json_laws : JsonLaws (list entry) [].
Proof.
  apply digits_json_laws. intros es. rewrite <-list_fmap_compose.
  induction es as [|[??] es IH]; [done|]. rewrite fmap_cons, IH. done.
Qed.
#[local] Instance entryv_json : Json EntryV :=
  digits_json (λ e, (ev_Id e, ev_V e)) (λ p, mkEntryV p.1 p.2).
#[local] Instance entryv_json_laws : JsonLaws EntryV (mkEntryV 0 0).
Proof. apply digits_json_laws. by intros []. Qed.

Definition call (c : nat) : list event := [E_begin c; E_exec c; E_return c].

(** Two clients append; the first learns only [ErrMaybe] of an append that was
    done, as its reply got lost. *)
Definition appends_tr : list event :=
  [E_poll 0 false] ++ call 0 ++ [E_begin 0; E_lose 0 true; E_poll 1 false] ++ call 1 ++ call 1 ++
  [E_exec 0; E_return 0; E_stop; E_poll 0 true; E_poll 1 true].
Definition appends_start : kvstore := {[ "k" := (digits (encode ([] : list (Z * Z))), 1) ]}.
#[local] Abbreviation appends_run :=
  (SpawnClientsAndWait 2 (λ c, pOneClientAppend 9 9 (Z.of_nat c) 0 0 0) appends_start 0 appends_tr).

Lemma appends_pass_witness :
  ∃ s, appends_run = Some ([mkRes 0 1; mkRes 1 0], s) ∧
  ∃ v ver es, s_store s !! "k" = Some (v, ver) ∧ Unmarshal v [] = Some es ∧
    CheckAppends (entriesN es) 2 [mkRes 0 1; mkRes 1 0] ver = Ret tt.
Proof.
  assert (fst <$> appends_run = Some [mkRes 0 1; mkRes 1 0]) as Hrs by (vm_compute; reflexivity).
  destruct appends_run as [[rs s]|] eqn:Hrun; [|discriminate Hrs].
  injection Hrs as ->. exists s. split; [done|].
  apply (appends_pass 2 9 9 1 appends_start (digits (encode ([] : list (Z * Z)))) 0 appends_tr).
  - reflexivity.
  - vm_compute. reflexivity.
  - intros k v ver Hk. unfold appends_start in Hk.
    apply lookup_singleton_Some in Hk as [_ [= _ <-]]. lia.
  - vm_compute. reflexivity.
  - reflexivity.
  - exact Hrun.
Defined.
