(* ===== verification/Peer.v ===== *)
(** * The peers and servers as the repository has them:
    [raft1/raft.go], [kvraft1/rsm/rsm.go], [kvraft1/server.go],
    [shardkv1/shardgrp/server.go], [kvsrv1/server.go]

    The bodies that students write are empty; what is there is modelled as it
    stands: the objects and their constructors, [Kill] and the loop that it ends,
    the stable storage they read, and the methods they offer to the network.  The
    constructors are of the type that the tester of ServerGroup.v starts. *)

From S2P Require Export ServerGroup KvModel.
#[local] Set Default Proof Using "Type".
Local Open Scope Z_scope.

(** ** [raft.go] *)

Record Raft := mkRaft {
  rf_peers : list ClientEnd;
  rf_persister : nat;
  rf_me : nat;
  rf_dead : Z                        (* int32 *)
}.

(** [rsm.go]: [rsm_rf] is nil or a pointer to a [Raft]; [rsm_sm] points to the
    server. *)
Record RSM := mkRSM {
  rsm_me : nat;
  rsm_rf : option nat;
  rsm_maxraftstate : Z;
  rsm_sm : nat
}.

(** [kvraft1/server.go] *)
Record KVServer := mkKVServer {
  kv_me : nat;
  kv_dead : Z;                       (* int32 *)
  kv_rsm : option RSM
}.

(** [shardgrp/server.go]: its [KVServer] is a type of its own. *)
Record ShardServer := mkShardServer {
  ss_me : nat;
  ss_dead : Z;                       (* int32 *)
  ss_rsm : option RSM;
  ss_gid : Tgid
}.

(** The objects of all processes. *)
Record procs := mkProcs {
  ps_rafts : gmap nat Raft;
  ps_kvs : gmap nat KVServer;
  ps_shards : gmap nat ShardServer
}.

Definition GetState (rf : Raft) : Z * bool := (0, false).
Definition persist (rf : Raft) (st : store) : store := st.
Definition readPersist (data : list Z) (rf : Raft) : Raft := rf.
Definition PersistBytes (rf : Raft) (st : store) : outcome Z :=
  match pers st !! rf_persister rf with
  | Some ps => Ret (RaftStateSize ps (mem st))
  | None => Panic "nil pointer dereference"
  end.
Definition rf_Snapshot (i : Z) (snapshot : list Z) (rf : Raft) : Raft := rf.
Definition Start {Cmd : Type} (command : option Cmd) (rf : Raft) : Z * Z * bool := (-1, -1, true).

Definition Kill (rf : Raft) : Raft := mkRaft (rf_peers rf) (rf_persister rf) (rf_me rf) 1.
Definition killed (rf : Raft) : bool := rf_dead rf =? 1.

(** The sleeps of [ticker], given the peer at each test of [killed] and the draws
    [rand.Int63()]; [None] if it is not over after these. *)
Fixpoint ticker (peers : list Raft) (draws : list Z) : option (list Z) :=
  match peers with
  | [] => None
  | rf :: peers =>
      if killed rf then Some []
      else
        match draws with
        | [] => None
        | d :: draws => cons (50 + Z.rem d 300) <$> ticker peers draws
        end
  end.

(** [ReadRaftState] hands out a copy of the bytes. *)
Definition read_state (p : nat) (st : store) : list Z * store :=
  match do_op (ReadRS p) st with
  | Some (st', Some s) => (bytes_of (mem st') s, st')
  | _ => ([], st)
  end.

Definition Make (peers : list ClientEnd) (me persister : nat) (e : store * procs)
    : nat * (store * procs) :=
  let '(data, st) := read_state persister e.1 in
  let rf := readPersist data (mkRaft peers persister me 0) in
  let p := fresh (dom (ps_rafts e.2)) in
  (p, (st, mkProcs (<[p := rf]> (ps_rafts e.2)) (ps_kvs e.2) (ps_shards e.2))).

(** ** [rsm.go] *)

(** [useRaft] is the variable [useRaftStateMachine], which no code here assigns. *)
Definition MakeRSM (useRaft : bool) (servers : list ClientEnd) (me persister : nat) (maxraftstate : Z) (sm : nat)
    (e : store * procs) : RSM * (store * procs) :=
  if negb useRaft then
    let '(rf, e) := Make servers me persister e in
    (mkRSM me (Some rf) maxraftstate sm, e)
  else (mkRSM me None maxraftstate sm, e).

Definition RSM_Raft (rsm : RSM) : option nat := rsm_rf rsm.
Definition Submit {Req Rep : Type} (r : Req) (rsm : RSM) : Err * option Rep := (ErrWrongLeader, None).

(** The services of a server: what it hands to the tester. *)
Inductive IService :=
| S_kvsrv                            (* [kvsrv1.KVServer] has no fields *)
| S_kv (p : nat)
| S_shard (p : nat)
| S_raft (p : nat).
#[export] Instance IService_eq_dec : EqDecision IService.
Proof. solve_decision. Defined.

(** ** [kvraft1/server.go] *)

(** The state machine: [any] and a [[]byte], nil both. *)
Definition DoOp {Req Rep : Type} (r : Req) (kv : KVServer) : option Rep * KVServer := (None, kv).
Definition kv_Snapshot (kv : KVServer) : slice := None.
Definition kv_Restore (data : list Z) (kv : KVServer) : KVServer := kv.
Definition kv_Kill (kv : KVServer) : KVServer := mkKVServer (kv_me kv) 1 (kv_rsm kv).
Definition kv_killed (kv : KVServer) : bool := kv_dead kv =? 1.

Definition put_kv (p : nat) (kv : KVServer) (e : store * procs) : store * procs :=
  (e.1, mkProcs (ps_rafts e.2) (<[p := kv]> (ps_kvs e.2)) (ps_shards e.2)).

(** The object is allocated before [MakeRSM] and holds its result after.
    [labgob.Register] only warns, see Labgob.v. *)
Definition kvraft_StartKVServer (useRaft : bool) (maxraftstate : Z) (servers : list ClientEnd) (gid : Tgid)
    (me persister : nat) (e : store * procs) : list (option IService) * (store * procs) :=
  let p := fresh (dom (ps_kvs e.2)) in
  let e := put_kv p (mkKVServer me 0 None) e in
  let '(rsm, e) := MakeRSM useRaft servers me persister maxraftstate p e in
  ([Some (S_kv p); S_raft <$> RSM_Raft rsm], put_kv p (mkKVServer me 0 (Some rsm)) e).

(** ** [shardgrp/server.go] *)

Definition ss_DoOp {Req Rep : Type} (r : Req) (kv : ShardServer) : option Rep * ShardServer :=
  (None, kv).
Definition ss_Snapshot (kv : ShardServer) : slice := None.
Definition ss_Restore (data : list Z) (kv : ShardServer) : ShardServer := kv.
Definition ss_Kill (kv : ShardServer) : ShardServer :=
  mkShardServer (ss_me kv) 1 (ss_rsm kv) (ss_gid kv).
Definition ss_killed (kv : ShardServer) : bool := ss_dead kv =? 1.

Definition put_shard (p : nat) (kv : ShardServer) (e : store * procs) : store * procs :=
  (e.1, mkProcs (ps_rafts e.2) (ps_kvs e.2) (<[p := kv]> (ps_shards e.2))).

Definition StartServerShardGrp (useRaft : bool) (maxraftstate : Z) (servers : list ClientEnd) (gid : Tgid)
    (me persister : nat) (e : store * procs) : list (option IService) * (store * procs) :=
  let p := fresh (dom (ps_shards e.2)) in
  let e := put_shard p (mkShardServer me 0 None gid) e in
  let '(rsm, e) := MakeRSM useRaft servers me persister maxraftstate p e in
  ([Some (S_shard p); S_raft <$> RSM_Raft rsm], put_shard p (mkShardServer me 0 (Some rsm) gid) e).

(** ** [kvsrv1/server.go] *)

Definition MakeKVServer : IService := S_kvsrv.
Definition kvsrv_StartKVServer (servers : list ClientEnd) (gid : Tgid) (me persister : nat)
    (e : store * procs) : list (option IService) * (store * procs) :=
  ([Some MakeKVServer], e).

(** ** What the tester sees *)

Definition svc_Kill (svc : IService) (e : store * procs) : store * procs :=
  match svc with
  | S_kvsrv => e
  | S_kv p =>
      (e.1, mkProcs (ps_rafts e.2) (alter kv_Kill p (ps_kvs e.2)) (ps_shards e.2))
  | S_shard p =>
      (e.1, mkProcs (ps_rafts e.2) (ps_kvs e.2) (alter ss_Kill p (ps_shards e.2)))
  | S_raft p =>
      (e.1, mkProcs (alter Kill p (ps_rafts e.2)) (ps_kvs e.2) (ps_shards e.2))
  end.

Definition svc_tname (svc : IService) : string :=
  match svc with S_kvsrv | S_kv _ | S_shard _ => "KVServer" | S_raft _ => "Raft" end.

Section methods.
Context {V Ty : Type} `{GV : GoValues V Ty}.
(** The types of the signatures, by name. *)
Context (ty : string → Ty).
(** A handler: a method of two pointers.  The bodies are empty, so the reply stays
    as it was. *)
Definition handler (recv name args reply : string) : @Method V Ty procs :=
  mkMethod name "" [(true, ty recv); (true, ty args); (true, ty reply)] 0 (λ w _ r, Ret (w, r)).
(** A method that is no handler: so many parameters and results. *)
Definition other (recv name : string) (ins : list string) (outs : nat) : @Method V Ty procs :=
  mkMethod name "" ((true, ty recv) :: ((λ t, (false, ty t)) <$> ins)) outs (λ w _ r, Ret (w, r)).

Definition kv_handlers : list Method :=
  [handler "KVServer" "Get" "GetArgs" "GetReply"; handler "KVServer" "Put" "PutArgs" "PutReply"].
(** Those of [shardgrp/server.go]. *)
Definition shard_handlers : list Method :=
  [handler "KVServer" "Get" "GetArgs" "GetReply"; handler "KVServer" "Put" "PutArgs" "PutReply";
   handler "KVServer" "FreezeShard" "FreezeShardArgs" "FreezeShardReply";
   handler "KVServer" "InstallShard" "InstallShardArgs" "InstallShardReply";
   handler "KVServer" "DeleteShard" "DeleteShardArgs" "DeleteShardReply"].
(** What makes a [KVServer] a [StateMachine], and [Kill]. *)
Definition machine_methods : list Method :=
  [other "KVServer" "DoOp" ["any"] 1; other "KVServer" "Kill" [] 0;
   other "KVServer" "Restore" ["[]byte"] 0; other "KVServer" "Snapshot" [] 1].

(** The exported methods. *)
Definition svc_refl (svc : IService) : list Method :=
  match svc with
  | S_kvsrv => other "KVServer" "Kill" [] 0 :: kv_handlers
  | S_kv _ => kv_handlers ++ machine_methods
  | S_shard _ => shard_handlers ++ machine_methods
  | S_raft _ =>
      [handler "Raft" "RequestVote" "RequestVoteArgs" "RequestVoteReply";
       other "Raft" "GetState" [] 2; other "Raft" "Kill" [] 0; other "Raft" "PersistBytes" [] 1;
       other "Raft" "Snapshot" ["int"; "[]byte"] 0; other "Raft" "Start" ["interface {}"] 3]
  end.

(** [sendRequestVote], up to the request; an index out of range panics. *)
Definition sendRequestVote (server : nat) (args : V) (rf : Raft) : outcome (@reqMsg Ty) :=
  e ← index (rf_peers rf) server; Call_request e "Raft.RequestVote" (true, args).
End methods.

(** ** The loop that [Kill] ends *)

(** [ticker] ends at the first test that finds the peer killed, after a sleep of
    50 to 349 milliseconds for each test before. *)
Lemma ticker_ends (before : list Raft) (rf : Raft) (after : list Raft) (draws : list Z) :
  Forall (λ rf, killed rf = false) before → killed rf = true →
  (length before ≤ length draws)%nat → Forall (λ d, 0 ≤ d) draws →
  ∃ sleeps, ticker (before ++ rf :: after) draws = Some sleeps ∧
    length sleeps = length before ∧ Forall (λ ms, 50 ≤ ms < 350) sleeps.
Proof.
  intros Hb Hk. revert draws. induction Hb as [|rf0 before H0 _ IH]; intros draws Hlen Hd; simpl.
  - rewrite Hk. by exists [].
  - rewrite H0. destruct draws as [|d draws]; [simpl in Hlen; lia|].
    apply Forall_cons in Hd as [Hd0 Hd]. simpl in Hlen.
    destruct (IH draws) as (l & -> & Hl & Hr); [lia|done|].
    exists (50 + Z.rem d 300 :: l). simpl. split_and!; [done|lia|].
    constructor; [|done]. rewrite Z.rem_mod_nonneg by lia.
    pose proof (Z.mod_pos_bound d 300). lia.
Qed.

(** ** What the services offer *)

Section offers.
Context {V Ty : Type} `{GV : GoValues V Ty} (ty : string → Ty).

(** Over the network a server offers its handlers and no other method. *)
Lemma services_offered (svc : IService) :
  dom (svc_methods (MakeService (V:=V) (W:=procs) (svc_tname svc) (svc_refl ty svc))) =
  match svc with
  | S_kvsrv => {["Get"; "Put"]} : gset string
  | S_kv _ => {["Get"; "Put"]}
  | S_shard _ => {["Get"; "Put"; "FreezeShard"; "InstallShard"; "DeleteShard"]}
  | S_raft _ => {["RequestVote"]}
  end.
Proof.
  destruct svc; unfold MakeService; simpl;
    rewrite !dom_insert_L, dom_empty_L; set_solver.
Qed.
End offers.

(** ** Shutting a server down *)

Section shutdown.
Context {V Ty : Type} `{GV : GoValues V Ty}.
Context (crand : nat → nat → list Z).
Abbreviation gst := (@ServerGrp IService * @tester V Ty procs)%type.

Lemma kill_all_rafts ss : ∀ e q rf,
  ps_rafts e.2 !! q = Some rf →
  ps_rafts (kill_all svc_Kill ss e).2 !! q =
    Some (if decide (Some (S_raft q) ∈ ss) then Kill rf else rf).
Proof.
  induction ss as [|svc ss IH]; intros e q rf Hq; simpl; [done|].
  destruct (decide (Some (S_raft q) ∈ svc :: ss)) as [Hin|Hni].
  - destruct (decide (svc = Some (S_raft q))) as [->|Hne].
    + rewrite (IH _ q (Kill rf)) by (simpl; by rewrite lookup_alter_eq, Hq). by case_decide.
    + apply elem_of_cons in Hin as [Hin|Hin]; [done|]. rewrite (IH _ q rf), decide_True; [done..|].
      destruct svc as [[|p|p|p]|]; simpl; try done. rewrite lookup_alter_ne; [done|]. congruence.
  - apply not_elem_of_cons in Hni as [Hne Hni]. rewrite (IH _ q rf), decide_False; [done..|].
    destruct svc as [[|p|p|p]|]; simpl; try done. rewrite lookup_alter_ne; [done|]. congruence.
Qed.

(** C23: shutting a server down stops its peer and nobody else's.  After
    [ShutdownServer i] of a group of these servers, every [Raft] among the
    services of server [i] is killed, so that its [ticker] ends at its next test,
    and every other one is as it was. *)
Theorem ShutdownServer_kills (i p : nat) (old : Server) (ps : Persister) (s : gst) :
  wf s.1 → wired s → srvs s.1 !! i = Some old →
  saved old = Some p → pers (t_env s.2).1 !! p = Some ps →
  wp (ShutdownServer svc_Kill i) (λ _ s', ∀ q rf, ps_rafts (t_env s.2).2 !! q = Some rf →
    ∃ rf', ps_rafts (t_env s'.2).2 !! q = Some rf' ∧
      if decide (Some (S_raft q) ∈ svcs old)
      then ∀ draws, ticker [rf'] draws = Some []
      else rf' = rf) s.
Proof.
  intros Hwf Hwi Hold Hsv Hps.
  eapply wp_mono; [by apply (ShutdownServer_stops svc_Kill i p old ps)|].
  intros [] s' Hst q rf Hq. destruct (sp_run _ _ _ _ _ _ Hst) as (q' & _ & Henv & _).
  eexists. split; [by rewrite Henv; apply kill_all_rafts|]. by case_decide.
Qed.
End shutdown.

(** *** Two replicated servers *)

#[local] Existing Instance unit_values.
#[local] Abbreviation pt := (@tester unit unit procs).
Definition peer_refl : IService → list (@Method unit unit procs) := svc_refl (λ _, tt).
Definition peer_sg0 : @ServerGrp IService := mkGrp [] [] 0 [].
Definition peer_t0 : pt := mkTester MakeNetwork ∅ (store0, mkProcs ∅ ∅ ∅) 0.

(** The group after [StartServers] with the constructor of [kvraft1]. *)
Definition peer_g : @ServerGrp IService * pt :=
  Eval vm_compute in
    let '(sg, t) := run_M (makeSrvGrp (IService := IService) demo_crand 0 2) peer_t0
                      (peer_sg0, peer_t0) in
    (run_M (StartServers svc_tname peer_refl demo_crand (kvraft_StartKVServer false (-1))) (sg, t)
       (tt, (peer_sg0, peer_t0))).2.

Lemma peer_wired : wired peer_g.
Proof.
  intros a b x Hx. destruct a as [|[|a]]; [..|discriminate Hx];
    (destruct b as [|[|b]]; [..|discriminate Hx]);
    injection Hx as <-; (split; [eexists|]; vm_compute; reflexivity).
Qed.

(** Server 1 holds the peer 1; the peer 0 goes on. *)
Lemma ShutdownServer_kills_witness :
  wp (ShutdownServer svc_Kill 1) (λ _ s',
    (∃ rf', ps_rafts (t_env s'.2).2 !! 1%nat = Some rf' ∧ ticker [rf'] [] = Some []) ∧
    ps_rafts (t_env s'.2).2 !! 0%nat = ps_rafts (t_env peer_g.2).2 !! 0%nat) peer_g.
Proof.
  destruct (srvs peer_g.1 !! 1%nat) as [old|] eqn:Hold; [|discriminate Hold].
  destruct (saved old) as [p|] eqn:Hp; [|injection Hold as <-; discriminate Hp].
  destruct (pers (t_env peer_g.2).1 !! p) as [ps|] eqn:Hps;
    [|injection Hold as <-; injection Hp as <-; discriminate Hps].
  assert (wf peer_g.1) as Hwf by (apply wfb_wf; vm_compute; reflexivity).
  eapply wp_mono.
  - apply (ShutdownServer_kills 1 p old ps peer_g Hwf peer_wired Hold Hp Hps).
  - intros u s' H. injection Hold as <-. split.
    + destruct (ps_rafts (t_env peer_g.2).2 !! 1%nat) as [rf|] eqn:Hrf; [|discriminate Hrf].
      destruct (H 1%nat rf Hrf) as (rf' & Hrf' & Hd). exists rf'. split; [exact Hrf'|].
      rewrite decide_True in Hd by (simpl; set_solver). apply Hd.
    + destruct (ps_rafts (t_env peer_g.2).2 !! 0%nat) as [rf|] eqn:Hrf; [|discriminate Hrf].
      destruct (H 0%nat rf Hrf) as (rf' & Hrf' & Hd).
      rewrite decide_False in Hd by (simpl; set_solver). by rewrite Hrf', Hd.
Defined.
