(* ===== verification/Skeleton.v ===== *)
(** * The clerks and the controller as the repository has them, and the tests on
    them: [kvsrv1/client.go], [kvsrv1/lock/lock.go], [kvraft1/client.go],
    [shardkv1/client.go], [shardkv1/shardgrp/client.go], [shardgrp/shardrpc],
    [shardctrler/shardctrler.go]

    Their methods answer with constants until students write them.  The classes of
    the testers are instantiated with them here, and with the peer of Peer.v: what
    the tests conclude from the starting point. *)

From S2P Require Export Peer RaftAgree KvTest ShardCfg Clnts.
#[local] Set Default Proof Using "Type".
Local Open Scope Z_scope.

(** ** Clerks

    [clnt] points to the [tester.Clnt]. *)

Record kvsrv_Clerk := mkKvsrvClerk { kvsrv_clnt : nat; kvsrv_server : string }.
Definition kvsrv_MakeClerk (clnt : nat) (server : string) : kvsrv_Clerk := mkKvsrvClerk clnt server.
Definition kvsrv_Get (ck : kvsrv_Clerk) (key : string) : string * Tversion * Err :=
  ("", 0, ErrNoKey).
Definition kvsrv_Put (ck : kvsrv_Clerk) (key value : string) (version : Tversion) : Err := ErrNoKey.

(** The clerks of [kvraft1] and of a group know the servers. *)
Record group_Clerk := mkGroupClerk { group_clnt : nat; group_servers : list string }.
Definition kvraft_MakeClerk (clnt : nat) (servers : list string) : group_Clerk :=
  mkGroupClerk clnt servers.
Definition kvraft_Get (ck : group_Clerk) (key : string) : string * Tversion * Err := ("", 0, "").
Definition kvraft_Put (ck : group_Clerk) (key value : string) (version : Tversion) : Err := "".

Definition shardgrp_MakeClerk (clnt : nat) (servers : list string) : group_Clerk :=
  mkGroupClerk clnt servers.
Definition shardgrp_Get (ck : group_Clerk) (key : string) : string * Tversion * Err := ("", 0, "").
Definition shardgrp_Put (ck : group_Clerk) (key value : string) (version : Tversion) : Err := "".

(** The requests about whole shards; a [Tshid] and a [Tnum] are integers. *)
Record FreezeShardArgs := mkFreezeArgs { fa_Shard : Z; fa_Num : Z }.
Record FreezeShardReply := mkFreezeReply { fr_State : slice; fr_Num : Z; fr_Err : Err }.
Record InstallShardArgs := mkInstallArgs { ia_Shard : Z; ia_State : slice; ia_Num : Z }.
Record InstallShardReply := mkInstallReply { ir_Err : Err }.
Record DeleteShardArgs := mkDeleteArgs { da_Shard : Z; da_Num : Z }.
Record DeleteShardReply := mkDeleteReply { dr_Err : Err }.

Definition FreezeShard (ck : group_Clerk) (s num : Z) : slice * Err := (None, "").
Definition InstallShard (ck : group_Clerk) (s : Z) (state : slice) (num : Z) : Err := "".
Definition DeleteShard (ck : group_Clerk) (s num : Z) : Err := "".

(** The lock of the first lab; [lk_ck] is its clerk. *)
Record Lock (C : Type) := mkLock { lk_ck : C }.
Definition MakeLock {C} (ck : C) (l : string) : Lock C := mkLock C ck.
Definition Acquire {C W} (lk : Lock C) (w : W) : W := w.
Definition Release {C W} (lk : Lock C) (w : W) : W := w.

(** ** The controller *)

Record ShardCtrler := mkShardCtrler {
  sck_clnt : nat;
  sck_IKVClerk : kvsrv_Clerk;
  sck_killed : Z
}.
(** Its clerk talks to server 0 of group 0. *)
Definition MakeShardCtrler (clnt : nat) : ShardCtrler :=
  mkShardCtrler clnt (kvsrv_MakeClerk clnt (ServerName GRP0 0)) 0.
Definition InitController {W} (sck : ShardCtrler) (w : W) : W := w.
Definition InitConfig {W} (cfg : ShardConfig) (sck : ShardCtrler) (w : W) : W := w.
Definition ChangeConfigTo {W} (new : ShardConfig) (sck : ShardCtrler) (w : W) : W := w.
Definition Query {W} (sck : ShardCtrler) (w : W) : option ShardConfig := None.

Record shardkv_Clerk := mkShardkvClerk { skv_clnt : nat; skv_sck : ShardCtrler }.
Definition shardkv_MakeClerk (clnt : nat) (sck : ShardCtrler) : shardkv_Clerk :=
  mkShardkvClerk clnt sck.
Definition shardkv_Get (ck : shardkv_Clerk) (key : string) : string * Tversion * Err := ("", 0, "").
Definition shardkv_Put (ck : shardkv_Clerk) (key value : string) (version : Tversion) : Err := "".

(** ** As instances of what the testers use *)

(** A clerk that neither reads nor changes anything. *)
Definition inert {W} (get : string → string * Tversion * Err)
    (put : string → string → Tversion → Err) : IKVClerk W :=
  {| ck_Get key w := (get key, w); ck_Put key value ver w := (put key value ver, w) |}.

Definition kvsrv_clerk {W} (ck : kvsrv_Clerk) : IKVClerk W := inert (kvsrv_Get ck) (kvsrv_Put ck).
Definition kvraft_clerk {W} (ck : group_Clerk) : IKVClerk W := inert (kvraft_Get ck) (kvraft_Put ck).
Definition shardkv_clerk {W} (ck : shardkv_Clerk) : IKVClerk W :=
  inert (shardkv_Get ck) (shardkv_Put ck).

(** [peer q w]: the peer of the tester's server object [q]. *)
Definition start_raft {W Cmd} (peer : nat → W → Peer.Raft) : RaftCheck.Raft W Cmd :=
  {| rf_Start q cmd w := (Peer.Start cmd (peer q w), w);
     rf_GetState q w := Peer.GetState (peer q w);
     RaftCheck.rf_Snapshot q i snap w := w |}.

(** ** The tests of the key/value service *)

Section kv_start.
Context {W : Type} (clock : nat → Z).

(** An answer that is neither success nor an acceptable failure. *)
Definition useless (err : Err) : Prop := err ≠ OK ∧ err ≠ ErrMaybe ∧ err ≠ ErrVersion.

Lemma PutAtLeastOnce_useless (get : string → string * Tversion * Err)
    (put : string → string → Tversion → Err) (key value : string) (me : Z) :
  (∀ ver, useless (put key value ver)) →
  ∀ fuel ver s,
    PutAtLeastOnce (CK := @inert W get put) clock fuel key value ver me s =
    match fuel with O => Diverge | S _ => if decide (ver = 0) then Diverge else Fatal "Put" end.
Proof.
  intros Hput. induction fuel as [|fuel IH]; intros ver s; [done|].
  destruct (Hput ver) as (H1 & H2 & H3). cbn [PutAtLeastOnce].
  unfold Test_Put, KvTest.Put. unfold mbind, M_bind. cbn.
  rewrite decide_False by done. rewrite decide_False by (intros [?|?]; done).
  destruct (decide (ver = 0)) as [->|Hne].
  - rewrite decide_False by (intros H; by apply H). rewrite IH. by destruct fuel.
  - by rewrite decide_True.
Qed.

(** The clerks of the three key/value labs. *)
Inductive lab_clerk := C_kvsrv (ck : kvsrv_Clerk) | C_kvraft (ck : group_Clerk)
  | C_shardkv (ck : shardkv_Clerk).
Definition lab_IKVClerk (c : lab_clerk) : IKVClerk W :=
  match c with
  | C_kvsrv ck => kvsrv_clerk ck
  | C_kvraft ck => kvraft_clerk ck
  | C_shardkv ck => shardkv_clerk ck
  end.

(** On the clerks as they are, a test that stores a value with
    [PutAtLeastOnce] does not fail but hangs: at version 0 no number of turns is
    enough; at any other version the test ends. *)
Lemma PutAtLeastOnce_hangs (c : lab_clerk) (fuel : nat) (key value : string) (ver : Tversion)
    (me : Z) (s : @KvTest.Test W) :
  PutAtLeastOnce (CK := lab_IKVClerk c) clock fuel key value ver me s =
  match fuel with O => Diverge | S _ => if decide (ver = 0) then Diverge else Fatal "Put" end.
Proof. by destruct c; apply PutAtLeastOnce_useless. Qed.
End kv_start.

(** ** The tests of raft *)

Section raft_start.
Context {W Cmd : Type} `{EqDecision Cmd} (peer : nat → W → Peer.Raft).
#[local] Instance started_raft : RaftCheck.Raft W Cmd := start_raft peer.
Context (IsConnected : W → nat → bool) (clock : W → Z) (checkFinished : W → bool)
  (sleep : Z → @RaftCheck.Test W Cmd → @RaftCheck.Test W Cmd).
Abbreviation Test := (@RaftCheck.Test W Cmd).
Hypothesis sleep_clock : ∀ ms ts, 0 ≤ ms →
  clock (RaftCheck.t_w ts) + ms ≤ clock (RaftCheck.t_w (sleep ms ts)).

(** No server that is asked claims to be a leader. *)
Lemma start_ask i (ts : Test) :
  halts (ask IsConnected sleep i) (λ r _, ∀ t, r ≠ Some (t, true)) ts.
Proof.
  unfold ask. apply halts_bind, halts_modify, halts_bind, halts_gets.
  destruct (IsConnected _ _); [|by apply halts_mret].
  apply halts_bind, halts_modify, halts_bind, halts_gets, halts_bind, halts_index. intros p _.
  apply halts_bind, GetState_ends. intros q. by apply halts_mret.
Qed.

Lemma start_no_leader l leaders : ∀ ts : Test,
  halts (find_leaders IsConnected sleep l leaders) (λ m _, m = leaders) ts.
Proof.
  induction l as [|i l IH]; intros ts; [done|]. cbn [find_leaders].
  apply halts_bind. eapply halts_mono; [apply start_ask|]. intros [[t []]|] ts' Hr; simpl;
    [by destruct (Hr t)|apply IH..].
Qed.

Lemma start_checkOneLeader draws : ∀ ts : Test,
  halts (checkOneLeader IsConnected sleep draws) (λ _ _, False) ts.
Proof.
  induction draws as [|ms draws IH]; intros ts; [done|]. cbn [checkOneLeader].
  apply halts_bind, halts_modify, halts_bind, halts_gets, halts_bind.
  eapply halts_mono; [apply start_no_leader|]. intros m ts' ->.
  apply halts_bind. unfold lift, last_term. rewrite map_to_list_empty. cbn.
  rewrite decide_False by (intros H; by apply H). apply IH.
Qed.

Lemma start_checkNoLeader l : ∀ (ts : Test) why,
  checkNoLeader_loop IsConnected sleep l ts ≠ Fatal why.
Proof.
  induction l as [|i l IH]; intros ts why; [done|]. cbn [checkNoLeader_loop].
  unfold ask, others, do_sleep, modify, gets, lift, index, mbind, M_bind. cbn.
  match goal with |- context [IsConnected ?w i] => destruct (IsConnected w i); [|apply IH] end.
  match goal with |- context [?l !! i] => destruct (l !! i) as [p|]; [|done] end.
  unfold RaftCheck.GetState, get_obj, mbind, M_bind. destruct p as [p|]; cbn; [|done].
  match goal with |- context [?o !! p] => destruct (o !! p) as [rs|]; [|done] end.
  destruct (raft_nil rs); [done|]. apply IH.
Qed.

(** What the tests of raft say about the peer as it is.  [checkNoLeader] never
    reports a leader; [checkOneLeader] ends and never finds one; and [one] ends,
    and returns only when the whole test is over: it never reports an agreement. *)
Lemma raft_tests_at_start (turns polls : nat) (cmd : option Cmd) (expected : Z) (retry : bool)
    (draws : list Z) (ts : Test) :
  (201 ≤ turns)%nat → (101 ≤ polls)%nat →
  (∀ why, checkNoLeader IsConnected sleep ts ≠ Fatal why) ∧
  halts (checkOneLeader IsConnected sleep draws) (λ _ _, False) ts ∧
  halts (one IsConnected clock checkFinished sleep turns polls cmd expected retry)
    (λ i ts', i = -1 ∧ checkFinished (RaftCheck.t_w ts') = true) ts.
Proof using sleep_clock.
  intros Hf Hp. split; [|split].
  - intros why. apply start_checkNoLeader.
  - apply start_checkOneLeader.
  - eapply halts_mono.
    + unfold one. apply halts_bind, halts_gets, one_loop_ends; [done| |done|constructor|lia..]. intros; simpl; lia.
    + intros i ts' H. unfold one_post in H. destruct (decide (i = -1)); [done|].
      destruct H as [(ts1 & k & p & term & _ & _ & [=] & _) _]. lia.
Qed.
End raft_start.

(** Two servers without a leader, on a clock that only sleeps move. *)
Definition still_peer (_ : nat) (_ : Z) : Peer.Raft := mkRaft [] 0 0 0.
Definition still_sleep (ms : Z) (ts : @RaftCheck.Test Z nat) : @RaftCheck.Test Z nat :=
  RaftCheck.mkTest (objs ts) (RaftCheck.srvs ts) (maxIndex ts) (RaftCheck.t_w ts + ms).
Definition still_test : @RaftCheck.Test Z nat :=
  RaftCheck.mkTest {[ 0%nat := mkRfsrv 0 "" 0 false ∅; 1%nat := mkRfsrv 1 "" 0 false ∅ ]}
    [Some 0%nat; Some 1%nat] 0 0.

Lemma raft_tests_at_start_witness :
  one (RF := start_raft still_peer) (λ _ _, true) id (λ _, false) still_sleep 201 101 (Some 7%nat) 2
    true still_test = Fatal "failed to reach agreement" ∧
  halts (one (RF := start_raft still_peer) (λ _ _, true) id (λ _, false) still_sleep 201 101
           (Some 7%nat) 2 true) (λ i ts', i = -1 ∧ false = true) still_test.
Proof.
  split; [vm_compute; reflexivity|].
  exact (proj2 (proj2 (raft_tests_at_start still_peer (λ _ _, true) id (λ _, false) still_sleep
    (λ ms ts _, Z.le_refl _) 201 101 (Some 7%nat) 2 true [] still_test (le_n 201) (le_n 101)))).
Defined.
