(* ===== verification/Setup.v ===== *)
(** * How the tests of the labs set up what they test: [kvsrv1/test.go],
    [kvraft1/test.go], [raft1/test.go], [kvraft1/rsm/test.go], and the clerks of
    [kvtest1/kvtest.go]

    The operations of World.v as the test files call them, on the servers of
    Peer.v and for any other constructor of services. *)

From S2P Require Export World Skeleton.
#[local] Set Default Proof Using "Type".

(** [kvtest.TestClerk]: the clerk of a lab over a clerk of the tester. *)
Record TestClerk (C : Type) := mkTestClerk { tc_IKVClerk : C; tc_Clnt : nat }.
Arguments mkTestClerk {C} _ _.
Arguments tc_IKVClerk {C} _.
Arguments tc_Clnt {C} _.

(** What [Config.Begin] prints. *)
Definition Begin_line (description : string) (reliable : bool) : string :=
  description +:+ " (" +:+ (if reliable then "reliable" else "unreliable") +:+ " network)...".

(** [kvraft1.Test], apart from its [kvtest.Test]. *)
Record kvraft_Test := mkKvraftTest {
  part_name : string;
  nclients : Z;
  nservers : nat;
  crash : bool;
  partitions : bool;
  maxraftstate : Z;
  t_randomkeys : bool
}.

Definition makeTitle (ts : kvraft_Test) : string :=
  let title := "Test: " in
  let title := if crash ts then title +:+ "restarts, " else title in
  let title := if partitions ts then title +:+ "partitions, " else title in
  let title := if decide (maxraftstate ts ≠ -1)%Z then title +:+ "snapshots, " else title in
  let title := if t_randomkeys ts then title +:+ "random keys, " else title in
  let title := if decide (1 < nclients ts)%Z then title +:+ "many clients" else title +:+ "one client" in
  title +:+ " (" +:+ part_name ts +:+ ")".

Section setup.
Context {V Ty : Type} `{GV : GoValues V Ty}.
Context {W IService : Type}.
Context (svc_tname : IService → string) (svc_refl : IService → list (@Method V Ty W))
  (Kill : IService → store * W → store * W) (crand : nat → nat → list Z)
  (mks : list ClientEnd → Tgid → nat → nat → store * W → list (option IService) * (store * W)).
Abbreviation tconfig := (@Config V Ty W IService).
Abbreviation K := (M tconfig).

(** ** Making tests *)

(** [raft1.makeTest] and [rsm.makeTest], whose constructors are [mksrv] of
    RaftCheck.v and Rsm.v. *)
Definition raft_makeTest (n : nat) (rel : bool) (e : store * W) : outcome tconfig :=
  c ← MakeConfig svc_tname svc_refl crand mks n rel e 0;
  '(_, c) ← SetLongDelays true c; Ret c.
Definition rsm_makeTest (e : store * W) : outcome tconfig :=
  MakeConfig svc_tname svc_refl crand mks 3 true e 0.

(** [raft1.Test.restart] *)
Definition restart (i : nat) : K unit :=
  _ ← with_group GRP0 (StartServer svc_tname svc_refl crand mks i);
  with_group GRP0 ServerGroup.ConnectAll.

(** [cleanup] of [raft1] and [rsm]; the flag [finished] is read by the parameter
    [checkFinished] of RaftCheck.v. *)
Definition test_cleanup (order : list Tgid) (elapsed : Z) (failed : bool) : K unit :=
  _ ← End_ elapsed failed;
  _ ← Cleanup_ Kill order elapsed failed;
  CheckTimeout elapsed failed.

(** [kvtest.Test.Cleanup] *)
Definition kvtest_Cleanup (order : list Tgid) (elapsed : Z) (failed : bool) : K unit :=
  _ ← End_ elapsed failed; Cleanup_ Kill order elapsed failed.

(** [disconnectLeader] and [connect] of [rsm]. *)
Definition disconnectLeader (leader : nat) : K nat :=
  _ ← with_group GRP0 (ServerGroup.DisconnectAll leader); mret leader.
Definition rsm_connect (i : nat) : K unit := with_group GRP0 (ConnectOne i).

(** ** Clerks *)

Definition kvsrv_Test_MakeClerk : K (TestClerk kvsrv_Clerk) :=
  clnt ← on_clnts MakeClient;
  mret (mkTestClerk (kvsrv_MakeClerk clnt (ServerName GRP0 0)) clnt).
Definition kvraft_Test_MakeClerk : K (TestClerk group_Clerk) :=
  clnt ← on_clnts MakeClient;
  names ← with_group GRP0 (grp SrvNames);
  mret (mkTestClerk (kvraft_MakeClerk clnt names) clnt).
Definition kvraft_Test_MakeClerkTo (to : list nat) : K (TestClerk group_Clerk) :=
  ns ← with_group GRP0 (sg ← grp id; lift (SrvNamesTo sg to));
  clnt ← on_clnts (MakeClientTo (Some ns));
  names ← with_group GRP0 (grp SrvNames);
  mret (mkTestClerk (kvraft_MakeClerk clnt names) clnt).
Definition DeleteClerk {C} (ck : TestClerk C) : K unit := on_clnts (DeleteClient (tc_Clnt ck)).
End setup.

(** [MakeTestKV] of [kvsrv1] and [MakeTest] of [kvraft1], and what the latter
    prints at its start. *)
Section labs.
Context {V Ty : Type} `{GV : GoValues V Ty} (ty : string → Ty) (crand : nat → nat → list Z).

Definition MakeTestKV (rel : bool) (e : store * procs) : outcome (@Config V Ty procs IService) :=
  MakeConfig svc_tname (svc_refl ty) crand kvsrv_StartKVServer 1 rel e 0.
Definition kvraft_MakeTest (ts : kvraft_Test) (rel : bool) (e : store * procs)
    : outcome (@Config V Ty procs IService * string) :=
  c ← MakeConfig svc_tname (svc_refl ty) crand (kvraft_StartKVServer false (maxraftstate ts))
        (nservers ts) rel e 0;
  '(_, c) ← Begin c;
  Ret (c, Begin_line (makeTitle ts) (Config_IsReliable c)).
End labs.

(** ** The constructors are what the tester relies on *)

Section constructors.
Context {V Ty : Type} `{GV : GoValues V Ty} (ty : string → Ty) (crand : nat → nat → list Z).
Context (limit : nat)
  (names : ∀ k k', k < limit → k' < limit → rand_name crand k = rand_name crand k' → k = k').

Lemma read_state_keeps p st q :
  is_Some (pers st !! q) → is_Some (pers (read_state p st).2 !! q).
Proof. unfold read_state, do_op. by destruct (pers st !! p). Qed.

Lemma svc_Kill_keeps svc (e : store * procs) q :
  is_Some (pers e.1 !! q) → is_Some (pers (svc_Kill svc e).1 !! q).
Proof. by destruct svc. Qed.

Lemma MakeRSM_keeps es i p m sm (e : store * procs) q :
  is_Some (pers e.1 !! q) → is_Some (pers (MakeRSM false es i p m sm e).2.1 !! q).
Proof.
  intros Hq. unfold MakeRSM, Make. simpl.
  pose proof (read_state_keeps p e.1 q Hq) as H. by destruct (read_state p e.1).
Qed.

Lemma kvraft_labs m : Labs svc_Kill crand (kvraft_StartKVServer false m) limit.
Proof using names.
  split; [done|..].
  - intros es g i p e. unfold kvraft_StartKVServer, MakeRSM, Make. simpl.
    destruct (read_state p e.1). repeat constructor; by eexists.
  - intros es g i p e q Hq. unfold kvraft_StartKVServer.
    pose proof (MakeRSM_keeps es i p m (fresh (dom (ps_kvs e.2)))
      (put_kv (fresh (dom (ps_kvs e.2))) (mkKVServer i 0 None) e) q Hq) as H.
    by destruct (MakeRSM _ _ _ _ _ _ _).
  - intros svc e q. apply svc_Kill_keeps.
Qed.

Lemma shard_labs m : Labs svc_Kill crand (StartServerShardGrp false m) limit.
Proof using names.
  split; [done|..].
  - intros es g i p e. unfold StartServerShardGrp, MakeRSM, Make. simpl.
    destruct (read_state p e.1). repeat constructor; by eexists.
  - intros es g i p e q Hq. unfold StartServerShardGrp.
    pose proof (MakeRSM_keeps es i p m (fresh (dom (ps_shards e.2)))
      (put_shard (fresh (dom (ps_shards e.2))) (mkShardServer i 0 None g) e) q Hq) as H.
    by destruct (MakeRSM _ _ _ _ _ _ _).
  - intros svc e q. apply svc_Kill_keeps.
Qed.

Lemma kvsrv_labs : Labs svc_Kill crand kvsrv_StartKVServer limit.
Proof using names.
  split; [done|..].
  - intros es g i p e. repeat constructor; by eexists.
  - by intros es g i p e q.
  - intros svc e q. apply svc_Kill_keeps.
Qed.
End constructors.

(** ** Clerks of a test *)

Section clerks.
Context {V Ty : Type} `{GV : GoValues V Ty} {W IService : Type}.
Context (svc_tname : IService → string) (svc_refl : IService → list (@Method V Ty W))
  (Kill : IService → store * W → store * W) (crand : nat → nat → list Z)
  (mks : list ClientEnd → Tgid → nat → nat → store * W → list (option IService) * (store * W)).
Context (limit : nat) `{LB : !Labs Kill crand mks limit}.
Abbreviation tconfig := (@Config V Ty W IService).
Abbreviation config_ok := (config_ok svc_tname svc_refl crand).

(** Reading from a group changes nothing. *)
Lemma with_group_read {A} g sg (f : @ServerGrp IService → outcome A) (c : tconfig) :
  group_at c g = Some sg → with_group g (sg ← grp id; lift (f sg)) c = (a ← f sg; Ret (a, c)).
Proof.
  intros Hg. destruct (group_at_ptr c g sg Hg) as (p & Hp & Ho).
  unfold with_group, Group, on_groups, lookupGroup, gets, mbind, M_bind. simpl. rewrite Hp. simpl.
  rewrite Ho. unfold grp, lift, mbind, M_bind. simpl. unfold id. destruct (f sg); try done. simpl.
  rewrite insert_id by done. by destruct c.
Qed.

Lemma wp_group_read {A} g sg (f : @ServerGrp IService → outcome A) (c : tconfig) a Q :
  group_at c g = Some sg → f sg = Ret a → Q a c → wp (with_group g (sg ← grp id; lift (f sg))) Q c.
Proof. intros Hg Hf HQ. unfold wp. rewrite (with_group_read g sg) by done. by rewrite Hf. Qed.

Lemma SrvNamesTo_Ret (sg : @ServerGrp IService) to :
  wf sg → Forall (λ i, i < N sg) to → SrvNamesTo sg to = Ret (ServerName (gid sg) <$> to).
Proof.
  intros Hwf. induction 1 as [|i to Hi _ IH]; [done|]. simpl.
  rewrite (wf_names _ Hwf). erewrite index_Some.
  2:{ rewrite list_lookup_fmap, lookup_seq_lt by done. done. }
  simpl. by rewrite IH.
Qed.

(** A client for the servers [to] may reach those, and no other. *)
Lemma allowed_names g i (to : list nat) :
  allowedL (makeClntTo (Some (ServerName g <$> to))) (ServerName g i) = bool_decide (i ∈ to).
Proof.
  apply eq_true_iff_eq. rewrite bool_decide_eq_true.
  etrans; [apply (existsb_exists (λ n, bool_decide (n = ServerName g i)))|]. split.
  - intros (n & Hn%list_elem_of_In & He%bool_decide_eq_true).
    apply list_elem_of_fmap in Hn as (j & -> & Hj). by apply ServerName_inj in He as [_ ->].
  - intros Hi. exists (ServerName g i). rewrite bool_decide_eq_true.
    split; [apply list_elem_of_In, list_elem_of_fmap; by exists i|done].
Qed.

(** What a new clerk of a test is, and that deleting it undoes making it. *)
Definition clerk_made (c : tconfig) (sg : @ServerGrp IService) (may : nat → bool)
    (ck : TestClerk group_Clerk) (c' : tconfig) : Prop :=
  config_ok c' ∧ group_servers (tc_IKVClerk ck) = ServerName GRP0 <$> seq 0 (N sg) ∧
  group_clnt (tc_IKVClerk ck) = tc_Clnt ck ∧
  (∃ clnt, clerk_at c' (tc_Clnt ck) = Some clnt ∧
     ∀ i, i < N sg → reach (clnt, cf_t c') (ServerName GRP0 i) = may i) ∧
  wp (DeleteClerk ck) (λ _ c'', config_ok c'' ∧ (∀ X, part_at c'' X = part_at c X) ∧
    ∀ X o, part_at c X = Some o → same_links o (cf_t c) (cf_t c'')) c'.

Lemma clerk_made_ok (c : tconfig) sg srvs may q c' :
  config_ok c → t_rng (cf_t c) ≤ limit → group_at c GRP0 = Some sg →
  config_ok c' → others_same (P_clerk q) c c' → cf_t c' = cf_t c → clerk_at c q = None →
  clerk_at c' q = Some (makeClntTo srvs) →
  (∀ i, i < N sg → allowedL (makeClntTo srvs) (ServerName GRP0 i) = may i) →
  wp (names ← with_group GRP0 (grp SrvNames);
      mret (mkTestClerk (kvraft_MakeClerk q names) q)) (clerk_made c sg may) c'.
Proof using LB.
  intros Hok Hl Hsg Hok' Hoth Ht Hq Hq' Hmay.
  destruct (group_at_gid _ _ _ _ _ _ Hok Hsg) as [Hgid Hgok].
  assert (group_at c' GRP0 = Some sg) as Hsg'.
  { destruct (Hoth (P_group GRP0)) as [Hp _]; [done|]. simpl in Hp. rewrite Hsg in Hp.
    by destruct (group_at c' GRP0); simplify_eq/=. }
  apply wp_bind. apply (wp_group_read GRP0 sg (λ sg, Ret (SrvNames sg)) c' (SrvNames sg)); [done..|].
  apply wp_mret. split; [done|]. split.
  { simpl. unfold SrvNames. pose proof (wf_names _ (ok_wf _ _ _ _ Hgok)) as Hn. simpl in Hn.
    by rewrite Hn, Hgid. }
  split; [done|]. split.
  { eexists. split; [exact Hq'|]. intros i Hi. rewrite <-Hmay by done. unfold reach. simpl.
    by rewrite lookup_empty. }
  eapply wp_mono; [apply (DeleteClient_ok svc_tname svc_refl Kill crand mks limit); [done|by rewrite Ht]|].
  intros [] c'' (H1 & H2 & _ & H4). simpl in H2, H4. split; [done|].
  assert (∀ X, part_at c'' X = part_at c X) as Hpart.
  { intros X. destruct (decide (X = P_clerk q)) as [->|HX].
    - simpl. by rewrite H4, Hq.
    - by rewrite (proj1 (H2 X HX)), (proj1 (Hoth X HX)). }
  split; [done|]. intros X o Ho. assert (X ≠ P_clerk q) as HX.
  { intros ->. simpl in Ho. by rewrite Hq in Ho. }
  rewrite <-Ht. destruct (H2 X HX) as [_ H2']. apply H2'. by rewrite (proj1 (Hoth X HX)).
Qed.

(** C19: the clerks of the tests of the replicated service.  In every configuration
    that a test can reach, [MakeClerk] makes a clerk that knows the servers of the
    group by their names and can reach all of them, [MakeClerkTo to] one that can
    reach exactly the servers in [to], and [DeleteClerk] leaves every group and
    every other clerk as it was before the clerk was made, links included. *)
Theorem kvraft_clerks (c : tconfig) (sg : @ServerGrp IService) (to : list nat) :
  config_reachable svc_tname svc_refl Kill crand mks limit c →
  t_rng (cf_t c) ≤ limit → is_Some (cf_clerks c) → group_at c GRP0 = Some sg →
  Forall (λ i, i < N sg) to →
  wp kvraft_Test_MakeClerk (clerk_made c sg (λ _, true)) c ∧
  wp (kvraft_Test_MakeClerkTo to) (clerk_made c sg (λ i, bool_decide (i ∈ to))) c.
Proof using LB.
  intros Hok Hl Hcl Hsg Hto.
  apply (config_reachable_ok svc_tname svc_refl Kill crand mks limit) in Hok.
  destruct (group_at_gid _ _ _ _ _ _ Hok Hsg) as [Hgid Hgok]. split.
  - apply wp_bind. eapply wp_mono;
      [apply (MakeClientTo_ok svc_tname svc_refl Kill crand mks limit); done|].
    intros q c' (H1 & H2 & H3 & H4 & H5 & _). by eapply clerk_made_ok.
  - apply wp_bind. eapply (wp_group_read GRP0 sg (λ sg, SrvNamesTo sg to));
      [done|by apply SrvNamesTo_Ret; [apply (ok_wf _ _ _ _ Hgok)|]|].
    apply wp_bind. eapply wp_mono;
      [apply (MakeClientTo_ok svc_tname svc_refl Kill crand mks limit); done|].
    intros q c' (H1 & H2 & H3 & H4 & H5 & _). eapply clerk_made_ok; try done.
    intros i Hi. rewrite Hgid. apply allowed_names.
Qed.
End clerks.

(** ** On the test of World.v, whose group 0 has two servers *)
Section demo.
Definition ctr_g0 : @ServerGrp unit := default (mkGrp [] [] 0 []) (group_at ctr_c2 GRP0).

(** A clerk that reaches server 1 only, and that can be deleted again. *)
Lemma kvraft_clerks_witness :
  wp (kvraft_Test_MakeClerkTo [1]) (λ ck c',
    group_servers (tc_IKVClerk ck) = [ServerName 0 0; ServerName 0 1] ∧
    ∃ clnt, clerk_at c' (tc_Clnt ck) = Some clnt ∧
      reach (clnt, cf_t c') (ServerName 0 0) = false ∧
      reach (clnt, cf_t c') (ServerName 0 1) = true) ctr_c2.
Proof.
  assert (N ctr_g0 = 2) as HN by (vm_compute; reflexivity).
  destruct (kvraft_clerks (λ _, "Ctr") ctr_refl ctr_kill demo_crand ctr_mks 100 (LB := ctr_labs)
    ctr_c2 ctr_g0 [1] ctr_c2_reachable) as [_ H].
  - apply (bool_decide_unpack (_ ≤ _)). vm_compute. exact I.
  - apply (bool_decide_unpack (is_Some _)). vm_compute. exact I.
  - vm_compute. reflexivity.
  - rewrite HN. repeat constructor.
  - eapply wp_mono; [exact H|]. intros ck c' (_ & Hs & _ & (clnt & Hc & Hr) & _).
    rewrite HN in Hs, Hr. split; [exact Hs|]. exists clnt. split; [exact Hc|].
    split; [exact (Hr 0 ltac:(lia))|exact (Hr 1 ltac:(lia))].
Defined.
End demo.
