(* ===== verification/ShardKv.v ===== *)
(** * Joining and leaving groups: [shardkv1/test.go], lines 22-179

    How the tests change the groups of the sharded service through shard
    controllers.  The controllers are the students' code; the classes
    [Controllers] and [Controller] are what its comments promise, when there may
    be others and when there is only one.  The helpers are programs over the
    calls they make, so that they can run alone, here, or in goroutines that
    interleave, in Scripts.v. *)

From S2P Require Export ShardCfg ServerGroup.
#[local] Set Default Proof Using "Type".
Local Open Scope Z_scope.

(** Servers per group. *)
Definition NSRV : nat := 3.

(** The names that [ts.Group(gid).SrvNames()] returns for a group made with
    [NSRV] servers, see [makeSrvGrp]. *)
Definition SrvNames_of (gid : Tgid) : list string := ServerName gid <$> seq 0 NSRV.

(** The controllers and the tester of the groups; [W] is all they act on.  A
    controller is known by its number; [Query] may return a nil pointer. *)
Class ShardCtrl (W : Type) := {
  makeShardCtrler : W → nat * W;       (* of a new client of the tester *)
  InitController : nat → W → W;
  InitConfig : nat → ShardConfig → W → W;
  Query : nat → W → option ShardConfig;
  ChangeConfigTo : nat → ShardConfig → W → W;
  MakeGroupStart : Tgid → nat → W → W;
  ExitGroup : Tgid → W → W;
  pause : W → W                        (* [time.Sleep(INTERGRPDELAY)] *)
}.

(** ** Programs over these calls *)

Inductive call : Type → Type :=
| C_make : call nat
| C_init (sck : nat) : call unit
| C_config (sck : nat) (cfg : ShardConfig) : call unit
| C_query (sck : nat) : call ShardConfig
| C_change (sck : nat) (new : ShardConfig) : call unit
| C_start (gid : Tgid) (n : nat) : call unit
| C_exit (gid : Tgid) : call unit
| C_pause : call unit
| C_newGid : call Tgid
| C_set_sck (sck : nat) : call unit    (* the field [sck] of [Test] *)
| C_sck : call nat.

Inductive prog (A : Type) : Type :=
| P_end (o : outcome A)
| P_call {X : Type} (c : call X) (k : X → prog A).
Arguments P_end {A} o.
Arguments P_call {A X} c k.

Fixpoint pbind {A B} (f : A → prog B) (p : prog A) : prog B :=
  match p with
  | P_end (Ret a) => f a
  | P_end (Fatal why) => P_end (Fatal why)
  | P_end (Panic why) => P_end (Panic why)
  | P_end Diverge => P_end Diverge
  | P_call c k => P_call c (λ x, pbind f (k x))
  end.
#[export] Instance prog_ret : MRet prog := λ A a, P_end (Ret a).
#[export] Instance prog_bind : MBind prog := @pbind.

Definition do {X} (c : call X) : prog X := P_call c (λ x, P_end (Ret x)).

(** ** The helpers *)

Definition newGid : prog Tgid := do C_newGid.
Definition ShardCtrler : prog nat := do C_sck.
Fixpoint groups (n : nat) : prog (list Tgid) :=
  match n with
  | O => mret []
  | S n => gid ← newGid; gids ← groups n; mret (gid :: gids)
  end.

Definition setupKVService : prog Tgid :=
  sck ← do C_make;
  _ ← do (C_set_sck sck);
  _ ← do (C_start Gid1 NSRV);
  '(_, scfg) ← P_end (JoinBalance [(Gid1, SrvNames_of Gid1)] MakeShardConfig);
  _ ← do (C_config sck scfg);
  mret Gid1.

Definition checkMember (sck : nat) (gid : Tgid) : prog bool :=
  cfg ← do (C_query sck); mret (IsMember gid cfg).

Definition join (sck : nat) (gid : Tgid) (srvs : list string) : prog unit :=
  cfg ← do (C_query sck);
  '(ok, newcfg) ← P_end (JoinBalance [(gid, srvs)] (ShardCfg.Copy cfg));
  if negb ok then P_end (Fatal "join: group is already present")
  else do (C_change sck newcfg).

Fixpoint joinGroups (sck : nat) (gids : list Tgid) : prog bool :=
  match gids with
  | [] => mret true
  | gid :: gids =>
      _ ← do (C_start gid NSRV);
      _ ← join sck gid (SrvNames_of gid);
      ok ← checkMember sck gid;
      if negb ok then mret false else _ ← do C_pause; joinGroups sck gids
  end.

Definition leave (sck : nat) (gid : Tgid) : prog unit :=
  cfg ← do (C_query sck);
  '(ok, newcfg) ← P_end (LeaveBalance [gid] (ShardCfg.Copy cfg));
  if negb ok then P_end (Fatal "leave: group is already not present")
  else do (C_change sck newcfg).

Fixpoint leaveGroups (sck : nat) (gids : list Tgid) : prog bool :=
  match gids with
  | [] => mret true
  | gid :: gids =>
      _ ← leave sck gid;
      ok ← checkMember sck gid;
      if (ok : bool) then mret false
      else _ ← do (C_exit gid); _ ← do C_pause; leaveGroups sck gids
  end.

(** ** What the calls do *)

Section shardkv.
Context {W : Type} `{SC : !ShardCtrl W}.

(** [ngid] is the identifier that the next new group gets, [t_sck] the
    controller of the test, once the service is set up. *)
Record Test := mkTest { t_w : W; ngid : Tgid; t_sck : option nat }.
Abbreviation K := (M Test).

Definition act (f : W → W) : K unit := modify (λ ts, mkTest (f (t_w ts)) (ngid ts) (t_sck ts)).

Definition MakeTest (w : W) : Test := mkTest w (Gid1 + 1) None.

Definition exec {X} (c : call X) : K X :=
  match c with
  | C_make => λ ts,
      let (sck, w) := makeShardCtrler (t_w ts) in Ret (sck, mkTest w (ngid ts) (t_sck ts))
  | C_init sck => act (InitController sck)
  | C_config sck cfg => act (InitConfig sck cfg)
  | C_query sck => λ ts,
      match Query sck (t_w ts) with
      | Some cfg => Ret (cfg, ts)
      | None => Panic "nil pointer dereference"
      end
  | C_change sck new => act (ChangeConfigTo sck new)
  | C_start gid n => act (MakeGroupStart gid n)
  | C_exit gid => act (ExitGroup gid)
  | C_pause => act pause
  | C_newGid => λ ts, Ret (ngid ts, mkTest (t_w ts) (ngid ts + 1) (t_sck ts))
  | C_set_sck sck => modify (λ ts, mkTest (t_w ts) (ngid ts) (Some sck))
  | C_sck => λ ts,
      match t_sck ts with Some sck => Ret (sck, ts) | None => Panic "nil pointer dereference" end
  end.

(** A program that runs without others. *)
Fixpoint alone {A} (p : prog A) : K A :=
  match p with
  | P_end o => lift o
  | P_call c k => x ← exec c; alone (k x)
  end.
End shardkv.
Arguments Test : clear implicits.

(** ** What the controllers promise

    [fit w]: the controllers are in order.  [current] is the configuration that
    [Query] returns, [running] the groups that are started and not shut down.

    "In B and C, [InitController] implements recovery": it completes a change that
    another controller has begun.  This is the effect of the pending call of
    [ChangeConfigTo], by [Change_current], before that call returns; where goroutines
    interleave it is a step of its own ([E_recover] in Scripts.v, [R_recover] in
    Recovery.v).  [init_same] is about the rest: with no change pending
    [InitController] leaves the configuration alone. *)
Definition unchanged {W} (fit : W → Prop) (current : W → option ShardConfig)
    (running : W → gset Tgid) (w w' : W) : Prop :=
  fit w' ∧ current w' = current w ∧ running w' = running w.

Class Controllers (W : Type) `{!ShardCtrl W} (fit : W → Prop) := {
  current : W → option ShardConfig;
  running : W → gset Tgid;
  Query_current sck w : fit w → Query sck w = current w;
  InitConfig_current sck cfg w : fit w → current w = None →
    fit (InitConfig sck cfg w) ∧ current (InitConfig sck cfg w) = Some cfg ∧
    running (InitConfig sck cfg w) = running w;
  (* another controller may have been faster: then nothing changes *)
  Change_current sck cur new w : fit w → current w = Some cur →
    fit (ChangeConfigTo sck new w) ∧ running (ChangeConfigTo sck new w) = running w ∧
    (current (ChangeConfigTo sck new w) = Some cur ∨
     Num new = Num cur + 1 ∧ current (ChangeConfigTo sck new w) = Some new);
  make_same w : fit w → unchanged fit current running w (makeShardCtrler w).2;
  init_same sck w : fit w → unchanged fit current running w (InitController sck w);
  pause_same w : fit w → unchanged fit current running w (pause w);
  start_current gid n w : fit w →
    fit (MakeGroupStart gid n w) ∧ current (MakeGroupStart gid n w) = current w ∧
    running (MakeGroupStart gid n w) = {[gid]} ∪ running w;
  exit_current gid w : fit w →
    fit (ExitGroup gid w) ∧ current (ExitGroup gid w) = current w ∧
    running (ExitGroup gid w) = running w ∖ {[gid]}
}.

(** While nobody else changes the configuration, [ChangeConfigTo] does. *)
Class Controller (W : Type) `{!ShardCtrl W} (fit : W → Prop) `{!Controllers W fit} := {
  Change_done sck cur new w : fit w → current w = Some cur → Num new = Num cur + 1 →
    current (ChangeConfigTo sck new w) = Some new
}.

(** ** Names of servers *)

(** A server belongs to one group. *)
Lemma SrvNames_of_disjoint g1 g2 s : s ∈ SrvNames_of g1 → s ∈ SrvNames_of g2 → g1 = g2.
Proof.
  intros (i & -> & Hi)%list_elem_of_fmap (j & He & Hj)%list_elem_of_fmap.
  by apply ServerName_inj in He as [-> _].
Qed.

(** ** Groups and shards *)

(** The loads of distinct groups that hold all shards add up. *)
Lemma loads_total (c : ShardConfig) :
  assigned c → zsum (λ g, load g c) (map_keys (Groups c)) = Z.of_nat (length (Shards c)).
Proof.
  intros Ha. assert (∀ g, g ∈ Shards c → g ∈ map_keys (Groups c)) as Hin.
  { intros g Hg. by apply elem_of_map_keys, Ha. }
  pose proof (NoDup_map_keys (Groups c)) as Hnd. unfold load. clear Ha.
  induction (Shards c) as [|x l IH]; simpl.
  - clear. induction (map_keys (Groups c)); simpl; lia.
  - rewrite (zsum_upd _ (λ g, Z.of_nat (occ g l)) _ x 1);
      [|done|apply Hin; left| |].
    + rewrite IH by (intros; apply Hin; by right). lia.
    + intros y _ Hy. by rewrite decide_False by done.
    + rewrite decide_True by done. lia.
Qed.

Lemma zsum_const {A} (l : list A) d : zsum (λ _, d) l = d * Z.of_nat (length l).
Proof. induction l; simpl; lia. Qed.

Lemma load_member g c : IsMember g c = true ↔ 1 ≤ load g c.
Proof.
  unfold IsMember, load. rewrite existsb_exists. split.
  - intros (x & Hx%list_elem_of_In & ->%bool_decide_eq_true).
    apply occ_elem in Hx. lia.
  - intros Hl. exists g. rewrite bool_decide_eq_true, <-list_elem_of_In. split; [|done].
    apply dec_stable. intros Hn%occ_not_elem. lia.
Qed.

(** A balanced assignment of twelve shards reaches every group exactly when there
    are at most twelve. *)
Lemma members_iff c :
  cfg_inv c → Groups c ≠ ∅ →
  (∀ g, is_Some (Groups c !! g) → IsMember g c = true) ↔ (size (Groups c) ≤ NShards)%nat.
Proof.
  intros [Hlen _ _ Hab] Hne. destruct (Hab Hne) as [Ha Hb].
  pose proof (loads_total c Ha) as Ht. rewrite Hlen in Ht.
  rewrite <-length_map_keys. split.
  - intros Hall. pose proof (zsum_le (λ _, 1) (λ g, load g c) (map_keys (Groups c))) as Hle.
    rewrite zsum_const in Hle. apply Nat2Z.inj_le. rewrite <-Ht.
    etrans; [|apply Hle]; [lia|]. intros g Hg. by apply load_member, Hall, elem_of_map_keys.
  - intros Hle g Hg%elem_of_map_keys. apply load_member.
    destruct (decide (1 ≤ load g c)) as [|Hn]; [done|].
    set (f := λ g', 1 - (if decide (g' = g) then 1 else 0)).
    assert (zsum (λ g, load g c) (map_keys (Groups c)) ≤ zsum f (map_keys (Groups c))) as Hz.
    { apply zsum_le. intros x Hx. unfold f.
      pose proof (Hb x g (proj1 (elem_of_map_keys _ _) Hx) (proj1 (elem_of_map_keys _ _) Hg)).
      destruct (decide (x = g)) as [->|]; lia. }
    rewrite (zsum_upd f (λ _, 1) _ g (-1)), zsum_const in Hz;
      [lia|apply NoDup_map_keys|done|unfold f..].
    + intros y _ Hy. by rewrite decide_False by done.
    + by rewrite decide_True by done.
Qed.

(** The groups of a test carry the names that the tester gives. *)
Definition named (c : ShardConfig) : Prop :=
  ∀ g l, Groups c !! g = Some l → l = SrvNames_of g.

(** With twelve groups or more no group has two shards. *)
Lemma load_le_1 c g :
  cfg_inv c → (NShards ≤ size (Groups c))%nat → is_Some (Groups c !! g) → load g c ≤ 1.
Proof.
  intros [Hlen _ _ Hab] Hsize Hg.
  assert (Groups c ≠ ∅) as Hne by (intros He; rewrite He in Hg; by destruct Hg).
  destruct (Hab Hne) as [Ha Hb]. pose proof (loads_total c Ha) as Ht. rewrite Hlen in Ht.
  destruct (decide (load g c ≤ 1)) as [|Hn]; [done|].
  set (f := λ g', 1 + (if decide (g' = g) then 1 else 0)).
  assert (zsum f (map_keys (Groups c)) ≤ zsum (λ g, load g c) (map_keys (Groups c))) as Hz.
  { apply zsum_le. intros x Hx%elem_of_map_keys. pose proof (Hb g x Hg Hx). unfold f.
    destruct (decide (x = g)) as [->|]; lia. }
  rewrite (zsum_upd f (λ _, 1) _ g 1), zsum_const, length_map_keys in Hz;
    [lia|apply NoDup_map_keys|by apply elem_of_map_keys|unfold f..].
  - intros y _ Hy. by rewrite decide_False by done.
  - by rewrite decide_True by done.
Qed.

Lemma joinable_one c gid :
  named c → Groups c !! gid = None → joinable [(gid, SrvNames_of gid)] (Groups c).
Proof.
  intros Hn Hg. apply joinable_cons; [apply not_elem_of_nil|constructor|].
  split; [done|]. split; [|apply joinable_nil]. apply servers_clash_false.
  intros g l s Hl Hs1 Hs2. apply Hn in Hl as Heq. subst l.
  assert (g = gid) as -> by by eapply SrvNames_of_disjoint. congruence.
Qed.

(** A group without a shard gets none if there are twelve others. *)
Lemma crowded_join c c' gid l :
  cfg_inv c → (NShards ≤ size (Groups c))%nat → Groups c !! gid = None →
  Rebalance (joined [(gid, l)] c) = Ret c' → IsMember gid c' = false.
Proof.
  intros Hinv Hsize Hg Hr. pose proof Hinv as [Hlen _ _ Hab].
  assert (Groups c ≠ ∅) as Hne.
  { intros He. rewrite He, map_size_empty in Hsize. unfold NShards in Hsize. lia. }
  destruct (Hab Hne) as [Ha _].
  assert (∀ g, load g (joined [(gid, l)] c) = load g c) as Hload by done.
  assert (load gid c = 0) as H0.
  { unfold load. rewrite occ_not_elem; [done|]. intros [x Hx]%Ha. congruence. }
  assert (balanced (joined [(gid, l)] c)) as Hb.
  { intros g1 g2 H1 H2. rewrite !Hload. pose proof (load_bound g2 c Hlen).
    apply joined_groups in H1 as [H1| ->%list_elem_of_singleton]; [|simpl; lia]. pose proof (load_le_1 c g1 Hinv Hsize H1). lia. }
  destruct (IsMember gid c') eqn:Hm; [|done]. exfalso.
  apply load_member in Hm. unfold load in Hm.
  assert (gid ∈ Shards c') as [i Hi]%list_elem_of_lookup by (apply occ_elem; lia).
  destruct (Rebalance_total (joined [(gid, l)] c) Hlen) as (c2 & Hr2 & (_ & _ & Hl2) & _).
  rewrite Hr in Hr2. injection Hr2 as <-.
  destruct (lookup_lt_is_Some_2 (Shards c) i) as [g Hgi].
  { change (Shards c) with (Shards (joined [(gid, l)] c)). rewrite <-Hl2.
    by eapply lookup_lt_Some. }
  assert (is_Some (Groups c !! g)) as Hgs by (apply Ha; by eapply list_elem_of_lookup_2).
  assert (Shards c' !! i = Some g) as Hgi'.
  { eapply (Rebalance_keeps (joined [(gid, l)] c)); [exact Hlen|exact Hb|exact Hr|exact Hgi|].
    apply lookup_union_is_Some. by right. }
  rewrite Hi in Hgi'. injection Hgi' as <-. destruct Hgs. congruence.
Qed.

(** A group of the configuration that has a shard. *)
Definition member_with_shard (c : ShardConfig) (g : Tgid) : Prop :=
  is_Some (Groups c !! g) ∧ g ∈ Shards c.

Lemma join_one c gid :
  reachable c → named c → Groups c !! gid = None →
  ∃ c', JoinBalance [(gid, SrvNames_of gid)] c = Ret (true, c') ∧
    reachable c' ∧ named c' ∧ Num c' = Num c + 1 ∧
    Groups c' = <[gid := SrvNames_of gid]> (Groups c) ∧
    (IsMember gid c' = true ↔ (size (Groups c) < NShards)%nat) ∧
    ∀ g, member_with_shard c g → member_with_shard c' g.
Proof.
  intros Hc Hn Hg. pose proof (reachable_inv c Hc) as Hinv. pose proof Hinv as [Hlen _ _ _].
  set (c1 := joined [(gid, SrvNames_of gid)] c).
  assert (Groups c1 = <[gid := SrvNames_of gid]> (Groups c)) as HG1.
  { simpl. by rewrite <-insert_union_l, map_empty_union. }
  destruct (Rebalance_total c1 Hlen) as (c' & Hr & (HN & HG & _) & _).
  assert (JoinBalance [(gid, SrvNames_of gid)] c = Ret (true, c')) as Hj.
  { apply JoinBalance_true. exists c1. split; [|done].
    apply Join_true; [apply NoDup_singleton|]. split; [done|]. by split; [apply joinable_one|]. }
  assert (reachable c') as Hc' by (eapply reach_join; [exact Hc| |exact Hj]; apply NoDup_singleton).
  rewrite HG1 in HG. exists c'. split_and!; [done|done| |done|done| |].
  - intros g l. rewrite HG. intros [[<- <-]|[_ Hl]]%lookup_insert_Some; [done|by apply Hn].
  - pose proof (map_size_insert_None gid (SrvNames_of gid) (Groups c) Hg) as Hsz.
    rewrite <-HG in Hsz. split.
    + intros Hm. destruct (decide (size (Groups c) < NShards)%nat) as [|Hs]; [done|].
      rewrite (crowded_join c c' gid (SrvNames_of gid)) in Hm; [done|done|lia|done..].
    + intros Hs. eapply (members_iff c'); [by apply reachable_inv| |lia|].
      * intros He. rewrite He, map_size_empty in Hsz. lia.
      * rewrite HG, lookup_insert_eq. by eexists.
  - intros g [Hgs Hin]. assert (is_Some (Groups c' !! g)) as Hg'.
    { rewrite HG. apply lookup_insert_is_Some'. by right. }
    split; [done|]. apply (Rebalance_elem c1); [done..| |done]. by rewrite HG1, <-HG.
Qed.

Lemma leave_one c gid :
  reachable c → named c → is_Some (Groups c !! gid) →
  ∃ c', LeaveBalance [gid] c = Ret (true, c') ∧
    reachable c' ∧ named c' ∧ Num c' = Num c + 1 ∧ Groups c' = delete gid (Groups c) ∧
    (gid ≠ 0 → IsMember gid c' = false) ∧
    ∀ g, g ≠ gid → member_with_shard c g → member_with_shard c' g.
Proof.
  intros Hc Hn Hg. destruct (reachable_inv c Hc) as [Hlen _ _ _].
  set (c1 := left_groups [gid] c).
  destruct (Rebalance_total c1 Hlen) as (c' & Hr & (HN & HG & _) & He & Hne).
  assert (LeaveBalance [gid] c = Ret (true, c')) as Hj.
  { apply LeaveBalance_true. exists c1. split; [|done]. apply Leave_true.
    split_and!; [done|apply NoDup_singleton|by apply Forall_singleton|done]. }
  assert (reachable c') as Hc' by (eapply reach_leave; [exact Hc|exact Hj]).
  change (Groups c1) with (delete gid (Groups c)) in *.
  exists c'. split_and!; [done|done| |done|done| |].
  - intros g l. rewrite HG. intros [_ Hl]%lookup_delete_Some. by apply Hn.
  - intros H0. apply not_true_is_false. intros Hm%load_member. unfold load in Hm.
    assert (gid ∈ Shards c') as Hin by (apply occ_elem; lia).
    destruct (decide (delete gid (Groups c) = ∅)) as [Hd|Hd].
    + apply He in Hd. rewrite Forall_forall in Hd. by apply H0, Hd.
    + destruct (Hne Hd) as [Ha _]. destruct (Ha gid Hin) as [l Hl].
      rewrite HG, lookup_delete_eq in Hl. done.
  - intros g Hne' [Hgs Hin]. assert (is_Some (Groups c1 !! g)) as Hg1.
    { change (is_Some (delete gid (Groups c) !! g)). by rewrite lookup_delete_ne by done. }
    split; [by rewrite HG|]. by apply (Rebalance_elem c1).
Qed.

(** The groups [gids], named. *)
Definition new_groups (gids : list Tgid) : gmap Tgid (list string) :=
  list_to_map ((λ g, (g, SrvNames_of g)) <$> gids).

Lemma new_groups_cons gid gids (m : gmap Tgid (list string)) :
  gid ∉ gids →
  new_groups gids ∪ <[gid := SrvNames_of gid]> m = new_groups (gid :: gids) ∪ m.
Proof.
  intros Hni. unfold new_groups. rewrite fmap_cons. cbn [list_to_map foldr].
  rewrite <-insert_union_l, insert_union_r; [done|].
  apply not_elem_of_list_to_map_1. rewrite <-list_fmap_compose. by rewrite list_fmap_id.
Qed.

Lemma new_groups_lookup gids g :
  new_groups gids !! g = if decide (g ∈ gids) then Some (SrvNames_of g) else None.
Proof.
  unfold new_groups. destruct (decide (g ∈ gids)) as [Hg|Hg].
  - induction gids as [|x gids IH]; [by apply elem_of_nil in Hg|].
    rewrite fmap_cons. cbn [list_to_map foldr]. destruct (decide (x = g)) as [->|Hne].
    + by rewrite lookup_insert_eq.
    + rewrite lookup_insert_ne by done. apply IH. set_solver.
  - apply not_elem_of_list_to_map_1. rewrite <-list_fmap_compose. by rewrite list_fmap_id.
Qed.

(** ** The helpers of the tests *)

Section helpers.
Context {W : Type} `{SC : !ShardCtrl W} {fit : W → Prop} `{CS : !Controllers W fit} `{CT : !Controller W fit}.
Abbreviation Test := (Test W).

(** The controller holds configuration [c]. *)
Record ready (ts : Test) (c : ShardConfig) : Prop := {
  rd_fit : fit (t_w ts);
  rd_query : current (t_w ts) = Some c;
  rd_reach : reachable c;
  rd_named : named c
}.

(** Programs that run alone. *)
Lemma wp_alone_bind {A B} (p : prog A) (f : A → prog B) (Q : B → Test → Prop) ts :
  wp (alone p) (λ a, wp (alone (f a)) Q) ts → wp (alone (p ≫= f)) Q ts.
Proof.
  revert ts. induction p as [[a|why|why|]|X c k IH]; intros ts H; try done.
  unfold wp in *. simpl in *. unfold mbind, M_bind in *.
  destruct (exec c ts) as [[x ts']|?|?|]; try done. by apply IH.
Qed.

Lemma alone_do {X} (c : call X) (Q : X → Test → Prop) ts : wp (exec c) Q ts → wp (alone (do c)) Q ts.
Proof. unfold wp. simpl. unfold mbind, M_bind. by destruct (exec c ts) as [[]| | |]. Qed.

Lemma alone_exec {X} (c : call X) x (Q : X → Test → Prop) ts ts' :
  exec c ts = Ret (x, ts') → Q x ts' → wp (alone (do c)) Q ts.
Proof. intros He HQ. apply alone_do. unfold wp. by rewrite He. Qed.

Lemma alone_ret {A} (a : A) (Q : A → Test → Prop) ts : Q a ts → wp (alone (mret a)) Q ts.
Proof. done. Qed.

Lemma alone_out {A} (o : outcome A) a (Q : A → Test → Prop) ts :
  o = Ret a → Q a ts → wp (alone (P_end o)) Q ts.
Proof. by intros ->. Qed.

Lemma query_wp sck ts c (Q : ShardConfig → Test → Prop) :
  ready ts c → Q c ts → wp (alone (do (C_query sck))) Q ts.
Proof.
  intros [Hf Hq _ _] HQ. apply alone_do. unfold wp. simpl.
  by rewrite (Query_current sck _ Hf), Hq.
Qed.

Lemma checkMember_wp sck gid ts c (Q : bool → Test → Prop) :
  ready ts c → Q (IsMember gid c) ts → wp (alone (checkMember sck gid)) Q ts.
Proof. intros Hq HQ. apply wp_alone_bind. by eapply query_wp. Qed.

(** An action that leaves the configuration alone. *)
Lemma act_ready (f : W → W) ts c (Q : unit → Test → Prop) :
  (∀ w, fit w → fit (f w) ∧ current (f w) = current w) → ready ts c →
  (∀ ts', ready ts' c → ngid ts' = ngid ts → Q tt ts') → wp (act f) Q ts.
Proof.
  intros Hf [Hfit Hq Hr Hn] HQ. apply wp_modify, HQ; [|done].
  destruct (Hf (t_w ts) Hfit) as [H1 H2]. split; simpl; [done|by rewrite H2|done..].
Qed.

Lemma start_ready gid n ts c (Q : unit → Test → Prop) :
  ready ts c → (∀ ts', ready ts' c → ngid ts' = ngid ts → Q tt ts') →
  wp (alone (do (C_start gid n))) Q ts.
Proof using CT.
  intros. apply alone_do. eapply act_ready; [|done..]. intros w Hw.
  by destruct (start_current gid n w Hw) as (? & ? & ?).
Qed.
Lemma exit_ready gid ts c (Q : unit → Test → Prop) :
  ready ts c → (∀ ts', ready ts' c → ngid ts' = ngid ts → Q tt ts') →
  wp (alone (do (C_exit gid))) Q ts.
Proof using CT.
  intros. apply alone_do. eapply act_ready; [|done..]. intros w Hw.
  by destruct (exit_current gid w Hw) as (? & ? & ?).
Qed.
Lemma pause_ready ts c (Q : unit → Test → Prop) :
  ready ts c → (∀ ts', ready ts' c → ngid ts' = ngid ts → Q tt ts') →
  wp (alone (do C_pause)) Q ts.
Proof using CT.
  intros. apply alone_do. eapply act_ready; [|done..]. intros w Hw.
  by destruct (pause_same w Hw) as (? & ? & ?).
Qed.

(** The configuration moves on. *)
Lemma change_ready sck new ts c (Q : unit → Test → Prop) :
  ready ts c → Num new = Num c + 1 → reachable new → named new →
  (∀ ts', ready ts' new → ngid ts' = ngid ts → Q tt ts') →
  wp (alone (do (C_change sck new))) Q ts.
Proof using CT.
  intros [Hfit Hq _ _] Hnum Hr Hn HQ. apply alone_do, wp_modify, HQ; [|done].
  destruct (Change_current sck c new (t_w ts) Hfit Hq) as (? & _).
  pose proof (Change_done sck c new (t_w ts) Hfit Hq Hnum). by split.
Qed.

Lemma join_wp sck gid ts c :
  ready ts c → Groups c !! gid = None →
  wp (alone (join sck gid (SrvNames_of gid))) (λ _ ts', ∃ c', ready ts' c' ∧ ngid ts' = ngid ts ∧
    Num c' = Num c + 1 ∧ Groups c' = <[gid := SrvNames_of gid]> (Groups c) ∧
    (IsMember gid c' = true ↔ (size (Groups c) < NShards)%nat)) ts.
Proof using CT.
  intros Hrd Hg. destruct (join_one c gid (rd_reach _ _ Hrd) (rd_named _ _ Hrd) Hg)
    as (c' & Hj & Hr & Hn & Hnum & HG & Hm & _).
  unfold join. apply wp_alone_bind. eapply query_wp; [exact Hrd|]. rewrite Copy_id.
  apply wp_alone_bind. eapply alone_out; [exact Hj|]. cbn [negb].
  eapply change_ready; [exact Hrd|done..|]. intros ts' Hrd' Hng. by exists c'.
Qed.

Lemma leave_wp sck gid ts c :
  ready ts c → is_Some (Groups c !! gid) → gid ≠ 0 →
  wp (alone (leave sck gid)) (λ _ ts', ∃ c', ready ts' c' ∧ ngid ts' = ngid ts ∧
    Num c' = Num c + 1 ∧ Groups c' = delete gid (Groups c) ∧ IsMember gid c' = false) ts.
Proof using CT.
  intros Hrd Hg H0. destruct (leave_one c gid (rd_reach _ _ Hrd) (rd_named _ _ Hrd) Hg)
    as (c' & Hj & Hr & Hn & Hnum & HG & Hm & _).
  unfold leave. apply wp_alone_bind. eapply query_wp; [exact Hrd|]. rewrite Copy_id.
  apply wp_alone_bind. eapply alone_out; [exact Hj|]. cbn [negb].
  eapply change_ready; [exact Hrd|done..|]. intros ts' Hrd' Hng. exists c'. auto 6.
Qed.

Lemma joinGroups_wp sck gids : ∀ ts c,
  ready ts c → NoDup gids → (∀ g, g ∈ gids → Groups c !! g = None) →
  wp (alone (joinGroups sck gids)) (λ b ts', ∃ c', ready ts' c' ∧ ngid ts' = ngid ts ∧
    (if (b : bool) then
       (gids = [] ∨ (size (Groups c) + length gids ≤ NShards)%nat) ∧
       Num c' = Num c + Z.of_nat (length gids) ∧ Groups c' = new_groups gids ∪ Groups c
     else
       gids ≠ [] ∧ (NShards < size (Groups c) + length gids)%nat ∧
       size (Groups c') = S (NShards `max` size (Groups c)))) ts.
Proof using CT.
  induction gids as [|gid gids IH]; intros ts c Hrd Hnd Hnew.
  { apply alone_ret. exists c. split; [done|]. split; [done|]. simpl.
    split_and!; [by left|lia|]. unfold new_groups. simpl. by rewrite map_empty_union. }
  apply NoDup_cons in Hnd as [Hni Hnd]. cbn [joinGroups]. apply wp_alone_bind.
  eapply start_ready; [exact Hrd|]. intros ts1 Hrd1 Hng1. apply wp_alone_bind.
  eapply wp_mono; [apply (join_wp sck gid ts1 c Hrd1), Hnew; by left|].
  intros [] ts2 (c2 & Hrd2 & Hng2 & Hnum & HG & Hm). apply wp_alone_bind.
  eapply checkMember_wp; [exact Hrd2|].
  assert (size (Groups c2) = S (size (Groups c))) as Hsz
    by (rewrite HG; apply map_size_insert_None, Hnew; left).
  destruct (IsMember gid c2) eqn:Hmem; cbn [negb length].
  - destruct Hm as [Hm _]. specialize (Hm eq_refl). apply wp_alone_bind.
    eapply pause_ready; [exact Hrd2|]. intros ts3 Hrd3 Hng3.
    eapply wp_mono; [apply (IH ts3 c2 Hrd3 Hnd)|].
    { intros g Hg. rewrite HG, lookup_insert_ne by (by intros ->). apply Hnew. by right. }
    intros b ts4 (c4 & Hrd4 & Hng4 & Hb). exists c4. split; [done|]. split; [congruence|].
    destruct b.
    + destruct Hb as (Hsmall & Hn4 & HG4). split_and!; [right; simpl| |].
      * destruct Hsmall as [->|]; simpl; lia.
      * rewrite Hn4, Hnum. lia.
      * rewrite HG4, HG. by apply new_groups_cons.
    + destruct Hb as (_ & Hbig & Hs4). split_and!; [done|lia|]. rewrite Hs4, Hsz. lia.
  - assert (NShards ≤ size (Groups c))%nat as Hbig.
    { apply Nat.nlt_ge. intros Hlt. apply Hm in Hlt. done. }
    apply alone_ret. exists c2. split; [done|]. split; [congruence|].
    split_and!; [done|lia|]. rewrite Hsz. lia.
Qed.

Lemma leaveGroups_wp sck gids : ∀ ts c,
  ready ts c → NoDup gids → (∀ g, g ∈ gids → g ≠ 0 ∧ is_Some (Groups c !! g)) →
  wp (alone (leaveGroups sck gids)) (λ b ts', b = true ∧ ∃ c', ready ts' c' ∧ ngid ts' = ngid ts ∧
    Num c' = Num c + Z.of_nat (length gids) ∧
    ∀ g, Groups c' !! g = if decide (g ∈ gids) then None else Groups c !! g) ts.
Proof using CT.
  induction gids as [|gid gids IH]; intros ts c Hrd Hnd Hin.
  { apply alone_ret. split; [done|]. exists c. split_and!; [done|done|simpl; lia|done]. }
  apply NoDup_cons in Hnd as [Hni Hnd]. cbn [leaveGroups]. apply wp_alone_bind.
  destruct (Hin gid) as [H0 Hg]; [by left|].
  eapply wp_mono; [by apply (leave_wp sck gid ts c)|].
  intros [] ts1 (c1 & Hrd1 & Hng1 & Hnum & HG & Hm). apply wp_alone_bind.
  eapply checkMember_wp; [exact Hrd1|]. rewrite Hm. apply wp_alone_bind.
  eapply exit_ready; [exact Hrd1|]. intros ts2 Hrd2 Hng2. apply wp_alone_bind.
  eapply pause_ready; [exact Hrd2|]. intros ts3 Hrd3 Hng3.
  eapply wp_mono; [apply (IH ts3 c1 Hrd3 Hnd)|].
  { intros g Hg'. destruct (Hin g) as [? ?]; [by right|]. split; [done|].
    rewrite HG, lookup_delete_ne by (by intros ->). done. }
  intros b ts4 (-> & c4 & Hrd4 & Hng4 & Hn4 & HG4). split; [done|]. exists c4.
  split_and!; [done|congruence|simpl; lia|]. intros g. rewrite HG4, HG, lookup_delete.
  destruct (decide (g ∈ gids)), (decide (gid = g)), (decide (g ∈ gid :: gids));
    set_solver.
Qed.

(** *** From an empty controller *)

Definition Groups0 : gmap Tgid (list string) := {[ Gid1 := SrvNames_of Gid1 ]}.

Lemma setup_wp w :
  fit w → current w = None →
  wp (alone setupKVService) (λ gid ts, gid = Gid1 ∧ ngid ts = 2 ∧ is_Some (t_sck ts) ∧
    running (t_w ts) = {[Gid1]} ∪ running w ∧
    ∃ c, ready ts c ∧ Num c = 1 ∧ Groups c = Groups0) (MakeTest w).
Proof.
  intros Hfit Hq.
  destruct (join_one MakeShardConfig Gid1 reach_make) as (c & Hj & Hr & Hn & Hnum & HG & _);
    [intros g l; simpl; by rewrite lookup_empty|done|].
  unfold setupKVService. destruct (make_same w Hfit) as (Hfit1 & Hq1 & Hr1).
  apply wp_alone_bind. destruct (makeShardCtrler w) as [sck w1] eqn:Hmk. cbn [snd] in *.
  apply (alone_exec C_make sck _ _ (mkTest w1 2 None)); [simpl; by rewrite Hmk|].
  apply wp_alone_bind, alone_do, wp_modify, wp_alone_bind, alone_do, wp_modify. cbn [t_w ngid t_sck].
  destruct (start_current Gid1 NSRV w1 Hfit1) as (Hfit2 & Hq2 & Hr2).
  apply wp_alone_bind. eapply alone_out; [exact Hj|].
  apply wp_alone_bind, alone_do, wp_modify, alone_ret. cbn [t_w ngid t_sck].
  destruct (InitConfig_current sck c (MakeGroupStart Gid1 NSRV w1) Hfit2) as (Hfit3 & Hq3 & Hr3);
    [by rewrite Hq2, Hq1|].
  split_and!; [done|done|by eexists|by rewrite Hr3, Hr2, Hr1|]. exists c.
  split; [by split|]. split; [done|]. by rewrite HG.
Qed.

Lemma groups_wp n : ∀ (Q : list Tgid → Test → Prop) ts,
  Q ((λ i, ngid ts + Z.of_nat i) <$> seq 0 n) (mkTest (t_w ts) (ngid ts + Z.of_nat n) (t_sck ts)) →
  wp (alone (groups n)) Q ts.
Proof.
  induction n as [|n IH]; intros Q ts HQ.
  - apply alone_ret. destruct ts. simpl in HQ. by rewrite Z.add_0_r in HQ.
  - cbn [groups]. apply wp_alone_bind. eapply alone_exec; [done|]. apply wp_alone_bind, IH, alone_ret.
    simpl in *. replace (ngid ts + 1 + Z.of_nat n) with (ngid ts + Z.of_nat (S n)) by lia.
    assert (ngid ts :: ((λ i, ngid ts + 1 + Z.of_nat i) <$> seq 0 n) =
      (λ i, ngid ts + Z.of_nat i) <$> seq 0 (S n)) as ->; [|done].
    cbn [seq]. rewrite <-fmap_S_seq, fmap_cons, <-list_fmap_compose.
    f_equal; [lia|]. apply list_fmap_ext. intros i y _. simpl. lia.
Qed.

Lemma new_ids n g :
  g ∈ ((λ i, 2 + Z.of_nat i) <$> seq 0 n) ↔ 2 ≤ g < 2 + Z.of_nat n.
Proof.
  rewrite list_elem_of_fmap. setoid_rewrite elem_of_seq. split; [intros (i & -> & ?); lia|].
  intros Hg. exists (Z.to_nat (g - 2)). lia.
Qed.

(** Set up the service, add [n] groups and remove them again. *)
Definition join_leave (n : nat) : prog (bool * bool) :=
  _ ← setupKVService;
  sck ← ShardCtrler;
  gids ← groups n;
  joined ← joinGroups sck gids;
  left ← leaveGroups sck gids;
  mret (joined, left).

(** Groups can be added as long as every one gets a shard.  On a controller
    in order, adding new groups never panics or ends the process; [joinGroups]
    reports success exactly if there are at most twelve groups afterwards, and
    then the groups are the old and the new ones; otherwise it stops after the
    first group that gets no shard, which nevertheless stays in the
    configuration. *)
Lemma joinGroups_twelve (sck : nat) (gids : list Tgid) (ts : Test) (c : ShardConfig) :
  ready ts c → gids ≠ [] → NoDup gids → (∀ g, g ∈ gids → Groups c !! g = None) →
  wp (alone (joinGroups sck gids)) (λ b ts', ∃ c', ready ts' c' ∧
    (b = true ↔ (size (Groups c) + length gids ≤ NShards)%nat) ∧
    (if (b : bool) then Groups c' = new_groups gids ∪ Groups c
     else size (Groups c') = S (NShards `max` size (Groups c)))) ts.
Proof using CT.
  intros Hrd Hne Hnd Hnew. eapply wp_mono; [by apply (joinGroups_wp sck gids ts c)|].
  intros b ts' (c' & Hrd' & _ & Hb). exists c'. split; [done|].
  destruct b, Hb as (H1 & H2 & H3); (split; [split|done]); try done.
  - intros _. by destruct H1.
  - lia.
Qed.

(** C29: joining and leaving are inverse.  From the start, up to eleven groups join
    and leave again without a failure, and then the configuration is the one
    after the set-up, with the first group alone holding all shards, but for its
    number, which counts the changes. *)
Theorem join_leave_roundtrip (n : nat) (w : W) :
  (n < NShards)%nat → fit w → current w = None →
  wp (alone (join_leave n)) (λ r ts, r = (true, true) ∧
    current (t_w ts) = Some (mkShardConfig (1 + 2 * Z.of_nat n) (replicate NShards Gid1) Groups0))
    (MakeTest w).
Proof using CT.
  intros Hn Hfit Hq. unfold join_leave. apply wp_alone_bind.
  eapply wp_mono; [by apply setup_wp|]. intros gid ts (-> & Hng & [sck Hsck] & _ & c & Hrd & Hnum & HG).
  apply wp_alone_bind. eapply alone_exec; [simpl; by rewrite Hsck|]. apply wp_alone_bind, groups_wp. rewrite Hng.
  set (gids := (λ i, 2 + Z.of_nat i) <$> seq 0 n). set (ts1 := mkTest _ _ _).
  assert (ready ts1 c) as Hrd1 by (destruct Hrd; by split).
  assert (NoDup gids) as Hnd.
  { apply NoDup_fmap_2; [intros i j Hij; simpl in Hij; lia|apply NoDup_seq]. }
  assert (∀ g, g ∈ gids → g ≠ 0 ∧ Groups c !! g = None) as Hnew.
  { intros g Hg%new_ids. split; [lia|]. rewrite HG. apply lookup_singleton_None. unfold Gid1. lia. }
  assert (length gids = n) as Hlen by (unfold gids; by rewrite length_fmap, length_seq).
  apply wp_alone_bind. eapply wp_mono; [apply (joinGroups_wp sck gids ts1 c Hrd1 Hnd); intros; by apply Hnew|].
  intros b ts2 (c2 & Hrd2 & _ & Hb). rewrite HG in Hb.
  assert (size Groups0 = 1%nat) as Hs1 by apply map_size_singleton. rewrite Hs1 in Hb.
  destruct b; [|destruct Hb as (_ & Hbig & _); lia]. destruct Hb as (_ & Hnum2 & HG2).
  apply wp_alone_bind. eapply wp_mono; [apply (leaveGroups_wp sck gids ts2 c2 Hrd2 Hnd)|].
  { intros g Hg. split; [by apply Hnew|]. rewrite HG2. apply lookup_union_is_Some. left.
    rewrite new_groups_lookup, decide_True by done. by eexists. }
  intros b ts3 (-> & c3 & Hrd3 & _ & Hnum3 & HG3). apply alone_ret. split; [done|].
  rewrite (rd_query _ _ Hrd3). f_equal.
  assert (Groups c3 = Groups0) as HGr.
  { apply map_eq. intros g. rewrite HG3, HG2, lookup_union, new_groups_lookup.
    destruct (decide (g ∈ gids)) as [Hg|_]; [|by destruct (Groups0 !! g)].
    rewrite <-HG. symmetry. by apply Hnew. }
  pose proof (reachable_inv c3 (rd_reach _ _ Hrd3)) as [Hl3 _ _ Ha3].
  rewrite Hlen in Hnum2, Hnum3. clear HG3 Hnew Hnd.
  destruct c3 as [num shards gs]. simpl in *. subst gs. f_equal; [lia|].
  symmetry. change (replicate NShards Gid1 = shards). apply replicate_as_elem_of. split; [done|]. intros g Hg.
  destruct (Ha3 ltac:(done)) as [Has _]. destruct (Has g Hg) as [l Hlk]. simpl in Hlk.
  unfold Groups0 in Hlk. by apply lookup_singleton_Some in Hlk as [<- _].
Qed.
End helpers.

(** ** A controller

    It holds the configuration; [running] lists the groups that were started. *)

Record plain := mkPlain { pl_cfg : option ShardConfig; pl_running : gset Tgid; pl_made : nat }.

#[export] Instance plain_ctrl : ShardCtrl plain := {
  makeShardCtrler w := (pl_made w, mkPlain (pl_cfg w) (pl_running w) (S (pl_made w)));
  InitController sck w := w;
  InitConfig sck cfg w := mkPlain (Some cfg) (pl_running w) (pl_made w);
  Query sck := pl_cfg;
  ChangeConfigTo sck new w :=
    match pl_cfg w with
    | Some cur =>
        if decide (Num new = Num cur + 1) then mkPlain (Some new) (pl_running w) (pl_made w) else w
    | None => w
    end;
  MakeGroupStart gid n w := mkPlain (pl_cfg w) ({[gid]} ∪ pl_running w) (pl_made w);
  ExitGroup gid w := mkPlain (pl_cfg w) (pl_running w ∖ {[gid]}) (pl_made w);
  pause w := w
}.
#[export, refine] Instance plain_controllers : Controllers plain (λ _, True) := {
  current := pl_cfg;
  running := pl_running
}.
Proof.
  3: { intros sck cur new [cfg r n] _ Hc. simpl in *. subst cfg. case_decide; auto. }
  all: done.
Defined.
#[export] Instance plain_controller : Controller plain (λ _, True).
Proof.
  split. intros sck cur new [cfg r n] _ Hc Hn. simpl in *. subst cfg.
  by rewrite decide_True.
Defined.

Lemma join_leave_roundtrip_witness :
  wp (alone (join_leave 3)) (λ r ts, r = (true, true) ∧
    pl_cfg (t_w ts) = Some (mkShardConfig 7 (replicate NShards Gid1) Groups0))
    (MakeTest (mkPlain None ∅ 0)).
Proof.
  eapply wp_mono.
  - apply (join_leave_roundtrip (fit := λ _, True) 3 (mkPlain None ∅ 0)); [|exact I|reflexivity].
    unfold NShards. lia.
  - intros r ts H. exact H.
Defined.

(** Twelve more groups than the first one are one too many. *)
Definition first_cfg : ShardConfig := mkShardConfig 1 (replicate NShards Gid1) Groups0.

Lemma first_ready : ready (fit := λ _, True) (MakeTest (mkPlain (Some first_cfg) ∅ 0)) first_cfg.
Proof.
  split; [done|done| |].
  - apply (reach_join MakeShardConfig [(Gid1, SrvNames_of Gid1)]);
      [apply reach_make|apply NoDup_singleton|by vm_compute].
  - intros g l Hl. change (Groups0 !! g = Some l) in Hl. unfold Groups0 in Hl.
    by apply lookup_singleton_Some in Hl as [<- <-].
Qed.

Lemma joinGroups_twelve_witness :
  wp (alone (joinGroups 0 (Z.of_nat <$> seq 2 12))) (λ b ts, b = false ∧
    ∃ c, pl_cfg (t_w ts) = Some c ∧ size (Groups c) = 13%nat)
    (MakeTest (mkPlain (Some first_cfg) ∅ 0)).
Proof.
  assert (∀ g, g ∈ Z.of_nat <$> seq 2 12 → 2 ≤ g) as Hge.
  { intros g (i & -> & Hi)%list_elem_of_fmap. apply elem_of_seq in Hi. lia. }
  eapply wp_mono.
  - apply (joinGroups_twelve (fit := λ _, True) 0 (Z.of_nat <$> seq 2 12) _ first_cfg first_ready).
    + discriminate.
    + apply NoDup_fmap_2; [intros i j; apply Nat2Z.inj|apply NoDup_seq].
    + intros g Hg%Hge. apply lookup_singleton_None. unfold Gid1. lia.
  - intros b ts (c & Hrd & Hb & Hrest).
    assert (size (Groups first_cfg) = 1%nat) as H1 by apply map_size_singleton.
    assert (length (Z.of_nat <$> seq 2 12) = 12%nat) as H2 by reflexivity.
    rewrite H1, H2 in Hb. rewrite H1 in Hrest. unfold NShards in *.
    destruct b; [destruct (proj1 Hb eq_refl); lia|]. split; [reflexivity|].
    exists c. split; [apply Hrd|exact Hrest].
Defined.
