(* ===== verification/Scripts.v ===== *)
(** * Controllers that fight: [concurCtrler] of [shardkv1/test.go]

    Goroutines add and remove groups, each through controllers of its own, until
    the test stops them.  Their calls interleave in any order. *)

From S2P Require Export ShardKv.
#[local] Set Default Proof Using "Type".
Local Open Scope Z_scope.

(** ** The goroutines *)

(** One round of the loop of a goroutine. *)
Definition concur_round : prog unit :=
  gid ← newGid;
  sck ← do C_make;
  _ ← do (C_init sck);
  _ ← joinGroups sck [gid];
  ok ← checkMember sck gid;
  if (ok : bool) then _ ← leaveGroups sck [gid]; mret tt else mret tt.

(** At the [select], in a round, or returned. *)
Inductive goroutine := G_select | G_run (p : prog unit) | G_over.

Section system.
Context {W : Type} `{SC : !ShardCtrl W}.
Abbreviation Test := (Test W).

(** [cc_sends]: how many times the test still sends on [ch], once its sleep is over. *)
Record concur := mkConcur { cc_test : Test; cc_gos : list goroutine; cc_sends : option nat }.

(** The constant [N] of [concurCtrler]. *)
Definition NCTRL : nat := 4.
Definition concurCtrler (ts : Test) : concur := mkConcur ts (replicate NCTRL G_select) None.

Inductive event :=
| E_stop                (* the sleep is over *)
| E_recv (i : nat)      (* goroutine [i] receives from [ch] and returns *)
| E_default (i : nat)   (* nobody is sending *)
| E_step (i : nat)      (* its next call, or the end of its round *)
| E_recover (i : nat).  (* the change that it asks for is made before its call returns:
                           the [InitController] of another may complete it *)

Definition set_go (i : nat) (go : goroutine) (s : concur) : concur :=
  mkConcur (cc_test s) (<[i := go]> (cc_gos s)) (cc_sends s).

Definition step (e : event) (s : concur) : option concur :=
  match e with
  | E_stop =>
      match cc_sends s with
      | None => Some (mkConcur (cc_test s) (cc_gos s) (Some (length (cc_gos s))))
      | Some _ => None
      end
  | E_recv i =>
      match cc_gos s !! i, cc_sends s with
      | Some G_select, Some (S n) => Some (mkConcur (cc_test s) (<[i := G_over]> (cc_gos s)) (Some n))
      | _, _ => None
      end
  | E_default i =>
      match cc_gos s !! i with
      | Some G_select => Some (set_go i (G_run concur_round) s)
      | _ => None
      end
  | E_step i =>
      match cc_gos s !! i with
      | Some (G_run (P_end (Ret _))) => Some (set_go i G_select s)
      | Some (G_run (P_call c k)) =>
          match exec c (cc_test s) with
          | Ret (x, ts) => Some (mkConcur ts (<[i := G_run (k x)]> (cc_gos s)) (cc_sends s))
          | Fatal why => Some (set_go i (G_run (P_end (Fatal why))) s)
          | Panic why => Some (set_go i (G_run (P_end (Panic why))) s)
          | Diverge => Some (set_go i (G_run (P_end Diverge)) s)
          end
      | _ => None
      end
  | E_recover i =>
      match cc_gos s !! i with
      | Some (G_run (P_call (C_change sck new) _)) =>
          match exec (C_change sck new) (cc_test s) with
          | Ret (_, ts) => Some (mkConcur ts (cc_gos s) (cc_sends s))
          | _ => None
          end
      | _ => None
      end
  end.

Fixpoint run (l : list event) (s : concur) : option concur :=
  match l with
  | [] => Some s
  | e :: l => s ← step e s; run l s
  end.

(** A goroutine has ended the process. *)
Definition failed (go : goroutine) : bool :=
  match go with
  | G_run (P_end (Ret _)) => false
  | G_run (P_end _) => true
  | _ => false
  end.

(** The calls only ever draw more identifiers. *)
Lemma exec_ngid {X} (c : call X) ts x ts' : exec c ts = Ret (x, ts') → ngid ts ≤ ngid ts'.
Proof.
  destruct c; simpl; unfold act, modify; intros H; simplify_eq/=; try lia.
  - destruct (makeShardCtrler (t_w ts)). simplify_eq/=. lia.
  - destruct (Query _ _); by simplify_eq/=.
  - destruct (t_sck ts); by simplify_eq/=.
Qed.

End system.
Arguments concur : clear implicits.

(** ** Reasoning about goroutines that interleave

    Every goroutine may own the identifier of one group: the others neither start
    or shut down this group nor add it to the configuration or remove it. *)

Section rely_guarantee.
Context {W : Type} `{SC : !ShardCtrl W} {fit : W → Prop} `{CT : !Controllers W fit}.
Abbreviation Test := (Test W).
Implicit Types (ts : Test) (o : option Tgid) (g : Tgid).

Definition cur ts : ShardConfig := default MakeShardConfig (current (t_w ts)).
Definition runs ts g : Prop := g ∈ running (t_w ts).
Definition member ts g : Prop := is_Some (Groups (cur ts) !! g).

(** The invariant: every group of the configuration runs, and all were made by
    the test. *)
Record inv ts : Prop := {
  iv_fit : fit (t_w ts);
  iv_current : current (t_w ts) = Some (cur ts);
  iv_reach : reachable (cur ts);
  iv_named : named (cur ts);
  iv_runs g : member ts g → runs ts g;
  iv_first : member ts Gid1;
  iv_pos g : member ts g → Gid1 ≤ g;
  iv_fresh g : runs ts g → g < ngid ts;
  iv_ngid : Gid1 < ngid ts
}.

(** What others may have done in between, to one who owns [o]. *)
Record rely o ts ts' : Prop := {
  rl_ngid : ngid ts ≤ ngid ts';
  rl_num : Num (cur ts) ≤ Num (cur ts');
  rl_cur : Num (cur ts) = Num (cur ts') → cur ts = cur ts';
  rl_runs g : o = Some g → runs ts g ↔ runs ts' g;
  rl_member g : o = Some g → member ts g ↔ member ts' g;
  rl_shard g : o = Some g → member_with_shard (cur ts) g → member_with_shard (cur ts') g
}.

(** What one may do who owns [o] afterwards. *)
Definition guar o ts ts' : Prop :=
  ∀ o', (∀ g, o' = Some g → g < ngid ts ∧ o ≠ Some g) → rely o' ts ts'.

#[export] Instance rely_preorder o : PreOrder (rely o).
Proof.
  split; [by split|]. intros ts1 ts2 ts3 [H1 H2 H3 H4 H5 H6] [K1 K2 K3 K4 K5 K6]. split.
  - lia.
  - lia.
  - intros He. rewrite H3 by lia. apply K3. lia.
  - intros g Hg. by rewrite (H4 g Hg), (K4 g Hg).
  - intros g Hg. by rewrite (H5 g Hg), (K5 g Hg).
  - intros g Hg Hs. by apply K6, H6.
Qed.

(** Until a call of one who owns [o] returns, others run, and a change that it asks
    for may be made, more than once: superseded it does nothing. *)
Definition changes {X} (c : call X) : bool := match c with C_change _ _ => true | _ => false end.
Inductive before {X} (c : call X) o ts : Test → Prop :=
| before_others ts' : rely o ts ts' → before c o ts ts'
| before_change ts1 x ts2 ts' : changes c = true → before c o ts ts1 → inv ts1 →
    exec c ts1 = Ret (x, ts2) → rely o ts2 ts' → before c o ts ts'.

Lemma before_rely {X} (c : call X) o ts ts' : changes c = false → before c o ts ts' → rely o ts ts'.
Proof. intros Hc [? Hr|? ? ? ? Hch]; [done|congruence]. Qed.
Lemma before_cons {X} (c : call X) o ts1 ts2 ts3 :
  before c o ts1 ts2 → before c o ts2 ts3 → before c o ts1 ts3.
Proof.
  intros H12. induction 1 as [ts3 H23|ts3 x ts4 ts5 Hc _ IH Hi He H45].
  - destruct H12 as [ts2 H12|ts2 x ts2' ts2'' Hc H12 Hi He H2].
    + apply before_others. by etrans.
    + eapply before_change; [done..|]. by etrans.
  - by eapply before_change.
Qed.

(** [rg Q p o ts]: run with others that keep to [rely] from [ts] on, the program
    [p] of one who owns [o] keeps the invariant, does nothing that others do not
    rely on, and returns with [Q]. *)
Fixpoint rg {A} (Q : A → option Tgid → Test → Prop) (p : prog A) o ts : Prop :=
  match p with
  | P_end (Ret a) => Q a o ts
  | P_end _ => False
  | P_call c k =>
      ∀ ts', before c o ts ts' → inv ts' →
      ∃ x ts2, exec c ts' = Ret (x, ts2) ∧ inv ts2 ∧
        ∃ o', (o' = o ∨ o' = Some (ngid ts') ∧ ngid ts' < ngid ts2) ∧
          guar o' ts' ts2 ∧ rg Q (k x) o' ts2
  end.

Lemma rg_bind {A B} (Q : B → option Tgid → Test → Prop) (f : A → prog B) (p : prog A) : ∀ o ts,
  rg (λ a o ts, rg Q (f a) o ts) p o ts → rg Q (p ≫= f) o ts.
Proof.
  induction p as [[a|why|why|]|X c k IH]; intros o ts H; try done.
  intros ts' Hr Hi. destruct (H ts' Hr Hi) as (x & ts2 & He & Hi2 & o' & Ho & Hg & Hk).
  exists x, ts2. split; [done|]. split; [done|]. exists o'. split; [done|]. split; [done|].
  by apply IH.
Qed.

Lemma rg_stable {A} (p : prog A) o ts ts' :
  rely o ts ts' → rg (λ _ _ _, True) p o ts → rg (λ _ _ _, True) p o ts'.
Proof.
  intros Hr. destruct p as [[a|why|why|]|X c k]; try done.
  intros H ts1 Hr1 Hi. apply H; [|done]. by eapply before_cons; [apply before_others|].
Qed.

Lemma guar_refl o ts : guar o ts ts.
Proof. intros o' _. reflexivity. Qed.

(** A call that only looks, or changes nothing that counts. *)
Lemma rg_same {A X} (c : call X) (Q : A → option Tgid → Test → Prop) (k : X → prog A) o ts :
  changes c = false →
  (∀ ts', rely o ts ts' → inv ts' → ∃ x ts2, exec c ts' = Ret (x, ts2) ∧
    unchanged fit current running (t_w ts') (t_w ts2) ∧ ngid ts2 = ngid ts' ∧
    (cur ts2 = cur ts' → (∀ g, runs ts2 g ↔ runs ts' g) → rely o ts ts2 → rg Q (k x) o ts2)) →
  rg Q (P_call c k) o ts.
Proof.
  intros Hch H ts' Hr%before_rely Hi; [|done].
  destruct (H ts' Hr Hi) as (x & ts2 & He & (Hfit & Hc & Hrn) & Hn & Hk).
  assert (cur ts2 = cur ts') as Hcur by (unfold cur; by rewrite Hc).
  assert (∀ g, runs ts2 g ↔ runs ts' g) as Hruns by (intros g; unfold runs; by rewrite Hrn).
  assert (∀ o', rely o' ts' ts2) as Hall.
  { intros o'. split; try (unfold member; rewrite ?Hcur, ?Hn; done). }
  exists x, ts2. split; [done|]. split.
  - destruct Hi as [I1 I2 I3 I4 I5 I6 I7 I8 I9].
    split; unfold member; rewrite ?Hcur, ?Hn, ?Hc; try done.
    + intros g Hg. apply Hruns. by apply I5.
    + intros g Hg. by apply I8, Hruns.
  - exists o. split; [by left|]. split; [intros o' _; apply Hall|].
    apply Hk; [done..|]. by transitivity ts'.
Qed.

Lemma cur_of ts c : current (t_w ts) = Some c → cur ts = c.
Proof. unfold cur. by intros ->. Qed.

(** ** The helpers of the tests *)

Lemma rg_query {A} sck (Q : A → option Tgid → Test → Prop) (k : ShardConfig → prog A) o ts :
  (∀ ts', rely o ts ts' → inv ts' → rg Q (k (cur ts')) o ts') →
  rg Q (P_call (C_query sck) k) o ts.
Proof using CT.
  intros H. apply rg_same; [done|]. intros ts' Hr Hi. exists (cur ts'), ts'. simpl.
  rewrite (Query_current sck _ (iv_fit _ Hi)), (iv_current _ Hi).
  split; [done|]. split; [by split; [apply Hi|]|]. split; [done|]. intros. by apply H.
Qed.

(** A call that gives [tt] and changes nothing that counts. *)
Lemma rg_act {A} (c : call unit) (f : Test → W) (Q : A → option Tgid → Test → Prop) k o ts :
  changes c = false →
  (∀ ts, exec c ts = Ret (tt, mkTest (f ts) (ngid ts) (t_sck ts))) →
  (∀ ts, inv ts → unchanged fit current running (t_w ts) (f ts)) →
  (∀ ts', rely o ts ts' → rg Q (k tt) o ts') → rg Q (P_call c k) o ts.
Proof.
  intros Hch He Hu H. apply rg_same; [done|]. intros ts' Hr Hi.
  exists tt, (mkTest (f ts') (ngid ts') (t_sck ts')). split; [apply He|].
  split; [by apply Hu|]. split; [done|]. intros. by apply H.
Qed.

(** A new identifier: the group neither runs nor is in the configuration. *)
Lemma rg_newGid {A} (Q : A → option Tgid → Test → Prop) (k : Tgid → prog A) o ts :
  (∀ g ts', Gid1 < g → ngid ts' > g → ¬ runs ts' g → rg Q (k g) (Some g) ts') →
  rg Q (P_call C_newGid k) o ts.
Proof.
  intros H ts' Hr%before_rely Hi; [|done]. exists (ngid ts'), (mkTest (t_w ts') (ngid ts' + 1) (t_sck ts')).
  split; [done|]. split.
  { destruct Hi as [I1 I2 I3 I4 I5 I6 I7 I8 I9]. split; try done; simpl.
    - intros g Hg. specialize (I8 g Hg). lia.
    - lia. }
  exists (Some (ngid ts')). split; [right; split; [done|simpl; lia]|]. split.
  { intros o' _. split; try done. simpl. lia. }
  apply H; [exact (iv_ngid _ Hi)|simpl; lia|]. intros Hg. apply (iv_fresh _ Hi) in Hg. lia.
Qed.

(** What the owner of [g] did only touches [g]. *)
Lemma guar_own g ts ts2 :
  ngid ts2 = ngid ts → Num (cur ts) ≤ Num (cur ts2) →
  (Num (cur ts) = Num (cur ts2) → cur ts = cur ts2) →
  (∀ h, h ≠ g → runs ts h ↔ runs ts2 h) → (∀ h, h ≠ g → member ts h ↔ member ts2 h) →
  (∀ h, h ≠ g → member_with_shard (cur ts) h → member_with_shard (cur ts2) h) →
  guar (Some g) ts ts2.
Proof.
  intros Hn H1 H2 H3 H4 H5 o' Ho'. split; [lia|done|done|..].
  - intros h Hh. apply H3. destruct (Ho' h Hh) as [_ Hne]. congruence.
  - intros h Hh. apply H4. destruct (Ho' h Hh) as [_ Hne]. congruence.
  - intros h Hh. apply H5. destruct (Ho' h Hh) as [_ Hne]. congruence.
Qed.

Lemma rg_start {A} g n (Q : A → option Tgid → Test → Prop) k ts :
  ¬ runs ts g → ngid ts > g → (∀ ts', runs ts' g → ¬ member ts' g → rg Q (k tt) (Some g) ts') →
  rg Q (P_call (C_start g n) k) (Some g) ts.
Proof using CT.
  intros Hnr Hlt H ts' Hr%before_rely Hi; [|done].
  assert (¬ runs ts' g) as Hnr' by (by rewrite <-(rl_runs _ _ _ Hr g eq_refl)).
  destruct (start_current g n (t_w ts') (iv_fit _ Hi)) as (S1 & S2 & S3).
  set (ts2 := mkTest (MakeGroupStart g n (t_w ts')) (ngid ts') (t_sck ts')).
  assert (cur ts2 = cur ts') as Hcur by (unfold cur; simpl; by rewrite S2).
  assert (∀ h, runs ts2 h ↔ h = g ∨ runs ts' h) as Hruns
    by (intros h; unfold runs; simpl; rewrite S3; set_solver).
  exists tt, ts2. split; [done|]. split.
  { destruct Hi as [I1 I2 I3 I4 I5 I6 I7 I8 I9].
    split; unfold member; rewrite ?Hcur; try done; [by rewrite <-I2, <-S2|..].
    - intros h Hh. apply Hruns. right. by apply I5.
    - intros h Hh%Hruns. simpl. pose proof (rl_ngid _ _ _ Hr).
      destruct Hh as [->|Hh]; [lia|by apply I8]. }
  exists (Some g). split; [by left|]. split.
  - apply guar_own; unfold member; rewrite ?Hcur; try done.
    intros h Hne. rewrite Hruns. split; [by right|by intros [->|?]].
  - apply H; [apply Hruns; by left|]. unfold member. rewrite Hcur. intros Hm. by apply Hnr', Hi.
Qed.

Lemma rg_exit {A} g (Q : A → option Tgid → Test → Prop) k ts :
  ¬ member ts g → (∀ ts', rg Q (k tt) (Some g) ts') →
  rg Q (P_call (C_exit g) k) (Some g) ts.
Proof using CT.
  intros Hnm H ts' Hr%before_rely Hi; [|done].
  assert (¬ member ts' g) as Hnm' by (by rewrite <-(rl_member _ _ _ Hr g eq_refl)).
  destruct (exit_current g (t_w ts') (iv_fit _ Hi)) as (S1 & S2 & S3).
  set (ts2 := mkTest (ExitGroup g (t_w ts')) (ngid ts') (t_sck ts')).
  assert (cur ts2 = cur ts') as Hcur by (unfold cur; simpl; by rewrite S2).
  assert (∀ h, runs ts2 h ↔ runs ts' h ∧ h ≠ g) as Hruns
    by (intros h; unfold runs; simpl; rewrite S3; set_solver).
  exists tt, ts2. split; [done|]. split.
  { destruct Hi as [I1 I2 I3 I4 I5 I6 I7 I8 I9].
    split; unfold member; rewrite ?Hcur; try done; [by rewrite <-I2, <-S2|..].
    - intros h Hh. apply Hruns. split; [by apply I5|]. by intros ->.
    - intros h [Hh _]%Hruns. by apply I8. }
  exists (Some g). split; [by left|]. split; [|apply H].
  apply guar_own; unfold member; rewrite ?Hcur; try done.
  intros h Hne. rewrite Hruns. split; [done|by intros []].
Qed.

(** Changing the configuration [c] that one has seen to [new], as to one's own group
    [g].  Others may have been faster, and somebody may have completed the change:
    [sc_seen] holds until then, [sc_done] since. *)
Section change.
Context (sck : nat) (g : Tgid) (c new : ShardConfig) (ts : Test).

Record own_change : Prop := {
  oc_gid : Gid1 < g;
  oc_runs : runs ts g;
  oc_le : Num c ≤ Num (cur ts);
  oc_eq : Num c = Num (cur ts) → c = cur ts;
  oc_reach : reachable new;
  oc_named : named new;
  oc_num : Num new = Num c + 1;
  oc_groups h : h ≠ g → is_Some (Groups c !! h) ↔ is_Some (Groups new !! h);
  oc_shards h : h ≠ g → member_with_shard c h → member_with_shard new h
}.
Definition since ts' : Prop :=
  rely (Some g) ts ts' ∨ ∃ ts1, cur ts1 = new ∧ runs ts1 g ∧ rely (Some g) ts1 ts'.

Hypothesis Hoc : own_change.

Lemma since_rely ts1 ts2 : since ts1 → rely (Some g) ts1 ts2 → since ts2.
Proof.
  intros [H|(ts0 & Hc & Hr & H)] H2; [left|right; exists ts0]; [|split_and!; try done]; by etrans.
Qed.

(** The call itself, at any time. *)
Lemma change_since ts' : since ts' → inv ts' →
  let ts2 := mkTest (ChangeConfigTo sck new (t_w ts')) (ngid ts') (t_sck ts') in
  inv ts2 ∧ guar (Some g) ts' ts2 ∧ since ts2.
Proof using CT Hoc.
  destruct Hoc as [Hg Hrg Hle Heq Hre Hna Hnum Hgr Hsh]. intros Hs Hi ts2.
  destruct (Change_current sck (cur ts') new (t_w ts') (iv_fit _ Hi) (iv_current _ Hi))
    as (S1 & S2 & S3).
  assert (∀ h, runs ts2 h ↔ runs ts' h) as Hruns by (intros h; unfold runs; simpl; by rewrite S2).
  assert (runs ts' g) as Hrg'.
  { destruct Hs as [H|(ts0 & _ & Hr0 & H)]; by apply (rl_runs _ _ _ H g eq_refl). }
  destruct S3 as [S3|[S3 S4]].
  - assert (cur ts2 = cur ts') as Hcur by (unfold cur; simpl; rewrite S3; by destruct Hi as [_ ->]).
    assert (rely (Some g) ts' ts2) as Hrel by (split; unfold member; rewrite ?Hcur; try done).
    destruct Hi as [I1 I2 I3 I4 I5 I6 I7 I8 I9]. split_and!.
    + split; unfold member; rewrite ?Hcur; try done; intros h Hh.
      * apply Hruns. by apply I5.
      * by apply I8, Hruns.
    + apply guar_own; unfold member; rewrite ?Hcur; try done.
    + by eapply since_rely.
  - assert (cur ts2 = new) as Hcur by (by apply cur_of).
    assert (c = cur ts') as ->.
    { destruct Hs as [H|(ts0 & Hc0 & _ & H)]; pose proof (rl_num _ _ _ H).
      - rewrite Heq by lia. apply (rl_cur _ _ _ H). rewrite <-Heq; lia.
      - rewrite Hc0 in *. lia. }
    destruct Hi as [I1 I2 I3 I4 I5 I6 I7 I8 I9]. split_and!.
    + split; unfold member; rewrite ?Hcur; try done.
      * intros h Hh. apply Hruns. destruct (decide (h = g)) as [->|Hne]; [done|].
        by apply I5, Hgr.
      * apply Hgr; [lia|done].
      * intros h Hh. destruct (decide (h = g)) as [->|Hne]; [lia|]. by apply I7, Hgr.
      * intros h Hh. by apply I8, Hruns.
    + apply guar_own; unfold member; rewrite ?Hcur; try done; lia.
    + right. exists ts2. split_and!; [done|by apply Hruns|done].
Qed.

Lemma before_since ts' : before (C_change sck new) (Some g) ts ts' → since ts'.
Proof using CT Hoc.
  induction 1 as [ts' H|ts1 x ts2 ts' _ _ IH Hi He Hr]; [by left|]. injection He as _ <-.
  eapply since_rely; [|exact Hr]. by apply change_since.
Qed.
End change.

Lemma rg_change {A} sck g c new (Q : A → option Tgid → Test → Prop) k ts :
  own_change g c new ts →
  (∀ ts', runs ts' g → since g new ts ts' → rg Q (k tt) (Some g) ts') →
  rg Q (P_call (C_change sck new) k) (Some g) ts.
Proof using CT.
  intros Hoc H ts' Hb Hi. apply (before_since _ _ _ _ _ Hoc) in Hb.
  destruct (change_since sck _ _ _ _ Hoc ts' Hb Hi) as (H1 & H2 & H3).
  eexists tt, _. split; [done|]. split; [exact H1|]. exists (Some g). split; [by left|].
  split; [done|]. apply H; [|done].
  destruct H3 as [H3|(ts0 & _ & Hr0 & H3)]; apply (rl_runs _ _ _ H3 g eq_refl); [apply Hoc|done].
Qed.

(** A group that has a shard is in the configuration. *)
Lemma IsMember_iff ts g : inv ts → IsMember g (cur ts) = true ↔ member_with_shard (cur ts) g.
Proof.
  intros Hi. assert (g ∈ Shards (cur ts) → is_Some (Groups (cur ts) !! g)) as Ha.
  { destruct (reachable_inv _ (iv_reach _ Hi)) as [_ _ _ Ha]. apply Ha. intros He.
    pose proof (iv_first _ Hi) as Hm. unfold member in Hm. rewrite He in Hm. by destruct Hm. }
  rewrite load_member. unfold load, member_with_shard. split.
  - intros Hl. assert (g ∈ Shards (cur ts)) as Hin by (apply occ_elem; lia). auto.
  - intros [_ Hin%occ_elem]. lia.
Qed.

Lemma rg_checkMember {A} sck g (Q : A → option Tgid → Test → Prop) (f : bool → prog A) ts :
  (∀ b ts', rely (Some g) ts ts' → (b = true ↔ member_with_shard (cur ts') g) →
    rg Q (f b) (Some g) ts') →
  rg Q (b ← checkMember sck g; f b) (Some g) ts.
Proof using CT.
  intros H. apply rg_query. intros ts' Hr Hi. apply H; [done|]. by apply IsMember_iff.
Qed.

Lemma rg_join {A} sck g (Q : A → option Tgid → Test → Prop) (f : unit → prog A) ts :
  Gid1 < g → runs ts g → ¬ member ts g → (∀ ts', runs ts' g → rg Q (f tt) (Some g) ts') →
  rg Q (x ← join sck g (SrvNames_of g); f x) (Some g) ts.
Proof using CT.
  intros Hg Hrg Hm H. apply rg_query. intros ts' Hr Hi. rewrite Copy_id.
  assert (¬ member ts' g) as Hm' by (by rewrite <-(rl_member _ _ _ Hr g eq_refl)).
  destruct (join_one (cur ts') g (iv_reach _ Hi) (iv_named _ Hi))
    as (new & Hj & Hre & Hna & Hnum & HG & _ & Hsh); [by apply eq_None_not_Some|].
  rewrite Hj. apply (rg_change sck g (cur ts')); [|intros ts2 H2 _; by apply H].
  split; try done; [by apply (rl_runs _ _ _ Hr)|..].
  - intros h Hne. by rewrite HG, lookup_insert_ne.
  - intros h _. apply Hsh.
Qed.

(** Afterwards the group has left, or a shard is still its own. *)
Lemma rg_leave {A} sck g (Q : A → option Tgid → Test → Prop) (f : unit → prog A) ts :
  Gid1 < g → runs ts g → member_with_shard (cur ts) g →
  (∀ ts', ¬ member ts' g ∨ member_with_shard (cur ts') g → rg Q (f tt) (Some g) ts') →
  rg Q (x ← leave sck g; f x) (Some g) ts.
Proof using CT.
  intros Hg Hrg Hm H. apply rg_query. intros ts' Hr Hi. rewrite Copy_id.
  pose proof (rl_shard _ _ _ Hr g eq_refl Hm) as Hm'.
  destruct (leave_one (cur ts') g (iv_reach _ Hi) (iv_named _ Hi) (proj1 Hm'))
    as (new & Hj & Hre & Hna & Hnum & HG & _ & Hsh).
  rewrite Hj. apply (rg_change sck g (cur ts')).
  - split; try done; [by apply (rl_runs _ _ _ Hr)|]. intros h Hne. by rewrite HG, lookup_delete_ne.
  - intros ts2 _ [Hrel|(ts1 & Hc & _ & Hrel)]; apply H; [right|left].
    + by apply (rl_shard _ _ _ Hrel).
    + rewrite <-(rl_member _ _ _ Hrel g eq_refl). unfold member.
      rewrite Hc, HG, lookup_delete_eq. by intros [].
Qed.

(** ** One round of a goroutine

    [joinGroups] on a new group and [leaveGroups] on a member, for one group. *)

Lemma rg_joinGroups sck g (Q : bool → option Tgid → Test → Prop) ts :
  Gid1 < g → ngid ts > g → ¬ runs ts g →
  (∀ b ts', runs ts' g → Q b (Some g) ts') → rg Q (joinGroups sck [g]) (Some g) ts.
Proof using CT.
  intros Hg Hlt Hnr HQ. cbn [joinGroups]. apply rg_start; [done|done|]. intros ts1 Hr1 Hm1.
  apply rg_join; [done..|]. intros ts2 Hr2. apply rg_checkMember. intros b ts3 Hrel3 _.
  assert (runs ts3 g) as Hr3 by (by apply (rl_runs _ _ _ Hrel3)). destruct b; [|by apply HQ].
  apply (rg_act _ (λ ts, pause (t_w ts))); [done|done|intros ts4 Hi4; apply pause_same, Hi4|].
  intros ts4 Hrel4. apply HQ. by apply (rl_runs _ _ _ Hrel4).
Qed.

Lemma rg_leaveGroups sck g (Q : bool → option Tgid → Test → Prop) ts :
  Gid1 < g → runs ts g → member_with_shard (cur ts) g →
  (∀ b ts', Q b (Some g) ts') → rg Q (leaveGroups sck [g]) (Some g) ts.
Proof using CT.
  intros Hg Hr Hm HQ. cbn [leaveGroups]. apply rg_leave; [done..|]. intros ts1 H1.
  apply rg_checkMember. intros b ts2 Hrel2 Hb. destruct b; [by apply HQ|].
  apply rg_exit.
  - rewrite <-(rl_member _ _ _ Hrel2 g eq_refl). destruct H1 as [H1|H1]; [done|].
    apply (rl_shard _ _ _ Hrel2 g eq_refl) in H1. by apply Hb in H1.
  - intros ts3. apply (rg_act _ (λ ts, pause (t_w ts))); [done|done|intros ts4 Hi4; apply pause_same, Hi4|].
    intros ts4 _. apply HQ.
Qed.

Lemma rg_round o ts : rg (λ _ _ _, True) concur_round o ts.
Proof using CT.
  unfold concur_round. apply rg_newGid. intros g ts1 Hg Hn1 Hnr1.
  apply rg_same; [done|]. intros ts2 Hrel2 Hi2.
  pose proof (make_same (t_w ts2) (iv_fit _ Hi2)) as Hmk.
  destruct (makeShardCtrler (t_w ts2)) as [sck w] eqn:Hm. exists sck, (mkTest w (ngid ts2) (t_sck ts2)).
  split; [simpl; by rewrite Hm|]. split; [done|]. split; [done|]. intros _ _ Hrel2'.
  apply (rg_act _ (λ ts, InitController sck (t_w ts)));
    [done|done|intros ts3 Hi3; apply init_same, Hi3|]. intros ts3 Hrel3.
  pose proof (transitivity Hrel2' Hrel3) as Hrel. clear Hrel2 Hi2 Hrel2' Hrel3 Hmk Hm.
  apply rg_bind, rg_joinGroups; [done| |by rewrite <-(rl_runs _ _ _ Hrel g eq_refl)|].
  { pose proof (rl_ngid _ _ _ Hrel). lia. }
  intros _ ts4 Hr4. apply rg_checkMember. intros b ts5 Hrel5 Hb. destruct b; [|done].
  apply rg_bind, rg_leaveGroups; [done|by apply (rl_runs _ _ _ Hrel5)|by apply Hb|done].
Qed.

(** ** All goroutines *)

Record concur_ok (owners : list (option Tgid)) (s : concur W) : Prop := {
  co_inv : inv (cc_test s);
  co_length : length owners = length (cc_gos s);
  co_old i g : owners !! i = Some (Some g) → g < ngid (cc_test s);
  co_distinct i j g : owners !! i = Some (Some g) → owners !! j = Some (Some g) → i = j;
  co_go i p o : cc_gos s !! i = Some (G_run p) → owners !! i = Some o →
    rg (λ _ _ _, True) p o (cc_test s)
}.

Lemma concur_ok_go owners s i go sends :
  concur_ok owners s →
  (∀ p o, go = G_run p → rg (λ _ _ _, True) p o (cc_test s)) →
  concur_ok owners (mkConcur (cc_test s) (<[i := go]> (cc_gos s)) sends).
Proof.
  intros [H1 H2 H3 H4 H5] Hgo. split; try done; simpl; [by rewrite length_insert|].
  intros j p o Hj Ho. destruct (decide (i = j)) as [->|Hne].
  - apply list_lookup_insert_Some in Hj as [(_ & -> & _)|[]]; [by apply Hgo|done].
  - rewrite list_lookup_insert_ne in Hj by done. by eapply H5.
Qed.

(** A call of goroutine [i]. *)
Lemma concur_ok_call {X} owners s i (c : call X) k :
  concur_ok owners s → cc_gos s !! i = Some (G_run (P_call c k)) →
  ∃ x ts2, exec c (cc_test s) = Ret (x, ts2) ∧
    ∃ owners', concur_ok owners' (mkConcur ts2 (<[i := G_run (k x)]> (cc_gos s)) (cc_sends s)).
Proof.
  intros [H1 H2 H3 H4 H5] Hi.
  destruct (lookup_lt_is_Some_2 owners i) as [o Ho].
  { rewrite H2. by eapply lookup_lt_Some. }
  destruct (H5 _ _ _ Hi Ho (cc_test s)) as (x & ts2 & He & Hinv & o' & Ho' & Hg & Hk);
    [by apply before_others|done..|].
  exists x, ts2. split; [done|]. exists (<[i := o']> owners).
  pose proof (exec_ngid c _ _ _ He) as Hle.
  assert (∀ j g, (<[i := o']> owners) !! j = Some (Some g) →
    (j = i ∧ o' = Some g) ∨ (j ≠ i ∧ owners !! j = Some (Some g))) as Hown.
  { intros j g [(-> & -> & _)|[? ?]]%list_lookup_insert_Some; auto. }
  assert (∀ j g, o' = Some g → owners !! j = Some (Some g) → j = i) as Hdis.
  { intros j g Hog Hj. destruct Ho' as [->|[-> _]]; [subst o; by eapply H4|].
    injection Hog as <-. apply H3 in Hj. lia. }
  split; simpl.
  - done.
  - by rewrite !length_insert.
  - intros j g [[-> Hog]|[_ Hj]]%Hown; [|apply H3 in Hj; lia].
    destruct Ho' as [->|[-> ?]]; [subst o; apply H3 in Ho; lia|by simplify_eq].
  - intros j1 j2 g [[-> Hj1]|[? Hj1]]%Hown [[-> Hj2]|[? Hj2]]%Hown; try done.
    + symmetry. by eapply Hdis.
    + by eapply Hdis.
    + by eapply H4.
  - intros j p oj Hj Hoj. destruct (decide (i = j)) as [<-|Hne].
    + apply list_lookup_insert_Some in Hj as [(_ & Hj & _)|[]]; [|done].
      apply list_lookup_insert_Some in Hoj as [(_ & Hoj & _)|[]]; [|done]. by simplify_eq.
    + rewrite list_lookup_insert_ne in Hj by done. rewrite list_lookup_insert_ne in Hoj by done.
      eapply rg_stable; [|by eapply H5]. apply Hg. intros g ->. split; [by eapply H3|].
      intros ->. apply Hne. symmetry. by eapply Hdis.
Qed.

(** The change that goroutine [i] asks for. *)
Lemma concur_ok_recover owners s i sck new k x ts2 :
  concur_ok owners s → cc_gos s !! i = Some (G_run (P_call (C_change sck new) k)) →
  exec (C_change sck new) (cc_test s) = Ret (x, ts2) →
  concur_ok owners (mkConcur ts2 (cc_gos s) (cc_sends s)).
Proof.
  intros [H1 H2 H3 H4 H5] Hi He.
  destruct (lookup_lt_is_Some_2 owners i) as [o Ho].
  { rewrite H2. by eapply lookup_lt_Some. }
  pose proof (H5 _ _ _ Hi Ho) as Hrg.
  destruct (Hrg (cc_test s)) as (x' & ts2' & He' & Hinv & o' & Ho' & Hg & _);
    [by apply before_others|done|].
  rewrite He in He'. injection He' as <- <-.
  assert (ngid ts2 = ngid (cc_test s)) as Hn by (by injection He as _ <-).
  assert (o' = o) as -> by (destruct Ho' as [?|[_ ?]]; [done|lia]).
  split; simpl; [done|done|intros; rewrite Hn; by eapply H3|done|].
  intros j p oj Hj Hoj. destruct (decide (i = j)) as [<-|Hne].
  - simplify_eq. intros ts3 Hb Hi3. apply Hrg; [|done]. eapply before_cons; [|exact Hb].
    by eapply before_change; [done|apply before_others|..].
  - eapply rg_stable; [|by eapply H5]. apply Hg. intros g ->. split; [by eapply H3|].
    intros ->. apply Hne. by eapply H4.
Qed.

Lemma concur_step_ok e s s' owners :
  concur_ok owners s → step e s = Some s' → ∃ owners', concur_ok owners' s'.
Proof using CT.
  intros Hok Hs.
  destruct e as [|i|i|i|i]; simpl in Hs.
  - destruct (cc_sends s); simplify_eq. exists owners. by destruct Hok; split.
  - destruct (cc_gos s !! i) as [[| |]|]; try done. destruct (cc_sends s) as [[|n]|]; simplify_eq.
    exists owners. by apply concur_ok_go.
  - destruct (cc_gos s !! i) as [[| |]|]; simplify_eq. exists owners. apply concur_ok_go; [done|].
    intros p o [= <-]. apply rg_round.
  - destruct (cc_gos s !! i) as [[|[[[]| | |]|X c k]|]|] eqn:Hi; simplify_eq.
    + exists owners. by apply concur_ok_go.
    + destruct (concur_ok_call owners s i c k) as (x & ts2 & He & Hok'); [done..|].
      rewrite He in Hs. by simplify_eq.
  - destruct (cc_gos s !! i) as [[|[?|X [] k]|]|] eqn:Hi; try done.
    injection Hs as <-. exists owners. by eapply concur_ok_recover.
Qed.

Lemma concur_run_ok l : ∀ s s' owners,
  concur_ok owners s → run l s = Some s' → ∃ owners', concur_ok owners' s'.
Proof using CT.
  induction l as [|e l IH]; intros s s' owners Hok; simpl; [intros [= ->]; by exists owners|].
  destruct (step e s) as [s1|] eqn:He; [|done]. intros Hr.
  destruct (concur_step_ok e s s1 owners) as [o1 Hok1]; [done..|]. by eapply IH.
Qed.

Lemma concur_ok_start ts : inv ts → concur_ok (replicate NCTRL None) (concurCtrler ts).
Proof.
  intros Hi. split; [done|done|..].
  - intros i g H. by apply lookup_replicate in H as [? _].
  - intros i j g H. by apply lookup_replicate in H as [? _].
  - intros i p o H. by apply lookup_replicate in H as [? _].
Qed.

(** No goroutine has ended the process. *)
Lemma concur_not_failed owners s go : concur_ok owners s → go ∈ cc_gos s → failed go = false.
Proof.
  intros Hok [i Hi]%list_elem_of_lookup. destruct go as [|p|]; try done.
  destruct (lookup_lt_is_Some_2 owners i) as [o Ho].
  { rewrite (co_length _ _ Hok). by eapply lookup_lt_Some. }
  pose proof (co_go _ _ Hok _ _ _ Hi Ho) as H. by destruct p as [[]|].
Qed.

(** As many goroutines are left as the test still has to stop. *)
Definition left (go : goroutine) : bool := match go with G_over => false | _ => true end.
Definition sends_ok (s : concur W) : Prop :=
  length (filter (λ go, left go = true) (cc_gos s)) = default (length (cc_gos s)) (cc_sends s).
(** What [setupKVService] leaves. *)
Lemma setup_inv w :
  fit w → current w = None → running w = ∅ →
  wp (alone setupKVService) (λ gid ts, gid = Gid1 ∧ ngid ts = 2 ∧ inv ts) (MakeTest w).
Proof.
  intros Hf Hc Hr. eapply wp_mono; [by apply setup_wp|].
  intros gid ts (-> & Hn & _ & Hrun & c & [R1 R2 R3 R4] & _ & HG). split; [done|]. split; [done|].
  rewrite Hr, union_empty_r_L in Hrun. apply cur_of in R2 as Hcur.
  assert (∀ g, member ts g ↔ g = Gid1) as Hm.
  { intros g. unfold member. rewrite Hcur, HG. unfold Groups0. rewrite lookup_singleton_is_Some. done. }
  assert (∀ g, runs ts g ↔ g = Gid1) as Hru.
  { intros g. unfold runs. rewrite Hrun. apply elem_of_singleton. }
  split; rewrite ?Hcur; try done.
  - intros g Hg%Hm. by apply Hru.
  - by apply Hm.
  - by intros g ->%Hm.
  - intros g ->%Hru. rewrite Hn. unfold Gid1. lia.
  - rewrite Hn. unfold Gid1. lia.
Qed.

Lemma count_left i go go' (gos : list goroutine) :
  gos !! i = Some go → left go = true →
  length (filter (λ go, left go = true) gos) =
    ((if left go' then 0 else 1) + length (filter (λ go, left go = true) (<[i := go']> gos)))%nat.
Proof.
  revert i. induction gos as [|x gos IH]; intros i Hi Hl; [done|]. destruct i as [|i]; simpl in Hi.
  - injection Hi as ->. cbn [insert list_insert]. rewrite !filter_cons, Hl.
    rewrite decide_True by done. destruct (left go'); case_decide; done.
  - change (<[S i := go']> (x :: gos)) with (x :: <[i := go']> gos).
    rewrite !filter_cons. specialize (IH i Hi Hl).
    case_decide; simpl; lia.
Qed.

Lemma step_sends_ok e s s' : step e s = Some s' → sends_ok s → sends_ok s'.
Proof.
  unfold sends_ok. assert (∀ i go go' gos, gos !! i = Some go → left go = true → left go' = true →
    length (filter (λ go, left go = true) (<[i := go']> gos)) =
    length (filter (λ go, left go = true) gos)) as Hsame.
  { intros i go go' gos H1 H2 H3. rewrite (count_left i go go' gos H1 H2). by rewrite H3. }
  destruct e as [|i|i|i|i]; simpl; intros Hs H.
  - by destruct (cc_sends s) eqn:Hc; simplify_eq/=.
  - destruct (cc_gos s !! i) as [[| |]|] eqn:Hi; try done.
    destruct (cc_sends s) as [[|n]|]; simplify_eq/=.
    rewrite (count_left i G_select G_over) in H by done. simpl in H. lia.
  - destruct (cc_gos s !! i) as [[| |]|] eqn:Hi; simplify_eq/=.
    by rewrite length_insert, (Hsame i G_select).
  - destruct (cc_gos s !! i) as [[|[[a| | |]|X c k]|]|] eqn:Hi; try done.
    + simplify_eq/=. by rewrite length_insert, (Hsame i (G_run (P_end (Ret a)))).
    + destruct (exec c (cc_test s)) as [[x ts]| | |]; simplify_eq/=;
        by rewrite length_insert, (Hsame i (G_run (P_call c k))).
  - by destruct (cc_gos s !! i) as [[|[?|X [] k]|]|]; simplify_eq/=.
Qed.

Lemma run_sends_ok l : ∀ s s', run l s = Some s' → sends_ok s → sends_ok s'.
Proof.
  induction l as [|e l IH]; intros s s'; simpl; [by intros [= ->]|].
  destruct (step e s) as [s1|] eqn:He; [|done]. intros Hr Hs.
  eapply IH; [exact Hr|]. by eapply step_sends_ok.
Qed.

(** C24: controllers that fight leave the service whole.  However the calls of the
    goroutines interleave, even if their changes supersede each other, and even if
    a change is made before the call that asks for it returns, as it is when
    the [InitController] of another controller recovers it: no goroutine ends the
    process, so nobody
    joins a group twice or removes one that is not there; the configuration stays
    one that joins and leaves lead to; every group in it, hence every group that
    has a shard, runs; and once the test has sent on [ch] as often as there are
    goroutines, all have returned. *)
Theorem concurCtrler_safe (ts : Test) (l : list event) (s : concur W) :
  inv ts → run l (concurCtrler ts) = Some s →
  inv (cc_test s) ∧
  (∀ g, g ∈ Shards (cur (cc_test s)) → runs (cc_test s) g) ∧
  (∀ go, go ∈ cc_gos s → failed go = false) ∧
  (cc_sends s = Some 0%nat → ∀ go, go ∈ cc_gos s → go = G_over).
Proof using CT.
  intros Hi Hr.
  destruct (concur_run_ok l _ s _ (concur_ok_start ts Hi) Hr) as (owners & Hok).
  pose proof (co_inv _ _ Hok) as Hi'. split_and!; [done|..].
  - intros g Hg. apply (iv_runs _ Hi'). destruct (reachable_inv _ (iv_reach _ Hi')) as [_ _ _ Ha].
    apply Ha; [|done]. intros He. pose proof (iv_first _ Hi') as Hm. unfold member in Hm.
    rewrite He in Hm. by destruct Hm.
  - intros go. by apply concur_not_failed with owners.
  - intros H0 go Hgo. assert (sends_ok s) as Hs by (by eapply run_sends_ok).
    unfold sends_ok in Hs. rewrite H0 in Hs. apply length_zero_iff_nil in Hs.
    destruct (left go) eqn:Hl; [|by destruct go]. exfalso.
    apply (not_elem_of_nil go). rewrite <-Hs. by apply list_elem_of_filter.
Qed.
End rely_guarantee.

(** ** Two goroutines on a plain controller *)
Section demo.
Definition plain_start : Test plain :=
  match alone setupKVService (MakeTest (mkPlain None ∅ 0)) with
  | Ret (_, ts) => ts
  | _ => MakeTest (mkPlain None ∅ 0)
  end.

Lemma plain_start_inv : inv (fit := λ _, True) plain_start.
Proof.
  pose proof (setup_inv (fit := λ _, True) (mkPlain None ∅ 0) I eq_refl eq_refl) as H.
  unfold wp in H. unfold plain_start. destruct (alone _ _) as [[g ts]| | |]; [|done..]. apply H.
Qed.

(** Both join a group at the same time; the first is faster, and the second gives
    up, is stopped and returns. *)
Definition two_rounds : list event :=
  [E_default 0; E_default 1] ++ concat (replicate 9 [E_step 0; E_step 1]) ++ [E_stop; E_recv 1].

Definition after (l : list event) : concur plain :=
  default (concurCtrler plain_start) (run l (concurCtrler plain_start)).

(** The change of one is completed before its call returns; the other, whose
    controller did that, finds its group, and its own call then does nothing. *)
Definition recovered : list event :=
  E_default 0 :: replicate 5 (E_step 0) ++ [E_default 1; E_step 1; E_step 1; E_recover 0; E_step 1].
Example change_recovered :
  match cc_gos (after recovered) !! 0%nat with
  | Some (G_run (P_call (C_change _ _) _)) =>
      IsMember 2 (cur (cc_test (after recovered))) = true ∧
      cur (cc_test (after (recovered ++ [E_step 0]))) = cur (cc_test (after recovered))
  | _ => False
  end.
Proof. by vm_compute. Qed.

(** Group 2 is a member, group 3, which was started, is not. *)
Lemma concurCtrler_safe_witness :
  (∀ g, g ∈ Shards (cur (cc_test (after two_rounds))) → runs (cc_test (after two_rounds)) g) ∧
  IsMember 2 (cur (cc_test (after two_rounds))) = true ∧
  IsMember 3 (cur (cc_test (after two_rounds))) = false ∧
  cc_sends (after two_rounds) = Some 3%nat.
Proof.
  destruct (run two_rounds (concurCtrler plain_start)) as [s|] eqn:Hr.
  - assert (after two_rounds = s) as Hs by (unfold after; rewrite Hr; reflexivity).
    destruct (concurCtrler_safe (fit := λ _, True) plain_start two_rounds s plain_start_inv Hr)
      as (_ & H & _).
    rewrite <-Hs in H. split; [exact H|]. split; [vm_compute; reflexivity|].
    split; vm_compute; reflexivity.
  - exfalso. assert (is_Some (run two_rounds (concurCtrler plain_start))) as [x Hx].
    + apply (bool_decide_unpack (is_Some _)). vm_compute. exact I.
    + rewrite Hr in Hx. discriminate Hx.
Defined.
End demo.
