(* ===== verification/Recovery.v ===== *)
(** * A controller that is cut off: [partitionCtrler] of [shardkv1/test.go]

    A goroutine adds and removes groups.  In the middle of this the test cuts its
    controller off, starts another one, which is to complete what the first has
    begun, and checks that it did. *)

From S2P Require Import KvTest.
From S2P Require Export ShardKv.
#[local] Set Default Proof Using "Type".
Local Open Scope Z_scope.

(** What the test does with groups and with the clients of controllers.  The part of
    the test that [kvtest] keeps is also in [W]: it is taken out for [CheckGet] on the
    clerk [ck] and put back. *)
Class TesterCalls (W : Type) := {
  ck : IKVClerk W;
  kv_clock : nat → Z;
  kv_test : W → @KvTest.Test W;
  kv_world : @KvTest.Test W → W;
  ShutdownGroup : Tgid → W → W;
  StartGroup : Tgid → W → W;
  DisconnectClnt : nat → W → W;
  ConnectClnt : nat → W → W;
  DeleteClnt : nat → W → W
}.

(** [JOIN] and [LEAVE]; the variable [state] starts with neither. *)
Inductive dir := JOIN | LEAVE.
#[export] Instance dir_eq_dec : EqDecision dir.
Proof. solve_decision. Defined.

Section recovery.
Context {W : Type} `{SC : !ShardCtrl W} `{TC : !TesterCalls W}.
Abbreviation Test := (Test W).

(** ** State *)

(** The goroutine: about to draw an identifier; to set [state]; in [joinGroups] and
    [checkMember]; a member; in [leaveGroups]; returned. *)
Inductive worker :=
| Q_new | Q_drawn | Q_join (p : prog bool) | Q_joined | Q_leave (p : prog bool) | Q_over.

(** The test, from the sleep after it started the goroutine on; [sck0] is the
    number of its second controller and client. *)
Inductive mpc :=
| M_work | M_down | M_cut | M_up
| M_made (sck0 : nat) | M_init (sck0 : nat)
| M_num (sck0 : nat) (cfg : ShardConfig) | M_present (sck0 : nat) (cfg : ShardConfig) (what : string)
| M_judge (sck0 : nat) (present : bool) (what : string) | M_clean (sck0 : nat) (present : bool)
| M_leave (sck0 : nat) (p : prog bool) | M_back (sck0 : nat)
| M_gets (sck0 : nat) (l : list (string * string))
| M_end | M_failed (why : string).

(** [r_ngid] and [r_state] are the variables that both use. *)
Record recovery := mkRecovery {
  r_test : Test;
  r_ngid : Tgid;
  r_state : option dir;
  r_cut : bool;
  r_work : worker;
  r_main : mpc
}.

(** Before the goroutine: the controller and the number of the configuration. *)
Definition partition_start : prog (nat * Z) :=
  sck ← do C_make;
  _ ← do (C_init sck);
  s ← ShardCtrler;
  cfg ← do (C_query s);
  mret (sck, Num cfg).

(** The arguments: the group to shut down, the keys and their values, [ts.partition],
    and what [partition_start] gave. *)
Context (gid : Tgid) (ka va : list string) (partition : bool) (sck : nat) (num : Z).

Definition partitionCtrler (ts : Test) : recovery := mkRecovery ts 0 None false Q_new M_work.

Definition set_work (q : worker) (s : recovery) : recovery :=
  mkRecovery (r_test s) (r_ngid s) (r_state s) (r_cut s) q (r_main s).
Definition set_main (m : mpc) (s : recovery) : recovery :=
  mkRecovery (r_test s) (r_ngid s) (r_state s) (r_cut s) (r_work s) m.
Definition set_test (ts : Test) (s : recovery) : recovery :=
  mkRecovery ts (r_ngid s) (r_state s) (r_cut s) (r_work s) (r_main s).

(** Calls of the controller that was cut off do not come back. *)
Definition of_controller {X} (c : call X) : bool :=
  match c with C_init _ | C_config _ _ | C_query _ | C_change _ _ => true | _ => false end.

(** ** Steps of the goroutine *)

Definition work_call (to : prog bool → worker) (p : prog bool) (s : recovery) : option recovery :=
  match p with
  | P_call c k =>
      if r_cut s && of_controller c then None
      else match exec c (r_test s) with
           | Ret (x, ts) => Some (set_work (to (k x)) (set_test ts s))
           | Fatal why | Panic why => Some (set_main (M_failed why) s)
           | Diverge => None
           end
  | P_end (Fatal why) | P_end (Panic why) => Some (set_main (M_failed why) s)
  | P_end _ => None
  end.

Definition work_step (s : recovery) : option recovery :=
  match r_work s with
  | Q_new =>
      match exec C_newGid (r_test s) with
      | Ret (g, ts) => Some (mkRecovery ts g (r_state s) (r_cut s) Q_drawn (r_main s))
      | _ => None
      end
  | Q_drawn =>
      let p := _ ← joinGroups sck [r_ngid s]; checkMember sck (r_ngid s) in
      Some (mkRecovery (r_test s) (r_ngid s) (Some JOIN) (r_cut s) (Q_join p) (r_main s))
  | Q_join (P_end (Ret ok)) => Some (set_work (if (ok : bool) then Q_joined else Q_over) s)
  | Q_join p => work_call Q_join p s
  | Q_joined =>
      Some (mkRecovery (r_test s) (r_ngid s) (Some LEAVE) (r_cut s)
              (Q_leave (leaveGroups sck [r_ngid s])) (r_main s))
  | Q_leave (P_end (Ret _)) => Some (set_work Q_new s)
  | Q_leave p => work_call Q_leave p s
  | Q_over => None
  end.

(** ** Steps of the test *)

Definition upd (f : W → W) (ts : Test) : Test := mkTest (f (t_w ts)) (ngid ts) (t_sck ts).
Definition tester_call (f : W → W) (m : mpc) (s : recovery) : recovery :=
  set_main m (set_test (upd f (r_test s)) s).
Definition set_cut (b : bool) (s : recovery) : recovery :=
  mkRecovery (r_test s) (r_ngid s) (r_state s) b (r_work s) (r_main s).

(** A call of the test on a controller. *)
Definition main_call {X} (c : call X) (m : X → mpc) (s : recovery) : option recovery :=
  match exec c (r_test s) with
  | Ret (x, ts) => Some (set_main (m x) (set_test ts s))
  | Fatal why | Panic why => Some (set_main (M_failed why) s)
  | Diverge => None
  end.

Definition main_step (s : recovery) : option recovery :=
  match r_main s with
  | M_work => Some (tester_call (ShutdownGroup gid) M_down s)
  | M_down => Some (set_cut true (tester_call (DisconnectClnt sck) M_cut s))
  | M_cut => Some (tester_call (StartGroup gid) M_up s)
  | M_up => main_call C_make M_made s
  | M_made sck0 => main_call (C_init sck0) (λ _, M_init sck0) s
  | M_init sck0 => main_call (C_query sck0) (M_num sck0) s
  | M_num sck0 cfg =>
      let what := if decide (r_state s = Some LEAVE) then "leave" else "join" in
      Some (set_main (if decide (Num cfg ≤ num)
                      then M_failed ("didn't recover; expected " +:+ Itoa num +:+ " > " +:+ Itoa (Num cfg))
                      else M_present sck0 cfg what) s)
  | M_present sck0 cfg what => Some (set_main (M_judge sck0 (IsMember (r_ngid s) cfg) what) s)
  | M_judge sck0 present what =>
      let wrong := (bool_decide (r_state s = Some JOIN) && negb present) ||
                   (bool_decide (r_state s = Some LEAVE) && present) in
      Some (set_main (if wrong
                      then M_failed ("didn't recover " +:+ Itoa (r_ngid s) +:+ " correctly after " +:+ what)
                      else M_clean sck0 present) s)
  | M_clean sck0 present =>
      Some (set_main (if bool_decide (r_state s = Some JOIN) && present
                      then M_leave sck0 (leaveGroups sck0 [r_ngid s]) else M_back sck0) s)
  | M_leave sck0 (P_end (Ret _)) => Some (set_main (M_back sck0) s)
  | M_leave sck0 (P_end (Fatal why)) | M_leave sck0 (P_end (Panic why)) =>
      Some (set_main (M_failed why) s)
  | M_leave sck0 (P_end Diverge) => None
  | M_leave sck0 (P_call c k) => main_call c (λ x, M_leave sck0 (k x)) s
  | M_back sck0 =>
      let m := M_gets sck0 (zip ka va) in
      Some (if partition then set_cut false (tester_call (ConnectClnt sck) m s) else set_main m s)
  | M_gets sck0 ((k, v) :: l) =>
      match CheckGet (CK := ck) kv_clock k v 1 (kv_test (t_w (r_test s))) with
      | Ret (_, kt) => Some (tester_call (λ _, kv_world kt) (M_gets sck0 l) s)
      | Fatal why | Panic why => Some (set_main (M_failed why) s)
      | Diverge => None
      end
  | M_gets sck0 [] => Some (tester_call (λ w, DeleteClnt sck0 (DeleteClnt sck w)) M_end s)
  | M_end | M_failed _ => None
  end.

(** The change that the goroutine has asked for, if it is waiting for one. *)
Definition pending (s : recovery) : option ShardConfig :=
  match r_work s with
  | Q_join (P_call (C_change _ new) _) | Q_leave (P_call (C_change _ new) _) => Some new
  | _ => None
  end.

Inductive event :=
| R_work               (* the goroutine *)
| R_main               (* the test *)
| R_recover.           (* [InitController] completes the change that is pending *)

Definition step (e : event) (s : recovery) : option recovery :=
  match e with
  | R_work => match r_main s with M_failed _ => None | _ => work_step s end
  | R_main => main_step s
  | R_recover =>
      match r_main s, pending s with
      | M_made sck0, Some new =>
          ts ← match exec (C_change sck new) (r_test s) with Ret (_, ts) => Some ts | _ => None end;
          main_call (C_init sck0) (λ _, M_init sck0) (set_test ts s)
      | _, _ => None
      end
  end.

Fixpoint run (l : list event) (s : recovery) : option recovery :=
  match l with
  | [] => Some s
  | e :: l => s ← step e s; run l s
  end.
End recovery.
Arguments recovery : clear implicits.

(** What these calls of the tester leave alone. *)
Class TesterLaws (W : Type) `{!ShardCtrl W} `{!TesterCalls W} (fit : W → Prop)
    `{!Controllers W fit} := {
  shutdown_keeps g w : fit w → fit (ShutdownGroup g w) ∧ current (ShutdownGroup g w) = current w;
  startgroup_keeps g w : fit w → fit (StartGroup g w) ∧ current (StartGroup g w) = current w;
  disconnect_keeps c w : fit w → fit (DisconnectClnt c w) ∧ current (DisconnectClnt c w) = current w;
  connect_keeps c w : fit w → fit (ConnectClnt c w) ∧ current (ConnectClnt c w) = current w;
  delete_keeps c w : fit w → fit (DeleteClnt c w) ∧ current (DeleteClnt c w) = current w
}.

(** ** A program whose controller nobody disturbs *)

Section solo.
Context {W : Type} `{SC : !ShardCtrl W} {fit : W → Prop} `{CS : !Controllers W fit}
  `{CT : !Controller W fit}.
Abbreviation Test := (Test W).

(** The configuration of a test. *)
Definition holds (ts : Test) (c : ShardConfig) : Prop := fit (t_w ts) ∧ current (t_w ts) = Some c.

(** Run from configuration [c], the program returns with [Q], and every change that
    it asks for satisfies [J]. *)
Fixpoint solo {A} (J : ShardConfig → ShardConfig → Prop) (Q : A → ShardConfig → Prop)
    (p : prog A) (c : ShardConfig) : Prop :=
  match p with
  | P_end (Ret a) => Q a c
  | P_end _ => False
  | @P_call _ X cl k =>
      match cl in call X return (X → prog A) → Prop with
      | C_query _ => λ k, solo J Q (k c) c
      | C_change _ new => λ k, J c new ∧ Num new = Num c + 1 ∧ solo J Q (k tt) new
      | C_start _ _ | C_exit _ | C_pause | C_init _ => λ k, solo J Q (k tt) c
      | _ => λ _, False
      end k
  end.

Lemma solo_bind {A B} J (Q : B → ShardConfig → Prop) (f : A → prog B) (p : prog A) : ∀ c,
  solo J (λ a c, solo J Q (f a) c) p c → solo J Q (p ≫= f) c.
Proof.
  induction p as [[a|why|why|]|X cl k IH]; intros c H; try done.
  revert k IH H. destruct cl; simpl; intros k IH H; try done; try (by apply IH).
  destruct H as (? & ? & ?). split; [done|]. split; [done|]. by apply IH.
Qed.

(** What a call of such a program does. *)
Lemma solo_exec {A X} J (Q : A → ShardConfig → Prop) (cl : call X) (k : X → prog A) c ts :
  solo J Q (P_call cl k) c → holds ts c →
  ∃ x ts2 c2, exec cl ts = Ret (x, ts2) ∧ holds ts2 c2 ∧ ngid ts2 = ngid ts ∧ Num c ≤ Num c2 ∧
    solo J Q (k x) c2.
Proof using CT.
  intros H [Hf Hc]. unfold holds. revert k H. destruct cl; simpl; intros k H; try done.
  - eexists tt, _, c. split; [done|]. simpl.
    destruct (init_same sck (t_w ts) Hf) as (? & -> & _). auto using Z.le_refl.
  - rewrite (Query_current sck _ Hf), Hc. exists c, ts, c. auto using Z.le_refl.
  - destruct H as (_ & Hn & H). eexists tt, _, new. split; [done|]. simpl.
    destruct (Change_current sck c new (t_w ts) Hf Hc) as (? & _).
    rewrite (Change_done sck c new (t_w ts) Hf Hc Hn). split_and!; [done..|lia|done].
  - eexists tt, _, c. split; [done|]. simpl.
    destruct (start_current gid n (t_w ts) Hf) as (? & -> & _). auto using Z.le_refl.
  - eexists tt, _, c. split; [done|]. simpl.
    destruct (exit_current gid (t_w ts) Hf) as (? & -> & _). auto using Z.le_refl.
  - eexists tt, _, c. split; [done|]. simpl.
    destruct (pause_same (t_w ts) Hf) as (? & -> & _). auto using Z.le_refl.
Qed.

(** *** Joining and leaving, from groups [G0] on *)
Context (G0 : gmap Tgid (list string)) (n0 : Z).

Record at_rest (c : ShardConfig) : Prop := {
  ar_reach : reachable c;
  ar_named : named c;
  ar_groups : Groups c = G0;
  ar_num : n0 ≤ Num c
}.
Record joined_by (g : Tgid) (c : ShardConfig) : Prop := {
  jb_reach : reachable c;
  jb_named : named c;
  jb_groups : Groups c = <[g := SrvNames_of g]> G0;
  jb_num : n0 < Num c;
  jb_member : IsMember g c = true
}.
Definition is_fresh_gid (g : Tgid) : Prop := 0 < g ∧ G0 !! g = None.

Definition Jjoin (g : Tgid) (c new : ShardConfig) : Prop := at_rest c ∧ joined_by g new.
Definition Jleave (g : Tgid) (c new : ShardConfig) : Prop :=
  joined_by g c ∧ at_rest new ∧ IsMember g new = false.

Lemma at_rest_not_member g c :
  G0 ≠ ∅ → is_fresh_gid g → at_rest c → IsMember g c = false.
Proof.
  intros Hne [Hg0 Hg] [Hr _ HG _]. apply not_true_is_false. intros Hm%load_member.
  unfold load in Hm. assert (g ∈ Shards c) as Hin by (apply occ_elem; lia).
  destruct (reachable_inv c Hr) as [_ _ _ Ha]. destruct Ha as [Ha _]; [by rewrite HG|].
  destruct (Ha g Hin) as [l Hl]. congruence.
Qed.

Lemma solo_join sck g c :
  (size G0 < NShards)%nat → is_fresh_gid g → at_rest c →
  solo (Jjoin g) (λ b c', b = true ∧ joined_by g c')
    (_ ← joinGroups sck [g]; checkMember sck g) c.
Proof.
  intros Hsz [Hg0 Hg] Hc. pose proof Hc as [Hr Hn HG Hnum].
  destruct (join_one c g Hr Hn) as (new & Hj & Hr' & Hn' & Hnum' & HG' & Hm & _); [by rewrite HG|].
  assert (IsMember g new = true) as Hmem by (apply Hm; by rewrite HG).
  assert (joined_by g new) as Hjb by (split; [done|done|by rewrite HG', HG|lia|done]).
  apply solo_bind. cbn [joinGroups]. simpl. rewrite Copy_id, Hj. simpl.
  split; [done|]. split; [done|]. rewrite Hmem. simpl. by rewrite Hmem.
Qed.

Lemma solo_leave sck g c :
  G0 ≠ ∅ → is_fresh_gid g → joined_by g c →
  solo (Jleave g) (λ _ c', at_rest c') (leaveGroups sck [g]) c.
Proof.
  intros Hne [Hg0 Hg] Hc. pose proof Hc as [Hr Hn HG Hnum Hm].
  destruct (leave_one c g Hr Hn) as (new & Hj & Hr' & Hn' & Hnum' & HG' & Hm' & _).
  { rewrite HG, lookup_insert_eq. by eexists. }
  specialize (Hm' ltac:(lia)).
  assert (at_rest new) as Hrest.
  { split; [done|done| |lia]. by rewrite HG', HG, delete_insert_id by done. }
  cbn [leaveGroups]. simpl. rewrite Copy_id, Hj. simpl.
  split; [done|]. split; [done|]. by rewrite Hm'.
Qed.
End solo.

(** ** The test *)

Section verdict.
Context {W : Type} `{SC : !ShardCtrl W} `{TC : !TesterCalls W} {fit : W → Prop}
  `{CS : !Controllers W fit} `{CT : !Controller W fit} `{TL : !TesterLaws W fit}.
Abbreviation Test := (Test W).
Context (gid : Tgid) (ka va : list string) (partition : bool) (sck : nat).
(** The groups and the number of the configuration at the start. *)
Context (G0 : gmap Tgid (list string)) (num : Z).
Context (G0_nonempty : G0 ≠ ∅) (G0_size : (size G0 < NShards)%nat).
Abbreviation at_rest := (at_rest G0 num).
Abbreviation joined_by := (joined_by G0 num).
Abbreviation is_fresh_gid := (is_fresh_gid G0).
Abbreviation step := (step gid ka va partition sck num).
Abbreviation run := (run gid ka va partition sck num).
Abbreviation main_step := (main_step gid ka va partition sck num).
Implicit Types (ts : Test) (s : recovery W).

(** Where the goroutine is in configuration [c]. *)
Definition worker_ok (s : recovery W) (c : ShardConfig) : Prop :=
  match r_work s with
  | Q_new => at_rest c ∧ r_state s ≠ Some JOIN
  | Q_drawn => at_rest c ∧ r_state s ≠ Some JOIN ∧ is_fresh_gid (r_ngid s)
  | Q_join p => r_state s = Some JOIN ∧ is_fresh_gid (r_ngid s) ∧
      solo (Jjoin G0 num (r_ngid s)) (λ b c, b = true ∧ joined_by (r_ngid s) c) p c
  | Q_joined => r_state s = Some JOIN ∧ is_fresh_gid (r_ngid s) ∧ joined_by (r_ngid s) c
  | Q_leave p => r_state s = Some LEAVE ∧ is_fresh_gid (r_ngid s) ∧
      solo (Jleave G0 num (r_ngid s)) (λ _ c, at_rest c) p c
  | Q_over => False
  end.

(** The test before its second controller has looked for something to complete. *)
Definition early (s : recovery W) : Prop :=
  match r_main s with
  | M_work | M_down => r_cut s = false
  | M_cut | M_up | M_made _ => r_cut s = true
  | _ => False
  end.
Definition is_early (m : mpc) : bool :=
  match m with M_work | M_down | M_cut | M_up | M_made _ => true | _ => false end.

Record recovery_ok (s : recovery W) (c : ShardConfig) : Prop := {
  ro_holds : holds (fit := fit) (r_test s) c;
  ro_num : num ≤ Num c;
  ro_ids g : ngid (r_test s) ≤ g → is_fresh_gid g;
  ro_work : worker_ok s c;
  ro_early : early s
}.

Lemma work_call_ok {Q : bool → ShardConfig → Prop} J to p s s' c :
  recovery_ok s c → solo J Q p c → work_call to p s = Some s' →
  is_early (r_main s') = true →
  (∀ p' ts c', solo J Q p' c' → worker_ok (set_work (to p') (set_test ts s)) c') →
  ∃ c', recovery_ok s' c'.
Proof using CT.
  clear G0_nonempty G0_size TL. intros [H1 H2 H3 H4 H5] Hp Hs Hm Hto. unfold work_call in Hs. destruct p as [[| | |]|X cl k]; try done.
  destruct (r_cut s && of_controller cl); [done|].
  destruct (solo_exec J Q cl k c (r_test s) Hp H1) as (x & ts2 & c2 & He & Hh & Hng & Hle & Hk).
  rewrite He in Hs. injection Hs as <-. exists c2.
  split; simpl; [done|lia|by rewrite Hng|by apply Hto|done].
Qed.

Lemma work_step_ok s s' c :
  recovery_ok s c → work_step sck s = Some s' → is_early (r_main s') = true →
  ∃ c', recovery_ok s' c'.
Proof using CT G0_nonempty G0_size.
  clear TL. intros Hok Hs Hm. pose proof Hok as [H1 H2 H3 H4 H5]. unfold work_step in Hs. unfold worker_ok in H4.
  destruct (r_work s) as [| |p| |p|] eqn:Hw; try done.
  - injection Hs as <-. destruct H4 as [Hr Hst]. exists c. split; simpl; try done.
    + intros g Hg. apply H3. lia.
    + split; [done|]. split; [done|]. apply H3. simpl. lia.
  - injection Hs as <-. destruct H4 as (Hr & Hst & Hf). exists c. split; simpl; try done.
    split; [done|]. split; [done|]. by apply solo_join.
  - destruct H4 as (Hst & Hf & Hp). destruct p as [[b| | |]|X cl k].
    + injection Hs as <-. destruct Hp as [-> Hj]. exists c. by split.
    + simpl in Hs. by injection Hs as <-.
    + simpl in Hs. by injection Hs as <-.
    + done.
    + eapply (work_call_ok _ Q_join _ s s' c); [done|exact Hp|exact Hs|done|].
      intros p' ts c' Hp'. by split_and!.
  - injection Hs as <-. destruct H4 as (Hst & Hf & Hj). exists c. split; simpl; try done.
    split; [done|]. split; [done|]. by apply solo_leave.
  - destruct H4 as (Hst & Hf & Hp). destruct p as [[b| | |]|X cl k].
    + injection Hs as <-. exists c. split; try done. split; [done|]. simpl. by rewrite Hst.
    + simpl in Hs. by injection Hs as <-.
    + simpl in Hs. by injection Hs as <-.
    + done.
    + eapply (work_call_ok _ Q_leave _ s s' c); [done|exact Hp|exact Hs|done|].
      intros p' ts c' Hp'. by split_and!.
Qed.

(** A call on the tester. *)
Lemma holds_upd (f : W → W) ts c :
  (∀ w, fit w → fit (f w) ∧ current (f w) = current w) →
  holds (fit := fit) ts c → holds (fit := fit) (upd f ts) c.
Proof. intros Hf [H1 H2]. destruct (Hf (t_w ts) H1) as [H3 H4]. split; simpl; [done|by rewrite H4]. Qed.

Lemma make_exec ts c :
  holds (fit := fit) ts c →
  ∃ sck0 ts', exec C_make ts = Ret (sck0, ts') ∧ holds (fit := fit) ts' c ∧ ngid ts' = ngid ts.
Proof.
  clear G0_nonempty G0_size TL CT. intros [H1 H2]. simpl.
  destruct (make_same (t_w ts) H1) as (H3 & H4 & _). destruct (makeShardCtrler (t_w ts)) as [q w].
  eexists q, _. split; [done|]. split; [|done]. split; simpl in *; [done|by rewrite H4].
Qed.

Lemma test_step_ok s s' c :
  recovery_ok s c → main_step s = Some s' → is_early (r_main s') = true → recovery_ok s' c.
Proof using TL.
  clear G0_nonempty G0_size CT. intros [H1 H2 H3 H4 H5] Hs Hm.
  unfold Recovery.main_step, early in *. destruct (r_main s) eqn:Hms; try done.
  - injection Hs as <-. split; try done. apply holds_upd; [apply shutdown_keeps|done].
  - injection Hs as <-. split; try done. apply holds_upd; [apply disconnect_keeps|done].
  - injection Hs as <-. split; try done. apply holds_upd; [apply startgroup_keeps|done].
  - destruct (make_exec _ _ H1) as (q & ts' & He & Hh & Hn). unfold main_call in Hs.
    rewrite He in Hs. injection Hs as <-. split; try done. simpl. by rewrite Hn.
  - unfold main_call in Hs.
    destruct (exec (C_init sck0) (r_test s)) as [[[] ts']|?|?|]; simplify_eq/=.
Qed.

Lemma work_step_main s s' :
  work_step sck s = Some s' → r_main s' = r_main s ∨ is_early (r_main s') = false.
Proof.
  clear G0_nonempty G0_size TL CT. assert (∀ to p, work_call to p s = Some s' →
    r_main s' = r_main s ∨ is_early (r_main s') = false) as Hcall.
  { intros to [[| | |]|X cl k] Hs; simpl in Hs; simplify_eq/=; auto.
    destruct (r_cut s && of_controller cl); [done|].
    destruct (exec cl (r_test s)) as [[x ts]| | |]; simplify_eq/=; auto. }
  unfold work_step. intros Hs. destruct (r_work s) as [| |p| |p|];
    try (destruct p as [[b| | |]|X cl k]; [|by eapply Hcall..]); simplify_eq/=; auto.
Qed.

Lemma step_early e s s' :
  step e s = Some s' → is_early (r_main s') = true → is_early (r_main s) = true.
Proof.
  clear G0_nonempty G0_size TL CT. unfold Recovery.step. intros Hs Hm. destruct e.
  - destruct (r_main s) eqn:Hms; try done; apply work_step_main in Hs; rewrite Hms in Hs;
      destruct Hs as [Hs|Hs]; congruence.
  - unfold Recovery.main_step, main_call in Hs. destruct (r_main s); try done; exfalso;
      repeat (case_match; simplify_eq/=); simplify_eq/=.
  - by destruct (r_main s).
Qed.

Lemma early_run_ok l : ∀ s s' c,
  recovery_ok s c → run l s = Some s' → is_early (r_main s') = true → ∃ c', recovery_ok s' c'.
Proof using CT TL G0_nonempty G0_size.
  induction l as [|e l IH]; intros s s' c Hok; simpl; [intros [= ->]; by exists c|].
  destruct (step e s) as [s1|] eqn:He; [|done]. intros Hr Hm.
  assert (is_early (r_main s1) = true) as Hm1.
  { clear IH He Hok. revert s1 Hr. induction l as [|e' l IH]; intros s1; simpl; [by intros [= ->]|].
    destruct (step e' s1) as [s2|] eqn:He; [|done]. intros Hr%IH. by eapply step_early. }
  assert (∃ c1, recovery_ok s1 c1) as [c1 Hok1]; [|by eapply IH].
  destruct e; simpl in He.
  - eapply work_step_ok; [exact Hok| |done]. by destruct (r_main s).
  - exists c. by eapply test_step_ok.
  - destruct (r_main s); try done. destruct (pending s); [|done].
    unfold main_call in He. destruct (exec _ _) as [[[] ts]| | |]; try done; simpl in He;
      by injection He as <-.
Qed.

(** ** The verdict *)

(** The test alone takes [s] to [s']. *)
Definition mains s s' : Prop := ∃ k, run (replicate k R_main) s = Some s'.

Lemma mains_refl s : mains s s.
Proof. clear G0_nonempty G0_size TL CT. by exists 0%nat. Qed.
Lemma mains_step s s1 s' : main_step s = Some s1 → mains s1 s' → mains s s'.
Proof. clear G0_nonempty G0_size TL CT. intros H1 [k Hk]. exists (S k). simpl. by rewrite H1. Qed.

(** [InitController] and [Query]. *)
Lemma init_exec q ts c :
  holds (fit := fit) ts c →
  ∃ ts', exec (C_init q) ts = Ret (tt, ts') ∧ holds (fit := fit) ts' c.
Proof.
  clear G0_nonempty G0_size TL CT. intros [H1 H2]. eexists. split; [done|]. simpl.
  destruct (init_same q (t_w ts) H1) as (H3 & H4 & _). split; simpl; [done|by rewrite H4].
Qed.
Lemma query_exec q ts c :
  holds (fit := fit) ts c → exec (C_query q) ts = Ret (c, ts).
Proof.
  clear G0_nonempty G0_size TL CT. intros [H1 H2]. simpl. by rewrite (Query_current q _ H1), H2.
Qed.

(** The test finds out whether the last change is in the configuration. *)
Lemma judge_fails s c q :
  r_main s = M_init q → holds (fit := fit) (r_test s) c →
  (r_state s = Some JOIN ∧ IsMember (r_ngid s) c = false ∨
   r_state s = Some LEAVE ∧ IsMember (r_ngid s) c = true) →
  ∃ s' why, mains s s' ∧ r_main s' = M_failed why.
Proof.
  clear G0_nonempty G0_size TL CT. intros Hm Hh Hw.
  assert (main_step s = Some (set_main (M_num q c) (set_test (r_test s) s))) as H1.
  { unfold Recovery.main_step, main_call. by rewrite Hm, (query_exec q _ c Hh). }
  set (s1 := set_test (r_test s) s) in *.
  destruct (decide (Num c ≤ num)) as [Hn|Hn].
  - eexists (set_main (M_failed _) s1), _. split; [|reflexivity]. eapply mains_step; [exact H1|].
    eapply mains_step; [|apply mains_refl]. unfold Recovery.main_step. simpl.
    by rewrite (decide_True (P := Num c ≤ num)) by done.
  - eexists (set_main (M_failed _) s1), _. split; [|reflexivity]. eapply mains_step; [exact H1|].
    eapply (mains_step _ (set_main (M_present q c _) s1)).
    { unfold Recovery.main_step. simpl. rewrite (decide_False (P := Num c ≤ num)) by done. done. }
    eapply (mains_step _ (set_main (M_judge q (IsMember (r_ngid s) c) _) s1)); [done|].
    eapply mains_step; [|apply mains_refl]. unfold Recovery.main_step. simpl.
    assert (bool_decide (r_state s = Some JOIN) && negb (IsMember (r_ngid s) c) ||
      bool_decide (r_state s = Some LEAVE) && IsMember (r_ngid s) c = true) as ->; [|done].
    by destruct Hw as [[-> ->]|[-> ->]].
Qed.

(** The test runs a program to its end. *)
Lemma main_solo J (Q : bool → ShardConfig → Prop) q p : ∀ s c,
  r_main s = M_leave q p → holds (fit := fit) (r_test s) c → solo J Q p c →
  ∃ s' b c', mains s s' ∧ r_main s' = M_back q ∧ holds (fit := fit) (r_test s') c' ∧
    Num c ≤ Num c' ∧ Q b c'.
Proof using CT.
  clear G0_nonempty G0_size TL.
  induction p as [[b|why|why|]|X cl k IH]; intros s c Hm Hh Hp; try done.
  - exists (set_main (M_back q) s), b, c. split; [|by split_and!].
    eapply mains_step; [|apply mains_refl]. unfold Recovery.main_step. by rewrite Hm.
  - destruct (solo_exec J Q cl k c (r_test s) Hp Hh) as (x & ts2 & c2 & He & Hh2 & _ & Hle & Hk).
    destruct (IH x (set_main (M_leave q (k x)) (set_test ts2 s)) c2) as (s' & b & c' & H1 & H2 & H3 & H4 & H5);
      [done..|].
    exists s', b, c'. split; [|split_and!; [done|done|lia|done]].
    eapply mains_step; [|exact H1]. unfold Recovery.main_step, main_call. by rewrite Hm, He.
Qed.

Lemma judge_passes s c q :
  r_main s = M_init q → holds (fit := fit) (r_test s) c → num < Num c → is_fresh_gid (r_ngid s) →
  (r_state s = Some JOIN ∧ joined_by (r_ngid s) c ∨
   r_state s = Some LEAVE ∧ at_rest c ∧ IsMember (r_ngid s) c = false) →
  ∃ s' c', mains s s' ∧ r_main s' = M_back q ∧ holds (fit := fit) (r_test s') c' ∧
    Groups c' = G0 ∧ num < Num c'.
Proof using CT G0_nonempty.
  clear G0_size TL. intros Hm Hh Hn Hf Hw. set (s1 := set_test (r_test s) s).
  set (b := IsMember (r_ngid s) c).
  assert (∀ s', mains (set_main (M_clean q b) s1) s' → mains s s') as Hto.
  { intros s' Hs'. eapply (mains_step _ (set_main (M_num q c) s1)).
    { unfold Recovery.main_step, main_call. by rewrite Hm, (query_exec q _ c Hh). }
    eapply (mains_step _ (set_main (M_present q c _) s1)).
    { unfold Recovery.main_step. simpl. rewrite (decide_False (P := Num c ≤ num)) by lia. done. }
    eapply (mains_step _ (set_main (M_judge q b _) s1)); [done|].
    eapply mains_step; [|exact Hs']. unfold Recovery.main_step, b. simpl.
    destruct Hw as [[Hs [_ _ _ _ Hi]]|(Hs & _ & Hi)]; rewrite Hs, Hi; done. }
  destruct Hw as [[Hs Hj]|(Hs & Hr & Hi)].
  - destruct (main_solo (Jleave G0 num (r_ngid s)) (λ _ c', at_rest c') q
      (leaveGroups q [r_ngid s]) (set_main (M_leave q (leaveGroups q [r_ngid s])) s1) c)
      as (s' & _ & c' & H1 & H2 & H3 & H4 & [_ _ H5 _]); [done|done|by apply solo_leave|].
    exists s', c'. split; [|split_and!; [done|done|done|lia]].
    apply Hto. eapply mains_step; [|exact H1]. unfold Recovery.main_step, b. simpl.
    by rewrite Hs, (jb_member _ _ _ _ Hj).
  - exists (set_main (M_back q) s1), c. split; [|split_and!; [done|done|by destruct Hr|done]].
    apply Hto. eapply mains_step; [|apply mains_refl]. unfold Recovery.main_step, b. simpl.
    by rewrite Hs.
Qed.

(** What a goroutine that waits for a change has seen. *)
Lemma pending_ok s c new :
  worker_ok s c → pending s = Some new → is_fresh_gid (r_ngid s) ∧ Num new = Num c + 1 ∧
  (r_state s = Some JOIN ∧ at_rest c ∧ joined_by (r_ngid s) new ∨
   r_state s = Some LEAVE ∧ joined_by (r_ngid s) c ∧ at_rest new ∧ IsMember (r_ngid s) new = false).
Proof.
  clear G0_nonempty G0_size TL CT. unfold worker_ok, pending.
  destruct (r_work s) as [| |p| |p|]; try done; destruct p as [|X cl k]; try done;
    destruct cl; try done; intros (Hs & Hf & HJ & Hn & _) [= <-].
  - split; [done|]. split; [done|]. left. by destruct HJ.
  - split; [done|]. split; [done|]. right. by destruct HJ as (? & ? & ?).
Qed.

Lemma recovery_start_ok ts c :
  holds (fit := fit) ts c → reachable c → named c → Groups c = G0 → Num c = num →
  (∀ g, ngid ts ≤ g → is_fresh_gid g) → recovery_ok (partitionCtrler ts) c.
Proof.
  clear G0_nonempty G0_size TL CT. intros H1 H2 H3 H4 H5 H6.
  split; simpl; [done|lia|done| |done]. split; [|done]. split; try done. lia.
Qed.

(** What the test does before it starts the goroutine. *)
Lemma partition_start_ok ts c :
  holds (fit := fit) ts c → is_Some (t_sck ts) →
  wp (alone partition_start) (λ r ts', r.2 = Num c ∧ holds (fit := fit) ts' c ∧ ngid ts' = ngid ts) ts.
Proof.
  clear G0_nonempty G0_size TL CT. intros Hh [k Hk]. unfold partition_start. apply wp_alone_bind.
  assert (∃ q ts1, exec C_make ts = Ret (q, ts1) ∧ holds (fit := fit) ts1 c ∧ ngid ts1 = ngid ts ∧
    t_sck ts1 = Some k) as (q & ts1 & He & Hh1 & Hn1 & Hk1).
  { destruct (make_exec ts c Hh) as (q & ts1 & He & Hh1 & Hn1). exists q, ts1. split_and!; [done..|].
    simpl in He. destruct (makeShardCtrler (t_w ts)). by injection He as <- <-. }
  apply (alone_exec _ _ _ _ _ He), wp_alone_bind.
  destruct Hh1 as [F1 C1]. destruct (init_same q (t_w ts1) F1) as (F2 & C2 & _).
  eapply alone_exec; [done|]. apply wp_alone_bind. eapply alone_exec; [simpl; by rewrite Hk1|].
  apply wp_alone_bind. eapply alone_exec; [apply (query_exec k _ c); by split; [|rewrite <-C1]|].
  apply alone_ret. split; [done|]. split; [|done]. by split; [|rewrite <-C1].
Qed.

(** C26: [partitionCtrler] notices whether the second controller completes what the
    first has begun.  On a controller in order, with fewer than twelve groups, let
    the goroutine be cut off while it waits for a change of the configuration, a
    join or a leave in any of its rounds.  Then it cannot move; if
    [InitController] of the second controller completes the change, the test
    passes its checks of the configuration and leaves a later configuration with the
    groups from before; if it does not, the test fails. *)
Theorem partitionCtrler_verdict (ts : Test) (c : ShardConfig) (l : list event) (s : recovery W)
    (q : nat) (new : ShardConfig) :
  holds (fit := fit) ts c → reachable c → named c → Groups c = G0 → Num c = num →
  (∀ g, ngid ts ≤ g → is_fresh_gid g) →
  run l (partitionCtrler ts) = Some s → r_main s = M_made q → pending s = Some new →
  work_step sck s = None ∧
  (∃ s1 s2 c', step R_recover s = Some s1 ∧ mains s1 s2 ∧ r_main s2 = M_back q ∧
    current (t_w (r_test s2)) = Some c' ∧ Groups c' = G0 ∧ num < Num c') ∧
  (∃ s2 why, mains s s2 ∧ r_main s2 = M_failed why).
Proof using CT TL G0_nonempty G0_size.
  intros Hh Hre Hna HG Hnum Hids Hr Hm Hp.
  destruct (early_run_ok l _ s c (recovery_start_ok ts c Hh Hre Hna HG Hnum Hids) Hr) as [c1 Hok]; [by rewrite Hm|].
  destruct Hok as [H1 H2 _ H4 H5]. destruct (pending_ok s c1 new H4 Hp) as (Hf & Hn & Hcase).
  unfold early in H5. rewrite Hm in H5. split; [|split].
  - unfold pending in Hp. unfold work_step, work_call.
    destruct (r_work s) as [| |p| |p|]; try done; destruct p as [|X cl k]; try done;
      destruct cl; try done; by rewrite H5.
  - pose proof H1 as [F1 C1]. set (ts1 := upd (ChangeConfigTo sck new) (r_test s)).
    assert (holds (fit := fit) ts1 new) as Hh1.
    { split; simpl; [by destruct (Change_current sck c1 new _ F1 C1)|].
      by apply (Change_done sck c1 new). }
    destruct (init_exec q ts1 new Hh1) as (ts2 & He & Hh2).
    set (s1 := set_main (M_init q) (set_test ts2 s)).
    destruct (judge_passes s1 new q) as (s2 & c' & K1 & K2 & [_ K3] & K4 & K5);
      [done|done|lia|done|naive_solver|].
    exists s1, s2, c'. split_and!; try done. unfold Recovery.step. rewrite Hm, Hp.
    change (main_call (C_init q) (λ _, M_init q) (set_test ts1 s) = Some s1).
    unfold main_call. cbn [r_test set_test]. by rewrite He.
  - destruct (init_exec q (r_test s) c1 H1) as (ts2 & He & Hh2).
    destruct (judge_fails (set_main (M_init q) (set_test ts2 s)) c1 q) as (s2 & why & K1 & K2);
      [done|done| |].
    + destruct Hcase as [(Hs & Hr1 & _)|(Hs & Hj & _)]; [left|right]; split; try done.
      * by apply (at_rest_not_member G0 num).
      * by destruct Hj.
    + exists s2, why. split; [|done]. eapply mains_step; [|exact K1].
      unfold Recovery.main_step, main_call. by rewrite Hm, He.
Qed.
End verdict.

(** ** On the plain controller *)
Section demo.
#[local] Instance plain_tester : TesterCalls plain := {
  ck := {| ck_Get k w := (("", 0, ErrNoKey), w); ck_Put k v ver w := (ErrNoKey, w) |};
  kv_clock _ := 0; kv_test w := KvTest.mkTest w None 0 0%nat false; kv_world := KvTest.t_w;
  ShutdownGroup g w := w; StartGroup g w := w; DisconnectClnt c w := w; ConnectClnt c w := w;
  DeleteClnt c w := w
}.
#[local] Instance plain_laws : TesterLaws plain (λ _, True).
Proof. by split. Qed.

Definition plain_test : Test plain := mkTest (mkPlain (Some first_cfg) {[Gid1]} 1) 2 (Some 0%nat).
Definition cut_at (n : nat) : recovery plain :=
  default (partitionCtrler plain_test)
    (run Gid1 [] [] true 0 1 (replicate n R_work ++ replicate 4 R_main) (partitionCtrler plain_test)).

(** Cut off in its first join. *)
Lemma partitionCtrler_verdict_witness :
  ∃ s1 s2 c', step Gid1 [] [] true 0 1 R_recover (cut_at 4) = Some s1 ∧
    mains Gid1 [] [] true 0 1 s1 s2 ∧ r_main s2 = M_back 1 ∧ pl_cfg (t_w (r_test s2)) = Some c' ∧
    Groups c' = Groups0 ∧ 1 < Num c'.
Proof.
  destruct first_ready as [_ _ Hre Hna].
  refine (proj1 (proj2 (partitionCtrler_verdict (fit := λ _, True) Gid1 [] [] true 0 Groups0 1 _ _
    plain_test first_cfg (replicate 4 R_work ++ replicate 4 R_main) (cut_at 4) 1%nat
    (default first_cfg (pending (cut_at 4))) _ Hre Hna eq_refl eq_refl _ _ _ _))).
  - intros H. apply (f_equal size) in H. vm_compute in H. discriminate H.
  - apply (bool_decide_unpack (_ < _)%nat). vm_compute. exact I.
  - split; [exact I|reflexivity].
  - intros g Hg. split; [change (2 ≤ g) in Hg; lia|]. apply lookup_singleton_None.
    change (2 ≤ g) in Hg. unfold Gid1. lia.
  - unfold cut_at.
    assert (is_Some (run Gid1 [] [] true 0 1 (replicate 4 R_work ++ replicate 4 R_main)
      (partitionCtrler plain_test))) as [x Hx]
      by (apply (bool_decide_unpack (is_Some _)); vm_compute; exact I).
    rewrite Hx. reflexivity.
  - vm_compute. reflexivity.
  - vm_compute. reflexivity.
Defined.

(** Cut off before it has asked for a change: the goroutine has set [state], so that
    the test expects its group to be there and fails, although nothing was left
    to complete. *)
Lemma partitionCtrler_spurious :
  pending (cut_at 3) = None ∧
  r_main <$> run Gid1 [] [] true 0 1 (replicate 3 R_main) (cut_at 3) =
    Some (M_failed "didn't recover; expected 1 > 1").
Proof. split; vm_compute; reflexivity. Qed.
End demo.
