(* ===== verification/Sharding.v ===== *)
(** * Is the data sharded? [checkShutdownSharding] of [shardkv1/test.go]

    The test shuts a group down, reads all keys at the same time, each with a clerk
    of its own, and expects that some reads do not come back. *)

From S2P Require Export Setup.
#[local] Set Default Proof Using "Type".

Section script.
Context {V Ty : Type} `{GV : GoValues V Ty} {W IService : Type}.
Context (svc_tname : IService → string) (svc_refl : IService → list (@Method V Ty W))
  (Kill : IService → store * W → store * W) (crand : nat → nat → list Z)
  (mks : list ClientEnd → Tgid → nat → nat → store * W → list (option IService) * (store * W)).
Abbreviation tconfig := (@Config V Ty W IService).
Abbreviation K := (M tconfig).

(** ** Clerks of the sharded service *)

Definition makeShardCtrlerClnt : K (ShardCtrler * nat) :=
  clnt ← on_clnts MakeClient; mret (MakeShardCtrler clnt, clnt).
Definition makeShardCtrler : K ShardCtrler := '(ck, _) ← makeShardCtrlerClnt; mret ck.
Definition makeKVClerk : K kvsrv_Clerk :=
  clnt ← on_clnts MakeClient; mret (kvsrv_MakeClerk clnt (ServerName GRP0 0)).
Definition shardkv_Test_MakeClerk : K (TestClerk shardkv_Clerk) :=
  clnt ← on_clnts MakeClient;
  sck ← makeShardCtrler;
  mret (mkTestClerk (shardkv_MakeClerk clnt sck) clnt).

(** [leader]: what [rsm.Leader] finds. *)
Definition disconnectClntFromLeader (leader : bool * nat) (gid : Tgid) : K nat :=
  let '(ok, l) := leader in
  if (ok : bool) then _ ← with_group gid (ShutdownServer Kill l); mret l
  else lift (Fatal "Leader failed").

(** ** State

    The arguments of [checkShutdownSharding]: the group, the keys and the values
    expected. *)
Context (down : Tgid) (ka va : list string).

(** A goroutine: in [Get]; back with a value; sending on [ch]; returned. *)
Inductive getter := T_get | T_got (v : string) | T_send (err : string) | T_over.

(** The test: about to shut the group down; about to start goroutine [xi]; at the
    test of the loop; at the [select]; after the timer; past the loop; about to
    start the servers again; at the end; failed. *)
Inductive mpc :=
| M_shutdown | M_spawn (xi : nat) | M_loop | M_select | M_after | M_check | M_restart
| M_end | M_failed (why : string).

Record script := mkScript {
  sc_cfg : tconfig;
  sc_gets : list getter;
  sc_done : bool;
  sc_ndone : nat;
  sc_main : mpc
}.

Definition set_main (m : mpc) (s : script) : script :=
  mkScript (sc_cfg s) (sc_gets s) (sc_done s) (sc_ndone s) m.
Definition set_get (i : nat) (g : getter) (s : script) : script :=
  mkScript (sc_cfg s) (<[i := g]> (sc_gets s)) (sc_done s) (sc_ndone s) (sc_main s).
(** A call of the test on the tester. *)
Definition tester_call (m : K unit) (next : mpc) (s : script) : script :=
  match m (sc_cfg s) with
  | Ret (_, c) => mkScript c (sc_gets s) (sc_done s) (sc_ndone s) next
  | Fatal why | Panic why => set_main (M_failed why) s
  | Diverge => set_main (M_failed "") s
  end.

Definition checkShutdownSharding (c : tconfig) : script := mkScript c [] false 0 M_shutdown.

(** ** Steps *)

(** The error that goroutine [i] sends. *)
Definition get_err (i : nat) (v : string) : outcome string :=
  va_i ← index va i;
  if decide (v ≠ va_i) then
    ka_i ← index ka i;
    Ret ("Get(" +:+ ka_i +:+ "): expected:" +:+ newline +:+ va_i +:+ newline +:+ "received:" +:+
         newline +:+ v)
  else Ret "".

Definition too_many : string :=
  "expected less than " +:+ Itoa (Z.of_nat (length ka)) +:+ " completions with shard " +:+
  Itoa down +:+ " down" +:+ newline.

Inductive event :=
| S_main                     (* the next step of the test, other than at the [select] *)
| S_timer                    (* two seconds without a result *)
| S_recv (i : nat)           (* the test receives from goroutine [i] *)
| S_get (i : nat) (v : string)  (* a [Get] returns *)
| S_load (i : nat)           (* a goroutine looks at [done], and compares *)
| S_clerk (q : nat) (srv : string).  (* a clerk makes an end for a server *)

Definition main_step (s : script) : option script :=
  match sc_main s with
  | M_shutdown => Some (tester_call (with_group down (Shutdown Kill)) (M_spawn 0) s)
  | M_spawn xi =>
      if decide (xi < length ka) then
        let s := tester_call (_ ← shardkv_Test_MakeClerk; mret tt) (M_spawn (S xi)) s in
        Some (mkScript (sc_cfg s) (sc_gets s ++ [T_get]) (sc_done s) (sc_ndone s) (sc_main s))
      else Some (set_main M_loop s)
  | M_loop => Some (set_main (if sc_done s then M_check else M_select) s)
  | M_after => Some (mkScript (sc_cfg s) (sc_gets s) true (sc_ndone s) M_loop)
  | M_check =>
      Some (set_main (if decide (length ka ≤ sc_ndone s) then M_failed too_many else M_restart) s)
  | M_restart =>
      Some (tester_call (with_group down (StartServers svc_tname svc_refl crand mks)) M_end s)
  | M_select | M_end | M_failed _ => None
  end.

Definition step (e : event) (s : script) : option script :=
  match e with
  | S_main => main_step s
  | S_timer => match sc_main s with M_select => Some (set_main M_after s) | _ => None end
  | S_recv i =>
      match sc_main s, sc_gets s !! i with
      | M_select, Some (T_send err) =>
          let gets := <[i := T_over]> (sc_gets s) in
          if decide (err ≠ "") then
            Some (mkScript (sc_cfg s) gets (sc_done s) (sc_ndone s) (M_failed err))
          else Some (mkScript (sc_cfg s) gets (sc_done s) (S (sc_ndone s)) M_loop)
      | _, _ => None
      end
  | S_get i v =>
      match sc_gets s !! i with Some T_get => Some (set_get i (T_got v) s) | _ => None end
  | S_load i =>
      match sc_gets s !! i with
      | Some (T_got v) =>
          if sc_done s then Some (set_get i T_over s)
          else match get_err i v with
               | Ret err => Some (set_get i (T_send err) s)
               | Fatal why | Panic why => Some (set_main (M_failed why) s)
               | Diverge => None
               end
      | _ => None
      end
  | S_clerk q srv =>
      if decide (is_Some (clerk_at (sc_cfg s) q)) then
        match on_clnts (on_clnt q (_ ← makeEnd crand srv; mret tt)) (sc_cfg s) with
        | Ret (_, c) => Some (mkScript c (sc_gets s) (sc_done s) (sc_ndone s) (sc_main s))
        | _ => None
        end
      else None
  end.

Fixpoint run (l : list event) (s : script) : option script :=
  match l with
  | [] => Some s
  | e :: l => s ← step e s; run l s
  end.

(** ** The test ends *)

(** The steps of the test itself. *)
Definition is_main (e : event) : bool :=
  match e with S_main | S_timer | S_recv _ => true | _ => false end.

(** Goroutines that have not returned. *)
Definition active (g : getter) : bool := match g with T_over => false | _ => true end.
Definition pending (l : list getter) : nat := length (filter (λ g, active g = true) l).

(** How many steps the test can still take. *)
Definition left (s : script) : nat :=
  match sc_main s with
  | M_shutdown => 3 * length ka + 8
  | M_spawn xi => 3 * (length ka - xi) + 7
  | M_loop => if sc_done s then 3 else 6
  | M_select => 5
  | M_after => 4
  | M_check => 2
  | M_restart => 1
  | M_end | M_failed _ => 0
  end + 2 * pending (sc_gets s).

Lemma pending_insert i g g' (l : list getter) :
  l !! i = Some g →
  pending (<[i := g']> l) + (if active g then 1 else 0) = pending l + (if active g' then 1 else 0).
Proof.
  unfold pending. revert i. induction l as [|x l IH]; intros [|i] Hi; simplify_eq/=.
  - rewrite !filter_cons. destruct (active g), (active g'); simpl; lia.
  - change (<[S i := g']> (x :: l)) with (x :: <[i := g']> l). rewrite !filter_cons.
    specialize (IH i Hi). case_decide; simpl; lia.
Qed.

Lemma pending_app l1 l2 : pending (l1 ++ l2) = pending l1 + pending l2.
Proof. unfold pending. by rewrite filter_app, length_app. Qed.

Lemma pending_le l : pending l ≤ length l.
Proof. apply length_filter. Qed.

(** What a call on the tester leaves alone. *)
Lemma tester_call_cases m next s s' : tester_call m next s = s' →
  sc_gets s' = sc_gets s ∧ sc_done s' = sc_done s ∧ sc_ndone s' = sc_ndone s ∧
  (sc_main s' = next ∨ ∃ why, sc_main s' = M_failed why).
Proof.
  intros <-. unfold tester_call, set_main. destruct (m (sc_cfg s)) as [[[] c]|?|?|]; simpl; eauto 6.
Qed.

Lemma step_left e s s' :
  step e s = Some s' → left s' + (if is_main e then 1 else 0) ≤ left s.
Proof.
  intros Hs. destruct e as [| |i|i v|i|q srv]; simpl in Hs |- *.
  - unfold main_step in Hs. unfold left. destruct (sc_main s) as [|xi| | | | | | |] eqn:Hm;
      try done; try (simplify_eq/=; lia).
    + injection Hs as Hs. apply tester_call_cases in Hs as (-> & _ & _ & [->|[why ->]]); simpl; lia.
    + case_decide; simplify_eq/=; [|destruct (sc_done s); lia].
      destruct (tester_call_cases (_ ← shardkv_Test_MakeClerk; mret tt) (M_spawn (S xi)) s _ eq_refl)
        as (-> & _ & _ & [->|[why ->]]); rewrite pending_app; change (pending [T_get]) with 1; simpl; lia.
    + simplify_eq/=. destruct (sc_done s); simpl; lia.
    + simplify_eq/=. case_decide; simpl; lia.
    + injection Hs as Hs. apply tester_call_cases in Hs as (-> & _ & _ & [->|[why ->]]); simpl; lia.
  - unfold left. destruct (sc_main s); simplify_eq/=. lia.
  - unfold left. destruct (sc_main s) eqn:Hm; try done.
    destruct (sc_gets s !! i) as [[|?|err|]|] eqn:Hi; try done.
    pose proof (pending_insert i (T_send err) T_over _ Hi). simpl in *.
    case_decide; simplify_eq/=; destruct (sc_done s); lia.
  - unfold left. destruct (sc_gets s !! i) as [[|?|?|]|] eqn:Hi; simplify_eq/=.
    pose proof (pending_insert i T_get (T_got v) _ Hi). simpl in *. lia.
  - destruct (sc_gets s !! i) as [[|v|?|]|] eqn:Hi; try done.
    unfold left. destruct (sc_done s) eqn:Hd.
    + simplify_eq/=. pose proof (pending_insert i (T_got v) T_over _ Hi). simpl in *. rewrite Hd. lia.
    + destruct (get_err i v) as [err|why|why|]; simplify_eq/=; [|lia..].
      pose proof (pending_insert i (T_got v) (T_send err) _ Hi). simpl in *. rewrite Hd. lia.
  - unfold left. case_decide; [|done]. destruct (on_clnts _ _) as [[[] c]|?|?|]; simplify_eq/=. lia.
Qed.

Lemma run_left l : ∀ s s',
  run l s = Some s' → left s' + length (filter (λ e, is_main e = true) l) ≤ left s.
Proof.
  induction l as [|e l IH]; intros s s'; simpl; [intros [= ->]; lia|].
  destruct (step e s) as [s1|] eqn:He; [|done]. intros Hr%IH. apply step_left in He.
  rewrite filter_cons. destruct (is_main e); simpl in *; lia.
Qed.

(** ** What the test finds *)

Context (limit : nat) `{LB : !Labs Kill crand mks limit}.
Abbreviation config_ok := (config_ok svc_tname svc_refl crand).
Abbreviation served := (served svc_tname svc_refl).

Lemma MakeClerk_ok c sg :
  config_ok c → is_Some (cf_clerks c) → t_rng (cf_t c) ≤ limit → group_at c down = Some sg →
  wp (_ ← shardkv_Test_MakeClerk; mret tt) (λ _ c', config_ok c' ∧ is_Some (cf_clerks c') ∧
    cf_t c' = cf_t c ∧ group_at c' down = Some sg) c.
Proof using LB.
  intros Hok Hcl Hl Hg.
  assert (∀ (c1 : tconfig) q (c2 : tconfig), others_same (P_clerk q) c1 c2 → group_at c1 down = Some sg →
    group_at c2 down = Some sg) as Hkeep.
  { intros c1 q c2 Ho H1. destruct (Ho (P_group down)) as [Hp _]; [done|]. simpl in Hp.
    rewrite H1 in Hp. by destruct (group_at c2 down); simplify_eq/=. }
  unfold shardkv_Test_MakeClerk, makeShardCtrler, makeShardCtrlerClnt, MakeClient.
  apply wp_bind, wp_bind. eapply wp_mono; [by apply (MakeClientTo_ok svc_tname svc_refl Kill crand mks limit)|].
  intros q1 c1 (O1 & S1 & T1 & _ & _ & C1). do 3 apply wp_bind.
  eapply wp_mono; [apply (MakeClientTo_ok svc_tname svc_refl Kill crand mks limit); [done|done|by rewrite T1]|].
  intros q2 c2 (O2 & S2 & T2 & _ & _ & C2). apply wp_mret, wp_mret, wp_mret, wp_mret.
  split_and!; [done|done|congruence|]. eapply Hkeep, Hkeep; [exact S2|exact S1|done].
Qed.

Lemma makeEnd_ok q ck srv c sg :
  config_ok c → clerk_at c q = Some ck → t_rng (cf_t c) + 1 ≤ limit → group_at c down = Some sg →
  wp (on_clnts (on_clnt q (_ ← makeEnd crand srv; mret tt))) (λ _ c', config_ok c' ∧
    cf_clerks c' = cf_clerks c ∧ t_rng (cf_t c') ≤ t_rng (cf_t c) + 1 ∧
    group_at c' down = Some sg ∧
    (full (sg, cf_t c) → full (sg, cf_t c')) ∧
    ∀ i, served (sg, cf_t c) i → served (sg, cf_t c') i) c.
Proof using LB.
  intros Hok Hat Hl Hg. eapply with_clerk_wp; [done|]. apply wp_bind.
  pose proof (fresh_supply Kill crand mks limit (cf_t c) 1 (co_used _ _ _ _ Hok) Hl) as Hfr.
  eapply wp_mono; [apply wp_and; [by apply (makeEnd_effect crand srv), Hfr; apply Hok|
    apply (makeEnd_correct crand (ck, cf_t c) srv);
      [by eapply (clerk_at_wfc svc_tname svc_refl crand)|done]]|].
  intros e s' [(He & Hr & _ & Hsv & Hlb & _) [Hwf _]]. apply wp_mret. simpl in *.
  destruct (clerk_step svc_tname svc_refl Kill crand mks limit c q ck s') as [H1 H2];
    [done|done|done|done|lia|].
  destruct (H2 (P_group down)) as [Hp Hlk]; [done|]. simpl in Hp, Hlk. rewrite Hg in Hp, Hlk.
  assert (group_at (set_clerk q s' c) down = Some sg) as Hg'.
  { by destruct (group_at (set_clerk q s' c) down); simplify_eq/=. }
  specialize (Hlk _ eq_refl). split_and!; [done|done|done|done|..].
  - intros Hf x y Hx Hy. etrans; [apply Hlk|]. by apply Hf.
  - intros i (srv' & ptr & lab & S1 & S2 & S3 & S4). exists srv', ptr, lab. simpl in *.
    unfold server_at in *. by rewrite Hsv, Hlb.
Qed.

(** *** The invariant

    [n] servers in the group, and [b] names that clerks may still draw. *)

Definition names_ahead (n : nat) (m : mpc) : nat :=
  match m with M_end | M_failed _ => 0 | _ => n * n end.

Record tester_ok (n b : nat) (m : mpc) (c : tconfig) : Prop := {
  to_ok : config_ok c;
  to_clerks : is_Some (cf_clerks c);
  to_names : t_rng (cf_t c) + names_ahead n m + b ≤ limit;
  to_group : ∃ sg, group_at c down = Some sg ∧ N sg = n ∧
    (m = M_end → full (sg, cf_t c) ∧ ∀ i, i < n → served (sg, cf_t c) i)
}.

Section values.
(** [P i v]: the [Get] of goroutine [i] may return [v]. *)
Context (P : nat → string → Prop).

(** What the goroutines found, and what the test makes of it. *)
Record gets_ok (s : script) : Prop := {
  go_spawned : match sc_main s with
    | M_shutdown => sc_gets s = []
    | M_spawn xi => length (sc_gets s) = xi ∧ xi ≤ length ka
    | M_failed _ => True
    | _ => length (sc_gets s) = length ka
    end;
  go_got i v : sc_gets s !! i = Some (T_got v) → P i v;
  go_send i err : sc_gets s !! i = Some (T_send err) → ∃ v, P i v ∧ get_err i v = Ret err;
  go_over i : sc_gets s !! i = Some T_over → ∃ v, P i v;
  go_ndone : sc_ndone s + pending (sc_gets s) ≤ length (sc_gets s);
  go_few : sc_main s = M_restart ∨ sc_main s = M_end → sc_ndone s < length ka;
  go_le i : i < length (sc_gets s) → i < length ka
}.

(** Why the test fails: a [Get] returned something else, or all returned. *)
Definition blamed (s : script) : Prop := ∀ why, sc_main s = M_failed why →
  (why ≠ "" ∧ ∃ i v, P i v ∧ get_err i v = Ret why) ∨ (why = too_many ∧ length ka ≤ sc_ndone s).

Lemma tester_ok_same n b m m' c :
  tester_ok n b m c → names_ahead n m' ≤ names_ahead n m → m' ≠ M_end → tester_ok n b m' c.
Proof.
  intros [H1 H2 H3 (sg & H4 & H5 & _)] Hle Hne. split; [done|done|lia|]. by exists sg.
Qed.

(** The calls of the test succeed. *)
Lemma tester_call_ok n b m next s :
  wp m (λ _ c, tester_ok n b next c) (sc_cfg s) →
  ∃ c, tester_call m next s = mkScript c (sc_gets s) (sc_done s) (sc_ndone s) next ∧
    tester_ok n b next c.
Proof.
  unfold wp, tester_call. destruct (m (sc_cfg s)) as [[[] c]|?|?|]; try done. by exists c.
Qed.

Lemma shutdown_wp n b c :
  tester_ok n b M_shutdown c →
  wp (with_group down (Shutdown Kill)) (λ _ c', tester_ok n b (M_spawn 0) c') c.
Proof using LB.
  intros [H1 H2 H3 (sg & H4 & H5 & _)]. simpl in H3.
  eapply wp_mono; [apply (with_group_post svc_tname svc_refl Kill crand mks limit down sg 0 (λ _, True));
    [done|done|lia|]|].
  - eapply wp_mono; [apply (Shutdown_kept svc_tname svc_refl Kill crand mks limit);
      by apply (group_at_gid svc_tname svc_refl crand c down)|done].
  - intros [] c' (K1 & _ & K3 & K4 & sg' & K5 & K6 & _). split; [done|by rewrite K4|simpl; lia|].
    exists sg'. split_and!; [done|congruence|done].
Qed.

Lemma restart_wp n b c :
  tester_ok n b M_restart c →
  wp (with_group down (StartServers svc_tname svc_refl crand mks)) (λ _ c', tester_ok n b M_end c') c.
Proof using LB.
  intros [H1 H2 H3 (sg & H4 & H5 & _)]. simpl in H3.
  eapply wp_mono; [apply (with_group_post svc_tname svc_refl Kill crand mks limit down sg (n * n)
    (λ s, full s ∧ ∀ i, i < n → served s i)); [done|done|lia|]|].
  - eapply wp_mono; [apply (StartServers_full svc_tname svc_refl Kill crand mks limit);
      [by apply (group_at_gid svc_tname svc_refl crand c down)|simpl; rewrite H5; lia]|].
    simpl. rewrite H5. intros [] s' (? & ? & ?). done.
  - intros [] c' (K1 & _ & K3 & K4 & sg' & K5 & K6 & K7). split; [done|by rewrite K4|simpl; lia|].
    exists sg'. split_and!; [done|congruence|by intros _].
Qed.

Lemma spawn_wp n b xi c :
  tester_ok n b (M_spawn xi) c →
  wp (_ ← shardkv_Test_MakeClerk; mret tt) (λ _ c', tester_ok n b (M_spawn (S xi)) c') c.
Proof using LB.
  intros [H1 H2 H3 (sg & H4 & H5 & _)]. simpl in H3.
  eapply wp_mono; [apply (MakeClerk_ok c sg); [done|done|lia|done]|].
  intros [] c' (K1 & K2 & K3 & K4). split; [done|done|simpl; rewrite K3; lia|]. by exists sg.
Qed.

Definition names_of (e : event) : nat := match e with S_clerk _ _ => 1 | _ => 0 end.

Record script_ok (n b : nat) (s : script) : Prop := {
  sk_tester : tester_ok n b (sc_main s) (sc_cfg s);
  sk_gets : gets_ok s;
  sk_blamed : blamed s
}.

(** Steps of the test that neither call the tester nor receive. *)
Definition may_leave (m : mpc) : Prop :=
  match m with
  | M_spawn xi => xi = length ka
  | M_loop | M_select | M_after | M_check => True
  | _ => False
  end.
Definition may_enter (s : script) (m : mpc) : Prop :=
  match m with
  | M_loop | M_select | M_after | M_check => True
  | M_failed why => why = too_many ∧ length ka ≤ sc_ndone s
  | M_restart => sc_ndone s < length ka
  | _ => False
  end.

Lemma script_ok_main n b s m done' :
  script_ok n b s → may_leave (sc_main s) → may_enter s m →
  script_ok n b (mkScript (sc_cfg s) (sc_gets s) done' (sc_ndone s) m).
Proof.
  intros [H1 [G1 G0 G2 G6 G3 G4 G5] H3] Hl Hm.
  assert (length (sc_gets s) = length ka) as Hlen.
  { destruct (sc_main s); try done. destruct G1 as [-> _]. done. }
  assert (names_ahead n (sc_main s) = n * n) as Hn by (by destruct (sc_main s)).
  split; simpl.
  - eapply tester_ok_same; [done|rewrite Hn; destruct m; simpl; lia|by intros ->].
  - split; simpl; try done; [by destruct m|]. intros [->| ->]; [|done]. exact Hm.
  - intros why Hw. simpl in Hw. subst m. right. exact Hm.
Qed.

Lemma main_step_ok n b s s' :
  script_ok n b s → main_step s = Some s' → script_ok n b s'.
Proof using LB.
  intros Hok Hs. unfold main_step in Hs. pose proof Hok as [H1 [G1 G0 G2 G6 G3 G4 G5] H3].
  destruct (sc_main s) as [|xi| | | | | | |] eqn:Hm; try done.
  - destruct (tester_call_ok n b (with_group down (Shutdown Kill)) (M_spawn 0) s) as (c & Hc & Ht);
      [by apply shutdown_wp|].
    rewrite Hc in Hs. injection Hs as <-. rewrite G1 in *. split; simpl; [done| |done].
    split; simpl; try done; [split; [done|lia]|by intros []].
  - destruct (decide (xi < length ka)) as [Hxi|Hxi].
    + destruct (tester_call_ok n b (_ ← shardkv_Test_MakeClerk; mret tt) (M_spawn (S xi)) s)
        as (c & Hc & Ht); [by apply spawn_wp|].
      rewrite Hc in Hs. injection Hs as <-. destruct G1 as [G1 _].
      split; simpl; [done| |done]. split; simpl.
      * rewrite length_app. simpl. lia.
      * intros i v [Hi|[_ Hi]]%lookup_app_Some; [by eapply G0|]. by destruct (i - length (sc_gets s)).
      * intros i err [Hi|[_ Hi]]%lookup_app_Some; [by eapply G2|]. by destruct (i - length (sc_gets s)).
      * intros i [Hi|[_ Hi]]%lookup_app_Some; [by eapply G6|]. by destruct (i - length (sc_gets s)).
      * rewrite pending_app, length_app. change (pending [T_get]) with 1. simpl. lia.
      * by intros [].
      * intros i. rewrite length_app. simpl. lia.
    + injection Hs as <-. apply script_ok_main; [done| |done]. rewrite Hm. simpl. lia.
  - injection Hs as <-. apply script_ok_main; [done|by rewrite Hm|by destruct (sc_done s)].
  - injection Hs as <-. by apply script_ok_main; [|rewrite Hm|].
  - injection Hs as <-. apply script_ok_main; [done|by rewrite Hm|]. case_decide; simpl; [done|lia].
  - destruct (tester_call_ok n b (with_group down (StartServers svc_tname svc_refl crand mks)) M_end s)
      as (c & Hc & Ht); [by apply restart_wp|].
    rewrite Hc in Hs. injection Hs as <-. split; simpl; [done| |done].
    split; simpl; try done. intros _. apply G4. by left.
Qed.

(** A goroutine moves on. *)
Lemma script_ok_get n b s i g g' :
  script_ok n b s → sc_gets s !! i = Some g → active g = true →
  match g' with
  | T_get => True
  | T_got v => P i v
  | T_send err => ∃ v, P i v ∧ get_err i v = Ret err
  | T_over => ∃ v, P i v
  end → script_ok n b (set_get i g' s).
Proof.
  intros [H1 [G1 G0 G2 G6 G3 G4 G5] H3] Hi Ha Hg'. split; [done| |done].
  pose proof (pending_insert i g g' _ Hi) as Hp. rewrite Ha in Hp.
  split; simpl; rewrite ?length_insert; try done.
  - destruct (sc_main s); rewrite ?length_insert; try done. by rewrite G1 in Hi.
  - intros j v [(-> & -> & _)|[_ Hj]]%list_lookup_insert_Some; [done|by eapply G0].
  - intros j err [(-> & -> & _)|[_ Hj]]%list_lookup_insert_Some; [done|by eapply G2].
  - intros j [(-> & -> & _)|[_ Hj]]%list_lookup_insert_Some; [done|by eapply G6].
  - destruct (active g'); lia.
Qed.

Lemma recv_ok n b s i err :
  script_ok n b s → sc_main s = M_select → sc_gets s !! i = Some (T_send err) →
  script_ok n b (mkScript (sc_cfg s) (<[i := T_over]> (sc_gets s)) (sc_done s)
    (if decide (err ≠ "") then sc_ndone s else S (sc_ndone s))
    (if decide (err ≠ "") then M_failed err else M_loop)).
Proof.
  intros [H1 [G1 G0 G2 G6 G3 G4 G5] H3] Hm Hi. rewrite Hm in *.
  pose proof (pending_insert i (T_send err) T_over _ Hi) as Hp. simpl in Hp.
  split; simpl.
  - eapply tester_ok_same; [done|by case_decide; simpl; lia|by case_decide].
  - split; simpl; rewrite ?length_insert; try done.
    + case_decide; [done|]. done.
    + intros j v [(_ & ? & _)|[_ Hj]]%list_lookup_insert_Some; [done|by eapply G0].
    + intros j e [(_ & ? & _)|[_ Hj]]%list_lookup_insert_Some; [done|by eapply G2].
    + intros j [(<- & _ & _)|[_ Hj]]%list_lookup_insert_Some; [|by eapply G6].
      destruct (G2 _ _ Hi) as (v & Hv & _). by exists v.
    + case_decide; lia.
    + by case_decide; intros [].
  - intros why Hw. simpl in Hw. case_decide; [|done]. injection Hw as <-. left. split; [done|].
    exists i. by eapply G2.
Qed.

Lemma get_err_total i v : length va = length ka → i < length ka → ∃ err, get_err i v = Ret err.
Proof.
  intros Hl Hi. destruct (lookup_lt_is_Some_2 va i) as [a Ha]; [lia|].
  destruct (lookup_lt_is_Some_2 ka i Hi) as [k Hk]. unfold get_err.
  rewrite (index_Some _ _ _ Ha), (index_Some _ _ _ Hk). simpl. case_decide; by eexists.
Qed.

Lemma step_ok n b e s s' :
  length va = length ka → (∀ i v, e = S_get i v → P i v) →
  script_ok n (names_of e + b) s → step e s = Some s' → script_ok n b s'.
Proof using LB.
  intros Hlen HP Hok Hs. destruct e as [| |i|i v|i|q srv]; simpl in *.
  - by eapply main_step_ok.
  - destruct (sc_main s) eqn:Hm; try done. injection Hs as <-.
    by apply script_ok_main; [|rewrite Hm|].
  - destruct (sc_main s) eqn:Hm; try done.
    destruct (sc_gets s !! i) as [[| |err|]|] eqn:Hi; try done.
    pose proof (recv_ok n b s i err Hok Hm Hi) as H. by case_decide; injection Hs as <-.
  - destruct (sc_gets s !! i) as [[| | |]|] eqn:Hi; try done. injection Hs as <-.
    eapply script_ok_get; [done..|]. by apply HP.
  - destruct (sc_gets s !! i) as [[|v| |]|] eqn:Hi; try done.
    pose proof (go_got _ (sk_gets _ _ _ Hok) i v Hi) as Hv.
    destruct (sc_done s); [injection Hs as <-; eapply script_ok_get; [done..|by exists v]|].
    destruct (get_err_total i v) as [err He]; [done| |].
    { apply (go_le _ (sk_gets _ _ _ Hok)). by eapply lookup_lt_Some. }
    rewrite He in Hs. injection Hs as <-. eapply script_ok_get; [done..|]. by exists v.
  - case_decide as Hq; [|done]. destruct Hq as [ck Hq].
    destruct Hok as [[T1 T2 T3 (sg & T4 & T5 & T6)] H2 H3].
    pose proof (makeEnd_ok q ck srv (sc_cfg s) sg T1 Hq ltac:(lia) T4) as H. unfold wp in H.
    destruct (on_clnts _ _) as [[[] c]|?|?|]; try done. injection Hs as <-.
    destruct H as (K1 & K2 & K3 & K4 & K5 & K6). split; [|by destruct H2; split|done].
    split; [done|simpl; by rewrite K2|simpl; lia|]. exists sg. split_and!; [done|done|].
    intros He. destruct (T6 He) as [F1 F2]. split; [by apply K5|]. intros i Hi. by apply K6, F2.
Qed.

Definition names_in (l : list event) : nat := sum_list (names_of <$> l).

Lemma run_ok n l : ∀ b s s',
  length va = length ka → (∀ i v, S_get i v ∈ l → P i v) →
  script_ok n (names_in l + b) s → run l s = Some s' → script_ok n b s'.
Proof using LB.
  induction l as [|e l IH]; intros b s s' Hlen HP Hok; simpl; [by intros [= ->]|].
  destruct (step e s) as [s1|] eqn:He; [|done]. intros Hr.
  eapply (IH b s1); [done|intros i v Hi; apply HP; by right| |done].
  apply (step_ok n _ e s); [done|intros i v ->; apply HP; left| |done]. unfold names_in in *. simpl in Hok. by rewrite Nat.add_assoc.
Qed.

Lemma start_ok n b c sg :
  config_ok c → is_Some (cf_clerks c) → group_at c down = Some sg → N sg = n →
  t_rng (cf_t c) + n * n + b ≤ limit → script_ok n b (checkShutdownSharding c).
Proof.
  intros H1 H2 H3 H4 H5. split.
  - split; [done|done|done|]. by exists sg.
  - split; simpl; try done; [by intros []|lia].
  - intros why Hw. done.
Qed.
End values.

(** A value was wrong. *)
Lemma get_err_wrong i v why : get_err i v = Ret why → why ≠ "" → va !! i ≠ Some v.
Proof.
  unfold get_err. intros He Hne Hi. rewrite (index_Some _ _ _ Hi) in He. simpl in He.
  rewrite decide_False in He by naive_solver. congruence.
Qed.

(** All goroutines have returned. *)
Lemma all_over P s i :
  gets_ok P s → length ka ≤ sc_ndone s → i < length ka → ∃ v, P i v.
Proof.
  intros Hg Hn Hi. pose proof (go_ndone _ _ Hg) as Hp.
  assert (pending (sc_gets s) = 0 ∧ i < length (sc_gets s)) as [H0 Hlt].
  { destruct (Nat.le_gt_cases (length (sc_gets s)) (length ka)) as [Hle|Hgt]; [lia|].
    apply (go_le _ _ Hg) in Hgt. lia. }
  apply lookup_lt_is_Some in Hlt as [g Hgi]. apply (go_over _ _ Hg i). rewrite Hgi.
  destruct (active g) eqn:Ha; [|by destruct g].
  exfalso. apply length_zero_iff_nil in H0. apply (not_elem_of_nil g). rewrite <-H0.
  apply list_elem_of_filter. split; [done|]. by eapply list_elem_of_lookup_2.
Qed.

(** The test is never blocked. *)
Lemma main_not_stuck s :
  sc_main s ≠ M_end → (∀ why, sc_main s ≠ M_failed why) →
  ∃ e, is_main e = true ∧ is_Some (step e s).
Proof.
  intros H1 H2. destruct (sc_main s) as [|xi| | | | | | |why] eqn:Hm; try done.
  4: { exists S_timer. simpl. rewrite Hm. split; [done|by eexists]. }
  all: try (exists S_main; simpl; unfold main_step; rewrite Hm; split; [done|]).
  all: try by eexists.
  - case_decide; by eexists.
  - by edestruct H2.
Qed.

(** C25: [checkShutdownSharding] tells sharded data from data that is not.  In every
    configuration that a test can reach and for every behaviour of the clerks of
    the service, however the goroutines interleave: the test is never blocked and
    ends after at most [3 n + 8] steps of its own for [n] keys, even if no [Get]
    ever returns; if it passes, fewer than [n] results had arrived, and the group
    runs again with all its servers connected and answering; if it fails, a [Get]
    returned a wrong value, or all of them returned.  So it never fails a service
    whose values are right and whose down group keeps one key. *)
Theorem checkShutdownSharding_correct (c : tconfig) (sg : @ServerGrp IService)
    (l : list event) (s : script) :
  config_reachable svc_tname svc_refl Kill crand mks limit c → is_Some (cf_clerks c) →
  group_at c down = Some sg → length va = length ka →
  t_rng (cf_t c) + N sg * N sg + names_in l ≤ limit →
  run l (checkShutdownSharding c) = Some s →
  length (filter (λ e, is_main e = true) l) ≤ 3 * length ka + 8 ∧
  (sc_main s ≠ M_end → (∀ why, sc_main s ≠ M_failed why) →
    ∃ e, is_main e = true ∧ is_Some (step e s)) ∧
  (sc_main s = M_end → sc_ndone s < length ka ∧
    ∃ sg', group_at (sc_cfg s) down = Some sg' ∧ N sg' = N sg ∧
      full (sg', cf_t (sc_cfg s)) ∧ ∀ i, i < N sg → served (sg', cf_t (sc_cfg s)) i) ∧
  (∀ why, sc_main s = M_failed why →
    (∃ i v, S_get i v ∈ l ∧ va !! i ≠ Some v) ∨
    ∀ i, i < length ka → ∃ v, S_get i v ∈ l).
Proof using LB.
  intros Hc Hcl Hg Hlen Hlim Hr.
  apply (config_reachable_ok svc_tname svc_refl Kill crand mks limit) in Hc.
  assert (script_ok (λ i v, S_get i v ∈ l) (N sg) 0 s) as [[_ _ _ (sg' & S1 & S2 & S3)] H2 H3].
  { eapply run_ok; [done|done| |done]. rewrite Nat.add_0_r. by eapply start_ok. }
  split; [|split; [apply main_not_stuck|split]].
  - apply run_left in Hr. assert (left (checkShutdownSharding c) = 3 * length ka + 8) as Hs by (unfold left; simpl; lia). lia.
  - intros Hm. split; [apply (go_few _ _ H2); by right|]. exists sg'. split_and!; [done|done|by apply S3..].
  - intros why Hw. destruct (H3 why Hw) as [(Hne & i & v & Hv & He)|[_ Hn]].
    + left. exists i, v. split; [done|]. by eapply get_err_wrong.
    + right. intros i Hi. by apply (all_over _ s i H2).
Qed.

(** A goroutine that looked at [done] too early and sends when the test has ended
    is never received from. *)
Lemma checkShutdownSharding_leak l i err : ∀ s s',
  run l s = Some s' → sc_main s = M_end → sc_done s = true → sc_gets s !! i = Some (T_send err) →
  sc_main s' = M_end ∧ sc_gets s' !! i = Some (T_send err).
Proof.
  assert (∀ e s s', step e s = Some s' → sc_main s = M_end → sc_done s = true →
    sc_gets s !! i = Some (T_send err) →
    sc_main s' = M_end ∧ sc_done s' = true ∧ sc_gets s' !! i = Some (T_send err)) as Hstep.
  { intros e s s' Hs Hm Hd Hi. destruct e as [| |j|j v|j|q srv]; simpl in Hs; unfold main_step in Hs;
      rewrite ?Hm, ?Hd in Hs; try done.
    - destruct (sc_gets s !! j) as [[| | |]|] eqn:Hj; simplify_eq/=.
      by rewrite list_lookup_insert_ne by (intros ->; congruence).
    - destruct (sc_gets s !! j) as [[|w| |]|] eqn:Hj; simplify_eq/=.
      by rewrite list_lookup_insert_ne by (intros ->; congruence).
    - case_decide; [|done]. by destruct (on_clnts _ _) as [[[] c]|?|?|]; simplify_eq/=. }
  induction l as [|e l IH]; intros s s'; simpl; [by intros [= ->]|].
  destruct (step e s) as [s1|] eqn:He; [|done]. intros Hr Hm Hd Hi.
  destruct (Hstep e s s1 He Hm Hd Hi) as (? & ? & ?). by eapply IH.
Qed.
End script.

(** ** Two keys and the second group of the test of World.v *)
Section demo.
(** One [Get] returns in time, the other just before the timer fires. *)
Definition shutdown_trace : list event :=
  replicate 5 S_main ++ [S_get 0 "x"; S_load 0; S_recv 0; S_main; S_get 1 "y"; S_load 1; S_timer] ++
  replicate 4 S_main.
Abbreviation ctr_script l :=
  (run (λ _, "Ctr") ctr_refl ctr_kill demo_crand ctr_mks 7 ["a"; "b"] ["x"; "y"] l
    (checkShutdownSharding ctr_c3)).
Definition ctr_g7 : @ServerGrp unit := default (mkGrp [] [] 0 []) (group_at ctr_c3 7).

(** The test passes, and leaves goroutine 1 waiting. *)
Lemma checkShutdownSharding_correct_witness :
  ∃ s, ctr_script shutdown_trace = Some s ∧ sc_main s = M_end ∧
    sc_gets s !! 1 = Some (T_send "") ∧
    ∃ sg, group_at (sc_cfg s) 7 = Some sg ∧ full (sg, cf_t (sc_cfg s)).
Proof.
  assert (∃ s, ctr_script shutdown_trace = Some s ∧ sc_main s = M_end ∧
    sc_gets s !! 1 = Some (T_send "")) as (s & Hr & Hm & Hi).
  { assert ((λ s, (sc_main s, sc_gets s !! 1)) <$> ctr_script shutdown_trace =
      Some (M_end, Some (T_send ""))) as H by (vm_compute; reflexivity).
    destruct (ctr_script shutdown_trace) as [s|]; [|discriminate H].
    injection H as H1 H2. exists s. split; [reflexivity|]. split; [exact H1|exact H2]. }
  destruct (checkShutdownSharding_correct (λ _, "Ctr") ctr_refl ctr_kill demo_crand ctr_mks
    7 ["a"; "b"] ["x"; "y"] 100 (LB := ctr_labs) ctr_c3 ctr_g7 shutdown_trace s ctr_c3_reachable)
    as (_ & _ & H & _).
  - apply (bool_decide_unpack (is_Some _)). vm_compute. exact I.
  - vm_compute. reflexivity.
  - reflexivity.
  - apply (bool_decide_unpack (_ ≤ _)). vm_compute. exact I.
  - exact Hr.
  - exists s. split; [exact Hr|]. split; [exact Hm|]. split; [exact Hi|].
    destruct (H Hm) as (_ & sg & Hg & _ & Hf & _). exists sg. split; [exact Hg|exact Hf].
Defined.
End demo.
