(* ===== verification/Coordinator.v ===== *)
(** * The coordinator and the worker of MapReduce as the repository has them:
    [mr/coordinator.go], [mr/worker.go], [main/mrcoordinator.go]

    They talk over [net/rpc] on a unix socket of the machine.  The coordinator
    offers one method, the example, and is never done; the worker does nothing. *)

From S2P Require Export MapReduce.
#[local] Set Default Proof Using "Type".
Local Open Scope Z_scope.

(** The machine: the user that runs the programs and the sockets on which some
    process listens. *)
Record host := mkHost { uid : Z; listening : gset string }.
Abbreviation K := (M host).

Definition Coordinator : Type := unit.

(** [Coordinator.server]; [e] is whether [net.Listen] fails. *)
Definition server (e : bool) : K unit :=
  sockname ← gets (λ h, coordinatorSock (uid h));
  _ ← modify (λ h, mkHost (uid h) (listening h ∖ {[sockname]}));
  if e then lift (Fatal "listen error:")
  else modify (λ h, mkHost (uid h) ({[sockname]} ∪ listening h)).

Definition MakeCoordinator (e : bool) (files : list string) (nReduce : Z) : K Coordinator :=
  _ ← server e; mret tt.

Definition Done (c : Coordinator) : bool := false.

(** The methods that [rpc.Register] finds on a [Coordinator]: only [Example] has
    the form that [net/rpc] asks for.  The reply that was passed keeps its value
    when the call fails. *)
Definition rpc_serve (rpcname : string) (X : Z) : option Z :=
  if decide (rpcname = "Coordinator.Example") then Some (Example_ X) else None.

(** [call]; [broken] is an error of the connection during the call. *)
Definition call (broken : bool) (rpcname : string) (X Y : Z) : K (bool * Z) :=
  h ← gets id;
  if decide (coordinatorSock (uid h) ∈ listening h) then
    match (if broken then None else rpc_serve rpcname X) with
    | Some Y => mret (true, Y)
    | None => mret (false, Y)
    end
  else lift (Fatal "dialing:").

(** What [CallExample] prints: the reply, or that the call failed. *)
Definition CallExample (broken : bool) : K (option Z) :=
  '(ok, Y) ← call broken "Coordinator.Example" 99 0;
  mret (if (ok : bool) then Some Y else None).

Definition Worker (mapf : string → string → list KeyValue)
  (reducef : string → list string → string) : K unit := mret tt.

(** [main] of [mrcoordinator.go] on the arguments after the name of the program;
    [fuel] bounds the turns of its loop. *)
Fixpoint until_done (fuel : nat) (m : Coordinator) : K unit :=
  match fuel with
  | O => lift Diverge
  | S fuel => if Done m then mret tt else until_done fuel m
  end.
Definition mrcoordinator (fuel : nat) (e : bool) (files : list string) : K unit :=
  match files with
  | [] => lift (Fatal "Usage: mrcoordinator inputfiles...")
  | _ => m ← MakeCoordinator e files 10; until_done fuel m
  end.

(** A worker of the same user reaches the coordinator: the example prints 100 as
    its comment says, unless the connection breaks. *)
Lemma CallExample_100 (broken : bool) (files : list string) (nReduce : Z) (h : host) :
  wp (_ ← MakeCoordinator false files nReduce; CallExample broken)
    (λ Y _, Y = if broken then None else Some 100) h.
Proof.
  unfold MakeCoordinator, server, CallExample, call, wp, mbind, M_bind, gets, modify, mret, M_ret,
    lift. simpl. rewrite decide_True by set_solver. by destruct broken.
Qed.

(** Without a coordinator the worker's process ends. *)
Lemma CallExample_alone (broken : bool) (h : host) :
  coordinatorSock (uid h) ∉ listening h → CallExample broken h = Fatal "dialing:".
Proof.
  intros Hn. unfold CallExample, call, mbind, M_bind, gets, lift. simpl.
  by rewrite decide_False.
Qed.

(** The coordinator of the starting point runs for ever. *)
Lemma mrcoordinator_hangs (fuel : nat) (f : string) (files : list string) (h : host) :
  mrcoordinator fuel false (f :: files) h = Diverge.
Proof.
  unfold mrcoordinator, MakeCoordinator, server, mbind, M_bind, gets, modify, mret, M_ret. simpl.
  generalize (mkHost (uid h) ({[coordinatorSock (uid h)]} ∪ listening h ∖ {[coordinatorSock (uid h)]})).
  intros h'. by induction fuel.
Qed.
