(* ===== verification/Programs.v ===== *)
(** * The programs of MapReduce: [main/mrsequential.go], [main/mrworker.go]

    From the command line to the output file: arguments, plugins, the input files
    and [mr-out-0].  [mrsequential] runs on the disk and leaves one however it ends, so
    what it wrote before an error or a panic would be seen. *)

From S2P Require Export Coordinator.
#[local] Set Default Proof Using "Type".
Local Open Scope nat_scope.

(** ** Plugins *)

Abbreviation mapfun := (string → string → list KeyValue).
Abbreviation reducefun := (string → list string → string).

(** What [Lookup] finds: functions of the types that the programs assert, or
    anything else. *)
Inductive symbol := Sym_map (f : mapfun) | Sym_reduce (f : reducefun) | Sym_other.

Section programs.
(** [plugin.Open]: the symbols of a plugin file, if it can be loaded. *)
Context (Open : string → option (gmap string symbol)).

Definition orFatal {A} (x : option A) (msg : string) : outcome A :=
  match x with Some a => Ret a | None => Fatal msg end.

Definition loadPlugin (filename : string) : outcome (mapfun * reducefun) :=
  p ← orFatal (Open filename) ("cannot load plugin " +:+ filename);
  xmapf ← orFatal (p !! "Map") ("cannot find Map in " +:+ filename);
  mapf ← match xmapf with Sym_map f => Ret f | _ => Panic "interface conversion" end;
  xreducef ← orFatal (p !! "Reduce") ("cannot find Reduce in " +:+ filename);
  reducef ← match xreducef with Sym_reduce f => Ret f | _ => Panic "interface conversion" end;
  Ret (mapf, reducef).

(** The copy in [mrworker.go], and its [main] on the arguments after the name of
    the program. *)
Definition worker_loadPlugin : string → outcome (mapfun * reducefun) := loadPlugin.
Definition mrworker (args : list string) : M host unit :=
  match args with
  | [filename] =>
      '(mapf, reducef) ← lift (worker_loadPlugin filename); Worker mapf reducef
  | _ => lift (Fatal "Usage: mrworker xxx.so")
  end.

(** ** [mrsequential.go] *)

(** The files of the directory by their contents; [unreadable f] is an error of
    [ReadAll] and [uncreatable] one of [os.Create], which the program ignores: what
    it then prints is lost. *)
Abbreviation disk := (gmap string string).
Context (Sort : list KeyValue → list KeyValue) (unreadable : string → bool) (uncreatable : bool).

Definition read_input (mapf : mapfun) (d : disk) (intermediate : list KeyValue) (filename : string)
    : outcome (list KeyValue) :=
  content ← orFatal (d !! filename) ("cannot open " +:+ filename);
  if unreadable filename then Fatal ("cannot read " +:+ filename)
  else Ret (intermediate ++ mapf filename content).

(** A program on the disk: how it ends, and the disk that it leaves, also when it
    ends with an error. *)
Definition prog (A : Type) : Type := disk → outcome A * disk.
#[local] Instance prog_ret : MRet prog := λ A a d, (Ret a, d).
#[local] Instance prog_bind : MBind prog := λ A B f m d,
  match m d with
  | (Ret a, d) => f a d
  | (Fatal w, d) => (Fatal w, d)
  | (Panic w, d) => (Panic w, d)
  | (Diverge, d) => (Diverge, d)
  end.
Definition run {A} (o : outcome A) : prog A := λ d, (o, d).
Definition ls : prog disk := λ d, (Ret d, d).
(** [os.Create], which empties the file, and [Fprintf] to it. *)
Definition write (name text : string) : prog unit :=
  λ d, (Ret tt, if uncreatable then d else <[name := text]> d).

Definition mrsequential_main (args : list string) : prog unit :=
  match args with
  | so :: ((_ :: _) as files) =>
      '(mapf, reducef) ← run (loadPlugin so);
      d ← ls;
      intermediate ← run (ofold (read_input mapf d) [] files);
      let l := Sort intermediate in
      _ ← write "mr-out-0" "";
      out ← run (reduce_loop reducef (S (length l)) l 0 "");
      write "mr-out-0" out
  | _ => run (Fatal "Usage: mrsequential xxx.so inputfiles...")
  end.

(** ** The whole program *)

(** The input files can be opened and read. *)
Definition inputs_ok (d : disk) (names : list string) : Prop :=
  Forall (λ f, is_Some (d !! f) ∧ unreadable f = false) names.
Definition contents (d : disk) (names : list string) : list (string * string) :=
  (λ f, (f, default "" (d !! f))) <$> names.

Lemma read_input_Ret mapf d l f l' :
  read_input mapf d l f = Ret l' ↔
  (is_Some (d !! f) ∧ unreadable f = false) ∧ l' = l ++ mapf f (default "" (d !! f)).
Proof.
  clear Sort Open uncreatable.
  unfold read_input, orFatal. destruct (d !! f) as [c|]; simpl.
  - destruct (unreadable f); split; try naive_solver.
  - split; [done|]. by intros [[[? ?] _] _].
Qed.

Lemma read_inputs mapf d names : ∀ l r,
  ofold (read_input mapf d) l names = Ret r ↔
  inputs_ok d names ∧ r = l ++ intermediate mapf (contents d names).
Proof.
  clear Sort Open uncreatable.
  induction names as [|f names IH]; intros l r; simpl.
  - unfold intermediate. simpl. rewrite app_nil_r. unfold inputs_ok.
    rewrite Forall_nil. naive_solver.
  - rewrite outcome_bind_Ret. setoid_rewrite read_input_Ret. setoid_rewrite IH.
    unfold inputs_ok, intermediate. rewrite Forall_cons. simpl. split.
    + intros (l1 & [Hf ->] & Hn & ->). by rewrite <-app_assoc.
    + intros [[Hf Hn] ->]. eexists. split; [by split|]. by rewrite <-app_assoc.
Qed.

(** What the program needs to print its output. *)
Definition runnable (args : list string) (d : disk) : Prop :=
  ∃ so names fs, args = so :: names ∧ names ≠ [] ∧ loadPlugin so = Ret fs ∧ inputs_ok d names.

Lemma mrsequential_refused (args : list string) (d : disk) :
  ¬ runnable args d → ∃ e, mrsequential_main args d = (e, d) ∧ returns e = false.
Proof.
  intros Hno. destruct args as [|so [|f names]]; [by eexists..|].
  unfold mrsequential_main, run, ls, mbind, prog_bind.
  destruct (loadPlugin so) as [[mapf reducef]|?|?|] eqn:Hld; [|by eexists..].
  destruct (ofold (read_input mapf d) [] (f :: names)) as [r|?|?|] eqn:Hr; [|by eexists..].
  destruct Hno. exists so, (f :: names), (mapf, reducef). split_and!; [done..|].
  by apply read_inputs in Hr as [? _].
Qed.

(** C36: [mrsequential] from its command line.  With a plugin that can be loaded
    and at least one input, all of which can be read, it leaves in [mr-out-0], unless
    that file cannot be created, one line per distinct key of the map outputs, in
    the order of the keys, each with the reduction of the values of the key in some
    order, and changes no other file.  In every other case, too few arguments, a
    plugin that cannot be opened or lacks a function or has one of another type, a
    missing or unreadable input, it ends with an error and leaves the disk as it
    was. *)
Theorem mrsequential_main_correct (args : list string) (d : disk) :
  sorts Sort →
  (∀ so names mapf reducef, args = so :: names → names ≠ [] →
     loadPlugin so = Ret (mapf, reducef) → inputs_ok d names →
     let l := intermediate mapf (contents d names) in
     ∃ ks vs, keys_of l ks ∧ (∀ k, vs k ≡ₚ vals k l) ∧
       mrsequential_main args d =
         (Ret tt, if uncreatable then d
                  else <["mr-out-0" := str_concat ((λ k, line k (reducef k (vs k))) <$> ks)]> d)) ∧
  (¬ runnable args d → ∃ e, mrsequential_main args d = (e, d) ∧ returns e = false).
Proof.
  intros Hsort. split; [|apply mrsequential_refused].
  intros so names mapf reducef -> Hne Hld Hin l.
  destruct (mrsequential_spec mapf reducef Sort (contents d names) Hsort) as (ks & Hks & Hrun).
  exists ks, (λ k, vals k (Sort l)). split; [done|]. split; [intros k; apply vals_perm, Hsort|].
  destruct names as [|f names]; [done|].
  pose proof (proj2 (read_inputs mapf d (f :: names) [] _) (conj Hin eq_refl)) as Hread.
  fold l in Hread. cbn [app] in Hread. unfold mrsequential in Hrun. fold l in Hrun.
  unfold mrsequential_main, run, ls, write, mbind, prog_bind. rewrite Hld.
  cbn beta iota zeta. rewrite Hread. cbn beta iota zeta. rewrite Hrun. cbn beta iota zeta.
  destruct uncreatable; [done|]. by rewrite insert_insert_eq.
Qed.
End programs.

(** ** Word count on two files *)

Definition demo_Open (so : string) : option (gmap string symbol) :=
  if decide (so = "wc.so")
  then Some {["Map" := Sym_map (wc_Map demo_letter); "Reduce" := Sym_reduce wc_Reduce]} else None.
Definition demo_disk : gmap string string := {["f" := "to be, or"; "g" := "not to be"]}.

Definition demo_main : list string → prog unit :=
  mrsequential_main demo_Open demo_sort (λ _, false) false.

Lemma mrsequential_main_correct_witness :
  (∃ ks vs, keys_of (intermediate (wc_Map demo_letter) [("f", "to be, or"); ("g", "not to be")]) ks ∧
     demo_main ["wc.so"; "f"; "g"] demo_disk =
       (Ret tt, <["mr-out-0" := str_concat ((λ k, line k (wc_Reduce k (vs k))) <$> ks)]> demo_disk)) ∧
  ∃ e, demo_main ["wc.so"; "f"; "h"] demo_disk = (e, demo_disk) ∧ returns e = false.
Proof.
  split.
  - destruct (mrsequential_main_correct demo_Open demo_sort (λ _, false) false
      ["wc.so"; "f"; "g"] demo_disk demo_sorts) as [H _].
    destruct (H "wc.so" ["f"; "g"] (wc_Map demo_letter) wc_Reduce eq_refl) as (ks & vs & Hks & _ & Hrun).
    + discriminate.
    + reflexivity.
    + repeat constructor; eexists; vm_compute; reflexivity.
    + exists ks, vs. split; [exact Hks|exact Hrun].
  - destruct (mrsequential_main_correct demo_Open demo_sort (λ _, false) false
      ["wc.so"; "f"; "h"] demo_disk demo_sorts) as [_ H].
    apply H. intros (so & names & fs & [= <- <-] & _ & _ & Hin).
    apply Forall_cons in Hin as [_ [[[x Hx] _] _]%Forall_cons]. vm_compute in Hx. discriminate Hx.
Defined.
