(* ===== verification/Commands.v ===== *)
(** * The programs of earlier labs: [main/diskvd.go], [main/lockc.go],
    [main/lockd.go], [main/pbc.go], [main/pbd.go], [main/viewd.go]

    They read their arguments and call packages that the repository does not
    contain: the servers and clerks of these packages are parameters. *)

From S2P Require Export GoStd.
#[local] Set Default Proof Using "Type".

(** How a program that was started properly ends: it prints and returns, waits for
    ever, or kills itself after some seconds. *)
Inductive ending := E_returns (out : string) | E_waits | E_killed (sec : Z).

(** [fmt.Printf("%v", b)] *)
Definition show_bool (b : bool) : string := if b then "true" else "false".

Section commands.
(** The state of the machine, and a server of [diskv] with its operations. *)
Context {W Srv : Type}.
Context (diskv_StartServer : Z → list string → list string → Z → string → bool → M W Srv).
Context (Setunreliable : Srv → bool → M W unit).

(** ** [diskvd.go] *)

Record options := mkOptions {
  gid : Z;
  masters : list string;
  replicas : list string;
  me : Z;
  unreliable : bool;
  dir : string;
  restart : bool
}.
Definition no_options : options := mkOptions (-1) [] [] (-1) false "" false.

Definition diskvd_usage {A} : outcome A :=
  Fatal "Usage: diskvd -g gid -m master... -s server... -i my-index -d dir".

(** The body of the loop, on an argument and the next one. *)
Definition diskvd_arg (o : options) (a0 a1 : string) : outcome options :=
  let '(mkOptions gid masters replicas me unreliable dir restart) := o in
  if decide (a0 = "-g") then
    Ret (mkOptions (ParseInt a1).1 masters replicas me unreliable dir restart)
  else if decide (a0 = "-m") then
    Ret (mkOptions gid (masters ++ [a1]) replicas me unreliable dir restart)
  else if decide (a0 = "-s") then
    Ret (mkOptions gid masters (replicas ++ [a1]) me unreliable dir restart)
  else if decide (a0 = "-i") then
    Ret (mkOptions gid masters replicas (Atoi a1).1 unreliable dir restart)
  else if decide (a0 = "-u") then
    Ret (mkOptions gid masters replicas me (ParseBool a1).1 dir restart)
  else if decide (a0 = "-d") then
    Ret (mkOptions gid masters replicas me unreliable a1 restart)
  else if decide (a0 = "-r") then
    Ret (mkOptions gid masters replicas me unreliable dir (ParseBool a1).1)
  else diskvd_usage.

(** [for i := 1; i+1 < len(os.Args); i += 2], on the arguments from [i] on. *)
Fixpoint diskvd_args (o : options) (args : list string) : outcome options :=
  match args with
  | a0 :: a1 :: args => o ← diskvd_arg o a0 a1; diskvd_args o args
  | _ => Ret o
  end.

Definition diskvd_bad (o : options) : bool :=
  (gid o <? 0)%Z || (me o <? 0)%Z || bool_decide (length (masters o) < 1) ||
  (Z.of_nat (length (replicas o)) <=? me o)%Z || bool_decide (dir o = "").

Definition diskvd_main (args : list string) : M W ending :=
  o ← lift (diskvd_args no_options (drop 1 args));
  if diskvd_bad o then lift diskvd_usage
  else
    srv ← diskv_StartServer (gid o) (masters o) (replicas o) (me o) (dir o) (restart o);
    _ ← Setunreliable srv (unreliable o);
    mret (E_killed (10 * 60)).

(** ** The clients and servers of the lock and of the primary/backup service *)

Context {Lck Pck : Type}.
Context (lock_MakeClerk : string → string → M W Lck) (Lock Unlock : Lck → string → M W bool).
Context (lock_StartServer : string → string → bool → M W unit).
Context (pb_MakeClerk : string → string → M W Pck) (pb_Get : Pck → string → M W string).
Context (pb_Put : Pck → string → string → M W unit) (pb_StartServer : string → string → M W unit).
Context (view_StartServer : string → M W unit).

Definition lockc_usage {A} : outcome A :=
  Fatal "Usage: lockc -l|-u primaryport backupport lockname".
Definition lockc_main (args : list string) : M W ending :=
  match args with
  | [_; flag; primary; backup; lockname] =>
      ck ← lock_MakeClerk primary backup;
      ok ← (if decide (flag = "-l") then Lock ck lockname
            else if decide (flag = "-u") then Unlock ck lockname
            else lift lockc_usage);
      mret (E_returns ("reply: " +:+ show_bool ok +:+ newline))
  | _ => lift lockc_usage
  end.

Definition lockd_main (args : list string) : M W ending :=
  match args with
  | [_; flag; primary; backup] =>
      if decide (flag = "-p") then _ ← lock_StartServer primary backup true; mret E_waits
      else if decide (flag = "-b") then _ ← lock_StartServer primary backup false; mret E_waits
      else lift (Fatal "Usage: lockd -p|-b primaryport backupport")
  | _ => lift (Fatal "Usage: lockd -p|-b primaryport backupport")
  end.

Definition pbc_usage {A} : outcome A :=
  Fatal ("Usage: pbc viewport key" +:+ newline +:+ "       pbc viewport key value").
Definition pbc_main (args : list string) : M W ending :=
  match args with
  | [_; viewport; key] =>
      ck ← pb_MakeClerk viewport "";
      v ← pb_Get ck key;
      mret (E_returns (v +:+ newline))
  | [_; viewport; key; value] =>
      ck ← pb_MakeClerk viewport "";
      _ ← pb_Put ck key value;
      mret (E_returns "")
  | _ => lift pbc_usage
  end.

Definition pbd_main (args : list string) : M W ending :=
  match args with
  | [_; viewport; myport] => _ ← pb_StartServer viewport myport; mret E_waits
  | _ => lift (Fatal "Usage: pbd viewport myport")
  end.

Definition viewd_main (args : list string) : M W ending :=
  match args with
  | [_; port] => _ ← view_StartServer port; mret E_waits
  | _ => lift (Fatal "Usage: viewd port")
  end.

(** ** What [diskvd] makes of its arguments

    The arguments as pairs of a flag and a value; one at the end is not read. *)
Fixpoint flag_pairs (args : list string) : list (string * string) :=
  match args with a0 :: a1 :: args => (a0, a1) :: flag_pairs args | _ => [] end.
Definition vals (flag : string) (ps : list (string * string)) : list string :=
  snd <$> filter (λ x, x.1 = flag) ps.
Definition last_or {A} (d : A) (f : string → A) (l : list string) : A := default d (f <$> last l).
Definition flags : list string := ["-g"; "-m"; "-s"; "-i"; "-u"; "-d"; "-r"].
Definition known (ps : list (string * string)) : bool := forallb (λ x, bool_decide (x.1 ∈ flags)) ps.

(** Every list of values is taken in order; of the other flags the last counts. *)
Definition meant_from (o : options) (ps : list (string * string)) : options :=
  mkOptions
    (last_or (gid o) (λ a, (ParseInt a).1) (vals "-g" ps))
    (masters o ++ vals "-m" ps)
    (replicas o ++ vals "-s" ps)
    (last_or (me o) (λ a, (Atoi a).1) (vals "-i" ps))
    (last_or (unreliable o) (λ a, (ParseBool a).1) (vals "-u" ps))
    (last_or (dir o) id (vals "-d" ps))
    (last_or (restart o) (λ a, (ParseBool a).1) (vals "-r" ps)).

Lemma last_or_cons {A} (d : A) f a l : last_or d f (a :: l) = last_or (f a) f l.
Proof.
  unfold last_or. destruct l as [|b l]; [done|]. rewrite last_cons_cons.
  destruct (last (b :: l)) eqn:H; [done|]. by apply last_None in H.
Qed.

Lemma vals_cons flag a0 a1 ps :
  vals flag ((a0, a1) :: ps) = if decide (a0 = flag) then a1 :: vals flag ps else vals flag ps.
Proof. unfold vals. rewrite filter_cons. simpl. by case_decide. Qed.

(** One argument with its value, whatever follows. *)
Lemma diskvd_arg_meant o a0 a1 ps :
  (o ← diskvd_arg o a0 a1; Ret (meant_from o ps)) =
  if decide (a0 ∈ flags) then Ret (meant_from o ((a0, a1) :: ps)) else diskvd_usage.
Proof.
  destruct o as [g ms rs i u d r]. unfold meant_from, diskvd_arg. rewrite !vals_cons.
  repeat match goal with
  | |- context [decide (a0 = ?f)] => destruct (decide (a0 = f)) as [->|?]
  end; simpl; rewrite ?last_or_cons, <-?app_assoc; try done.
  destruct (decide (a0 ∈ flags)) as [Hin|]; [|done].
  by repeat (apply elem_of_cons in Hin as [->|Hin]; [done|]); apply elem_of_nil in Hin.
Qed.

Lemma diskvd_args_pairs n : ∀ args o, length args ≤ n →
  diskvd_args o args =
  if known (flag_pairs args) then Ret (meant_from o (flag_pairs args)) else diskvd_usage.
Proof.
  assert (∀ o, meant_from o [] = o) as Hnil.
  { intros []. unfold meant_from. simpl. by rewrite !app_nil_r. }
  induction n as [|n IH]; intros [|a0 [|a1 args]] o Hn; simpl in Hn;
    try lia; try (simpl; by rewrite Hnil).
  pose proof (diskvd_arg_meant o a0 a1 (flag_pairs args)) as H.
  cbn [diskvd_args flag_pairs known forallb fst].
  destruct (decide (a0 ∈ flags)) as [Hin|Hin].
  - rewrite bool_decide_true by done. cbn [andb].
    destruct (diskvd_arg o a0 a1) as [o1|?|?|]; try done.
    cbn [mbind outcome_bind] in *. rewrite IH by lia. fold (known (flag_pairs args)). by rewrite H.
  - rewrite bool_decide_false by done. by destruct (diskvd_arg o a0 a1).
Qed.

(** The arguments that stand for the pairs. *)
Definition print_pairs (ps : list (string * string)) : list string :=
  ps ≫= λ x, [x.1; x.2].

Lemma flag_pairs_print ps extra : length extra ≤ 1 → flag_pairs (print_pairs ps ++ extra) = ps.
Proof.
  intros He. induction ps as [|[a0 a1] ps IH]; simpl.
  - destruct extra as [|? [|? ?]]; (done || simpl in He; lia).
  - f_equal. exact IH.
Qed.

Lemma diskvd_main_pairs args w :
  let ps := flag_pairs (drop 1 args) in
  let o := meant_from no_options ps in
  diskvd_main args w =
  if known ps && negb (diskvd_bad o) then
    (srv ← diskv_StartServer (gid o) (masters o) (replicas o) (me o) (dir o) (restart o);
     _ ← Setunreliable srv (unreliable o);
     mret (E_killed (10 * 60))) w
  else diskvd_usage.
Proof.
  intros ps o. unfold diskvd_main, lift, mbind, M_bind.
  rewrite (diskvd_args_pairs (length (drop 1 args))) by done. fold ps. fold o.
  destruct (known ps); [|done]. simpl. by destruct (diskvd_bad o).
Qed.

(** A number as it is written for [Atoi] and [ParseInt], whose errors the program
    drops: what has no syntax of a number stands for 0. *)
Definition reads_as (a : string) (n : Z) : Prop :=
  a = Itoa n ∨ (ParseInt a).2 = Some ErrSyntax ∧ n = 0%Z.

(** The pairs say everything that a server needs. *)
Record describes (ps : list (string * string)) (o : options) : Prop := {
  ds_known : known ps = true;
  ds_gid : ∃ a, last (vals "-g" ps) = Some a ∧ reads_as a (gid o);
  ds_masters : vals "-m" ps = masters o;
  ds_replicas : vals "-s" ps = replicas o;
  ds_me : ∃ a, last (vals "-i" ps) = Some a ∧ reads_as a (me o);
  ds_unreliable : last (vals "-u" ps) = Some (show_bool (unreliable o)) ∨
    vals "-u" ps = [] ∧ unreliable o = false;
  ds_dir : last (vals "-d" ps) = Some (dir o);
  ds_restart : last (vals "-r" ps) = Some (show_bool (restart o)) ∨
    vals "-r" ps = [] ∧ restart o = false
}.
Record valid_options (o : options) : Prop := {
  vo_gid : (0 ≤ gid o < 2 ^ 63)%Z;
  vo_masters : masters o ≠ [];
  vo_me : (0 ≤ me o < Z.of_nat (length (replicas o)))%Z ∧ (me o < 2 ^ 63)%Z;
  vo_dir : dir o ≠ ""
}.

Lemma ParseBool_show b : (ParseBool (show_bool b)).1 = b.
Proof. by destruct b. Qed.

Lemma ParseInt_syntax a : (ParseInt a).2 = Some ErrSyntax → (ParseInt a).1 = 0%Z.
Proof.
  unfold ParseInt. destruct a as [|b a]; [done|].
  destruct (int_sign _) as [neg s]. destruct (ParseUint s) as [un err].
  case_decide; [done|]. by repeat case_match.
Qed.

Lemma reads_as_ParseInt a n : (0 ≤ n < 2 ^ 63)%Z → reads_as a n → (ParseInt a).1 = n.
Proof.
  intros Hn [->|[Ha ->]]; [rewrite ParseInt_Itoa by lia; done|by apply ParseInt_syntax].
Qed.

Lemma described_meant ps o :
  describes ps o → valid_options o → meant_from no_options ps = o.
Proof.
  intros [_ (g & Hg & Hga) Hm Hs (i & Hi & Hia) Hu Hd Hr] [Hvg _ [Hvi Hvi'] _].
  unfold meant_from, last_or. rewrite Hg, Hm, Hs, Hi, Hd. simpl.
  rewrite Atoi_ParseInt, (reads_as_ParseInt g _ Hvg Hga), (reads_as_ParseInt i (me o)) by (done || lia).
  assert (∀ l b, last l = Some (show_bool b) ∨ l = [] ∧ b = false →
    default false ((λ a, (ParseBool a).1) <$> last l) = b) as Hb.
  { intros l b [->|[-> ->]]; [apply ParseBool_show|done]. }
  rewrite (Hb _ _ Hu), (Hb _ _ Hr). by destruct o.
Qed.

(** C37: [diskvd] and its arguments.  Whatever describes a server, in any order and
    with or without a stray argument at the end, makes the program start exactly
    that server and kill itself after ten minutes, where a group or an index that
    has not the syntax of a number describes group 0 or server 0, since the program
    drops the error of the conversion.  Without a group, a directory, a master,
    replicas or an index among them, with an index that is too large, or with a flag
    that it does not know, it ends with its usage and starts nothing. *)
Theorem diskvd_main_correct (w : W) (prog : string) (ps : list (string * string))
    (extra : list string) :
  length extra ≤ 1 →
  (∀ o srv w1 w2, describes ps o → valid_options o →
     diskv_StartServer (gid o) (masters o) (replicas o) (me o) (dir o) (restart o) w = Ret (srv, w1) →
     Setunreliable srv (unreliable o) w1 = Ret (tt, w2) →
     diskvd_main (prog :: print_pairs ps ++ extra) w = Ret (E_killed (10 * 60), w2)) ∧
  (known ps = false ∨ vals "-g" ps = [] ∨ vals "-m" ps = [] ∨ vals "-s" ps = [] ∨
     vals "-i" ps = [] ∨ last_or "" id (vals "-d" ps) = "" ∨
     (∃ i, (Z.of_nat (length (vals "-s" ps)) ≤ i < 2 ^ 63)%Z ∧ last (vals "-i" ps) = Some (Itoa i)) →
   diskvd_main (prog :: print_pairs ps ++ extra) w = diskvd_usage).
Proof.
  intros He. pose proof (diskvd_main_pairs (prog :: print_pairs ps ++ extra) w) as Hmain.
  cbv zeta in Hmain. change (drop 1 (prog :: print_pairs ps ++ extra)) with (print_pairs ps ++ extra) in Hmain.
  rewrite (flag_pairs_print ps extra He) in Hmain. split.
  - intros o srv w1 w2 Hd Hv Hs Hu. rewrite Hmain, (ds_known _ _ Hd), (described_meant ps o Hd Hv).
    assert (diskvd_bad o = false) as ->.
    { destruct Hv as [Hg Hm Hi Hdir]. unfold diskvd_bad.
      rewrite !orb_false_iff, !bool_decide_eq_false, Z.ltb_ge, Z.ltb_ge, Z.leb_gt.
      split_and!; [lia|lia| |lia|done]. destruct (masters o); [done|simpl; lia]. }
    cbn [negb andb]. unfold mbind, M_bind. by rewrite Hs, Hu.
  - intros Hbad. rewrite Hmain. destruct (known ps) eqn:Hk; [|done].
    assert (diskvd_bad (meant_from no_options ps) = true) as ->; [|done].
    unfold diskvd_bad. rewrite !orb_true_iff, !bool_decide_eq_true, Z.ltb_lt, Z.ltb_lt, Z.leb_le.
    unfold meant_from. cbn [gid masters replicas me dir no_options app].
    destruct Hbad as [?|[->|[->|[->|[->|[->|(i & Hi & Hlast)]]]]]]; [done|..].
    + by do 4 left.
    + left; left; right. simpl. lia.
    + simpl. lia.
    + do 3 left. right. done.
    + by right.
    + left; right. unfold last_or. rewrite Hlast. simpl. rewrite Atoi_Itoa; simpl; lia.
Qed.
End commands.

(** ** A server of a test of [diskv] *)

Definition demo_args : list (string * string) :=
  [("-m", "/tmp/m0"); ("-g", "100"); ("-s", "/tmp/s0"); ("-s", "/tmp/s1"); ("-i", "1");
   ("-m", "/tmp/m1"); ("-u", "true"); ("-d", "/tmp/dir")].
Definition demo_options : options :=
  mkOptions 100 ["/tmp/m0"; "/tmp/m1"] ["/tmp/s0"; "/tmp/s1"] 1 true "/tmp/dir" false.

(** A machine that records what was started on it. *)
Definition demo_start (g : Z) (ms rs : list string) (i : Z) (d : string) (r : bool)
    : M (list options) nat :=
  λ w, Ret (length w, w ++ [mkOptions g ms rs i false d r]).
Definition demo_unreliable (srv : nat) (b : bool) : M (list options) unit :=
  modify (alter (λ o, mkOptions (gid o) (masters o) (replicas o) (me o) b (dir o) (restart o)) srv).

Lemma diskvd_main_correct_witness :
  diskvd_main demo_start demo_unreliable ("diskvd" :: print_pairs demo_args ++ ["-r"]) []
    = Ret (E_killed 600, [demo_options]) ∧
  diskvd_main demo_start demo_unreliable ["diskvd"] [] = diskvd_usage ∧
  diskvd_main demo_start demo_unreliable
    ["diskvd"; "-g"; "1"; "-m"; "m"; "-s"; "s"; "-i"; "one"; "-d"; "d"] []
    = Ret (E_killed 600, [mkOptions 1 ["m"] ["s"] 0 false "d" false]).
Proof.
  split_and!.
  - destruct (diskvd_main_correct demo_start demo_unreliable [] "diskvd" demo_args ["-r"])
      as [H _]; [simpl; lia|].
    apply (H demo_options 0 [mkOptions 100 ["/tmp/m0"; "/tmp/m1"] ["/tmp/s0"; "/tmp/s1"] 1 false
      "/tmp/dir" false]).
    + split; try reflexivity; [| |by left|by right];
        (eexists; split; [reflexivity|by left]).
    + split; simpl; (done || lia).
    + reflexivity.
    + reflexivity.
  - destruct (diskvd_main_correct demo_start demo_unreliable [] "diskvd" [] []) as (_ & H);
      [simpl; lia|].
    apply H. right. by left.
  - destruct (diskvd_main_correct demo_start demo_unreliable [] "diskvd"
      [("-g", "1"); ("-m", "m"); ("-s", "s"); ("-i", "one"); ("-d", "d")] []) as [H _];
      [simpl; lia|].
    apply (H (mkOptions 1 ["m"] ["s"] 0 false "d" false) 0 [mkOptions 1 ["m"] ["s"] 0 false "d" false]).
    + split; try reflexivity; [| |by right|by right]; (eexists; split; [reflexivity|]);
        [by left|by right].
    + split; simpl; (done || lia).
    + reflexivity.
    + reflexivity.
Defined.
