(* ===== verification/NetRaces.v ===== *)
(** * The tests with many clients over the simulated network: [kvtest1/kvtest.go]

    What Races.v proves of clients that append and put at the same time over a lossy
    channel holds over the network of Labrpc.v. *)

From S2P Require Export Races Networked.
#[local] Set Default Proof Using "Type".
Local Open Scope Z_scope.

Section races.
Context {W : Type} `{KS : KVServer W} `{KD : !KVServerDoc W} `{CK : KVClerk} `{CD : !KVClerkDoc}.
Context (enc : kv_val → list Z * bool) (dec : kv_val → list Z → kv_val * bool).
#[local] Instance races_values : GoValues kv_val kv_ty := kv_values enc dec.
Context (end_of : nat → iface) (n : name) (p : sptr).
Context (Hgob : GobLaws kv_val kv_ty) (Henc : ∀ v, v ≠ V_KVServer → (enc v).2 = true).
Abbreviation net := (@Labrpc.sys kv_val kv_ty W).
(** The server stays reachable for the whole test. *)
Definition calm_run (tr : list nevent) : Prop := Forall (ncalm end_of n) tr.
(** The server is reachable, and earlier requests are over. *)
Definition ready (m : net) : Prop := idle end_of n p m.
(** The keys on the server. *)
Definition keys_of (m : net) : kvstore := kv_map (s_world m).

(** C12: the test with clients that append at the same time passes over the network.
    For every server and clerk that are as documented, from a list that is empty at
    version 1 under "k", as long as the tester leaves the server reachable: whatever
    the schedule of the clients and of the goroutines of the network, and whatever it
    loses, delays and reorders, when all results are collected the server holds a
    list under a version that [CheckAppends] accepts for these results. *)
Theorem network_appends_pass `{JE : Json (list entry)} `{JL : !JsonLaws (list entry) [] }
    (nclnt iters fuel n0 : nat) (m : net) (v0 : string) (now : Z) (tr : list nevent)
    (rs : list ClntRes) (s : @nsys W ClntRes) :
  ready m → calm_run tr → Marshal (E:=list entry) [] = Some v0 →
  keys_of m !! "k" = Some (v0, 1) → versions_le (Z.of_nat n0) (keys_of m) →
  Z.of_nat (n0 + length tr) < 2 ^ 63 → Z.of_nat iters < 2 ^ 63 - 1 →
  nSpawnClientsAndWait enc dec end_of nclnt (λ c, pOneClientAppend iters fuel (Z.of_nat c) 0 0 0)
    m now tr = Some (rs, s) →
  ∃ v ver es, keys_of (n_net s) !! "k" = Some (v, ver) ∧ Unmarshal v [] = Some es ∧
    CheckAppends (entriesN es) nclnt rs ver = Ret tt.
Proof using KD CD Hgob Henc.
  intros Hid Hc Hv0 Hk Hvers Hb Hit Hrun.
  destruct (network_spawn enc dec end_of n p Hgob Henc nclnt _ m now tr rs s Hid Hc Hrun)
    as (tr' & s' & Hlen & Hrun' & Hst & _). unfold keys_of. rewrite <-Hst.
  by eapply (appends_pass nclnt iters fuel n0 (keys_of m) v0 now tr'); [..|exact Hrun']; try lia.
Qed.

(** Two phases over the network: clients that put at the same time, and then the
    check by a clerk of the test. *)
Section puts.
Context `{JE : Json EntryV} `{JL : !JsonLaws EntryV (mkEntryV 0 0) }.
Context (reliable : bool) (key : string) (nclnt iters fuel : nat).
Definition put_clients (c : nat) : prog ClntRes :=
  pOneClientPut iters fuel false (Z.of_nat c) [key] ∅ (mkRes 0 0).
Definition put_check (rs : list ClntRes) (_ : nat) : prog ClntRes :=
  pCheckPutConcurrent key rs (mkRes 0 0) reliable.

Lemma spawn_phase (m : net) now tr rs (s : @nsys W ClntRes) :
  nSpawnClientsAndWait enc dec end_of nclnt put_clients m now tr = Some (rs, s) →
  nrun enc dec end_of tr (nnext_phase nclnt put_clients (nstart m now)) = Some s ∧
  nreturned s = Some rs.
Proof using Type.
  unfold nSpawnClientsAndWait. intros Hrun.
  apply bind_Some in Hrun as (s1 & Hrun & Hres). apply bind_Some in Hres as (rs1 & Hres & [= <- <-]).
  split; [done|]. unfold ncollect_results in Hres. by destruct (n_sends s1) as [[|?]|].
Qed.

(** The abstract runs behind the two phases, and what they end in. *)
Lemma network_puts (n0 : nat) (m : net) (now : Z) (tr1 tr2 : list nevent) (rs : list ClntRes)
    (s1 s2 : @nsys W ClntRes) :
  ready m → calm_run (tr1 ++ tr2) → (reliable = true → lossless m ∧ Forall steady (tr1 ++ tr2)) →
  keys_of m !! key = None → versions_le (Z.of_nat n0) (keys_of m) →
  Z.of_nat (n0 + length (tr1 ++ tr2)) < 2 ^ 64 →
  nSpawnClientsAndWait enc dec end_of nclnt put_clients m now tr1 = Some (rs, s1) →
  Exists (λ r, 0 < Nok r + Nmaybe r) rs → zsum Nok rs + zsum Nmaybe rs < 2 ^ 63 →
  nrun enc dec end_of tr2 (nnext_phase 1 (put_check rs) s1) = Some s2 →
  let fate := fate_of (n_net s2) in
  put_enough key reliable rs (keys_of (n_net s1)) ∧
  log_clean (abs dec fate s2) ∧
  (∀ st why, s_clients (abs dec fate s2) !! 0%nat = Some st →
     st ≠ CS_run (P_fail why) ∧ st ≠ CS_run (P_panic why)) ∧
  (∀ r, returned (abs dec fate s2) = Some [r] → r = totals rs).
Proof using JL KD CD Hgob Henc.
  intros Hid [Hc1 Hc2]%Forall_app Hrel Hk Hvers Hb Hrun1 Hput Hfit Hrun2 fate.
  rewrite length_app in Hb. apply spawn_phase in Hrun1 as [Hrun1 Hres].
  destruct (network_two_phases enc dec end_of n p Hgob Henc nclnt 1 put_clients (put_check rs)
    tr1 tr2 rs (nstart m now) s1 s2 Hid Hc1 Hc2 Hrun1 Hres Hrun2)
    as (tr1' & tr2' & Hl1 & Hl2 & Hr1 & Hr2 & Hno).
  apply (nreturned_abs dec fate) in Hres.
  destruct (puts_phase reliable key nclnt iters fuel n0 (abs dec fate (nstart m now))
    (abs dec fate s1) tr1' rs) as (Henough & Hlog & Hvers1); try done; [by intros o ?%elem_of_nil|lia| |].
  { destruct reliable; [|by apply Forall_true; intros e; left].
    destruct (Hrel eq_refl) as [Hl Hs]. eapply Forall_impl; [by apply Hno|]. intros e He. by right. }
  split; [done|].
  eapply (check_phase key reliable rs _ (abs dec fate s1) (abs dec fate s2) tr2'); try done. lia.
Qed.

(** C14: the test with clients that put at the same time passes over the network.
    For every server and clerk that are as documented, with a key that does not exist
    before, at least one put, and as long as the tester leaves the server reachable:
    whatever the schedule and the losses, the version of the key lies between the
    puts that the clients counted as done and those counted as done or maybe done; on
    a network that is and stays reliable it is exactly the number of puts.  Then
    [CheckPutConcurrent], run by one more client over the same network, never fails,
    whatever the schedule, and what it returns are the totals. *)
Theorem network_puts_pass (n0 : nat) (m : net) (now : Z) (tr1 tr2 : list nevent)
    (rs : list ClntRes) (s1 s2 : @nsys W ClntRes) :
  ready m → calm_run (tr1 ++ tr2) → (reliable = true → lossless m ∧ Forall steady (tr1 ++ tr2)) →
  keys_of m !! key = None → versions_le (Z.of_nat n0) (keys_of m) →
  Z.of_nat (n0 + length (tr1 ++ tr2)) < 2 ^ 64 →
  nSpawnClientsAndWait enc dec end_of nclnt put_clients m now tr1 = Some (rs, s1) →
  Exists (λ r, 0 < Nok r + Nmaybe r) rs → zsum Nok rs + zsum Nmaybe rs < 2 ^ 63 →
  nrun enc dec end_of tr2 (nnext_phase 1 (put_check rs) s1) = Some s2 →
  (∃ v ver, keys_of (n_net s1) !! key = Some (v, ver) ∧
     zsum Nok rs ≤ ver ≤ zsum Nok rs + zsum Nmaybe rs ∧ (reliable = true → ver = zsum Nok rs)) ∧
  (∀ why, n_clients s2 !! 0%nat ≠ Some (NC_run (P_fail why)) ∧
          n_clients s2 !! 0%nat ≠ Some (NC_run (P_panic why))) ∧
  (∀ r, nreturned s2 = Some [r] → r = mkRes (zsum Nok rs) (zsum Nmaybe rs)).
Proof using JL KD CD Hgob Henc.
  intros Hid Hc Hrel Hk Hvers Hb Hrun1 Hput Hfit Hrun2.
  destruct (network_puts n0 m now tr1 tr2 rs s1 s2) as ((v & ver & e & H1 & _ & [_ H2] & H3 & H4) & _ &
    Hfail & Hret); try done.
  split; [by exists v, ver|]. split; [|by intros r Hr; apply Hret, nreturned_abs].
  intros why. split; intros Hst; apply (abs_lookup dec (fate_of (n_net s2))) in Hst;
    by destruct (Hfail _ why Hst).
Qed.
End puts.
End races.

(** ** Runs over the network of Networked.v *)

#[local] Existing Instances demo_server demo_server_doc demo_clerk demo_clerk_doc.
#[local] Existing Instances entries_json entries_json_laws entryv_json entryv_json_laws.
#[local] Instance net_values : GoValues kv_val kv_ty := kv_values demo_enc demo_dec.

(** The network with a store, lossy or reliable. *)
Definition demo_net_with (rel : bool) (w : kvstore) : @Labrpc.sys kv_val kv_ty demo_state :=
  Labrpc.mkSys (Reliable rel (s_net demo_net)) (s_heap demo_net) (w, 0%nat) ∅ true.

Lemma demo_ready rel w : idle demo_end (NStr "server") 0 (demo_net_with rel w).
Proof. split; [apply demo_net_wired|]. intros id g Hg. simpl in Hg. by rewrite lookup_empty in Hg. Qed.
Lemma demo_lossless w : lossless (demo_net_with true w).
Proof. split; [done|]. intros id g Hg. simpl in Hg. by rewrite lookup_empty in Hg. Qed.

(** One call of a client, from its first step to its last. *)
Definition ncall (c id : nat) : list (@nevent) :=
  [NE_begin c; NE_send c id] ++ deliver id 500 ++ finish id 500 ++ [NE_answer c; NE_return c].

(** The reply to the second call of client 0 is lost. *)
Definition net_appends_tr : list (@nevent) :=
  [NE_poll 0 false] ++ ncall 0 0 ++ [NE_begin 0; NE_send 0 1] ++ deliver 1 500 ++ finish 1 0 ++
  [NE_answer 0; NE_poll 1 false] ++ ncall 1 2 ++ ncall 1 3 ++ [NE_send 0 4] ++ deliver 4 500 ++
  finish 4 500 ++ [NE_answer 0; NE_return 0; NE_stop; NE_poll 0 true; NE_poll 1 true].
#[local] Abbreviation net_appends_run :=
  (nSpawnClientsAndWait demo_enc demo_dec demo_end 2
     (λ c, pOneClientAppend 9 9 (Z.of_nat c) 0 0 0) (demo_net_with false appends_start) 0
     net_appends_tr).

Lemma network_appends_pass_witness :
  ∃ s, net_appends_run = Some ([mkRes 0 1; mkRes 1 0], s) ∧
  ∃ v ver es, keys_of (n_net s) !! "k" = Some (v, ver) ∧ Unmarshal v [] = Some es ∧
    CheckAppends (entriesN es) 2 [mkRes 0 1; mkRes 1 0] ver = Ret tt.
Proof.
  assert (fst <$> net_appends_run = Some [mkRes 0 1; mkRes 1 0]) as Hrs by (vm_compute; reflexivity).
  destruct net_appends_run as [[rs s]|] eqn:Hrun; [|discriminate Hrs].
  injection Hrs as ->. exists s. split; [done|].
  apply (network_appends_pass demo_enc demo_dec demo_end (NStr "server") 0 demo_gob demo_enc_ok
    2 9 9 1 (demo_net_with false appends_start) (Races.digits (encode ([] : list (Z * Z)))) 0
    net_appends_tr).
  - apply demo_ready.
  - repeat constructor.
  - reflexivity.
  - vm_compute. reflexivity.
  - intros k v ver Hk. change (keys_of (demo_net_with false appends_start)) with appends_start in Hk.
    unfold appends_start in Hk. apply lookup_singleton_Some in Hk as [_ [= _ <-]]. lia.
  - vm_compute. reflexivity.
  - reflexivity.
  - exact Hrun.
Defined.

(** Two clients put over a reliable network, and their requests are under way at the
    same time. *)
Definition net_puts_tr : list (@nevent) :=
  [NE_poll 0 false; NE_poll 1 false; NE_begin 1; NE_send 1 0; NE_begin 0; NE_send 0 1] ++
  deliver 1 0 ++ deliver 0 0 ++ finish 1 0 ++ [NE_answer 0; NE_return 0] ++ finish 0 0 ++
  [NE_answer 1; NE_return 1] ++ ncall 1 3 ++ ncall 0 4 ++ ncall 1 5 ++ ncall 1 6 ++
  [NE_stop; NE_poll 1 true; NE_poll 0 true].
(** Then the tester reads the key. *)
Definition net_check_tr : list (@nevent) := ncall 0 7.
#[local] Abbreviation net_puts_run :=
  (nSpawnClientsAndWait demo_enc demo_dec demo_end 2
     (put_clients "k" 9 9) (demo_net_with true ∅) 0 net_puts_tr).

Lemma network_puts_pass_witness :
  ∃ s1 s2 v, net_puts_run = Some ([mkRes 1 0; mkRes 1 0], s1) ∧
    nrun demo_enc demo_dec demo_end net_check_tr
      (nnext_phase 1 (put_check true "k" [mkRes 1 0; mkRes 1 0]) s1) = Some s2 ∧
    keys_of (n_net s1) !! "k" = Some (v, 2) ∧ nreturned s2 = Some [mkRes 2 0].
Proof.
  assert (('(rs, s1) ← net_puts_run;
    s2 ← nrun demo_enc demo_dec demo_end net_check_tr
      (nnext_phase 1 (put_check true "k" [mkRes 1 0; mkRes 1 0]) s1);
    r ← nreturned s2; Some (rs, length r)) = Some ([mkRes 1 0; mkRes 1 0], 1%nat)) as Hrs
    by (vm_compute; reflexivity).
  destruct net_puts_run as [[rs s1]|] eqn:Hrun1; [|discriminate Hrs].
  cbn [mbind option_bind] in Hrs. destruct (nrun _ _ _ _ _) as [s2|] eqn:Hrun2; [|discriminate Hrs].
  cbn [mbind option_bind] in Hrs. destruct (nreturned s2) as [[|r [|? ?]]|] eqn:Hr; try discriminate Hrs.
  injection Hrs as ->.
  destruct (network_puts_pass demo_enc demo_dec demo_end (NStr "server") 0 demo_gob demo_enc_ok
    true "k" 2 9 9 0 (demo_net_with true ∅) 0 net_puts_tr net_check_tr
    [mkRes 1 0; mkRes 1 0] s1 s2) as ((v & ver & H1 & _ & H2) & _ & H3).
  - apply demo_ready.
  - repeat constructor.
  - intros _. split; [apply demo_lossless|]. repeat (constructor; [discriminate|]). constructor.
  - reflexivity.
  - intros k v ver Hk. simpl in Hk. by rewrite lookup_empty in Hk.
  - vm_compute. reflexivity.
  - exact Hrun1.
  - left. vm_compute. reflexivity.
  - vm_compute. reflexivity.
  - exact Hrun2.
  - rewrite (H2 eq_refl) in H1. rewrite (H3 r Hr) in Hr. exists s1, s2, v. by split_and!.
Defined.
