(* ===== verification/EndToEnd.v ===== *)
(** * A whole test of the key/value service: from [MakeConfig] to [checkPorcupine]

    [kvsrv1/test.go], [tester1/config.go], [kvtest1/kvtest.go],
    [kvtest1/porcupine.go]: the configuration of World.v supplies the network on
    which the clients of Networked.v run. *)

From S2P Require Export World NetRaces.
#[local] Set Default Proof Using "Type".

Section test.
Context {IService W : Type} `{KS : KVServer W} `{KD : !KVServerDoc W}
  `{CK : KVClerk} `{CD : !KVClerkDoc}.
Context (enc : kv_val → list Z * bool) (dec : kv_val → list Z → kv_val * bool).
#[local] Instance test_values : GoValues kv_val kv_ty := kv_values enc dec.
Context (svc_tname : IService → string) (svc_refl : IService → list (@Method kv_val kv_ty W))
  (Kill : IService → store * W → store * W) (crand : nat → nat → list Z)
  (mks : list ClientEnd → Tgid → nat → nat → store * W →
         list (option IService) * (store * W)).
Context (limit : nat) `{LB : !Labs Kill crand mks limit}.
Context (Hgob : GobLaws kv_val kv_ty) (Henc : ∀ v, v ≠ V_KVServer → (enc v).2 = true).
Abbreviation Config := (@Config kv_val kv_ty W IService).

(** The end that a clerk of the configuration has made to a server. *)
Definition clerk_end (c : Config) (server : string) (q : nat) : iface :=
  match clerk_at c q with
  | Some ck => (λ e, NStr (end_name e)) <$> c_ends ck !! server
  | None => None
  end.

(** The test is about to start its clients: in a configuration that tests can
    reach, server [b] of group [g] runs the service, with an empty store, and the
    clerk [q i] of client [i] has an end to it. *)
Record kv_setup (c : Config) (g : Tgid) (b : nat) (q : nat → nat) (sg : @ServerGrp IService)
    : Prop := {
  ks_reach : config_reachable svc_tname svc_refl Kill crand mks limit c;
  ks_group : group_at c g = Some sg;
  ks_server : ∃ sb svc, srvs sg !! b = Some sb ∧ Some svc ∈ svcs sb ∧
    NoDup (option_map svc_tname <$> svcs sb) ∧
    svc_tname svc = "KVServer" ∧ svc_refl svc = kv_methods;
  ks_clerks i : ∃ ck, clerk_at c (q i) = Some ck ∧ is_Some (c_ends ck !! ServerName g b) ∧
    reach (ck, cf_t c) (ServerName g b) = true;
  ks_empty : kv_map (t_env (cf_t c)).2 = ∅
}.

(** Then the network is wired as the clients need it. *)
Lemma setup_wired c g b q sg :
  kv_setup c g b q sg →
  ∃ p, wired (λ i, clerk_end c (ServerName g b) (q i)) (NStr (ServerName g b)) p (sys_of (sg, cf_t c)).
Proof using LB.
  intros [Hok%config_reachable_ok Hsg (sb & svc & Hb & Hin & Hnd & Hname & Hrefl) Hck _].
  2: exact LB.
  destruct (group_at_gid _ _ _ _ _ _ Hok Hsg) as [Hgid Hgok].
  destruct (ok_served _ _ _ _ Hgok b sb Hb) as (sb' & p & rs & Hb' & Hreg & Hat & Hlab).
  { intros H0. rewrite H0 in Hin. by apply elem_of_nil in Hin. }
  simpl in Hb', Hat, Hlab. rewrite Hgid in Hat. assert (sb' = sb) as -> by congruence.
  exists p. split; [|split].
  - intros i. destruct (Hck i) as (ck & Hcki & [e He] & Hre).
    pose proof (clerk_at_wfc _ _ _ _ _ _ Hok Hcki) as Hwf.
    destruct (reached_end (ck, cf_t c) _ _ Hwf He) as (_ & Hconn & Hen).
    unfold clerk_end. rewrite Hcki, He. simpl in *. by rewrite Hre in Hen.
  - done.
  - exists rs. split; [done|].
    pose proof (register_lookup svc_tname svc_refl (svcs sb) svc rs Hreg Hnd Hin) as H.
    by rewrite Hname, Hrefl in H.
Qed.

(** C1: the test in which clients put at the same time passes as a whole.  For every
    server and clerk that are as documented: from every configuration that a test can
    reach and in which the server runs the service with an empty store and all clerks
    have enabled ends to it, as long as the tester leaves that server reachable and at
    least one put was made, and whatever the schedule and the losses of the network:
    [CheckPutConcurrent] never fails and returns the totals, the history that was
    logged is linearizable, and [checkPorcupine] returns. *)
Theorem put_concurrent_passes `{JE : Json EntryV} `{JL : !JsonLaws EntryV (mkEntryV 0 0) }
    (c : Config) (g : Tgid) (b : nat) (q : nat → nat) (sg : @ServerGrp IService)
    (reliable : bool) (key : string) (nclnt iters fuel : nat) (now : Z)
    (tr1 tr2 : list nevent) (rs : list ClntRes) (s1 s2 : @nsys W ClntRes)
    (CheckOperations : list Operation → Z → CheckResult)
    (clock : nat → Z) (enabled : string) (opens : bool) (nsec : Z) (w : Annotation.world) :
  kv_setup c g b q sg → checker_sound CheckOperations →
  let e := λ i, clerk_end c (ServerName g b) (q i) in
  calm_run e (NStr (ServerName g b)) (tr1 ++ tr2) →
  (reliable = true → IsReliable (t_net (cf_t c)) = true ∧ Forall steady (tr1 ++ tr2)) →
  (Z.of_nat (length (tr1 ++ tr2)) < 2 ^ 64)%Z →
  nSpawnClientsAndWait enc dec e nclnt (put_clients key iters fuel) (sys_of (sg, cf_t c)) now tr1
    = Some (rs, s1) →
  Exists (λ r, 0 < Nok r + Nmaybe r)%Z rs → (zsum Nok rs + zsum Nmaybe rs < 2 ^ 63)%Z →
  nrun enc dec e tr2 (nnext_phase 1 (put_check reliable key rs) s1) = Some s2 →
  (∀ why, n_clients s2 !! 0 ≠ Some (NC_run (P_fail why)) ∧
          n_clients s2 !! 0 ≠ Some (NC_run (P_panic why))) ∧
  ∀ r, nreturned s2 = Some [r] →
    r = mkRes (zsum Nok rs) (zsum Nmaybe rs) ∧ linearizable (n_log s2) ∧
    wp (checkPorcupine CheckOperations clock enabled opens (n_log s2) nsec) (λ _ _, True) w.
Proof using LB KD CD Hgob Henc.
  intros Hset Hsound e Hcalm Hrel Hb Hrun1 Hput Hfit Hrun2.
  destruct (setup_wired c g b q sg Hset) as [p Hw]. fold e in Hw.
  destruct (network_puts enc dec e (NStr (ServerName g b)) p Hgob Henc reliable key nclnt iters fuel 0
    (sys_of (sg, cf_t c)) now tr1 tr2 rs s1 s2) as (_ & Hlog & Hfail & Hret); try done.
  { intros Ht. destruct (Hrel Ht) as [Hr Hs]. split; [|done]. split; [done|].
    intros id x Hx. simpl in Hx. by rewrite lookup_empty in Hx. }
  1-2: unfold keys_of; simpl; rewrite (ks_empty _ _ _ _ _ Hset).
  { apply lookup_empty. }
  { intros k v ver Hk. by rewrite lookup_empty in Hk. }
  split.
  { intros why. split; intros Hst; apply (abs_lookup dec (fate_of (n_net s2))) in Hst;
      by destruct (Hfail _ why Hst). }
  intros r Hr. split; [by apply Hret, nreturned_abs|].
  apply spawn_phase in Hrun1 as [Hrun1 Hres].
  assert (linearizable (n_log s2)) as Hlin; [|split; [done|]].
  - apply (network_linearizable enc dec e (NStr (ServerName g b)) p Hgob Henc
      [(nclnt, put_clients key iters fuel, tr1); (1, put_check reliable key rs, tr2)]
      (sys_of (sg, cf_t c)) now s2 Hw); [done|apply Hset| | | |exact Hlog].
    + apply Forall_app in Hcalm as [??]. by repeat constructor.
    + cbn [nrun_phases]. rewrite Hrun1. cbn [mbind option_bind]. rewrite Hres. cbn [mbind option_bind].
      rewrite Hrun2. cbn [mbind option_bind]. by rewrite Hr.
    + rewrite length_app in Hb. unfold nsteps_of. simpl. lia.
  - eapply wp_mono; [by apply checkPorcupine_not_refused, Hsound|]. done.
Qed.

(** C2: a test of the service passes its linearizability check, from the
    configuration to the verdict.  For every server and clerk that are as
    documented: from every configuration that a test can reach and in which the
    server runs the service with an empty store and all clerks have enabled ends to
    it, as long as the tester leaves that server reachable: whatever the phases of
    concurrent clients do over the simulated network, however their requests, the
    goroutines of the network and the tester's other operations interleave, and
    whatever is lost, delayed or reordered, the history that is logged is
    linearizable, and [checkPorcupine] returns, provided no put was answered
    [ErrNoKey], an answer that the model of the checker refuses. *)
Theorem test_porcupine {A : Type} (c : Config) (g : Tgid) (b : nat) (q : nat → nat)
    (sg : @ServerGrp IService) (phases : list (nat * (nat → prog A) * list nevent)) (now : Z)
    (s : @nsys W A) (CheckOperations : list Operation → Z → CheckResult)
    (clock : nat → Z) (enabled : string) (opens : bool) (nsec : Z) (w : Annotation.world) :
  kv_setup c g b q sg →
  let e := λ i, clerk_end c (ServerName g b) (q i) in
  Forall (calm_phase e (NStr (ServerName g b))) phases →
  nrun_phases enc dec e phases (nstart (sys_of (sg, cf_t c)) now) = Some s →
  checker_sound CheckOperations → (Z.of_nat (nsteps_of phases) < 2 ^ 64)%Z →
  (∀ o, o ∈ n_log s → in_Op (Input o) = 1%Z → out_Err (Output o) ≠ ErrNoKey) →
  linearizable (n_log s) ∧
  wp (checkPorcupine CheckOperations clock enabled opens (n_log s) nsec) (λ _ _, True) w.
Proof using LB KD CD Hgob Henc.
  intros Hset e Hcalm Hrun Hsound Hb Hclean. destruct (setup_wired c g b q sg Hset) as [p Hw].
  assert (linearizable (n_log s)) as Hlin.
  { by eapply (network_linearizable enc dec e (NStr (ServerName g b)) p Hgob Henc phases _ now s); [..|exact Hrun| |];
      try done; apply Hset. }
  split; [done|]. eapply wp_mono; [by apply checkPorcupine_not_refused, Hsound|]. done.
Qed.
End test.

(** ** The race of Networked.v on a configuration that [MakeConfig] made *)

Section demo.
#[local] Existing Instances demo_server demo_server_doc demo_clerk demo_clerk_doc.
Abbreviation kv_config := (@Config kv_val kv_ty demo_state unit).
#[local] Instance demo_values : GoValues kv_val kv_ty := kv_values demo_enc demo_dec.
Definition kv_mks (_ : list ClientEnd) (_ : Tgid) (_ _ : nat) (e : store * demo_state)
    : list (option unit) * (store * demo_state) := ([Some tt], e).
Definition kv_kill (_ : unit) (e : store * demo_state) : store * demo_state := e.
Definition kv_refl (_ : unit) : list (@Method kv_val kv_ty demo_state) := kv_methods.
Definition kv_tname (_ : unit) : string := "KVServer".

Lemma kv_labs : Labs kv_kill demo_crand kv_mks 100.
Proof.
  split; [apply ctr_labs| |done|done].
  intros es g i p e. repeat constructor. by eexists.
Qed.

Definition kv_call := do_config_call kv_tname kv_refl kv_kill demo_crand kv_mks.
Definition kv_after (c : kv_config) (call : config_call) : kv_config :=
  match kv_call call c with Ret (_, c') => c' | _ => c end.
(** A reliable or a lossy network, one server and three clerks. *)
Definition kv_c0 (rel : bool) : kv_config :=
  match MakeConfig kv_tname kv_refl demo_crand kv_mks 1 rel (store0, (∅, 0)) 0 with
  | Ret c => c
  | _ => config0 (store0, (∅, 0)) 0
  end.
Definition kv_calls : list config_call :=
  [w_client None; w_client None; w_client None; w_longReordering true;
   w_clerk 0 (k_makeEnd (ServerName 0 0)); w_clerk 1 (k_makeEnd (ServerName 0 0));
   w_clerk 2 (k_makeEnd (ServerName 0 0))].
Definition kv_c1 (rel : bool) : kv_config := foldl kv_after (kv_c0 rel) kv_calls.
Definition kv_group (rel : bool) : @ServerGrp unit := default (mkGrp [] [] 0 []) (group_at (kv_c1 rel) 0).
Definition kv_clerk (i : nat) : nat := i mod 3.
Abbreviation kv_reachable := (config_reachable kv_tname kv_refl kv_kill demo_crand kv_mks 100).

Lemma kv_after_reachable c call :
  kv_reachable c → config_call_ok c call → t_rng (cf_t c) + config_draws c call ≤ 100 →
  kv_reachable (kv_after c call).
Proof.
  intros Hr Hv Hl. pose proof (config_reachable_ok _ _ _ _ _ 100 (LB := kv_labs) c Hr) as Hok.
  pose proof (config_call_wp kv_tname kv_refl kv_kill demo_crand kv_mks 100
    (LB := kv_labs) call c Hok Hv Hl) as H. unfold wp in H. fold (kv_call call c) in H.
  unfold kv_after. destruct (kv_call call c) as [[[] c']|?|?|] eqn:Hc; try done.
  by eapply cr_call.
Qed.

(** A decidable form of the conditions of the calls above. *)
Definition kv_call_ok (c : kv_config) (call : config_call) : bool :=
  bool_decide (t_rng (cf_t c) + config_draws c call ≤ 100) &&
  match call with
  | w_client _ => bool_decide (is_Some (cf_clerks c))
  | w_clerk q _ => bool_decide (is_Some (clerk_at c q))
  | w_longReordering _ => true
  | _ => false
  end.

Fixpoint kv_calls_ok (calls : list config_call) (c : kv_config) : bool :=
  match calls with
  | [] => true
  | call :: calls => kv_call_ok c call && kv_calls_ok calls (kv_after c call)
  end.

Lemma kv_calls_reachable calls : ∀ c,
  kv_reachable c → kv_calls_ok calls c = true → kv_reachable (foldl kv_after c calls).
Proof.
  induction calls as [|call calls IH]; intros c Hr H; [done|]. cbn [foldl].
  apply andb_true_iff in H as [[Hl%bool_decide_eq_true Hok]%andb_true_iff H].
  apply IH; [|done]. apply kv_after_reachable; [done| |done].
  destruct call; try done; by apply bool_decide_eq_true in Hok.
Qed.

Lemma kv_c1_reachable rel : kv_reachable (kv_c1 rel).
Proof.
  apply kv_calls_reachable; [|by destruct rel; vm_compute].
  destruct (MakeConfig_ok kv_tname kv_refl kv_kill demo_crand kv_mks 100 (LB := kv_labs)
    1 rel (store0, (∅, 0)) 0 ltac:(lia)) as (c & Hc & _).
  unfold kv_c0. rewrite Hc. by eapply cr_make; [|exact Hc]; lia.
Qed.

Lemma kv_clerks_have_ends rel q : q < 3 →
  ∃ ck, clerk_at (kv_c1 rel) q = Some ck ∧ is_Some (c_ends ck !! ServerName 0 0) ∧
    reach (ck, cf_t (kv_c1 rel)) (ServerName 0 0) = true.
Proof.
  intros Hq. assert (∀ ck, clerk_at (kv_c1 rel) q = Some ck ∧
    bool_decide (is_Some (c_ends ck !! ServerName 0 0)) = true ∧
    reach (ck, cf_t (kv_c1 rel)) (ServerName 0 0) = true →
    ∃ ck, clerk_at (kv_c1 rel) q = Some ck ∧ is_Some (c_ends ck !! ServerName 0 0) ∧
    reach (ck, cf_t (kv_c1 rel)) (ServerName 0 0) = true) as H.
  { intros ck (? & H%bool_decide_eq_true & ?). eauto. }
  apply (H (default (mkClnt ∅ None) (clerk_at (kv_c1 rel) q))).
  destruct rel, q as [|[|[|q]]]; (lia || (split; [|split]); vm_compute; reflexivity).
Qed.

Lemma kv_c1_setup rel :
  kv_setup kv_tname kv_refl kv_kill demo_crand kv_mks 100 (kv_c1 rel) 0 0 kv_clerk (kv_group rel).
Proof.
  split.
  - apply kv_c1_reachable.
  - destruct rel; vm_compute; reflexivity.
  - exists (default (mkSrv None [] [] []) (srvs (kv_group rel) !! 0)), tt.
    split; [destruct rel; vm_compute; reflexivity|].
    assert (svcs (default (mkSrv None [] [] []) (srvs (kv_group rel) !! 0)) = [Some tt]) as ->
      by (destruct rel; vm_compute; reflexivity).
    split_and!; [by left|apply NoDup_singleton|reflexivity|reflexivity].
  - intros i. apply kv_clerks_have_ends, Nat.mod_upper_bound. lia.
  - destruct rel; vm_compute; reflexivity.
Qed.

Abbreviation kv_end rel := (λ i, clerk_end (kv_c1 rel) (ServerName 0 0) (kv_clerk i)).

Lemma test_porcupine_witness :
  linearizable net_log ∧
  wp (checkPorcupine brute_force sample_clock "" true net_log 1000) (λ _ _, True) sample_world.
Proof.
  assert (n_log <$> nrun_phases demo_enc demo_dec (kv_end false) net_race
    (nstart (sys_of (kv_group false, cf_t (kv_c1 false))) 7) = Some net_log) as Hlog by by vm_compute.
  destruct (nrun_phases demo_enc demo_dec (kv_end false) net_race
    (nstart (sys_of (kv_group false, cf_t (kv_c1 false))) 7)) as [s|] eqn:Hrun; [|discriminate Hlog].
  injection Hlog as Hlog. rewrite <-Hlog.
  refine (test_porcupine demo_enc demo_dec kv_tname kv_refl kv_kill demo_crand kv_mks 100
    (LB := kv_labs) demo_gob demo_enc_ok (kv_c1 false) 0 0 kv_clerk (kv_group false) net_race 7 s
    brute_force sample_clock "" true 1000 sample_world (kv_c1_setup false) _ Hrun brute_force_sound _ _).
  - repeat constructor.
  - vm_compute. reflexivity.
  - rewrite Hlog. assert (Forall (λ o, out_Err (Output o) ≠ ErrNoKey) net_log) as H
      by (repeat constructor; discriminate).
    intros o Ho _. rewrite Forall_forall in H. by apply H.
Defined.
(** The two clients of NetRaces.v put, and the tester checks. *)
#[local] Existing Instances entryv_json entryv_json_laws.
#[local] Abbreviation kv_puts_run :=
  (nSpawnClientsAndWait demo_enc demo_dec (kv_end true) 2 (put_clients "k" 9 9)
     (sys_of (kv_group true, cf_t (kv_c1 true))) 0 net_puts_tr).

Lemma put_concurrent_passes_witness :
  ∃ rs s1 (s2 : @nsys demo_state ClntRes), kv_puts_run = Some (rs, s1) ∧ nreturned s2 = Some [mkRes 2 0] ∧
    length (n_log s2) = 7 ∧ linearizable (n_log s2).
Proof.
  assert (('(rs, s1) ← kv_puts_run;
    s2 ← nrun demo_enc demo_dec (kv_end true) net_check_tr (nnext_phase 1 (put_check true "k" rs) s1);
    r ← nreturned s2; Some (rs, length r, length (n_log s2))) =
    Some ([mkRes 1 0; mkRes 1 0], 1, 7)) as Hrs by (vm_compute; reflexivity).
  destruct kv_puts_run as [[rs s1]|] eqn:Hrun1; [|discriminate Hrs].
  cbn [mbind option_bind] in Hrs. destruct (nrun _ _ _ _ _) as [s2|] eqn:Hrun2; [|discriminate Hrs].
  cbn [mbind option_bind] in Hrs. destruct (nreturned s2) as [[|r [|? ?]]|] eqn:Hr; try discriminate Hrs.
  injection Hrs as -> Hlen.
  destruct (put_concurrent_passes demo_enc demo_dec kv_tname kv_refl kv_kill demo_crand kv_mks 100
    (LB := kv_labs) demo_gob demo_enc_ok (kv_c1 true) 0 0 kv_clerk (kv_group true) true "k" 2 9 9 0
    net_puts_tr net_check_tr [mkRes 1 0; mkRes 1 0] s1 s2 brute_force sample_clock "" true 1000 sample_world)
    as [_ H].
  - apply kv_c1_setup.
  - apply brute_force_sound.
  - repeat constructor.
  - intros _. split; [vm_compute; reflexivity|]. repeat (constructor; [discriminate|]). constructor.
  - vm_compute. reflexivity.
  - exact Hrun1.
  - left. vm_compute. reflexivity.
  - vm_compute. reflexivity.
  - exact Hrun2.
  - destruct (H r Hr) as (Hres & Hlin & _). rewrite Hres in Hr.
    exists [mkRes 1 0; mkRes 1 0], s1, s2. split; [reflexivity|]. by split_and!.
Defined.
End demo.
